(* ===== verification/_CoqProject ===== *)
-Q . S2P
Prelude.v
GoStrings.v
GoPath.v
GoRegexp.v
PathTranslator.v
ArgsScanner.v
Compare.v
Labels.v
Forecast.v
LocalResources.v
Lifecycle.v
GoFloat.v
FailEarly.v
GoFS.v
GoGlob.v
Command.v
GoNet.v
GoEffects.v
DepsScanner.v
DepsFile.v
Stash.v
Action.v
ServerRun.v
Rerun.v
Race.v
Stats.v
InputProcessor.v
RbeFlags.v
PathNormalizer.v
ArReader.v
FlagParsers.v
ClangParser.v
ClangTables.v
DepsCache.v
CppCompile.v
Typescript.v
Dispatch.v
Logger.v
LogFile.v
Usage.v
BqItem.v
BigQuery.v
TarFS.v
Auth.v
CollectLogs.v
DownloadMismatch.v
Interceptors.v
Mtimes.v
IgnoreMismatch.v
Trace.v
CloudTrace.v
Monitoring.v
ReproxyStatus.v
StatsOut.v
Bootstrap.v
ReproxyMain.v
Request.v
Rewrapper.v
Machines.v
Experiment.v
Results.v
Subprocess.v
Tools.v
