(* ===== verification/Prelude.v ===== *)
(** * reclient: a verification library

    reclient runs the commands of a build on remote workers and caches their
    results.  This development models the Go code under [src/] and proves what
    makes its parts correct.  The names of definitions are those of the source
    where Rocq allows it; the file that models a package says so at its top.

    ** The program and its parts

    The build calls [rewrapper] (cmd/rewrapper) once for each command.  It turns
    its flags into a request and sends it to [reproxy] (cmd/reproxy), a server on
    the same machine, which computes the inputs of the command, looks for a cached
    result, runs the command remotely, locally or both, and logs what happened.
    [bootstrap] (cmd/bootstrap) starts and stops the server and sums up the log.

    A request goes through these files:

    - [Rewrapper.v] (internal/pkg/rewrapper, cmd/rewrapper) makes the request;
    - [ReproxyMain.v] (cmd/reproxy/main.go) and [Lifecycle.v] (server.go) hold the
      server: the startup that requests wait for, signals, the drain, the exit;
    - [Request.v] ([RunCommand] of server.go) follows one handler from the startup
      barrier to its response, with [Interceptors.v] around every call;
    - [Dispatch.v] (pkg/inputprocessor) chooses a preprocessor, and
      [InputProcessor.v] (internal/pkg/inputprocessor and its packages flags,
      flagsparser, toolchain) drives it.  The preprocessors are in [ClangParser.v],
      [CppCompile.v], [FlagParsers.v], [ArReader.v] and [Typescript.v] (action/...);
      they read command lines with [ArgsScanner.v] (args, rsp), with tables that
      [ClangTables.v] (gen_clang_flags) makes, use the service of [DepsScanner.v]
      (cppdependencyscanner), remember headers in [DepsCache.v] (depscache), and
      translate paths with [PathTranslator.v] and [PathNormalizer.v];
    - [ServerRun.v] (server.go) runs the action by its strategy, on the operations
      of [Action.v] (action.go): local runs in the pool of [LocalResources.v]
      (localresources, localexec.go), the remote cache with the dependency files of
      [DepsFile.v] (deps), and the race of [Race.v], whose hold-off is that of
      [Forecast.v].  [FailEarly.v] can cancel it.  [Rerun.v] runs it again in
      compare mode, with the files of [Stash.v] put back between runs, and
      [Compare.v] compares what came out; [Mtimes.v] keeps the times of outputs;
    - [Logger.v] and [LogFile.v] (logger) log it, [IgnoreMismatch.v] filters it,
      [BqItem.v] and [BigQuery.v] upload it.

    Around it: [Bootstrap.v] (bootstrap, reproxypid), [ReproxyStatus.v]
    (reproxystatus, ipc), [Auth.v], [Labels.v], [Subprocess.v], [RbeFlags.v] (the
    flags of every program), [Stats.v], [StatsOut.v], [Monitoring.v], [Usage.v],
    [Trace.v], [CloudTrace.v], [CollectLogs.v], [DownloadMismatch.v], [TarFS.v],
    [Tools.v] (what is made of the log), and [Machines.v], [Experiment.v],
    [Results.v] (experiments).

    ** How the code is modelled

    - This file: Go's errors and panics as the monad [res], updates before an error
      as [ST], machine integers as [Z] with their wrap-around, lists.  A nil
      dereference, an index out of range, a send on a closed channel, a failed type
      assertion are [Panic], which the theorems on whole operations exclude.
    - The standard library, as far as the code uses it: [GoStrings.v] (strings,
      strconv, sort), [GoPath.v] (path/filepath), [GoGlob.v] (Match, Glob),
      [GoRegexp.v] (leftmost-first matching), [GoFloat.v] (IEEE 754 numbers),
      [GoFS.v] (os, on a map of absolute clean paths), [GoNet.v] (addresses).
    - [GoEffects.v]: programs over the calls they make to their environment, with
      their traces.  Clients, process starts and experiments are such programs; the
      theorems hold for every answer.
    - [Command.v]: the interfaces to the SDK, as type classes with the laws that it
      documents, and examples that satisfy them.
    - Goroutines are transition systems whose labels are atomic steps (a body under
      a lock, one operation of a channel, of a semaphore, of a wait group); theorems
      are on all schedules.  [Lifecycle.v], [LocalResources.v], [Race.v],
      [Bootstrap.v], [BigQuery.v], [ReproxyMain.v], [DepsScanner.v], [Tools.v].
    - The order of a map is an argument: a permutation, or any list with the same
      elements.

    ** What the theorems show

    - Running an action: a strategy stays within its executions and always gives a
      result ([runAction_budget]), cached results are used only when verified and
      only good ones are stored ([runLERC_policy]), a remote run reports what it did
      ([runRemote_reports]), a local result wins a race and remote outputs are moved
      only otherwise ([race_outcome], [race_progress]), reruns start alike and are
      reported once ([local_reruns_start_alike], [rerunAction_reports]), the
      comparison is that of sets of digests ([compareAction_refines_spec]), stashed
      files come back ([stash_restore]), unchanged outputs keep their times
      ([unchanged_outputs_keep_times]).
    - Resources: tasks never hold more than there is and are never stuck
      ([Lock_safe], [Lock_no_deadlock]), counters of the last window are exact
      ([windowedCount_refines]).
    - The life of the server: no schedule panics, cleanup runs once, the process
      exits, every call that began is answered ([lifecycle_safe],
      [cleanup_exactly_once], [main_exits], [clean_exit], [RunCommand_accounting]);
      starts and stops end and report the truth ([startProxy_spec],
      [shutdown_reports]).
    - Inputs: what the steps of a preprocessor give ([Compute_base]), how failures
      show ([shallow_only_when_asked], [scan_timeout]), the same headers from the
      cache ([FindDependencies_twice], [GetDeps_spec], [disk_roundtrip],
      [database_well_formed]), the closure of imports ([ProcessInputs_reachable]),
      command lines as the declarations of the options say ([generated_scan]), one
      name for a file ([normalize_all_kept]), never two scanners
      ([restarts_safe]), dependency files ([VerifyDepsFile_spec]).
    - The client: valid requests, success only on success ([main_requests],
      [main_success]); flags by the order of their sources ([Parse_precedence]).
    - The log: what is written is read ([ParseFromFile_written]), statistics are
      functions of the records whatever the order ([reported_stats]), uploads
      account for every record ([LogRecordsToBigQuery_accounting]), responses fit
      ([truncateResponse_spec]).
    - Experiments delete the machines that they made ([Run_machines]).

    Theorems without a witness of their own have no hypothesis.  Where the code does
    not do what it says, an [Example] of the module [Concrete] of the file shows it
    on concrete data.

    ** Fuel

    Most functions are structural.  Those with fuel get enough: the scanner as many
    steps as there are arguments, of which every step takes one ([scan_loop_fuel]);
    the archive reader [archive_fuel], which is enough unless a member has a negative
    size ([ReadFileNames_terminates]); the closure of imports more rounds than there
    are files ([ProcessInputs_ends]); directories as many steps as their paths have
    bytes (GoFS.v); numbers 19 digits ([ParseInt_Itoa]).  Programs over calls end by
    construction.

    ** What is not modelled

    - Libraries: remote execution and its retries, gRPC, protocol buffers and JSON
      as texts, hashing, walking directories, token and cloud clients, semaphores
      and single flights inside; they are parameters with the laws that the code
      relies on.  Messages are short constants that stand for the text of an error.
    - Operating systems other than Unix, except for the case-insensitive file
      system; profiling, pages over HTTP, colors, dumps for debugging; the list is
      in the components of the manifest.
    - Characters are bytes: where the code lowers or counts runes, the model is
      exact for ASCII.  The limit of 64 KiB on a line of [bufio.Scanner] is left out.
    - Sorting with equal keys keeps their order, where Go's may not.
    - Storing dependencies, which a goroutine does after the answer, is immediate;
      a remote rerun, and what an experiment does to one machine, is one step. *)

From stdpp Require Export base tactics list strings gmap sorting pretty.
From Stdlib Require Export ZArith Lia.

(** ** Errors, results and panics *)

(** The Go [error] values that the code inspects, and plain messages for the
    others.  [EWrap m e] is [fmt.Errorf("m %w", e)]: [errors.Is] looks through
    it. *)
Inductive error :=
  | EMsg (msg : string)
  | ENotExist
  | ECanceled
  | EDeadlineExceeded
  | EIPTimeout
  | EReclientTimeout
  | EEOF
  | EUnexpectedEOF
  | ESyntax
  | ERange
  | EFuel
  | EWrap (msg : string) (inner : error).

#[export] Instance error_eq_dec : EqDecision error.
Proof. solve_decision. Defined.

(** [errors.Is(e, target)] for a target that wraps nothing. *)
Fixpoint errors_Is (e target : error) : bool :=
  bool_decide (e = target) ||
  match e with EWrap _ e' => errors_Is e' target | _ => false end.

(** The outcome of a Go function that returns [(A, error)] and may panic. *)
Inductive res (A : Type) :=
  | Ok (a : A)
  | Fail (e : error)
  | Panic.
Arguments Ok {A} a.
Arguments Fail {A} e.
Arguments Panic {A}.

#[export] Instance res_eq_dec `{EqDecision A} : EqDecision (res A).
Proof. solve_decision. Defined.

#[export] Instance res_ret : MRet res := λ _ a, Ok a.
#[export] Instance res_bind : MBind res := λ _ _ f m,
  match m with Ok a => f a | Fail e => Fail e | Panic => Panic end.
#[export] Instance res_fmap : FMap res := λ _ _ f m,
  match m with Ok a => Ok (f a) | Fail e => Fail e | Panic => Panic end.

(** A slice access or slice expression that Go bounds-checks at run time. *)
Definition or_panic {A} (o : option A) : res A :=
  match o with Some a => Ok a | None => Panic end.

Definition or_fail {A} (e : error) (o : option A) : res A :=
  match o with Some a => Ok a | None => Fail e end.

Definition is_ok {A} (m : res A) : bool :=
  match m with Ok _ => true | _ => false end.

Definition no_panic {A} (m : res A) : Prop := m ≠ Panic.

Lemma bind_Ok_inv {A B} (m : res A) (f : A → res B) b :
  m ≫= f = Ok b → ∃ a, m = Ok a ∧ f a = Ok b.
Proof. destruct m; simpl; intros H; eauto; discriminate H. Qed.

Lemma bind_Ok {A B} (a : A) (f : A → res B) : Ok a ≫= f = f a.
Proof. reflexivity. Qed.

Lemma bind_no_panic {A B} (m : res A) (f : A → res B) :
  no_panic m → (∀ a, m = Ok a → no_panic (f a)) → no_panic (m ≫= f).
Proof. unfold no_panic. destruct m; simpl; eauto; done. Qed.

Lemma or_panic_Ok {A} (o : option A) a : or_panic o = Ok a ↔ o = Some a.
Proof. destruct o; simpl; naive_solver. Qed.

Lemma or_fail_no_panic {A} e (o : option A) : no_panic (or_fail e o).
Proof. by destruct o. Qed.

(** Invert every successful bind of the context. *)
Ltac inv_bind :=
  repeat match goal with
  | H : _ ≫= _ = Ok _ |- _ =>
      let a := fresh "r" in let Ha := fresh "Hr" in
      apply bind_Ok_inv in H as (a & Ha & H)
  | H : Ok _ = Ok _ |- _ => injection H as H
  | H : Fail _ = Ok _ |- _ => discriminate H
  | H : Panic = Ok _ |- _ => discriminate H
  end.

(** Case analysis on the first conditional of the goal or of a hypothesis. *)
Ltac case_if :=
  match goal with
  | |- context [if ?b then _ else _] =>
      let E := fresh "Eif" in destruct b eqn:E
  | H : context [if ?b then _ else _] |- _ =>
      let E := fresh "Eif" in destruct b eqn:E
  end.

Ltac case_match_goal :=
  match goal with
  | |- context [match ?x with _ => _ end] =>
      let E := fresh "Em" in destruct x eqn:E
  end.

(** ** Databases *)

Create HintDb go_res.
#[export] Hint Resolve bind_no_panic or_fail_no_panic : go_res.
#[export] Hint Rewrite @bind_Ok : go_res.

Create HintDb go_str.
Create HintDb go_path.

(** ** Notations *)

Declare Scope go_scope.
Delimit Scope go_scope with go.
#[global] Open Scope go_scope.
(** [let? x := m in k]: sequence a call that may fail or panic. *)
Notation "'let?' x := m 'in' k" := (m ≫= λ x, k)
  (at level 100, x pattern, m at level 100, k at level 200, right associativity)
  : go_scope.

(** ** State and errors

    A Go function that updates shared structures and returns an error leaves
    the updates made before the error: the state comes back in every case. *)
Definition ST (S A : Type) : Type := S → res A * S.

Definition st_ret {S A} (a : A) : ST S A := λ s, (Ok a, s).
Definition st_bind {S A B} (m : ST S A) (k : A → ST S B) : ST S B := λ s,
  match m s with
  | (Ok a, s') => k a s'
  | (Fail e, s') => (Fail e, s')
  | (Panic, s') => (Panic, s')
  end.
Definition st_lift {S A} (m : res A) : ST S A := λ s, (m, s).
Definition st_modify {S} (f : S → S) : ST S unit := λ s, (Ok tt, f s).
Definition st_get {S} : ST S S := λ s, (Ok s, s).

Notation "'let!' x := m 'in' k" := (st_bind m (λ x, k))
  (at level 100, x pattern, m at level 100, k at level 200, right associativity)
  : go_scope.

Lemma st_bind_Ok {S A B} (m : ST S A) (k : A → ST S B) s b s2 :
  st_bind m k s = (Ok b, s2) ↔ ∃ a s1, m s = (Ok a, s1) ∧ k a s1 = (Ok b, s2).
Proof. unfold st_bind. destruct (m s) as [[a| |] s1]; naive_solver. Qed.

Lemma st_bind_assoc {S A B C} (m : ST S A) (k : A → ST S B) (h : B → ST S C) s :
  st_bind (st_bind m k) h s = st_bind m (λ a, st_bind (k a) h) s.
Proof. unfold st_bind. by destruct (m s) as [[?| |] ?]. Qed.

(** ** Lists *)

(** [l[i]] of a Go slice: an out-of-range index panics. *)
Definition index {A} (l : list A) (i : nat) : res A := or_panic (l !! i).

(** A boolean membership test on strings, the read of a [map[string]bool]. *)
Definition mem (x : string) (l : list string) : bool := bool_decide (x ∈ l).

Lemma mem_spec x l : mem x l = true ↔ x ∈ l.
Proof. unfold mem. apply bool_decide_eq_true. Qed.

Lemma mem_false x l : mem x l = false ↔ x ∉ l.
Proof. unfold mem. apply bool_decide_eq_false. Qed.

(** The longest common prefix of two lists, with the two remainders. *)
Fixpoint strip_common `{EqDecision A} (l1 l2 : list A) : list A * list A :=
  match l1, l2 with
  | x :: l1', y :: l2' =>
      if decide (x = y) then strip_common l1' l2' else (l1, l2)
  | _, _ => (l1, l2)
  end.

Lemma strip_common_spec `{EqDecision A} (l1 l2 : list A) :
  ∃ p, l1 = p ++ (strip_common l1 l2).1 ∧ l2 = p ++ (strip_common l1 l2).2.
Proof.
  revert l2. induction l1 as [|x l1 IH]; intros [|y l2]; simpl; try (by exists []).
  destruct (decide (x = y)) as [->|]; [|by exists []].
  destruct (IH l2) as (p & H1 & H2). exists (y :: p). simpl. split; congruence.
Qed.

Lemma strip_common_app `{EqDecision A} (p l1 l2 : list A) :
  strip_common (p ++ l1) (p ++ l2) = strip_common l1 l2.
Proof. induction p; simpl; [done|]. by rewrite decide_True. Qed.

Lemma foldl_invariant {A B} (P : A → Prop) (f : A → B → A) l a :
  P a → (∀ a b, b ∈ l → P a → P (f a b)) → P (foldl f a l).
Proof.
  revert a. induction l as [|b l IH]; intros a Ha Hf; simpl; [done|].
  apply IH; [apply Hf; [left|done]|]. intros. apply Hf; [by right|done].
Qed.

Lemma concat_snoc {A} (ls : list (list A)) l : concat (ls ++ [l]) = concat ls ++ l.
Proof. rewrite concat_app. simpl. by rewrite app_nil_r. Qed.

(** ** Machine integers *)

(** Conversion to a signed [w]-bit integer. *)
Definition wrap (w z : Z) : Z := ((z + 2 ^ (w - 1)) mod 2 ^ w - 2 ^ (w - 1))%Z.
Definition int32 (z : Z) : Z := wrap 32 z.
Definition int64 (z : Z) : Z := wrap 64 z.

Lemma wrap_small w z :
  (0 < w)%Z → (- 2 ^ (w - 1) ≤ z < 2 ^ (w - 1))%Z → wrap w z = z.
Proof.
  intros Hw Hz. unfold wrap.
  assert (2 ^ w = 2 * 2 ^ (w - 1))%Z as E.
  { rewrite <- Z.pow_succ_r by lia. f_equal. lia. }
  rewrite Z.mod_small by lia. lia.
Qed.

Lemma wrap_range w z : (0 < w)%Z → (- 2 ^ (w - 1) ≤ wrap w z < 2 ^ (w - 1))%Z.
Proof.
  intros Hw. unfold wrap.
  assert (2 ^ w = 2 * 2 ^ (w - 1))%Z as E.
  { rewrite <- Z.pow_succ_r by lia. f_equal. lia. }
  pose proof (Z.pow_pos_nonneg 2 (w - 1)).
  pose proof (Z.mod_pos_bound (z + 2 ^ (w - 1)) (2 ^ w)). lia.
Qed.

Lemma int32_small z : (- 2 ^ 31 ≤ z < 2 ^ 31)%Z → int32 z = z.
Proof. intros H. apply wrap_small; [lia|exact H]. Qed.

Lemma int64_add a b : int64 (int64 a + b) = int64 (a + b).
Proof.
  unfold int64, wrap. f_equal.
  replace ((a + 2 ^ (64 - 1)) mod 2 ^ 64 - 2 ^ (64 - 1) + b + 2 ^ (64 - 1))%Z
    with ((a + 2 ^ (64 - 1)) mod 2 ^ 64 + b)%Z by lia.
  rewrite Zplus_mod_idemp_l. f_equal. lia.
Qed.
