(* ===== verification/GoStrings.v ===== *)
(** * The functions of Go's [strings], [strconv] and [sort] packages that the
    code uses, on byte strings, with the lemmas the components share.

    A Go string is a sequence of bytes, here a Rocq [string].  White space is
    the ASCII white space of [unicode.IsSpace]. *)
From S2P Require Import Prelude.
From Stdlib Require Import Ascii.

#[global] Arguments Ascii.eqb : simpl nomatch.

(** ** Slicing *)

Fixpoint str_drop (n : nat) (s : string) : string :=
  match n, s with
  | O, _ => s
  | S n', String _ s' => str_drop n' s'
  | S _, EmptyString => EmptyString
  end.

Fixpoint str_take (n : nat) (s : string) : string :=
  match n, s with
  | S n', String c s' => String c (str_take n' s')
  | _, _ => EmptyString
  end.

Fixpoint HasPrefix (s p : string) {struct p} : bool :=
  match p, s with
  | EmptyString, _ => true
  | String a p', String b s' => Ascii.eqb a b && HasPrefix s' p'
  | String _ _, EmptyString => false
  end.

Definition TrimPrefix (s p : string) : string :=
  if HasPrefix s p then str_drop (String.length p) s else s.

Definition HasSuffix (s q : string) : bool :=
  (String.length q <=? String.length s)%nat &&
  String.eqb (str_drop (String.length s - String.length q) s) q.

Definition TrimSuffix (s q : string) : string :=
  if HasSuffix s q then str_take (String.length s - String.length q) s else s.

(** ** Splitting and joining *)

Fixpoint contains_char (c : ascii) (s : string) : bool :=
  match s with
  | EmptyString => false
  | String a s' => Ascii.eqb a c || contains_char c s'
  end.

(** [strings.Split(s, sep)] for a one-byte separator. *)
Fixpoint Split (s : string) (c : ascii) : list string :=
  match s with
  | EmptyString => [""]
  | String a s' =>
      if Ascii.eqb a c then "" :: Split s' c
      else match Split s' c with
           | [] => [String a ""]
           | w :: ws => String a w :: ws
           end
  end.

(** [strings.SplitN(s, sep, 2)] for a one-byte separator: the text before the
    first separator and, when there is one, the text after it. *)
Fixpoint SplitN2 (s : string) (c : ascii) : string * option string :=
  match s with
  | EmptyString => ("", None)
  | String a s' =>
      if Ascii.eqb a c then ("", Some s')
      else let '(w, r) := SplitN2 s' c in (String a w, r)
  end.

Fixpoint Join (l : list string) (sep : string) : string :=
  match l with
  | [] => ""
  | [w] => w
  | w :: ws => w +:+ sep +:+ Join ws sep
  end.

(** ** Trimming *)

Definition is_space (a : ascii) : bool :=
  let n := nat_of_ascii a in
  (n =? 32)%nat || ((9 <=? n)%nat && (n <=? 13)%nat).

Fixpoint TrimLeftFunc (f : ascii → bool) (s : string) : string :=
  match s with
  | EmptyString => ""
  | String a s' => if f a then TrimLeftFunc f s' else s
  end.

Fixpoint TrimRightFunc (f : ascii → bool) (s : string) : string :=
  match s with
  | EmptyString => ""
  | String a s' =>
      match TrimRightFunc f s' with
      | EmptyString => if f a then "" else String a ""
      | t => String a t
      end
  end.

Definition TrimFunc (f : ascii → bool) (s : string) : string :=
  TrimRightFunc f (TrimLeftFunc f s).

Definition TrimSpace (s : string) : string := TrimFunc is_space s.

(** A cutset is a set of bytes: [TrimLeft] and [Trim] remove any of them, in
    any order and number. *)
Definition TrimLeft (s cutset : string) : string :=
  TrimLeftFunc (λ a, contains_char a cutset) s.

Definition Trim (s cutset : string) : string :=
  TrimFunc (λ a, contains_char a cutset) s.

(** [strings.Fields]: the maximal runs of bytes that are not white space. *)
Fixpoint fields_from (cur : string) (s : string) : list string :=
  match s with
  | EmptyString => if String.eqb cur "" then [] else [cur]
  | String a s' =>
      if is_space a
      then if String.eqb cur "" then fields_from "" s' else cur :: fields_from "" s'
      else fields_from (cur +:+ String a "") s'
  end.

Definition Fields (s : string) : list string := fields_from "" s.

(** [strings.Contains(s, sub)]. *)
Fixpoint Contains (s sub : string) : bool :=
  HasPrefix s sub ||
  match s with EmptyString => false | String _ s' => Contains s' sub end.

(** [strings.Replace(s, old, new, 1)] for a non-empty [old]. *)
Fixpoint Replace1 (s old new : string) : string :=
  if HasPrefix s old then new +:+ str_drop (String.length old) s
  else match s with EmptyString => "" | String a s' => String a (Replace1 s' old new) end.

Definition replace_char (c d : ascii) : string → string :=
  fix go s := match s with
  | EmptyString => ""
  | String a s' => String (if Ascii.eqb a c then d else a) (go s')
  end.

(** [strings.ToLower], [strings.ToUpper] on ASCII letters. *)
Definition lower_char (a : ascii) : ascii :=
  let n := nat_of_ascii a in
  if (65 <=? n)%nat && (n <=? 90)%nat then ascii_of_nat (n + 32) else a.
Definition upper_char (a : ascii) : ascii :=
  let n := nat_of_ascii a in
  if (97 <=? n)%nat && (n <=? 122)%nat then ascii_of_nat (n - 32) else a.

Fixpoint str_map (f : ascii → ascii) (s : string) : string :=
  match s with EmptyString => "" | String a s' => String (f a) (str_map f s') end.

Definition ToLower : string → string := str_map lower_char.
Definition ToUpper : string → string := str_map upper_char.

(** ** Numbers *)

Definition digit_value (a : ascii) : option Z :=
  let n := nat_of_ascii a in
  if (48 <=? n)%nat && (n <=? 57)%nat then Some (Z.of_nat n - 48)%Z else None.

(** The digits of [s] read in [base] after [acc], a value above [maxVal] being
    reported as soon as it is reached. *)
Fixpoint parse_digits (base maxVal acc : Z) (s : string) : res Z :=
  match s with
  | EmptyString => Ok acc
  | String a s' =>
      match digit_value a with
      | Some d =>
          if (base <=? d)%Z then Fail ESyntax
          else if (maxVal <? acc * base + d)%Z then Fail ERange
          else parse_digits base maxVal (acc * base + d)%Z s'
      | None => Fail ESyntax
      end
  end.

(** [strconv.ParseInt(s, base, bits)] for a base of at most ten: an optional
    sign, at least one digit, and a value of [bits] bits. *)
Definition ParseInt (s : string) (base bits : Z) : res Z :=
  let '(neg, ds) :=
    match s with
    | String "-" s' => (true, s')
    | String "+" s' => (false, s')
    | _ => (false, s)
    end in
  if String.eqb ds "" then Fail ESyntax else
  match parse_digits base (2 ^ bits - 1) 0 ds with
  | Ok v =>
      if neg then if (v <=? 2 ^ (bits - 1))%Z then Ok (- v)%Z else Fail ERange
      else if (v <? 2 ^ (bits - 1))%Z then Ok v else Fail ERange
  | Fail e => Fail e
  | Panic => Panic
  end.

(** The decimal digits of [n]: [fuel + 1] digits at most. *)
Definition digit_char (d : Z) : ascii := ascii_of_nat (Z.to_nat d + 48).

Fixpoint dec_digits (fuel : nat) (n : Z) : string :=
  match fuel with
  | O => String (digit_char (n mod 10)) ""
  | S fuel =>
      if (n <? 10)%Z then String (digit_char n) ""
      else dec_digits fuel (n / 10) +:+ String (digit_char (n mod 10)) ""
  end.

(** [strconv.Itoa] of a non-negative [int64]. *)
Definition Itoa (n : Z) : string := dec_digits 19 n.

(** Strings of one class of characters. *)
Fixpoint str_forallb (f : ascii → bool) (s : string) : bool :=
  match s with EmptyString => true | String a s' => f a && str_forallb f s' end.

Definition is_digit (a : ascii) : bool := bool_decide (is_Some (digit_value a)).

(** [strconv.ParseBool]. *)
Definition ParseBool (s : string) : res bool :=
  if mem s ["1"; "t"; "T"; "TRUE"; "true"; "True"] then Ok true
  else if mem s ["0"; "f"; "F"; "FALSE"; "false"; "False"] then Ok false
  else Fail ESyntax.

(** ** Sorting *)

(** [sort.Strings]: byte-wise lexicographic order. *)
Definition sort_Strings (l : list string) : list string := merge_sort String.le l.

(** ** Lemmas *)

Lemma str_app_nil_r s : s +:+ "" = s.
Proof. induction s as [|a s IH]; [done|]. unfold String.app in *. simpl. by rewrite IH. Qed.

Lemma str_app_cons a s t : String a s +:+ t = String a (s +:+ t).
Proof. reflexivity. Qed.

Lemma str_app_assoc s t u : (s +:+ t) +:+ u = s +:+ t +:+ u.
Proof. induction s as [|a s IH]; [done|]. by rewrite !str_app_cons, IH. Qed.

Lemma str_app_length s t :
  String.length (s +:+ t) = (String.length s + String.length t)%nat.
Proof. induction s as [|a s IH]; [done|]. rewrite str_app_cons. simpl. by rewrite IH. Qed.

Lemma str_app_inj s t u : s +:+ t = s +:+ u → t = u.
Proof. induction s as [|a s IH]; [done|]. rewrite !str_app_cons. intros [= H]. auto. Qed.

Lemma str_drop_app s t : str_drop (String.length s) (s +:+ t) = t.
Proof. induction s as [|a s IH]; [done|]. rewrite str_app_cons. apply IH. Qed.

Lemma str_take_app s t : str_take (String.length s) (s +:+ t) = s.
Proof.
  induction s as [|a s IH]; [by destruct t|]. rewrite str_app_cons. simpl. by rewrite IH.
Qed.

Lemma str_take_drop n s : str_take n s +:+ str_drop n s = s.
Proof.
  revert s. induction n as [|n IH]; intros s; [by destruct s|].
  destruct s as [|a s]; [done|]. simpl. by rewrite str_app_cons, IH.
Qed.

Lemma str_drop_length n s : String.length (str_drop n s) = (String.length s - n)%nat.
Proof. revert s. induction n as [|n IH]; intros [|a s]; simpl; auto. Qed.

Lemma str_take_length n s : String.length (str_take n s) = min n (String.length s).
Proof. revert s. induction n as [|n IH]; intros [|a s]; simpl; auto. Qed.

Lemma HasPrefix_app p t : HasPrefix (p +:+ t) p = true.
Proof.
  induction p as [|a p IH]; [by destruct t|].
  rewrite str_app_cons. simpl. by rewrite Ascii.eqb_refl.
Qed.

Lemma HasPrefix_spec s p : HasPrefix s p = true ↔ ∃ t, s = p +:+ t.
Proof.
  split; [|intros [t ->]; apply HasPrefix_app].
  revert s. induction p as [|a p IH]; intros s; [by exists s|].
  destruct s as [|b s]; [done|]. simpl. rewrite andb_true_iff.
  intros [->%Ascii.eqb_eq [t ->]%IH]. by exists t.
Qed.

Lemma TrimPrefix_app p t : TrimPrefix (p +:+ t) p = t.
Proof. unfold TrimPrefix. by rewrite HasPrefix_app, str_drop_app. Qed.

Lemma HasPrefix_TrimPrefix s p : HasPrefix s p = true → s = p +:+ TrimPrefix s p.
Proof. intros [t ->]%HasPrefix_spec. by rewrite TrimPrefix_app. Qed.

Lemma HasSuffix_app s q : HasSuffix (s +:+ q) q = true.
Proof.
  unfold HasSuffix. rewrite str_app_length, andb_true_iff, Nat.leb_le. split; [lia|].
  replace (_ - _)%nat with (String.length s) by lia.
  rewrite str_drop_app. apply String.eqb_refl.
Qed.

Lemma HasSuffix_spec s q : HasSuffix s q = true ↔ ∃ t, s = t +:+ q.
Proof.
  split; [|intros [t ->]; apply HasSuffix_app].
  unfold HasSuffix. rewrite andb_true_iff, Nat.leb_le. intros [_ H%String.eqb_eq].
  exists (str_take (String.length s - String.length q) s). rewrite <- H at 2.
  by rewrite str_take_drop.
Qed.

Lemma TrimSuffix_app s q : TrimSuffix (s +:+ q) q = s.
Proof.
  unfold TrimSuffix. rewrite HasSuffix_app, str_app_length.
  replace (_ - _)%nat with (String.length s) by lia. apply str_take_app.
Qed.

Lemma contains_char_app c s t :
  contains_char c (s +:+ t) = contains_char c s || contains_char c t.
Proof.
  induction s as [|a s IH]; [done|]. rewrite str_app_cons. simpl. rewrite IH.
  apply orb_assoc.
Qed.

Lemma Split_nonempty s c : Split s c ≠ [].
Proof. destruct s as [|a s]; simpl; [done|]. case_if; [done|]. by destruct (Split s c). Qed.

Lemma Split_app s t c : Split (s +:+ String c t) c = Split s c ++ Split t c.
Proof.
  induction s as [|a s IH].
  - change ("" +:+ String c t) with (String c t). simpl. by rewrite Ascii.eqb_refl.
  - rewrite str_app_cons. simpl. destruct (Ascii.eqb a c); [by rewrite IH|].
    rewrite IH. pose proof (Split_nonempty s c). by destruct (Split s c).
Qed.

Lemma Split_none s c : contains_char c s = false → Split s c = [s].
Proof.
  induction s as [|a s IH]; [done|]. simpl. rewrite orb_false_iff. intros [-> H].
  by rewrite IH.
Qed.

Lemma Split_Forall s c : Forall (λ w, contains_char c w = false) (Split s c).
Proof.
  induction s as [|a s IH]; simpl; [by repeat constructor|].
  destruct (Ascii.eqb a c) eqn:E; [by constructor|].
  destruct (Split s c); inversion IH; subst; repeat constructor; simpl; auto; by rewrite E.
Qed.

Lemma Join_cons w ws sep : ws ≠ [] → Join (w :: ws) sep = w +:+ sep +:+ Join ws sep.
Proof. by destruct ws. Qed.

Lemma Split_Join ws c :
  ws ≠ [] → Forall (λ w, contains_char c w = false) ws →
  Split (Join ws (String c "")) c = ws.
Proof.
  induction ws as [|w ws IH]; [done|]. intros _ [Hw Hws]%Forall_cons.
  destruct ws as [|w' ws']; [by apply Split_none|].
  rewrite Join_cons by done. rewrite str_app_cons. change ("" +:+ ?x) with x.
  rewrite Split_app, Split_none by done. by rewrite IH.
Qed.

Lemma Join_Split s c : Join (Split s c) (String c "") = s.
Proof.
  induction s as [|a s IH]; [done|]. simpl. pose proof (Split_nonempty s c) as Hne.
  destruct (Ascii.eqb a c) eqn:E.
  - apply Ascii.eqb_eq in E as ->. by rewrite Join_cons, IH.
  - destruct (Split s c) as [|w ws]; [done|]. rewrite <- IH.
    destruct ws; [done|]. by rewrite (Join_cons (String a w)), (Join_cons w).
Qed.

Lemma Join_app l1 l2 sep :
  l1 ≠ [] → l2 ≠ [] → Join (l1 ++ l2) sep = Join l1 sep +:+ sep +:+ Join l2 sep.
Proof.
  intros H1 H2. induction l1 as [|w l1 IH]; [done|].
  destruct l1 as [|w' l1']; simpl app; [by apply Join_cons|].
  rewrite (Join_cons w (w' :: l1' ++ l2)) by done.
  change (w' :: l1' ++ l2) with ((w' :: l1') ++ l2). rewrite IH by done.
  by rewrite (Join_cons w (w' :: l1')), !str_app_assoc.
Qed.

Lemma SplitN2_Some s c w r : SplitN2 s c = (w, Some r) → s = w +:+ String c r.
Proof.
  revert w. induction s as [|a s IH]; intros w; simpl; [done|].
  destruct (Ascii.eqb a c) eqn:E.
  - apply Ascii.eqb_eq in E as ->. by intros [= <- <-].
  - destruct (SplitN2 s c) as [w' r'] eqn:Es. intros [= <- ->].
    by rewrite (IH w').
Qed.

Lemma SplitN2_app s c t :
  contains_char c s = false → SplitN2 (s +:+ String c t) c = (s, Some t).
Proof.
  induction s as [|a s IH]; intros H.
  - change ("" +:+ ?x) with x. simpl. by rewrite Ascii.eqb_refl.
  - simpl in H. apply orb_false_iff in H as [Ha Hs]. rewrite str_app_cons. simpl.
    by rewrite Ha, IH.
Qed.

Lemma sort_Strings_perm l : sort_Strings l ≡ₚ l.
Proof. apply merge_sort_Permutation. Qed.

Lemma sort_Strings_sorted l : StronglySorted String.le (sort_Strings l).
Proof. apply (StronglySorted_merge_sort _ _). Qed.

(** Two permutations of one list sort to the same list. *)
Lemma sort_Strings_unique l1 l2 : l1 ≡ₚ l2 → sort_Strings l1 = sort_Strings l2.
Proof.
  intros H. apply (StronglySorted_unique String.le); [apply sort_Strings_sorted..|].
  by rewrite !sort_Strings_perm.
Qed.

Lemma digit_value_char d : (0 ≤ d < 10)%Z → digit_value (digit_char d) = Some d.
Proof.
  intros H. unfold digit_value, digit_char. rewrite nat_ascii_embedding by lia.
  rewrite (proj2 (Nat.leb_le _ _)) by lia. rewrite (proj2 (Nat.leb_le _ _)) by lia.
  simpl. f_equal. lia.
Qed.

Lemma parse_digits_app base maxVal acc s t :
  parse_digits base maxVal acc (s +:+ t) =
  parse_digits base maxVal acc s ≫= λ a, parse_digits base maxVal a t.
Proof.
  revert acc. induction s as [|a s IH]; intros acc; [done|]. rewrite str_app_cons. simpl.
  destruct (digit_value a); [|done]. by repeat case_if.
Qed.

Lemma parse_digit maxVal acc d :
  (0 ≤ d < 10)%Z → (acc * 10 + d ≤ maxVal)%Z →
  parse_digits 10 maxVal acc (String (digit_char d) "") = Ok (acc * 10 + d)%Z.
Proof.
  intros Hd Hm. simpl. rewrite digit_value_char by done.
  rewrite (proj2 (Z.leb_gt _ _)) by lia. by rewrite (proj2 (Z.ltb_ge _ _)) by lia.
Qed.

Lemma parse_dec_digits maxVal fuel n :
  (0 ≤ n ≤ maxVal)%Z → (n < 10 ^ Z.of_nat (S fuel))%Z →
  parse_digits 10 maxVal 0 (dec_digits fuel n) = Ok n.
Proof.
  revert n. induction fuel as [|fuel IH]; intros n Hn Hf; cbn [dec_digits].
  - rewrite Z.mod_small by lia. rewrite parse_digit; [f_equal|..]; lia.
  - destruct (Z.ltb_spec n 10); [rewrite parse_digit; [f_equal|..]; lia|].
    pose proof (Z.div_mod n 10 ltac:(lia)). pose proof (Z.mod_pos_bound n 10 ltac:(lia)).
    rewrite parse_digits_app, IH.
    + rewrite bind_Ok, parse_digit; [f_equal|..]; lia.
    + split; [apply Z.div_pos; lia|]. transitivity n; [apply Z.div_le_upper_bound; lia|lia].
    + apply Z.div_lt_upper_bound; [lia|]. rewrite Nat2Z.inj_succ, Z.pow_succ_r in Hf by lia. lia.
Qed.

Lemma str_forallb_impl (f g : ascii → bool) s :
  (∀ a, f a = true → g a = true) → str_forallb f s = true → str_forallb g s = true.
Proof.
  intros H. induction s as [|a s IH]; [done|]. simpl. intros [Ha Hs]%andb_true_iff.
  rewrite (H a Ha). by apply IH.
Qed.

Lemma str_forallb_app f s t : str_forallb f (s +:+ t) = str_forallb f s && str_forallb f t.
Proof.
  induction s as [|a s IH]; [done|]. rewrite str_app_cons. simpl. by rewrite IH, andb_assoc.
Qed.

Lemma is_digit_char d : (0 ≤ d < 10)%Z → is_digit (digit_char d) = true.
Proof. intros H. unfold is_digit. rewrite digit_value_char by done. by apply bool_decide_eq_true. Qed.

Lemma dec_digits_digits fuel n : (0 ≤ n)%Z → str_forallb is_digit (dec_digits fuel n) = true.
Proof.
  revert n. induction fuel as [|fuel IH]; intros n Hn; cbn [dec_digits].
  - simpl. rewrite is_digit_char; [done|]. apply Z.mod_pos_bound. lia.
  - destruct (Z.ltb_spec n 10); [simpl; by rewrite is_digit_char by lia|].
    rewrite str_forallb_app, IH by (apply Z.div_pos; lia). simpl.
    rewrite is_digit_char; [done|]. apply Z.mod_pos_bound. lia.
Qed.

Lemma dec_digits_nonempty fuel n : dec_digits fuel n ≠ "".
Proof.
  destruct fuel; simpl; [done|]. case_if; [done|].
  intros E%(f_equal String.length). rewrite str_app_length in E. simpl in E. lia.
Qed.

(** Reading a printed number gives it back. *)
Lemma ParseInt_Itoa n : (0 ≤ n < 2 ^ 63)%Z → ParseInt (Itoa n) 10 64 = Ok n.
Proof.
  intros Hn. pose proof (dec_digits_digits 19 n ltac:(lia)) as Hd.
  pose proof (dec_digits_nonempty 19 n) as Hne.
  pose proof (parse_dec_digits (2 ^ 64 - 1) 19 n ltac:(lia) ltac:(lia)) as Hp.
  unfold ParseInt, Itoa in *. revert Hd Hne Hp. generalize (dec_digits 19 n) as s.
  intros [|a s] Hd Hne Hp; [done|]. simpl in Hd. apply andb_true_iff in Hd as [Ha _].
  assert (a ≠ "-"%char ∧ a ≠ "+"%char) as [H1 H2].
  { split; intros ->; vm_compute in Ha; done. }
  assert (match String a s with
          | String "-" s' => (true, s')
          | String "+" s' => (false, s')
          | _ => (false, String a s)
          end = (false, String a s)) as ->.
  { clear -H1 H2. by destruct a as [[] [] [] [] [] [] [] []]. }
  rewrite (proj2 (String.eqb_neq (String a s) "")) by done. rewrite Hp.
  by rewrite (proj2 (Z.ltb_lt _ _)) by lia.
Qed.

Lemma TrimLeftFunc_forall f s t : str_forallb f s = true → TrimLeftFunc f (s +:+ t) = TrimLeftFunc f t.
Proof.
  induction s as [|a s IH]; [done|]. rewrite str_app_cons. simpl. by intros [-> H%IH]%andb_true_iff.
Qed.

Lemma TrimRightFunc_app f s t : str_forallb f t = true → TrimRightFunc f (s +:+ t) = TrimRightFunc f s.
Proof.
  intros Ht. induction s as [|a s IH]; [|rewrite str_app_cons; simpl; by rewrite IH].
  change ("" +:+ t) with t. induction t as [|b t IHt]; [done|]. simpl in *.
  apply andb_true_iff in Ht as [Hb Ht]. rewrite IHt by done. simpl. by rewrite Hb.
Qed.

Lemma TrimRightFunc_none f s : str_forallb (λ a, negb (f a)) s = true → TrimRightFunc f s = s.
Proof.
  induction s as [|a s IH]; [done|]. simpl. intros [Ha H]%andb_true_iff. rewrite IH by done.
  apply negb_true_iff in Ha as ->. by destruct s.
Qed.

Lemma TrimLeftFunc_head f a s : f a = false → TrimLeftFunc f (String a s) = String a s.
Proof. simpl. by intros ->. Qed.

(** A string without white space at its ends survives padding. *)
Lemma TrimSpace_pad s t :
  TrimSpace s = s → s ≠ "" → str_forallb is_space t = true → TrimSpace (s +:+ t) = s.
Proof.
  unfold TrimSpace, TrimFunc. intros Hs Hne Ht.
  destruct s as [|a s]; [done|]. destruct (is_space a) eqn:Ha.
  - exfalso. simpl in Hs. rewrite Ha in Hs. apply (f_equal String.length) in Hs.
    assert (∀ f u, String.length (TrimLeftFunc f u) ≤ String.length u) as HL.
    { intros f u. induction u; simpl; [done|]. case_if; simpl; lia. }
    assert (∀ f u, String.length (TrimRightFunc f u) ≤ String.length u) as HR.
    { intros f u. induction u as [|b u IHu]; simpl; [done|].
      destruct (TrimRightFunc f u); [case_if|]; simpl in *; lia. }
    pose proof (HL is_space s). pose proof (HR is_space (TrimLeftFunc is_space s)).
    simpl in Hs. lia.
  - rewrite str_app_cons, TrimLeftFunc_head by done. rewrite TrimLeftFunc_head in Hs by done.
    rewrite <- str_app_cons, TrimRightFunc_app by done. done.
Qed.

#[export] Hint Resolve HasPrefix_app HasSuffix_app Split_nonempty Split_Forall : go_str.
#[export] Hint Rewrite str_app_nil_r str_app_cons str_app_assoc str_app_length
  TrimPrefix_app TrimSuffix_app str_drop_app str_take_app : go_str.
