(* ===== verification/GoPath.v ===== *)
(** * Go's [path/filepath] on Unix

    [Clean], [Join], [Rel], [Base], [Dir], [Ext] and [IsAbs] as the standard
    library documents them.  A path is read into the list of its lexically
    processed elements ([parse]) and written back ([render]); the lemmas give
    the algebra the path translations of the code rely on. *)
From S2P Require Import Prelude GoStrings.
From Stdlib Require Import Ascii.

Module Filepath.

Definition slash : ascii := "/".

Definition IsAbs (p : string) : bool := HasPrefix p "/".

(** One element of [Clean]'s lexical processing; the kept elements are in
    reverse order. *)
Definition push (rooted : bool) (acc : list string) (c : string) : list string :=
  if String.eqb c "" then acc
  else if String.eqb c "." then acc
  else if String.eqb c ".." then
    match acc with
    | x :: acc' => if String.eqb x ".." then ".." :: acc else acc'
    | [] => if rooted then [] else [".."]
    end
  else c :: acc.

Record lpath := LPath { rooted : bool; comps : list string }.

Definition parse (p : string) : lpath :=
  LPath (IsAbs p) (reverse (foldl (push (IsAbs p)) [] (Split p slash))).

Definition render (q : lpath) : string :=
  if rooted q then "/" +:+ GoStrings.Join (comps q) "/"
  else match comps q with [] => "." | cs => GoStrings.Join cs "/" end.

Definition Clean (p : string) : string := render (parse p).

(** [Join] skips leading empty elements and cleans the rest. *)
Fixpoint Join (elems : list string) : string :=
  match elems with
  | [] => ""
  | e :: es => if String.eqb e "" then Join es else Clean (GoStrings.Join (e :: es) "/")
  end.

Definition rel_words (q : lpath) : list string :=
  match comps q with [] => if rooted q then [] else ["."] | cs => cs end.

Definition Rel (basepath targpath : string) : res string :=
  let b := parse basepath in
  let t := parse targpath in
  if String.eqb (Clean targpath) (Clean basepath) then Ok "." else
  if Bool.eqb (rooted b) (rooted t) then
    let '(b', t') := strip_common (comps b) (rel_words t) in
    match b', t' with
    | [], _ => Ok (GoStrings.Join t' "/")
    | c :: _, _ :: _ =>
        if String.eqb c ".."
        then Fail (EMsg ("Rel: can't make " +:+ targpath +:+ " relative to " +:+ basepath))
        else Ok (GoStrings.Join (replicate (length b') ".." ++ t') "/")
    | _, [] => Ok (GoStrings.Join (replicate (length b') "..") "/")
    end
  else Fail (EMsg ("Rel: can't make " +:+ targpath +:+ " relative to " +:+ basepath)).

Definition is_slash (a : ascii) : bool := Ascii.eqb a slash.

Definition Base (p : string) : string :=
  if String.eqb p "" then "." else
  let s := TrimRightFunc is_slash p in
  if String.eqb s "" then "/" else List.last (Split s slash) "".

(** The text of [p] up to and including its last separator, cleaned. *)
Definition Dir (p : string) : string :=
  match removelast (Split p slash) with
  | [] => Clean ""
  | ws => Clean (GoStrings.Join ws "/" +:+ "/")
  end.

(** The suffix of [p] that starts at the last dot of its last element. *)
Fixpoint ext_from (cur s : string) : string :=
  match s with
  | EmptyString => cur
  | String a s' =>
      if Ascii.eqb a slash then ext_from "" s'
      else if Ascii.eqb a "." then ext_from s s'
      else ext_from cur s'
  end.

Definition Ext (p : string) : string := ext_from "" p.

(** On Unix the separator is the slash and [ToSlash] is the identity. *)
Definition ToSlash (p : string) : string := p.

#[global] Arguments parse : simpl never.
#[global] Arguments Clean : simpl never.

(** ** Lemmas *)

(** An element that [Clean] keeps wherever it stands. *)
Definition proper (c : string) : Prop :=
  c ≠ "" ∧ c ≠ "." ∧ c ≠ ".." ∧ contains_char slash c = false.

#[export] Instance proper_dec c : Decision (proper c).
Proof. unfold proper. apply _. Defined.

Lemma push_proper r acc c : proper c → push r acc c = c :: acc.
Proof.
  intros (H1 & H2 & H3 & _). unfold push.
  apply String.eqb_neq in H1 as ->, H2 as ->, H3 as ->. done.
Qed.

Lemma foldl_push_proper r acc cs :
  Forall proper cs → foldl (push r) acc cs = reverse cs ++ acc.
Proof.
  intros H. revert acc. induction H as [|c cs Hc _ IH]; intros acc; [done|].
  simpl. rewrite push_proper, IH, reverse_cons by done. by rewrite <- app_assoc.
Qed.

(** In a rooted path, processing elements without separators keeps every kept
    element proper. *)
Lemma push_rooted_proper acc c :
  contains_char slash c = false → Forall proper acc → Forall proper (push true acc c).
Proof.
  intros Hc Hacc. unfold push.
  destruct (String.eqb_spec c ""); [done|].
  destruct (String.eqb_spec c "."); [done|].
  destruct (String.eqb_spec c "..") as [->|]; [|by constructor].
  destruct acc as [|x acc]; [done|]. inversion Hacc as [|?? Hx ?]; subst.
  destruct (String.eqb_spec x "..") as [->|]; [|done].
  by destruct Hx as (_ & _ & ? & _).
Qed.

Lemma foldl_push_rooted_proper acc cs :
  Forall (λ w, contains_char slash w = false) cs → Forall proper acc →
  Forall proper (foldl (push true) acc cs).
Proof.
  intros Hcs. revert acc. induction Hcs as [|c cs Hc _ IH]; intros acc Hacc; [done|].
  simpl. apply IH, push_rooted_proper; done.
Qed.

Lemma parse_rooted_proper p : IsAbs p = true → Forall proper (comps (parse p)).
Proof.
  intros H. unfold parse. simpl. rewrite H. apply Forall_reverse.
  apply foldl_push_rooted_proper; [apply Split_Forall|constructor].
Qed.

(** Every element of a processed path is non-empty and holds no separator. *)
Lemma push_word r acc c :
  contains_char slash c = false →
  Forall (λ w, w ≠ "" ∧ contains_char slash w = false) acc →
  Forall (λ w, w ≠ "" ∧ contains_char slash w = false) (push r acc c).
Proof.
  intros Hc Hacc. unfold push. destruct (String.eqb_spec c ""); [done|].
  destruct (String.eqb c "."); [done|]. destruct (String.eqb_spec c "..") as [->|].
  - destruct acc as [|x acc].
    + destruct r; [done|]. constructor; [by vm_compute|constructor].
    + apply Forall_cons in Hacc as [? ?]. destruct (String.eqb x ".."); [|done].
      constructor; [by vm_compute|by constructor].
  - by constructor.
Qed.

Lemma parse_words p :
  Forall (λ w, w ≠ "" ∧ contains_char slash w = false) (comps (parse p)).
Proof.
  unfold parse. cbn [comps]. apply Forall_reverse.
  enough (∀ acc, Forall (λ w, w ≠ "" ∧ contains_char slash w = false) acc →
    Forall (λ w, w ≠ "" ∧ contains_char slash w = false)
      (foldl (push (IsAbs p)) acc (Split p slash))) as H by by apply H; constructor.
  pose proof (Split_Forall p slash) as Hs.
  induction Hs as [|c cs Hc _ IH]; intros acc Hacc; [done|]. by apply IH, push_word.
Qed.

Lemma IsAbs_Join_words cs :
  Forall (λ w, w ≠ "" ∧ contains_char slash w = false) cs →
  IsAbs (GoStrings.Join cs "/") = false.
Proof.
  destruct 1 as [|c cs [Hne Hc] _]; [done|]. unfold IsAbs.
  destruct c as [|a c]; [done|]. simpl in Hc. apply orb_false_iff in Hc as [Ha _].
  assert (Ascii.eqb "/" a = false) as Hs by by rewrite Ascii.eqb_sym.
  destruct cs; [simpl; by rewrite Hs|]. rewrite Join_cons, str_app_cons by done.
  simpl. by rewrite Hs.
Qed.

Lemma parse_Join_proper cs :
  cs ≠ [] → Forall proper cs → parse (GoStrings.Join cs "/") = LPath false cs.
Proof.
  intros Hne H. unfold parse.
  assert (IsAbs (GoStrings.Join cs "/") = false) as ->.
  { apply IsAbs_Join_words. eapply Forall_impl; [exact H|]. by intros c (? & _ & _ & ?). }
  rewrite Split_Join; [|done|].
  - by rewrite foldl_push_proper, app_nil_r, reverse_involutive.
  - eapply Forall_impl; [exact H|]. by intros c (_ & _ & _ & ?).
Qed.

Lemma Join_proper cs :
  cs ≠ [] → Forall proper cs → Join cs = GoStrings.Join cs "/".
Proof.
  intros Hne H. destruct cs as [|c cs]; [done|]. unfold Join.
  pose proof H as Hp. apply Forall_cons in Hp as [(Hc & _) _].
  apply String.eqb_neq in Hc as ->. unfold Clean. by rewrite parse_Join_proper.
Qed.

Lemma IsAbs_parse p : rooted (parse p) = IsAbs p.
Proof. reflexivity. Qed.

Lemma IsAbs_app p q : IsAbs p = true → IsAbs (p +:+ q) = true.
Proof.
  unfold IsAbs. rewrite !HasPrefix_spec. intros [t ->]. exists (t +:+ q). by rewrite str_app_assoc.
Qed.

Lemma IsAbs_nonempty p : IsAbs p = true → p ≠ "".
Proof. by intros H ->. Qed.

Lemma IsAbs_render q : rooted q = true → IsAbs (render q) = true.
Proof. intros H. unfold render. rewrite H. apply HasPrefix_app. Qed.

Lemma IsAbs_Clean p : IsAbs p = true → IsAbs (Clean p) = true.
Proof. intros H. unfold Clean. by apply IsAbs_render. Qed.

Lemma proper_no_slash cs :
  Forall proper cs → Forall (λ w, contains_char slash w = false) cs.
Proof. intros H. eapply Forall_impl; [exact H|]. by intros c (_ & _ & _ & ?). Qed.

(** Reading back a rooted path of proper elements. *)
Lemma parse_render_rooted cs :
  Forall proper cs → parse (render (LPath true cs)) = LPath true cs.
Proof.
  intros H. unfold parse. rewrite IsAbs_render by done. f_equal.
  unfold render. simpl rooted. cbv iota. simpl comps.
  change ("/" +:+ ?s) with (String slash s). simpl Split. cbn [foldl].
  change (push true [] "") with (@nil string).
  destruct cs as [|c cs]; [done|].
  rewrite Split_Join; [|done|by apply proper_no_slash].
  rewrite foldl_push_proper by done. by rewrite app_nil_r, reverse_involutive.
Qed.

Lemma parse_Clean p : IsAbs p = true → parse (Clean p) = parse p.
Proof.
  intros H. unfold Clean. pose proof (parse_rooted_proper p H) as Hp.
  destruct (parse p) as [r cs] eqn:E. assert (r = true) as ->.
  { apply (f_equal rooted) in E. by rewrite IsAbs_parse, H in E. }
  by apply parse_render_rooted.
Qed.

Lemma Clean_idemp p : IsAbs p = true → Clean (Clean p) = Clean p.
Proof. intros H. unfold Clean at 1. by rewrite parse_Clean. Qed.

Lemma render_inj_rooted cs1 cs2 :
  Forall proper cs1 → Forall proper cs2 →
  render (LPath true cs1) = render (LPath true cs2) → cs1 = cs2.
Proof.
  intros H1 H2 H. apply (f_equal parse) in H. rewrite !parse_render_rooted in H by done.
  by injection H.
Qed.

(** Appending a relative text to a path continues the processing of the path. *)
Lemma parse_app p q :
  p ≠ "" →
  parse (p +:+ "/" +:+ q) =
  LPath (IsAbs p) (reverse (foldl (push (IsAbs p)) (reverse (comps (parse p))) (Split q slash))).
Proof.
  intros Hp. change ("/" +:+ q) with (String slash q). unfold parse.
  assert (IsAbs (p +:+ String slash q) = IsAbs p) as ->.
  { destruct p as [|a p]; [done|]. rewrite str_app_cons. unfold IsAbs.
    simpl. by destruct p. }
  f_equal. rewrite Split_app, foldl_app. simpl comps. by rewrite reverse_involutive.
Qed.

Lemma Join2 p q : p ≠ "" → Join [p; q] = Clean (p +:+ "/" +:+ q).
Proof. intros H. simpl. by apply String.eqb_neq in H as ->. Qed.

Lemma Join2_comps p q :
  IsAbs p = true →
  parse (Join [p; q]) =
  LPath true (reverse (foldl (push true) (reverse (comps (parse p))) (Split q slash))).
Proof.
  intros H. pose proof (IsAbs_nonempty p H). rewrite Join2 by done.
  rewrite parse_Clean by by apply IsAbs_app. rewrite parse_app by done. by rewrite H.
Qed.

Lemma IsAbs_Join2 p q : IsAbs p = true → IsAbs (Join [p; q]) = true.
Proof.
  intros H. rewrite Join2 by by apply IsAbs_nonempty. by apply IsAbs_Clean, IsAbs_app.
Qed.

Lemma Join2_Clean p q : IsAbs p = true → Clean (Join [p; q]) = Join [p; q].
Proof.
  intros H. rewrite Join2 by by apply IsAbs_nonempty. by apply Clean_idemp, IsAbs_app.
Qed.

Lemma Join2_eq p1 p2 q1 q2 :
  IsAbs p1 = true → IsAbs p2 = true →
  parse (Join [p1; q1]) = parse (Join [p2; q2]) → Join [p1; q1] = Join [p2; q2].
Proof.
  intros H1 H2 H. rewrite <- (Join2_Clean p1 q1), <- (Join2_Clean p2 q2) by done.
  unfold Clean. by rewrite H.
Qed.

(** Going up once per element of a rooted prefix removes it. *)
Lemma foldl_push_dotdots b acc :
  Forall proper b → foldl (push true) (b ++ acc) (replicate (length b) "..") = acc.
Proof.
  induction 1 as [|c b Hc _ IH]; [done|]. simpl length. simpl replicate. cbn [foldl].
  assert (push true ((c :: b) ++ acc) ".." = b ++ acc) as ->; [|done].
  destruct Hc as (_ & _ & H & _). unfold push. simpl. by apply String.eqb_neq in H as ->.
Qed.

Lemma strip_common_proper l1 l2 :
  Forall proper l1 → Forall proper l2 →
  Forall proper (strip_common l1 l2).1 ∧ Forall proper (strip_common l1 l2).2.
Proof.
  intros H1 H2. destruct (strip_common_spec l1 l2) as (p & E1 & E2).
  rewrite E1 in H1. rewrite E2 in H2. by apply Forall_app in H1 as [_ ?], H2 as [_ ?].
Qed.

Lemma rel_words_rooted q : rooted q = true → rel_words q = comps q.
Proof. unfold rel_words. intros ->. by destruct (comps q). Qed.

(** The value of [Rel] on rooted paths: the elements left in the base are
    climbed, then the elements left in the target are descended. *)
Lemma Rel_rooted base targ :
  IsAbs base = true → IsAbs targ = true →
  let s := strip_common (comps (parse base)) (comps (parse targ)) in
  Rel base targ =
    Ok (match s with
        | ([], []) => "."
        | (b', t') => GoStrings.Join (replicate (length b') ".." ++ t') "/"
        end).
Proof.
  intros Hb Ht. pose proof (parse_rooted_proper base Hb) as Pb.
  pose proof (parse_rooted_proper targ Ht) as Pt.
  unfold Rel, Clean. rewrite (rel_words_rooted (parse targ)) by done.
  destruct (parse base) as [r bs] eqn:Eb. destruct (parse targ) as [r' ts] eqn:Et.
  assert (r = true) as -> by (apply (f_equal rooted) in Eb; by rewrite IsAbs_parse, Hb in Eb).
  assert (r' = true) as -> by (apply (f_equal rooted) in Et; by rewrite IsAbs_parse, Ht in Et).
  simpl comps in *. simpl rooted. cbv zeta.
  destruct (String.eqb_spec (render (LPath true ts)) (render (LPath true bs))) as [E|E].
  - apply render_inj_rooted in E as ->; [|done..].
    replace (strip_common bs bs) with (@nil string, @nil string); [done|].
    clear. induction bs as [|c bs IH]; [done|]. simpl. by rewrite decide_True.
  - assert (ts ≠ bs) as Hne by congruence. simpl.
    destruct (strip_common_proper bs ts Pb Pt) as [Pb' Pt'].
    destruct (strip_common_spec bs ts) as (p & E1 & E2).
    destruct (strip_common bs ts) as [b' t']. simpl in *.
    destruct b' as [|c b']; [destruct t'; [|done]; congruence|].
    destruct t' as [|d t']; [by rewrite app_nil_r|].
    apply Forall_cons in Pb' as [(_ & _ & H & _) _]. by apply String.eqb_neq in H as ->.
Qed.

Lemma Split_render_rel (n : nat) t :
  (n ≠ 0 ∨ t ≠ []) → Forall proper t →
  Split (GoStrings.Join (replicate n ".." ++ t) "/") slash = replicate n ".." ++ t.
Proof.
  intros Hne Ht. apply Split_Join.
  - destruct n; [|done]. destruct t; [|done]. by destruct Hne.
  - apply Forall_app. split; [|by apply proper_no_slash]. by apply Forall_replicate.
Qed.

Lemma foldl_climb p b t :
  Forall proper b → Forall proper t →
  foldl (push true) (reverse (p ++ b)) (replicate (length b) ".." ++ t) = reverse (p ++ t).
Proof.
  intros Hb Ht. rewrite reverse_app, foldl_app, <- (length_reverse b).
  rewrite foldl_push_dotdots by by apply Forall_reverse.
  by rewrite foldl_push_proper, reverse_app.
Qed.

Lemma Join_words base r p b t :
  IsAbs base = true → comps (parse base) = p ++ b → Forall proper b → Forall proper t →
  Split r slash = replicate (length b) ".." ++ t →
  Join [base; r] = render (LPath true (p ++ t)).
Proof.
  intros Hb Ep Pb Pt Er. rewrite <- (Join2_Clean base r) by done.
  unfold Clean at 1. rewrite Join2_comps by done.
  by rewrite Er, Ep, foldl_climb, reverse_involutive.
Qed.

(** [Rel] is a right inverse of [Join]: the relative path, joined to its base,
    leads to the target. *)
Lemma Join_Rel base targ :
  IsAbs base = true → IsAbs targ = true →
  ∃ r, Rel base targ = Ok r ∧ r ≠ "" ∧ Join [base; r] = Clean targ.
Proof.
  intros Hb Ht. rewrite Rel_rooted by done. eexists. split; [reflexivity|].
  pose proof (parse_rooted_proper base Hb) as Pb.
  pose proof (parse_rooted_proper targ Ht) as Pt.
  destruct (strip_common_proper _ _ Pb Pt) as [Pb' Pt'].
  destruct (strip_common_spec (comps (parse base)) (comps (parse targ))) as (p & E1 & E2).
  assert (Clean targ = render (LPath true (comps (parse targ)))) as ->.
  { unfold Clean. f_equal. unfold parse. simpl. by rewrite Ht. }
  set (s := strip_common (comps (parse base)) (comps (parse targ))) in *.
  rewrite E2. clearbody s. destruct s as [b t]. cbn [fst snd] in *.
  destruct (decide (b = [] ∧ t = [])) as [[-> ->]|Hne].
  - split; [done|]. rewrite Join2 by by apply IsAbs_nonempty. unfold Clean.
    rewrite parse_app, Hb by by apply IsAbs_nonempty. f_equal. f_equal. simpl.
    change (push true ?l ".") with l. by rewrite reverse_involutive.
  - assert (length b ≠ 0 ∨ t ≠ []) as Hor by (destruct b, t; naive_solver).
    set (r := match b with [] => _ | _ => _ end).
    assert (r = GoStrings.Join (replicate (length b) ".." ++ t) "/") as -> by
      (subst r; destruct b, t; naive_solver).
    pose proof (Split_render_rel _ _ Hor Pt') as Hs. split.
    + intros E. rewrite E in Hs. destruct b as [|c b]; [|done]. destruct t as [|d t]; [naive_solver|].
      apply Forall_cons in Pt' as [(? & _) _]. by injection Hs as <- _.
    + by apply (Join_words base _ p b t).
Qed.

(** Processing the elements of a relative path in two steps, first by
    themselves, changes nothing. *)
Lemma push_push acc R c :
  Forall (λ w, w ≠ "" ∧ w ≠ ".") R →
  Forall (λ w, w ≠ "" ∧ w ≠ ".") (push false R c) ∧
  foldl (push true) acc (reverse (push false R c)) = push true (foldl (push true) acc (reverse R)) c.
Proof.
  intros Hw. unfold push at 1 3. destruct (String.eqb_spec c "") as [->|]; [by split|].
  destruct (String.eqb_spec c ".") as [->|]; [by split|]. destruct (String.eqb_spec c "..") as [->|].
  - destruct R as [|x R]; [split; [by repeat constructor|done]|]. destruct (String.eqb_spec x "..") as [->|Hx].
    + split; [by constructor|]. by rewrite (reverse_cons _ ".."), foldl_app.
    + apply Forall_cons in Hw as [[H1 H2] Hw]. split; [done|]. rewrite reverse_cons, foldl_app. simpl.
      assert (∀ A, push true A x = x :: A) as ->.
      { intros A. unfold push. by rewrite !(proj2 (String.eqb_neq _ _)) by done. }
      unfold push. simpl. by apply String.eqb_neq in Hx as ->.
  - split; [by constructor|]. by rewrite reverse_cons, foldl_app.
Qed.

Lemma push_twice acc ws :
  Forall (λ w, w ≠ "" ∧ w ≠ ".") (foldl (push false) [] ws) ∧
  foldl (push true) acc (reverse (foldl (push false) [] ws)) = foldl (push true) acc ws.
Proof.
  induction ws as [|c ws [Hw IH]] using rev_ind; [by split|]. rewrite !foldl_app. simpl.
  rewrite <- IH. by apply push_push.
Qed.

Lemma Split_Clean_rel p acc :
  IsAbs p = false → foldl (push true) acc (Split (Clean p) slash) = foldl (push true) acc (Split p slash).
Proof.
  intros H. rewrite <- (proj2 (push_twice acc (Split p slash))). pose proof (parse_words p) as Hw.
  unfold Clean, render, parse in *. rewrite H in *. cbn [rooted comps] in *.
  destruct (reverse _) as [|c cs] eqn:E; [done|]. rewrite Split_Join; [done|done|].
  eapply Forall_impl; [exact Hw|]. by intros w [_ ?].
Qed.

Lemma Join3_Clean er wd p :
  IsAbs er = true → IsAbs p = false → Join [er; wd; Clean p] = Join [er; wd; p].
Proof.
  intros He Hp. pose proof (IsAbs_nonempty _ He) as Hne.
  assert (∀ q, Join [er; wd; q] = Join [er; wd +:+ "/" +:+ q]) as H.
  { intros q. simpl. by apply String.eqb_neq in Hne as ->. }
  rewrite !H. apply Join2_eq; [done..|]. rewrite !Join2_comps by done. f_equal. f_equal.
  assert (∀ q, Split (wd +:+ "/" +:+ q) slash = Split wd slash ++ Split q slash) as Hs by (intros q; apply Split_app).
  by rewrite !Hs, !foldl_app, Split_Clean_rel.
Qed.

End Filepath.

#[export] Hint Resolve Filepath.IsAbs_Join2 Filepath.IsAbs_Clean Filepath.IsAbs_app
  Filepath.IsAbs_nonempty : go_path.
