(* ===== verification/GoRegexp.v ===== *)
(** * Regular expressions with leftmost-first matching

    The expressions of the code are sequences of repetitions of classes of
    bytes.  Each piece takes the text at hand and says how to go on: it tries
    its alternatives in the order of their priority, and gives the first that
    lets the rest match, which is how package [regexp] chooses among matches. *)
From S2P Require Import Prelude GoStrings.
From Stdlib Require Import Ascii.

Module Regexp.

(** [\s], [\w] and [.] *)
Definition re_space (a : ascii) : bool :=
  let n := nat_of_ascii a in ((n =? 9) || (n =? 10) || (n =? 12) || (n =? 13) || (n =? 32))%nat.
Definition re_word (a : ascii) : bool :=
  let n := nat_of_ascii a in
  ((48 <=? n) && (n <=? 57) || (65 <=? n) && (n <=? 90) || (n =? 95) || (97 <=? n) && (n <=? 122))%nat.
Definition re_dot (a : ascii) : bool := negb (Ascii.eqb a "010").
Definition re_char (c a : ascii) : bool := Ascii.eqb c a.

Section pieces.

Context {A : Type}.

(** One byte of a class; none or one, preferably one; any number, as many or as
    few as possible. *)
Definition one (f : ascii → bool) (s : string) (k : string → option A) : option A :=
  match s with String a s' => if f a then k s' else None | EmptyString => None end.

Definition opt (f : ascii → bool) (s : string) (k : string → option A) : option A :=
  match one f s k with Some r => Some r | None => k s end.

Fixpoint greedy (f : ascii → bool) (s : string) (k : string → option A) : option A :=
  match s with
  | String a s' =>
      if f a then match greedy f s' k with Some r => Some r | None => k s end else k s
  | EmptyString => k s
  end.

Fixpoint lazy (f : ascii → bool) (s : string) (k : string → option A) : option A :=
  match k s with
  | Some r => Some r
  | None => match s with String a s' => if f a then lazy f s' k else None | EmptyString => None end
  end.

(** The first position that has a match. *)
Fixpoint search (re : string → option A) (s : string) : option A :=
  match re s with
  | Some r => Some r
  | None => match s with String _ s' => search re s' | EmptyString => None end
  end.

End pieces.

(** The text between two positions, given by what follows them. *)
Definition between (s t : string) : string := str_take (String.length s - String.length t) s.

(** The successive matches; an expression gives its groups and what follows the
    match.  The fuel is the length of the text, for expressions that do not
    match the empty string. *)
Fixpoint matches {A} (fuel : nat) (re : string → option (A * string)) (s : string) : list A :=
  match fuel with
  | 0 => []
  | S fuel => match search re s with Some (g, s') => g :: matches fuel re s' | None => [] end
  end.

Definition FindAll {A} (re : string → option (A * string)) (s : string) : list A :=
  matches (String.length s) re s.

(** ** Lemmas *)

(** The next byte, if any, is not in the class. *)
Definition stops (f : ascii → bool) (s : string) : Prop :=
  match s with String a _ => f a = false | EmptyString => True end.

Lemma greedy_all {A} f u v (k : string → option A) r :
  str_forallb f u = true → stops f v → k v = Some r → greedy f (u +:+ v) k = Some r.
Proof.
  intros Hu Hv Hk. induction u as [|a u IH].
  - change ("" +:+ v) with v. destruct v as [|a v]; simpl; [done|]. simpl in Hv. by rewrite Hv.
  - simpl in Hu. apply andb_prop in Hu as [Ha Hu]. simpl. rewrite Ha, IH by done. done.
Qed.

Lemma lazy_now {A} f s (k : string → option A) r : k s = Some r → lazy f s k = Some r.
Proof. intros H. destruct s; simpl; by rewrite H. Qed.

(** The shortest run after which the rest matches. *)
Lemma lazy_first {A} f u v (k : string → option A) r :
  str_forallb f u = true → (∀ u1 u2, u = u1 +:+ u2 → u2 ≠ "" → k (u2 +:+ v) = None) → k v = Some r →
  lazy f (u +:+ v) k = Some r.
Proof.
  intros Hu Hn Hk. induction u as [|a u IH].
  - by apply lazy_now.
  - simpl in Hu. apply andb_prop in Hu as [Ha Hu]. pose proof (Hn "" (String a u) eq_refl) as H0.
    change (String a u +:+ v) with (String a (u +:+ v)) in *. cbn [lazy]. rewrite H0 by done. rewrite Ha. apply IH; [done|].
    intros u1 u2 -> Hne. by apply (Hn (String a u1)).
Qed.

Lemma search_now {A} (re : string → option A) s r : re s = Some r → search re s = Some r.
Proof. intros H. destruct s; simpl; by rewrite H. Qed.

Lemma between_app u v : between (u +:+ v) v = u.
Proof.
  unfold between. rewrite str_app_length. replace (_ - _) with (String.length u) by lia.
  induction u as [|a u IH]; [by destruct v|]. simpl. by rewrite IH.
Qed.

End Regexp.
