(* ===== verification/PathTranslator.v ===== *)
(** * Path translation: [internal/pkg/pathtranslator] and the path helpers of
    [internal/pkg/reproxy] ([depth], [toRemoteWorkingDir], [dedup]). *)
From S2P Require Import Prelude GoStrings GoPath.
From Stdlib Require Import Ascii.

Module PathTranslator.
Import Filepath.

Definition RelToExecRoot (execRoot workingDir p : string) : string :=
  if String.eqb p "" then "" else
  let p := if IsAbs p then p else Join [execRoot; workingDir; p] in
  match Rel execRoot p with
  | Ok rp => if HasPrefix rp ".." then "" else rp
  | _ => ""
  end.

Definition RelToWorkingDir (execRoot workingDir p : string) : string :=
  let p := if IsAbs p then p else Join [execRoot; p] in
  match Rel (Join [execRoot; workingDir]) p with
  | Ok rp => rp
  | _ => ""
  end.

Definition mapPaths (execRoot workingDir : string) (paths : list string)
    (mapper : string → string → string → string) : list string :=
  foldl (λ res p,
    let rel := mapper execRoot workingDir p in
    if String.eqb rel "" then res else res ++ [rel]) [] paths.

Definition ListRelToExecRoot (execRoot workingDir : string) (paths : list string) :=
  mapPaths execRoot workingDir paths RelToExecRoot.

Definition ListRelToWorkingDir (execRoot workingDir : string) (paths : list string) :=
  mapPaths execRoot workingDir paths RelToWorkingDir.

(** The executable's path and the resolution of its links come from the
    operating system. *)
Definition BinaryRelToAbs (executable : res string) (evalSymlinks : string → res string)
    (relPath : string) : res string :=
  if IsAbs relPath then Ok relPath else
  let? exe := executable in
  let? exe := evalSymlinks exe in
  Ok (Join [Dir exe; relPath]).

(** ** [depth] and [toRemoteWorkingDir] of [reproxy/action.go] *)

Definition IsPathSeparator (a : ascii) : bool := is_slash a.

Fixpoint count_separators (s : string) : nat :=
  match s with
  | EmptyString => 0
  | String a s' => (if IsPathSeparator a then 1 else 0) + count_separators s'
  end.

Definition depth (path : string) : nat :=
  if String.eqb path "" then 0 else 1 + count_separators path.

(** The loop of the source overwrites the elements 1, 2, ... of a slice of
    [dirDepth] elements whose element 0 is the marker. *)
Definition toRemoteWorkingDir (workingDir : string) : string :=
  if String.eqb workingDir "" || String.eqb workingDir "." then workingDir else
  let dirDepth := depth (Clean workingDir) in
  Join ("set_by_reclient" :: replicate (dirDepth - 1) "a").

(** ** [dedup] of [reproxy/server.go] *)

Definition dedup_add (fileSet : gmap string string) (f : string) : gmap string string :=
  match fileSet !! Clean f with
  | Some _ => fileSet
  | None => <[Clean f := f]> fileSet
  end.

Definition fileSet (l : list string) : gmap string string := foldl dedup_add ∅ l.

(** The source ranges over the map: any order of its values may come out. *)
Definition Dedup (l dlist : list string) : Prop :=
  dlist ≡ₚ (map_to_list (fileSet l)).*2.

(** One such order, to compute with. *)
Definition dedup (l : list string) : list string := (map_to_list (fileSet l)).*2.

(** ** Lemmas *)

(** The absolute path that a path of a command denotes. *)
Definition abs_path (execRoot workingDir p : string) : string :=
  if IsAbs p then p else Join [execRoot; workingDir; p].

Lemma IsAbs_Join3 er wd p : IsAbs er = true → IsAbs (Join [er; wd; p]) = true.
Proof.
  intros H. simpl. pose proof (IsAbs_nonempty _ H) as Hne.
  apply String.eqb_neq in Hne as ->. by apply IsAbs_Clean, IsAbs_app.
Qed.

Lemma IsAbs_abs_path er wd p : IsAbs er = true → IsAbs (abs_path er wd p) = true.
Proof. intros H. unfold abs_path. destruct (IsAbs p) eqn:E; [done|by apply IsAbs_Join3]. Qed.

(** Joining three elements is joining twice. *)
Lemma Join3_Join2 er wd p :
  IsAbs er = true → Join [er; wd; p] = Join [Join [er; wd]; p].
Proof.
  intros H. pose proof (IsAbs_nonempty _ H) as Hne.
  assert (Join [er; wd; p] = Join [er; wd +:+ "/" +:+ p]) as ->.
  { simpl. by apply String.eqb_neq in Hne as ->. }
  apply Join2_eq; [done|by apply IsAbs_Join2|].
  rewrite (Join2_comps er) by done. rewrite (Join2_comps (Join [er; wd])) by by apply IsAbs_Join2.
  rewrite (Join2_comps er) by done. cbn [comps]. f_equal.
  change ("/" +:+ p) with (String slash p). by rewrite Split_app, foldl_app, reverse_involutive.
Qed.

Lemma mapPaths_spec er wd ps mapper :
  mapPaths er wd ps mapper = filter (λ r, r ≠ "") (mapper er wd <$> ps).
Proof.
  unfold mapPaths.
  enough (∀ acc, foldl (λ res p, let rel := mapper er wd p in
      if String.eqb rel "" then res else res ++ [rel]) acc ps
    = acc ++ filter (λ r, r ≠ "") (mapper er wd <$> ps)) as H by apply H.
  induction ps as [|p ps IH]; intros acc; [by rewrite app_nil_r|].
  simpl. rewrite IH, filter_cons. destruct (String.eqb_spec (mapper er wd p) "").
  - by rewrite decide_False by naive_solver.
  - rewrite decide_True by done. by rewrite <- app_assoc.
Qed.

Lemma RelToExecRoot_Ok er wd p r :
  IsAbs er = true → RelToExecRoot er wd p = r → r ≠ "" →
  Rel er (abs_path er wd p) = Ok r ∧ HasPrefix r ".." = false.
Proof.
  intros Her. unfold RelToExecRoot. fold (abs_path er wd p).
  destruct (String.eqb p ""); [naive_solver|].
  destruct (Join_Rel er (abs_path er wd p)) as (r' & Hr & _); [done|by apply IsAbs_abs_path|].
  rewrite Hr. destruct (HasPrefix r' "..") eqn:E; [naive_solver|]. by intros ->.
Qed.

Lemma RelToWorkingDir_Ok er wd p :
  IsAbs er = true →
  ∃ r, RelToWorkingDir er wd p = r ∧ r ≠ "" ∧
       Join [Join [er; wd]; r] = Clean (if IsAbs p then p else Join [er; p]).
Proof.
  intros Her. unfold RelToWorkingDir.
  destruct (Join_Rel (Join [er; wd]) (if IsAbs p then p else Join [er; p])) as (r & Hr & Hne & Hj).
  - by apply IsAbs_Join2.
  - destruct (IsAbs p) eqn:E; [done|by apply IsAbs_Join2].
  - rewrite Hr. eauto.
Qed.

(** A relative path of which no element leaves the root is not absolute. *)
Lemma Rel_not_abs er t r :
  IsAbs er = true → IsAbs t = true → Rel er t = Ok r → IsAbs r = false.
Proof.
  intros He Ht. rewrite Rel_rooted by done. cbv zeta.
  destruct (strip_common_proper _ _ (parse_rooted_proper er He) (parse_rooted_proper t Ht)) as [_ Ps].
  destruct (strip_common (comps (parse er)) (comps (parse t))) as [b s]. simpl in Ps.
  intros [= <-]. destruct b as [|c b].
  - destruct s as [|d s]; [done|]. simpl app.
    apply Forall_cons in Ps as [(H1 & _ & _ & H4) _].
    destruct d as [|a d]; [done|]. simpl in H4. apply orb_false_iff in H4 as [H4 _].
    assert (Ascii.eqb "/" a = false) as Ha by by rewrite Ascii.eqb_sym.
    unfold IsAbs. destruct s as [|e s].
    + simpl. by rewrite Ha.
    + rewrite Join_cons by done. rewrite str_app_cons. simpl. by rewrite Ha.
  - simpl replicate. simpl app. unfold IsAbs.
    destruct (replicate (length b) ".." ++ s) eqn:E; [done|]. by rewrite Join_cons.
Qed.

(** The result of [RelToExecRoot], joined to the exec root, is the file the
    path denotes; it is relative and does not climb. *)
Lemma RelToExecRoot_denotes er wd p r :
  IsAbs er = true → RelToExecRoot er wd p = r → r ≠ "" →
  Join [er; r] = Clean (abs_path er wd p) ∧ IsAbs r = false ∧ HasPrefix r ".." = false.
Proof.
  intros He Hr Hne. destruct (RelToExecRoot_Ok er wd p r He Hr Hne) as [HR Hp].
  pose proof (IsAbs_abs_path er wd p He) as Ha.
  destruct (Join_Rel er (abs_path er wd p)) as (r' & Hr' & _ & Hj); [done..|].
  rewrite HR in Hr'. injection Hr' as <-.
  split; [done|]. split; [|done]. by apply (Rel_not_abs er (abs_path er wd p)).
Qed.

Lemma count_separators_app s t :
  count_separators (s +:+ t) = count_separators s + count_separators t.
Proof. induction s as [|a s IH]; [done|]. rewrite str_app_cons. simpl. lia. Qed.

Lemma count_separators_none s : contains_char slash s = false → count_separators s = 0.
Proof.
  induction s as [|a s IH]; [done|]. simpl. rewrite orb_false_iff. intros [H ?].
  unfold IsPathSeparator, is_slash. by rewrite H, IH.
Qed.

Lemma count_separators_Join cs :
  Forall (λ w, contains_char slash w = false) cs →
  count_separators (GoStrings.Join cs "/") = length cs - 1.
Proof.
  induction 1 as [|c cs Hc _ IH]; [done|]. destruct cs as [|d cs].
  - by apply count_separators_none.
  - rewrite Join_cons by done. rewrite !count_separators_app, IH.
    rewrite (count_separators_none c) by done. simpl. lia.
Qed.

Lemma depth_Join cs :
  cs ≠ [] → Forall (λ w, w ≠ "" ∧ contains_char slash w = false) cs →
  depth (GoStrings.Join cs "/") = length cs.
Proof.
  intros Hne H. unfold depth. rewrite count_separators_Join.
  2:{ eapply Forall_impl; [exact H|]. naive_solver. }
  destruct cs as [|c cs]; [done|]. apply Forall_cons in H as [[Hc _] _].
  assert (String.eqb (GoStrings.Join (c :: cs) "/") "" = false) as ->; [|simpl; lia].
  apply String.eqb_neq. destruct c as [|a c]; [done|]. by destruct cs.
Qed.

Lemma dedup_add_lookup_None m f x :
  dedup_add m f !! x = None ↔ m !! x = None ∧ Clean f ≠ x.
Proof.
  unfold dedup_add. destruct (m !! Clean f) eqn:E.
  - split; [|naive_solver]. intros H. split; [done|]. intros <-. congruence.
  - rewrite lookup_insert_None. done.
Qed.

(** The map holds, for each cleaned path, the first path that cleans to it. *)
Lemma fileSet_lookup l x :
  fileSet l !! x = List.find (λ f, String.eqb (Clean f) x) l.
Proof.
  unfold fileSet.
  enough (∀ m, foldl dedup_add m l !! x =
    match m !! x with Some v => Some v | None => List.find (λ f, String.eqb (Clean f) x) l end)
    as H by by rewrite H, lookup_empty.
  induction l as [|f l IH]; intros m; simpl; [by destruct (m !! x)|].
  rewrite IH. unfold dedup_add. destruct (String.eqb_spec (Clean f) x) as [<-|Hne].
  - destruct (m !! Clean f) eqn:E; [by rewrite E|]. by rewrite lookup_insert_eq.
  - destruct (m !! Clean f) eqn:E; [done|]. by rewrite lookup_insert_ne.
Qed.

Lemma find_first l f :
  List.find (λ g, String.eqb (Clean g) (Clean f)) l = Some f ↔
  ∃ l1 l2, l = l1 ++ f :: l2 ∧ ∀ g, g ∈ l1 → Clean g ≠ Clean f.
Proof.
  split.
  - induction l as [|h l IH]; simpl; [done|].
    destruct (String.eqb_spec (Clean h) (Clean f)).
    + intros [= ->]. exists [], l. split; [done|]. set_solver.
    + intros (l1 & l2 & -> & H)%IH. exists (h :: l1), l2. split; [done|].
      intros g [->|Hg]%elem_of_cons; auto.
  - intros (l1 & l2 & -> & H). induction l1 as [|h l1 IH]; simpl.
    + by rewrite String.eqb_refl.
    + destruct (String.eqb_spec (Clean h) (Clean f)) as [E|].
      * exfalso. apply (H h); [by left|done].
      * apply IH. intros g Hg. apply H. by right.
Qed.

Lemma fileSet_key l x f : fileSet l !! x = Some f → f ∈ l ∧ x = Clean f.
Proof.
  rewrite fileSet_lookup. intros [H1 H2]%List.find_some.
  apply String.eqb_eq in H2. split; [by apply list_elem_of_In|done].
Qed.

Lemma fileSet_total l f : f ∈ l → is_Some (fileSet l !! Clean f).
Proof.
  intros H. rewrite fileSet_lookup. destruct (List.find _ l) eqn:E; [done|].
  apply list_elem_of_In in H. pose proof (List.find_none _ _ E f H) as Hn.
  simpl in Hn. by rewrite String.eqb_refl in Hn.
Qed.

Lemma Dedup_elem l d f : Dedup l d → f ∈ d ↔ fileSet l !! Clean f = Some f.
Proof.
  unfold Dedup. intros Hd. rewrite Hd, list_elem_of_fmap. split.
  - intros ([x v] & -> & H%elem_of_map_to_list). simpl.
    by destruct (fileSet_key _ _ _ H) as [_ ->].
  - intros H%elem_of_map_to_list. by exists (Clean f, f).
Qed.

Lemma Dedup_NoDup l d : Dedup l d → NoDup (Clean <$> d).
Proof.
  unfold Dedup. intros ->. rewrite <- list_fmap_compose.
  replace ((Clean ∘ snd) <$> map_to_list (fileSet l)) with ((map_to_list (fileSet l)).*1);
    [apply NoDup_fst_map_to_list|].
  apply list_fmap_ext. intros i [x v] Hx. simpl.
  apply list_elem_of_lookup_2, elem_of_map_to_list in Hx.
  by destruct (fileSet_key _ _ _ Hx) as [_ ->].
Qed.

Lemma Dedup_covers l d f : Dedup l d → f ∈ l → ∃ g, g ∈ d ∧ Clean g = Clean f.
Proof.
  intros Hd Hf. destruct (fileSet_total l f Hf) as [g Hg]. exists g.
  destruct (fileSet_key _ _ _ Hg) as [_ Hc]. split; [|done].
  apply (Dedup_elem l d g Hd). by rewrite <- Hc.
Qed.

(** On paths that are already clean, [dedup] removes repetitions only. *)
Lemma Dedup_clean l d :
  Dedup l d → Forall (λ x, Clean x = x) l →
  NoDup d ∧ (∀ x, x ∈ d ↔ x ∈ l) ∧ Forall (λ x, Clean x = x) d.
Proof.
  intros Hd Hl. rewrite Forall_forall in Hl.
  assert (∀ x, x ∈ d → x ∈ l) as Hsub.
  { intros x Hx. apply (Dedup_elem l d x Hd) in Hx. by destruct (fileSet_key _ _ _ Hx). }
  split; [|split].
  - eapply NoDup_fmap_1, (Dedup_NoDup l d Hd).
  - intros x. split; [apply Hsub|]. intros Hx.
    destruct (Dedup_covers l d x Hd Hx) as (g & Hg & Hc).
    rewrite (Hl x Hx), (Hl g (Hsub g Hg)) in Hc. by subst.
  - apply Forall_forall. auto.
Qed.

(** What remains of the path below the exec root decides the result. *)
Definition below_root (er t : string) : option (list string) :=
  match strip_common (comps (parse er)) (comps (parse t)) with
  | ([], rest) => Some rest
  | _ => None
  end.

Lemma HasPrefix_Join_hd d s p :
  HasPrefix d p = true → HasPrefix (GoStrings.Join (d :: s) "/") p = true.
Proof.
  rewrite !HasPrefix_spec. intros [t ->]. destruct s as [|e s]; [by exists t|].
  rewrite Join_cons, str_app_assoc by done. eauto.
Qed.

Lemma HasPrefix_dotdot_Join d s :
  contains_char slash d = false →
  HasPrefix (GoStrings.Join (d :: s) "/") ".." = HasPrefix d "..".
Proof.
  intros Hd. destruct (HasPrefix d "..") eqn:E; [by apply HasPrefix_Join_hd|].
  destruct s as [|e s]; [done|]. rewrite Join_cons by done.
  destruct d as [|a [|b d]]; [done|..]; rewrite !str_app_cons; simpl in *.
  - by rewrite andb_false_r.
  - exact E.
Qed.

(** ** Properties *)

(** A non-empty result of [RelToExecRoot] is a relative path that does not
    climb and that, joined to the exec root, is exactly the file the command's
    path denotes. *)
Theorem RelToExecRoot_sound er wd p :
  IsAbs er = true → RelToExecRoot er wd p ≠ "" →
  Join [er; RelToExecRoot er wd p] = Clean (abs_path er wd p) ∧
  IsAbs (RelToExecRoot er wd p) = false ∧
  HasPrefix (RelToExecRoot er wd p) ".." = false.
Proof. intros He Hne. by apply RelToExecRoot_denotes with (wd := wd) (p := p). Qed.

Lemma RelToExecRoot_sound_witness :
  Join ["/er"; RelToExecRoot "/er" "out/d" "../a//b.c"] = Clean "/er/out/d/../a//b.c" ∧
  IsAbs (RelToExecRoot "/er" "out/d" "../a//b.c") = false ∧
  HasPrefix (RelToExecRoot "/er" "out/d" "../a//b.c") ".." = false.
Proof.
  change (Clean "/er/out/d/../a//b.c") with (Clean (abs_path "/er" "out/d" "../a//b.c")).
  apply (RelToExecRoot_sound "/er" "out/d" "../a//b.c"); [reflexivity|discriminate].
Defined.

(** The exact value of [RelToExecRoot] on a non-empty path: the elements
    below the exec root when there are such and the first of them does not
    begin with two dots, [.] for the exec root itself, and the empty string
    otherwise.  So a file of the exec root whose name begins with two dots is
    dropped. *)
Theorem RelToExecRoot_exact er wd p :
  IsAbs er = true → p ≠ "" →
  RelToExecRoot er wd p =
    match below_root er (abs_path er wd p) with
    | Some [] => "."
    | Some (d :: ds) => if HasPrefix d ".." then "" else GoStrings.Join (d :: ds) "/"
    | None => ""
    end.
Proof.
  intros He Hp. unfold RelToExecRoot, below_root. fold (abs_path er wd p).
  apply String.eqb_neq in Hp as ->.
  pose proof (IsAbs_abs_path er wd p He) as Ha. rewrite Rel_rooted by done. cbv zeta.
  destruct (strip_common_proper _ _ (parse_rooted_proper er He)
    (parse_rooted_proper (abs_path er wd p) Ha)) as [_ Ps].
  destruct (strip_common (comps (parse er)) _) as [b s]. simpl in Ps.
  destruct b as [|c b].
  - destruct s as [|d s]; [done|]. simpl app.
    apply Forall_cons in Ps as [(_ & _ & _ & Hd) _]. by rewrite HasPrefix_dotdot_Join.
  - simpl replicate. simpl app. by rewrite HasPrefix_Join_hd.
Qed.

Lemma RelToExecRoot_exact_witness :
  RelToExecRoot "/er" "out" "..x/y" = "out/..x/y" ∧ RelToExecRoot "/er" "" "..x/y" = "".
Proof.
  split.
  - apply (RelToExecRoot_exact "/er" "out" "..x/y"); [reflexivity|discriminate].
  - apply (RelToExecRoot_exact "/er" "" "..x/y"); [reflexivity|discriminate].
Defined.

(** Translating a path of the command to the exec root and then to the
    working directory, as the proxy does with the outputs it infers, still
    denotes the same file. *)
Theorem RelToWorkingDir_RelToExecRoot er wd p :
  IsAbs er = true → RelToExecRoot er wd p ≠ "" →
  Join [Join [er; wd]; RelToWorkingDir er wd (RelToExecRoot er wd p)]
  = Clean (abs_path er wd p).
Proof.
  intros He Hne. destruct (RelToExecRoot_denotes er wd p _ He eq_refl Hne) as (Hj & Hr & _).
  destruct (RelToWorkingDir_Ok er wd (RelToExecRoot er wd p) He) as (r & -> & _ & ->).
  rewrite Hr, Join2_Clean, Hj; done.
Qed.

Lemma RelToWorkingDir_RelToExecRoot_witness :
  Join [Join ["/er"; "out/d"]; RelToWorkingDir "/er" "out/d" (RelToExecRoot "/er" "out/d" "../x.o")]
  = "/er/out/x.o".
Proof. apply (RelToWorkingDir_RelToExecRoot "/er" "out/d" "../x.o"); [reflexivity|discriminate]. Defined.

(** The canonical remote working directory has as many elements as the
    cleaned working directory it replaces, so relative paths of the command
    that climb out of it keep their meaning. *)
Theorem toRemoteWorkingDir_depth wd :
  IsAbs wd = false → comps (parse wd) ≠ [] →
  parse (toRemoteWorkingDir wd) =
    LPath false ("set_by_reclient" :: replicate (length (comps (parse wd)) - 1) "a") ∧
  depth (toRemoteWorkingDir wd) = depth (Clean wd).
Proof.
  intros Hrel Hne. pose proof (parse_words wd) as Hs.
  assert (depth (Clean wd) = length (comps (parse wd))) as Hd.
  { unfold Clean, render. rewrite IsAbs_parse, Hrel.
    destruct (comps (parse wd)) as [|c cs] eqn:E; [done|]. by apply depth_Join. }
  assert (toRemoteWorkingDir wd =
    Join ("set_by_reclient" :: replicate (depth (Clean wd) - 1) "a")) as ->.
  { unfold toRemoteWorkingDir.
    destruct (String.eqb_spec wd "") as [->|]; [by destruct Hne|].
    destruct (String.eqb_spec wd ".") as [->|]; [by destruct Hne|done]. }
  rewrite Hd. set (n := length _ - 1).
  assert (Forall proper ("set_by_reclient" :: replicate n "a")) as Hp.
  { constructor; [done|]. by apply Forall_replicate. }
  rewrite Join_proper, parse_Join_proper by done. split; [done|].
  rewrite depth_Join; [|done|].
  - cbn [length]. rewrite length_replicate. subst n.
    assert (length (comps (parse wd)) ≠ 0) by by destruct (comps (parse wd)). lia.
  - eapply Forall_impl; [exact Hp|]. intros x (? & _ & _ & ?). done.
Qed.

Lemma toRemoteWorkingDir_depth_witness :
  depth (toRemoteWorkingDir "out//Default/../x") = depth (Clean "out//Default/../x").
Proof. apply (toRemoteWorkingDir_depth "out//Default/../x"); [reflexivity|discriminate]. Defined.

(** [dedup], in whatever order it ranges over its map, returns one path of
    the list for every distinct cleaned path of the list, and that path is the
    first of the list that cleans to it. *)
Theorem Dedup_spec l d :
  Dedup l d →
  NoDup (Clean <$> d) ∧
  (∀ f, f ∈ d ↔ ∃ l1 l2, l = l1 ++ f :: l2 ∧ ∀ g, g ∈ l1 → Clean g ≠ Clean f) ∧
  (∀ f, f ∈ l → ∃ g, g ∈ d ∧ Clean g = Clean f).
Proof.
  intros Hd. split; [by apply (Dedup_NoDup l)|]. split.
  - intros f. by rewrite (Dedup_elem l d f Hd), fileSet_lookup, find_first.
  - intros f. by apply Dedup_covers.
Qed.

Lemma Dedup_spec_witness : NoDup (Clean <$> dedup ["a/b"; "a//b"; "./c"; "a/b/"]).
Proof. apply (Dedup_spec ["a/b"; "a//b"; "./c"; "a/b/"]). unfold Dedup. reflexivity. Defined.

End PathTranslator.
