(* ===== verification/ArgsScanner.v ===== *)
(** * The command-line scanner ([internal/pkg/inputprocessor/args]) and the
    response files read with it ([internal/pkg/rsp]). *)
From S2P Require Import Prelude GoStrings.
From Stdlib Require Import Ascii.

Record PrefixOption := { Prefix : string; NumArgs : Z }.

Record FlagResult := {
  fr_Args : list string;
  NormalizedKey : string;
  OriginalKey : string;
  Values : list string;
  fr_Joined : bool
}.

Definition zero_FlagResult : FlagResult :=
  {| fr_Args := []; NormalizedKey := ""; OriginalKey := ""; Values := []; fr_Joined := false |}.

Record Scanner := {
  sc_Args : list string;
  sc_Flags : gmap string Z;
  sc_Joined : list PrefixOption;
  sc_Normalized : gmap string string;
  PrevResult : FlagResult;
  CurResult : FlagResult
}.

(** A scanner as its clients build it: the results are zero values. *)
Definition new_Scanner (args : list string) (flags : gmap string Z)
    (joined : list PrefixOption) (normalized : gmap string string) : Scanner :=
  {| sc_Args := args; sc_Flags := flags; sc_Joined := joined; sc_Normalized := normalized;
     PrevResult := zero_FlagResult; CurResult := zero_FlagResult |}.

Definition with_Args (s : Scanner) (args : list string) : Scanner :=
  {| sc_Args := args; sc_Flags := sc_Flags s; sc_Joined := sc_Joined s;
     sc_Normalized := sc_Normalized s; PrevResult := PrevResult s; CurResult := CurResult s |}.

Definition HasNext (s : Scanner) : bool := bool_decide (0 < length (sc_Args s)).

Definition normalizedFlag (s : Scanner) (flag : string) : string :=
  default flag (sc_Normalized s !! flag).

(** [s.Args[:n+1], s.Args[n+1:]], or the whole of [s.Args] for a negative [n];
    the slice expressions panic when there are not enough arguments. *)
Definition take_args (args : list string) (n : Z) : res (list string * list string) :=
  if (n <? 0)%Z then Ok (args, [])
  else if (Z.to_nat n + 1 <=? length args)%nat
  then Ok (take (Z.to_nat n + 1) args, drop (Z.to_nat n + 1) args)
  else Panic.

#[global] Arguments take_args : simpl never.

(** The closure [updatedFlag] of [ReadNextFlag]. *)
Definition updatedFlag (s : Scanner) (rest : list string) (nkey okey : string)
    (args values : list string) (joined : bool) : FlagResult * Scanner :=
  let cur := {| fr_Args := args; NormalizedKey := nkey; OriginalKey := okey;
                Values := values; fr_Joined := joined |} in
  (cur, {| sc_Args := rest; sc_Flags := sc_Flags s; sc_Joined := sc_Joined s;
           sc_Normalized := sc_Normalized s; PrevResult := CurResult s; CurResult := cur |}).

Definition ReadNextFlag (s : Scanner) : res (FlagResult * Scanner) :=
  let? flag := index (sc_Args s) 0 in
  let nflag := normalizedFlag s flag in
  match sc_Flags s !! nflag with
  | Some numArgs =>
      let? (args, rest) := take_args (sc_Args s) numArgs in
      let values := if (0 <? numArgs)%Z then drop 1 args else [] in
      Ok (updatedFlag s rest nflag flag args values false)
  | None =>
      match List.find (λ f, HasPrefix flag (Prefix f)) (sc_Joined s) with
      | Some f =>
          let? (args, rest) := take_args (sc_Args s) (NumArgs f) in
          Ok (updatedFlag s rest (normalizedFlag s (Prefix f)) (Prefix f) args
                (TrimPrefix flag (Prefix f) :: drop 1 args) true)
      | None =>
          let? (args, rest) := take_args (sc_Args s) 0 in
          if HasPrefix flag "-"
          then Ok (updatedFlag s rest flag flag args (drop 1 args) false)
          else Ok (updatedFlag s rest "" "" args args false)
      end
  end.

Definition Next (s : Scanner) : res (string * list string * list string * bool * Scanner) :=
  let? (r, s') := ReadNextFlag s in
  Ok (NormalizedKey r, fr_Args r, Values r, fr_Joined r, s').

Definition LookAhead (s : Scanner) : res (string * Scanner) :=
  let? (flag, args, _, _, s') := Next s in
  Ok (flag, with_Args s' (args ++ sc_Args s')).

(** ** Scanning loops

    [for s.HasNext() { s.ReadNextFlag(); body }]: each round consumes an
    argument, so the number of arguments is enough fuel. *)
Fixpoint scan_loop {S} (fuel : nat) (sc : Scanner) (body : Scanner → ST S unit)
    : ST S unit :=
  if HasNext sc then
    match fuel with
    | 0 => st_lift (Fail EFuel)
    | S fuel' =>
        let! (_, sc') := st_lift (ReadNextFlag sc) in
        let! _ := body sc' in
        scan_loop fuel' sc' body
    end
  else st_ret tt.

(** The results of a whole scan, for a body that records them. *)
Definition record_result (sc : Scanner) : ST (list FlagResult) unit :=
  st_modify (λ rs, rs ++ [CurResult sc]).

Definition scan_all (sc : Scanner) : res unit * list FlagResult :=
  scan_loop (length (sc_Args sc)) sc record_result [].

(** ** [rsp] *)

Section Rsp.
(** [os.ReadFile]: the content of a file, or an error such as
    [os.ErrNotExist]. *)
Variable ReadFile : string → res string.

Definition rsp_quote : string := String "'" (String "034" "").

Definition Parse (path : string) : res (list string) :=
  let? data := ReadFile path in
  Ok ((λ flag, Trim flag rsp_quote) <$> Fields data).

Definition ParseWithFunc {S} (path : string) (scanTemplate : Scanner)
    (argHandler : Scanner → ST S unit) : ST S unit :=
  let! res := st_lift (Parse path) in
  scan_loop (length res)
    (new_Scanner res (sc_Flags scanTemplate) (sc_Joined scanTemplate)
       (sc_Normalized scanTemplate))
    argHandler.
End Rsp.

(** ** Lemmas *)

Lemma take_args_Ok args n a r :
  take_args args n = Ok (a, r) → a ++ r = args ∧ (args ≠ [] → a ≠ []).
Proof.
  unfold take_args. destruct (n <? 0)%Z.
  - intros [= <- <-]. split; [apply app_nil_r|done].
  - destruct (_ <=? _)%nat eqn:E; [|done]. intros [= <- <-]. split; [apply take_drop|].
    rewrite Nat.add_1_r. by destruct args.
Qed.

Lemma take_args_no_fail args n e : take_args args n ≠ Fail e.
Proof. unfold take_args. repeat case_if; done. Qed.

Lemma take_args_Panic args n :
  take_args args n = Panic ↔ (Z.of_nat (length args) ≤ n)%Z.
Proof.
  unfold take_args. destruct (Z.ltb_spec n 0); [split; [done|lia]|].
  destruct (Nat.leb_spec (Z.to_nat n + 1) (length args)).
  - split; [done|lia].
  - split; [lia|done].
Qed.

(** The number of arguments after the flag that the scanner wants for it. *)
Definition requested (s : Scanner) (flag : string) : Z :=
  match sc_Flags s !! normalizedFlag s flag with
  | Some n => n
  | None =>
      match List.find (λ f, HasPrefix flag (Prefix f)) (sc_Joined s) with
      | Some f => NumArgs f
      | None => 0
      end
  end.

Definition same_config (s s' : Scanner) : Prop :=
  sc_Flags s' = sc_Flags s ∧ sc_Joined s' = sc_Joined s ∧ sc_Normalized s' = sc_Normalized s.

Lemma same_config_trans s1 s2 s3 :
  same_config s1 s2 → same_config s2 s3 → same_config s1 s3.
Proof. unfold same_config. intros (-> & -> & ->) (-> & -> & ->). done. Qed.

(** Every branch of [ReadNextFlag] takes the requested arguments and stores
    the result. *)
Lemma ReadNextFlag_shape s flag args :
  sc_Args s = flag :: args →
  match take_args (sc_Args s) (requested s flag) with
  | Ok (a, rest) =>
      ∃ nkey okey vs j,
        ReadNextFlag s = Ok (updatedFlag s rest nkey okey a vs j) ∧
        (sc_Flags s !! normalizedFlag s flag = None →
         List.find (λ f, HasPrefix flag (Prefix f)) (sc_Joined s) = None →
         nkey = okey ∧ j = false ∧ (nkey = "" ↔ HasPrefix flag "-" = false))
  | Fail _ => False
  | Panic => ReadNextFlag s = Panic
  end.
Proof.
  intros Ha. unfold ReadNextFlag, requested, index. rewrite Ha.
  change (or_panic ((flag :: args) !! 0)) with (Ok flag). rewrite bind_Ok. cbv zeta.
  destruct (sc_Flags s !! normalizedFlag s flag) as [n|];
    [|destruct (List.find _ _) as [f|]];
    destruct (take_args (flag :: args) _) as [[a rest]|e|] eqn:Et;
    rewrite ?bind_Ok; try done; try by apply take_args_no_fail in Et.
  - by repeat eexists.
  - by repeat eexists.
  - destruct (HasPrefix flag "-") eqn:Ed.
    + exists flag, flag, (drop 1 a), false. split; [done|]. intros _ _. do 2 (split; [done|]).
      split; [by intros ->|done].
    + by exists "", "", a, false.
Qed.

Lemma ReadNextFlag_Ok s r s' :
  ReadNextFlag s = Ok (r, s') →
  sc_Args s = fr_Args r ++ sc_Args s' ∧ fr_Args r ≠ [] ∧ same_config s s' ∧
  PrevResult s' = CurResult s ∧ CurResult s' = r.
Proof.
  destruct (sc_Args s) as [|flag args] eqn:Ha.
  { unfold ReadNextFlag, index. by rewrite Ha. }
  pose proof (ReadNextFlag_shape s flag args Ha) as H. rewrite Ha in H. intros Hr.
  destruct (take_args _ _) as [[a rest]|e|] eqn:Et; [|done|congruence].
  destruct H as (nk & ok & vs & j & H & _). rewrite H in Hr. injection Hr as <- <-.
  apply take_args_Ok in Et as [Heq Hne]. simpl. unfold same_config.
  split_and!; try done. by apply Hne.
Qed.

Lemma ReadNextFlag_no_fail s e : ReadNextFlag s ≠ Fail e.
Proof.
  destruct (sc_Args s) as [|flag args] eqn:Ha.
  { unfold ReadNextFlag, index. by rewrite Ha. }
  pose proof (ReadNextFlag_shape s flag args Ha) as H.
  destruct (take_args _ _) as [[a rest]|e'|] eqn:Et; [|done|congruence].
  destruct H as (nk & ok & vs & j & -> & _). done.
Qed.

Lemma ReadNextFlag_shorter s r s' :
  ReadNextFlag s = Ok (r, s') → length (sc_Args s') < length (sc_Args s).
Proof.
  intros (-> & Hne & _)%ReadNextFlag_Ok. rewrite length_app.
  destruct (fr_Args r); [done|]. simpl. lia.
Qed.

(** More fuel than arguments changes nothing. *)
Lemma scan_loop_fuel {S} fuel1 fuel2 sc (body : Scanner → ST S unit) st :
  length (sc_Args sc) ≤ fuel1 → length (sc_Args sc) ≤ fuel2 →
  scan_loop fuel1 sc body st = scan_loop fuel2 sc body st.
Proof.
  revert fuel2 sc st. induction fuel1 as [|f1 IH]; intros f2 sc st H1 H2.
  - destruct f2; simpl; unfold HasNext; (rewrite bool_decide_false by lia); done.
  - destruct f2 as [|f2]; simpl; unfold HasNext.
    { rewrite bool_decide_false by lia. done. }
    case_bool_decide; [|done]. unfold st_bind, st_lift.
    destruct (ReadNextFlag sc) as [[r sc']| |] eqn:Er; [|done..].
    apply ReadNextFlag_shorter in Er.
    destruct (body sc' st) as [[[]| |] st']; [|done..]. apply IH; lia.
Qed.

(** A scanning loop reports nothing but its body's failures. *)
Lemma scan_loop_outcome {S} sc (body : Scanner → ST S unit) st fuel m st' :
  length (sc_Args sc) ≤ fuel → scan_loop fuel sc body st = (m, st') →
  m = Ok tt ∨ m = Panic ∨ ∃ e sc1 st1, m = Fail e ∧ body sc1 st1 = (Fail e, st').
Proof.
  revert sc st. induction fuel as [|f IH]; intros sc st Hf; simpl; unfold HasNext.
  - rewrite bool_decide_false by lia. intros [= <- <-]. by left.
  - case_bool_decide; [|intros [= <- <-]; by left]. unfold st_bind, st_lift.
    destruct (ReadNextFlag sc) as [[r sc']|e|] eqn:Er;
      [|by apply ReadNextFlag_no_fail in Er|intros [= <- <-]; by right; left].
    apply ReadNextFlag_shorter in Er.
    destruct (body sc' st) as [[[]|e|] st1] eqn:Eb.
    + apply IH. lia.
    + intros [= <- <-]. right; right. eauto.
    + intros [= <- <-]. by right; left.
Qed.

(** An invariant of a scanning loop: it holds of the state and the scanned
    arguments after every round. *)
Lemma scan_loop_invariant {S} (I : list string → S → Prop) sc body st fuel st' :
  I [] st →
  (∀ pre sc0 r sc1 st0 st1,
     pre ++ sc_Args sc0 = sc_Args sc → same_config sc sc0 → I pre st0 →
     ReadNextFlag sc0 = Ok (r, sc1) → body sc1 st0 = (Ok tt, st1) → I (pre ++ fr_Args r) st1) →
  length (sc_Args sc) ≤ fuel → scan_loop fuel sc body st = (Ok tt, st') →
  I (sc_Args sc) st'.
Proof.
  intros H0 Hstep.
  enough (∀ fuel pre sc0 st0, pre ++ sc_Args sc0 = sc_Args sc → same_config sc sc0 →
    I pre st0 → length (sc_Args sc0) ≤ fuel → scan_loop fuel sc0 body st0 = (Ok tt, st') →
    I (sc_Args sc) st') as Hgen.
  { intros Hf Hl. by apply (Hgen fuel [] sc st). }
  clear fuel. induction fuel as [|f IH]; intros pre sc0 st0 Hpre Hc HI Hf; simpl; unfold HasNext.
  - rewrite bool_decide_false by lia. intros [= <-].
    destruct (sc_Args sc0) eqn:E; [|simpl in Hf; lia]. by rewrite <- Hpre, app_nil_r.
  - case_bool_decide as Hn.
    + unfold st_bind, st_lift. destruct (ReadNextFlag sc0) as [[r sc1]| |] eqn:Er; [|done..].
      destruct (body sc1 st0) as [[[]| |] st1] eqn:Eb; [|done..]. intros Hl.
      pose proof (ReadNextFlag_shorter _ _ _ Er).
      pose proof (ReadNextFlag_Ok _ _ _ Er) as (Ha & _ & Hc1 & _).
      apply (IH (pre ++ fr_Args r) sc1 st1); [|by apply (same_config_trans sc sc0)| |lia|done].
      * by rewrite <- app_assoc, <- Ha.
      * by apply (Hstep pre sc0 r sc1 st0 st1).
    + intros [= <-]. destruct (sc_Args sc0) eqn:E; [|simpl in Hn; lia].
      by rewrite <- Hpre, app_nil_r.
Qed.

(** ** The results of a whole scan

    What a scan reads depends on the configuration of the scanner and on its
    arguments alone. *)

Fixpoint read_all_go (fuel : nat) (cfg : Scanner) (args : list string) : res (list FlagResult) :=
  match args with
  | [] => Ok []
  | _ =>
      match fuel with
      | 0 => Fail EFuel
      | S fuel =>
          let? (r, s) := ReadNextFlag (with_Args cfg args) in
          let? rs := read_all_go fuel cfg (sc_Args s) in
          Ok (r :: rs)
      end
  end.

Definition read_all (cfg : Scanner) (args : list string) : res (list FlagResult) :=
  read_all_go (length args) cfg args.

(** A loop whose body looks at the current result alone. *)
Fixpoint fold_results {S} (g : FlagResult → ST S unit) (rs : list FlagResult) : ST S unit :=
  match rs with
  | [] => st_ret tt
  | r :: rs => let! _ := g r in fold_results g rs
  end.

Definition observe (m : res (FlagResult * Scanner)) : res (FlagResult * list string) :=
  (λ p, (p.1, sc_Args p.2)) <$> m.

Lemma same_config_refl s : same_config s s.
Proof. done. Qed.

Lemma same_config_sym s1 s2 : same_config s1 s2 → same_config s2 s1.
Proof. unfold same_config. intros (-> & -> & ->). done. Qed.

Lemma same_config_with_Args cfg args : same_config cfg (with_Args cfg args).
Proof. done. Qed.

Lemma ReadNextFlag_config s1 s2 :
  same_config s1 s2 → sc_Args s1 = sc_Args s2 → observe (ReadNextFlag s1) = observe (ReadNextFlag s2).
Proof.
  intros (H1 & H2 & H3) Ha. unfold ReadNextFlag, normalizedFlag. rewrite Ha, H1, H2, H3.
  destruct (index (sc_Args s2) 0) as [flag|e|]; [|done..]. rewrite !bind_Ok.
  destruct (sc_Flags s1 !! _) as [n|].
  - by destruct (take_args (sc_Args s2) n) as [[a r]|e|].
  - destruct (List.find _ _) as [f|].
    + by destruct (take_args (sc_Args s2) (NumArgs f)) as [[a r]|e|].
    + destruct (HasPrefix flag "-"); by destruct (take_args (sc_Args s2) 0) as [[a r]|e|].
Qed.

Lemma read_all_go_fuel fuel1 fuel2 cfg args :
  length args ≤ fuel1 → length args ≤ fuel2 → read_all_go fuel1 cfg args = read_all_go fuel2 cfg args.
Proof.
  revert fuel2 args. induction fuel1 as [|f1 IH]; intros f2 args H1 H2.
  { destruct args; [by destruct f2|simpl in H1; lia]. }
  destruct args as [|a args]; [by destruct f2|]. destruct f2 as [|f2]; [simpl in H2; lia|]. simpl read_all_go.
  destruct (ReadNextFlag _) as [[r s]|e|] eqn:Er; simpl; [|done..].
  apply ReadNextFlag_shorter in Er. simpl in *. by rewrite (IH f2) by lia.
Qed.

Lemma read_all_cons cfg args r s rs :
  ReadNextFlag (with_Args cfg args) = Ok (r, s) → read_all cfg (sc_Args s) = Ok rs →
  read_all cfg args = Ok (r :: rs).
Proof.
  intros Hr Hrs. pose proof (ReadNextFlag_shorter _ _ _ Hr) as Hl. simpl in Hl.
  unfold read_all in *. destruct args as [|a args]; [simpl in Hl; lia|]. simpl length. simpl read_all_go.
  rewrite Hr. simpl in *. rewrite (read_all_go_fuel _ (length (sc_Args s))) by lia. by rewrite Hrs.
Qed.

Lemma read_all_inv cfg args rs :
  read_all cfg args = Ok rs → args ≠ [] →
  ∃ r s rs', rs = r :: rs' ∧ ReadNextFlag (with_Args cfg args) = Ok (r, s) ∧ read_all cfg (sc_Args s) = Ok rs'.
Proof.
  intros H Hne. unfold read_all in *. destruct args as [|a args]; [done|]. simpl length in H. simpl read_all_go in H.
  destruct (ReadNextFlag _) as [[r s]|e|] eqn:Hr; simpl in H; [|done..].
  pose proof (ReadNextFlag_shorter _ _ _ Hr) as Hl. simpl in Hl.
  rewrite (read_all_go_fuel _ (length (sc_Args s))) in H by lia.
  destruct (read_all_go _ cfg (sc_Args s)) as [rs'|e|] eqn:E; simpl in H; [|done..].
  injection H as <-. by exists r, s, rs'.
Qed.

(** Every argument is in one result, in order. *)
Lemma read_all_args cfg args rs : read_all cfg args = Ok rs → args = concat (fr_Args <$> rs).
Proof.
  remember (length args) as n eqn:Hn. revert args Hn rs.
  induction n as [n IH] using lt_wf_ind; intros args -> rs H.
  destruct (decide (args = [])) as [->|Hne]; [unfold read_all in H; simpl in H; by injection H as <-|].
  apply read_all_inv in H as (r & s & rs' & -> & Hr & Hrs); [|done].
  pose proof (ReadNextFlag_shorter _ _ _ Hr) as Hl. apply ReadNextFlag_Ok in Hr as (Ha & _). simpl in *.
  rewrite Ha at 1. f_equal. by apply (IH (length (sc_Args s))).
Qed.

Lemma take_args_app l1 l2 n a r :
  (0 ≤ n)%Z → take_args l1 n = Ok (a, r) → take_args (l1 ++ l2) n = Ok (a, r ++ l2).
Proof.
  intros Hn. unfold take_args. rewrite (proj2 (Z.ltb_ge n 0)) by done. rewrite length_app.
  destruct (Nat.leb_spec (Z.to_nat n + 1) (length l1)); [|done]. intros [= <- <-].
  rewrite (proj2 (Nat.leb_le _ _)) by lia. by rewrite take_app_le, drop_app_le by lia.
Qed.

(** What is read from a prefix of the arguments does not depend on the rest. *)
Lemma ReadNextFlag_app cfg l1 l2 r s :
  (∀ flag, 0 ≤ requested cfg flag)%Z → ReadNextFlag (with_Args cfg l1) = Ok (r, s) →
  observe (ReadNextFlag (with_Args cfg (l1 ++ l2))) = Ok (r, sc_Args s ++ l2).
Proof.
  intros Hn. unfold ReadNextFlag, requested in *. destruct l1 as [|flag l1]; [done|]. specialize (Hn flag).
  cbn [sc_Args with_Args sc_Flags sc_Joined sc_Normalized app].
  change (index (flag :: l1) 0) with (Ok flag). change (index (flag :: l1 ++ l2) 0) with (Ok flag).
  rewrite !bind_Ok. unfold normalizedFlag in *.
  cbn [sc_Args with_Args sc_Flags sc_Joined sc_Normalized]. change (flag :: l1 ++ l2) with ((flag :: l1) ++ l2).
  destruct (sc_Flags cfg !! _) as [n|].
  - destruct (take_args (flag :: l1) n) as [[a rest]|e|] eqn:Et; [|done..]. rewrite (take_args_app _ l2 _ _ _ Hn Et).
    by intros [= <- <-].
  - destruct (List.find _ _) as [f|].
    + destruct (take_args (flag :: l1) _) as [[a rest]|e|] eqn:Et; [|done..]. rewrite (take_args_app _ l2 _ _ _ Hn Et).
      by intros [= <- <-].
    + destruct (take_args (flag :: l1) 0) as [[a rest]|e|] eqn:Et; [|done..].
      rewrite (take_args_app _ l2 _ _ _ Hn Et), !bind_Ok. by destruct (HasPrefix flag "-"); intros [= <- <-].
Qed.

Lemma observe_Ok m r args : observe m = Ok (r, args) → ∃ s, m = Ok (r, s) ∧ sc_Args s = args.
Proof. destruct m as [[r' s]|e|]; simpl; [|done..]. intros [= -> <-]. by exists s. Qed.

Lemma read_all_app cfg l1 l2 rs1 rs2 :
  (∀ flag, 0 ≤ requested cfg flag)%Z → read_all cfg l1 = Ok rs1 → read_all cfg l2 = Ok rs2 →
  read_all cfg (l1 ++ l2) = Ok (rs1 ++ rs2).
Proof.
  intros Hn H1 H2. remember (length l1) as n eqn:Hl. revert l1 Hl rs1 H1.
  induction n as [n IH] using lt_wf_ind; intros l1 -> rs1 H1.
  destruct (decide (l1 = [])) as [->|Hne]; [unfold read_all in H1; simpl in H1; by injection H1 as <-|].
  apply read_all_inv in H1 as (r & s & rs' & -> & Hr & Hrs); [|done].
  pose proof (ReadNextFlag_shorter _ _ _ Hr) as Hlt. simpl in Hlt.
  apply (ReadNextFlag_app cfg l1 l2) in Hr as (s' & Hr & Ha)%observe_Ok; [|done].
  apply (read_all_cons _ _ _ s'); [done|]. rewrite Ha. by apply (IH (length (sc_Args s))).
Qed.

(** A scanning loop is a fold over the results. *)
Lemma scan_loop_fold {S} cfg (body : Scanner → ST S unit) g args rs st fuel sc :
  (∀ sc st, same_config cfg sc → body sc st = g (CurResult sc) st) →
  read_all cfg args = Ok rs → same_config cfg sc → sc_Args sc = args → length args ≤ fuel →
  scan_loop fuel sc body st = fold_results g rs st.
Proof.
  intros Hb. revert fuel args rs st sc. induction fuel as [|fuel IH]; intros args rs st sc Hrs Hc Ha Hf.
  { destruct args; [|simpl in Hf; lia]. injection Hrs as <-. simpl. unfold HasNext. by rewrite Ha. }
  simpl. unfold HasNext. rewrite Ha. destruct args as [|a args]; [by injection Hrs as <-|].
  rewrite bool_decide_true by (simpl; lia).
  apply read_all_inv in Hrs as (r & s & rs' & -> & Hr & Hrs); [|done].
  pose proof (ReadNextFlag_config (with_Args cfg (a :: args)) sc Hc (eq_sym Ha)) as Hcfg. rewrite Hr in Hcfg.
  symmetry in Hcfg. apply observe_Ok in Hcfg as (sc' & Hsc & Hargs). simpl in Hsc, Hargs.
  pose proof (ReadNextFlag_Ok _ _ _ Hsc) as (_ & _ & Hc' & _ & Hcur). pose proof (ReadNextFlag_shorter _ _ _ Hsc).
  simpl fold_results. unfold st_bind, st_lift. rewrite Hsc, Hb by (by apply (same_config_trans cfg sc)). rewrite Hcur.
  destruct (g r st) as [[[]|e|] st']; [|done..].
  apply (IH (sc_Args s)); [done|by apply (same_config_trans cfg sc)|done|].
  rewrite <- Hargs. rewrite Ha in *. simpl in *. lia.
Qed.

(** ** The order of the joined prefixes *)

Definition prefix_ge (f g : PrefixOption) : Prop := String.le (Prefix g) (Prefix f).

(** A string is not below its proper prefixes in the byte-wise order. *)
Lemma le_app_prefix p t : String.le p (p +:+ t).
Proof.
  unfold String.le, String.leb. induction p as [|a p IH]; [by destruct t|].
  rewrite str_app_cons. simpl. unfold Ascii.compare. by rewrite N.compare_refl.
Qed.

Lemma prefixes_comparable s p q :
  HasPrefix s p = true → HasPrefix s q = true → String.length p ≤ String.length q →
  HasPrefix q p = true.
Proof.
  revert p q. induction s as [|a s IH]; intros p q Hp Hq Hl.
  - destruct p; [by destruct q|done].
  - destruct p as [|b p]; [by destruct q|]. destruct q as [|c q]; [simpl in Hl; lia|].
    simpl in *. apply andb_true_iff in Hp as [->%Ascii.eqb_eq Hp], Hq as [->%Ascii.eqb_eq Hq].
    rewrite Ascii.eqb_refl. apply IH; [done..|lia].
Qed.

Lemma find_spec_first {A} (f : A → bool) l x :
  List.find f l = Some x → ∃ l1 l2, l = l1 ++ x :: l2 ∧ f x = true ∧ ∀ y, y ∈ l1 → f y = false.
Proof.
  induction l as [|y l IH]; simpl; [done|]. destruct (f y) eqn:E.
  - intros [= ->]. exists [], l. split_and!; [done..|]. set_solver.
  - intros (l1 & l2 & -> & Hx & H)%IH. exists (y :: l1), l2. split_and!; [done..|].
    intros z [->|Hz]%elem_of_cons; auto.
Qed.

(** ** Properties *)

(** A call of [ReadNextFlag] splits the remaining arguments: the result
    holds a non-empty prefix of them, the scanner keeps the rest and its
    configuration, and the previous result becomes the one before. *)
Theorem ReadNextFlag_consumes s r s' :
  ReadNextFlag s = Ok (r, s') →
  sc_Args s = fr_Args r ++ sc_Args s' ∧ fr_Args r ≠ [] ∧
  same_config s s' ∧ PrevResult s' = CurResult s ∧ CurResult s' = r.
Proof. apply ReadNextFlag_Ok. Qed.

Definition scanner_example : Scanner :=
  new_Scanner ["-o"; "a.o"; "-Iinc"; "-c"; "x.cc"] {["-o" := 1%Z]}
    [{| Prefix := "-I"; NumArgs := 0 |}] ∅.

Lemma ReadNextFlag_consumes_witness :
  ∃ r s', ReadNextFlag scanner_example = Ok (r, s') ∧
  sc_Args scanner_example = fr_Args r ++ sc_Args s' ∧ Values r = ["a.o"].
Proof.
  eexists _, _. split; [vm_compute; reflexivity|]. split; [|reflexivity].
  apply (ReadNextFlag_consumes scanner_example). vm_compute. reflexivity.
Defined.

(** Scanning a whole command line ends, in a panic or with every argument
    in exactly one result, in order. *)
Theorem scan_all_partitions sc :
  ∃ rs, scan_all sc = (Panic, rs) ∨
        (scan_all sc = (Ok tt, rs) ∧ concat (fr_Args <$> rs) = sc_Args sc ∧
         Forall (λ r, fr_Args r ≠ []) rs).
Proof.
  unfold scan_all. destruct (scan_loop _ sc record_result []) as [m rs] eqn:E. exists rs.
  destruct (scan_loop_outcome sc record_result [] _ m rs (le_n _) E)
    as [->|[->|(e & sc1 & st1 & -> & H)]]; [right|by left|done].
  split; [done|].
  apply (scan_loop_invariant
    (λ pre rs, concat (fr_Args <$> rs) = pre ∧ Forall (λ r, fr_Args r ≠ []) rs)
    sc record_result [] (length (sc_Args sc)) rs); [done| |done|done].
  intros pre sc0 r sc1 st0 st1 _ _ [<- HF] Hr. unfold record_result, st_modify.
  intros [= <-]. apply ReadNextFlag_Ok in Hr as (_ & Hne & _ & _ & ->). split.
  - rewrite fmap_app. apply concat_snoc.
  - apply Forall_app. by repeat constructor.
Qed.

(** The scanner panics exactly when there is no argument left, or when the
    flag it reads wants more arguments than the command line still holds; it
    never returns an error. *)
Theorem ReadNextFlag_panics s :
  (ReadNextFlag s = Panic ↔
   match sc_Args s with
   | [] => True
   | flag :: _ => (Z.of_nat (length (sc_Args s)) ≤ requested s flag)%Z
   end) ∧ ∀ e, ReadNextFlag s ≠ Fail e.
Proof.
  split; [|apply ReadNextFlag_no_fail].
  destruct (sc_Args s) as [|flag args] eqn:Ha.
  { unfold ReadNextFlag, index. by rewrite Ha. }
  pose proof (ReadNextFlag_shape s flag args Ha) as H. rewrite Ha in H.
  rewrite <- take_args_Panic.
  destruct (take_args _ _) as [[a rest]|e'|] eqn:Et; [|done|done].
  destruct H as (nk & ok & vs & j & -> & _). done.
Qed.

(** [LookAhead] leaves the arguments as they were, and the flag it returns
    is the one that the following call of [Next] reads. *)
Theorem LookAhead_peeks s k s' :
  LookAhead s = Ok (k, s') →
  sc_Args s' = sc_Args s ∧ ∃ r s'', ReadNextFlag s' = Ok (r, s'') ∧ NormalizedKey r = k.
Proof.
  unfold LookAhead, Next. intros H.
  destruct (ReadNextFlag s) as [[r s1]| |] eqn:Er; [|done..]. simpl in H.
  injection H as <- <-. destruct (ReadNextFlag_Ok _ _ _ Er) as (Ha & _ & (H1 & H2 & H3) & _).
  simpl. split; [done|].
  assert (∀ s2, sc_Args s2 = sc_Args s → same_config s s2 →
    ∃ s3, ReadNextFlag s2 = Ok (r, s3)) as Hdet.
  { intros s2 Ha2 (Hc1 & Hc2 & Hc3). revert Er. unfold ReadNextFlag, normalizedFlag.
    rewrite Ha2, Hc1, Hc2, Hc3.
    destruct (index (sc_Args s) 0); [|done..]. rewrite !bind_Ok.
    repeat case_match; simplify_eq; try destruct (take_args _ _) as [[??]| |];
      rewrite ?bind_Ok; try done; unfold updatedFlag; repeat case_match; naive_solver. }
  destruct (Hdet (with_Args s1 (fr_Args r ++ sc_Args s1))) as [s3 Hs3]; [done..|].
  exists r, s3. done.
Qed.

Lemma LookAhead_peeks_witness :
  ∃ s', LookAhead scanner_example = Ok ("-o", s') ∧ sc_Args s' = sc_Args scanner_example.
Proof.
  eexists. split; [vm_compute; reflexivity|].
  apply (LookAhead_peeks scanner_example "-o"). vm_compute. reflexivity.
Defined.

(** With the joined prefixes in reverse lexicographic order, as the clang
    tables are sorted, the prefix the scanner selects is the longest one that
    the argument begins with. *)
Theorem joined_longest_match s flag f :
  StronglySorted prefix_ge (sc_Joined s) →
  List.find (λ f, HasPrefix flag (Prefix f)) (sc_Joined s) = Some f →
  HasPrefix flag (Prefix f) = true ∧
  ∀ g, g ∈ sc_Joined s → HasPrefix flag (Prefix g) = true →
    String.length (Prefix g) ≤ String.length (Prefix f).
Proof.
  intros Hs Hf. apply find_spec_first in Hf as (l1 & l2 & El & Hp & Hl1). split; [done|].
  intros g Hg Hgp. rewrite El in Hs, Hg. destruct (Nat.le_gt_cases (String.length (Prefix g))
    (String.length (Prefix f))) as [|Hlt]; [done|exfalso].
  apply elem_of_app in Hg as [Hg|Hg]; [by rewrite (Hl1 g Hg) in Hgp|].
  apply elem_of_cons in Hg as [->|Hg]; [lia|].
  apply StronglySorted_app_1_r, StronglySorted_cons in Hs as [Hall _].
  rewrite Forall_forall in Hall. specialize (Hall g Hg). unfold prefix_ge in Hall.
  pose proof (prefixes_comparable flag (Prefix f) (Prefix g) Hp Hgp) as Hc.
  assert (HasPrefix (Prefix g) (Prefix f) = true) as [t Ht]%HasPrefix_spec by (apply Hc; lia).
  assert (Prefix g = Prefix f) as Heq.
  { apply (anti_symm String.le); [done|]. rewrite Ht. apply le_app_prefix. }
  rewrite Heq in Hlt. lia.
Qed.

Definition joined_example : Scanner :=
  new_Scanner ["-fprofile-use=x"] ∅
    [{| Prefix := "-fprofile-use="; NumArgs := 0 |}; {| Prefix := "-f"; NumArgs := 0 |}] ∅.

Lemma joined_longest_match_witness : String.length "-f" ≤ String.length "-fprofile-use=".
Proof.
  apply (joined_longest_match joined_example "-fprofile-use=x"
    {| Prefix := "-fprofile-use="; NumArgs := 0 |}) with (g := {| Prefix := "-f"; NumArgs := 0 |}).
  - repeat constructor.
  - reflexivity.
  - right. left.
  - reflexivity.
Defined.
