(* ===== verification/Compare.v ===== *)
(** * Compare mode: [internal/pkg/reproxy/compare.go]

    After the reruns of an action, [compareAction] gathers the output digests
    and exit codes that the local and remote reruns produced and classifies
    each output path.  The abstract specification at the end of the file is on
    sets of observations; the theorems show that the code, with its lists and
    its order-free [dedup], implements it. *)
From S2P Require Import Prelude GoStrings GoPath PathTranslator.
Import Filepath PathTranslator.

Module Compare.

Inductive DeterminismStatus :=
  | UNKNOWN
  | DETERMINISTIC
  | NON_DETERMINISTIC
  | REMOTE_NON_DETERMINISTIC.

#[export] Instance DeterminismStatus_eq_dec : EqDecision DeterminismStatus.
Proof. solve_decision. Defined.

Record Mismatch := {
  Path : string;
  ActionDigest : string;
  LocalDigests : list string;
  RemoteDigests : list string;
  LocalExitCodes : list Z;
  RemoteExitCodes : list Z;
  Determinism : DeterminismStatus
}.

Record Verification := {
  Mismatches : list Mismatch;
  TotalMismatches : Z;
  TotalVerified : Z
}.

Record RerunMetadata := {
  OutputFileDigests : gmap string string;
  OutputDirectoryDigests : gmap string string;
  ExitCode : Z
}.

(** The parts of an action that compare mode reads: its digest, the numbers of
    reruns asked for, and the recorded reruns.  [remoteReruns] is [None] when
    the record has no remote metadata. *)
Record action := {
  compare : bool;
  digest : string;
  numLocalReruns : nat;
  numRemoteReruns : nat;
  localReruns : list RerunMetadata;
  remoteReruns : option (list RerunMetadata)
}.

Section Compare.

(** Some resolution of the order in which [dedup] ranges over its map. *)
Variable dedup_go : list string → list string.
Hypothesis dedup_go_any : ∀ l, Dedup l (dedup_go l).

Definition new_mismatch (fp d : string) : Mismatch :=
  {| Path := fp; ActionDigest := d; LocalDigests := []; RemoteDigests := [];
     LocalExitCodes := []; RemoteExitCodes := []; Determinism := UNKNOWN |}.

Definition add_digest (remote : bool) (dg : string) (m : Mismatch) : Mismatch :=
  {| Path := Path m; ActionDigest := ActionDigest m;
     LocalDigests := if remote then LocalDigests m else dedup_go (LocalDigests m ++ [dg]);
     RemoteDigests := if remote then dedup_go (RemoteDigests m ++ [dg]) else RemoteDigests m;
     LocalExitCodes := LocalExitCodes m; RemoteExitCodes := RemoteExitCodes m;
     Determinism := Determinism m |}.

(** One round of the loop of [findMismatches] over the digests. *)
Definition find_step (adigest : string) (remote : bool)
    (acc : gmap string Mismatch * Z) (kv : string * string) : gmap string Mismatch * Z :=
  let '(ms, numVerified) := acc in
  let fp := ToSlash kv.1 in
  let '(ms, numVerified) :=
    match ms !! fp with
    | Some _ => (ms, numVerified)
    | None => (<[fp := new_mismatch fp adigest]> ms, (numVerified + 1)%Z)
    end in
  (alter (add_digest remote kv.2) fp ms, numVerified).

(** [allDg]: the file digests, overwritten by the directory digests. *)
Definition allDg (fileDg dirDg : gmap string string) : gmap string string := dirDg ∪ fileDg.

Definition findMismatches (fileDg dirDg : gmap string string)
    (mismatches : gmap string Mismatch) (adigest : string) (remote : bool)
    : gmap string Mismatch * Z :=
  foldl (find_step adigest remote) (mismatches, 0%Z) (map_to_list (allDg fileDg dirDg)).

Definition dedup_exit_step (acc : list Z * gset Z) (n : Z) : list Z * gset Z :=
  let '(r, seen) := acc in
  if decide (n ∈ seen) then (r, seen) else (r ++ [n], {[n]} ∪ seen).

Definition dedupExitCodes (l : list Z) : list Z := (foldl dedup_exit_step ([], ∅) l).1.

(** The common body of [compareDigests] and [compareExitCodes]. *)
Definition compareObservations {A} `{EqDecision A} (locals remotes : list A)
    (numLocalReruns numRemoteReruns : nat) : DeterminismStatus * bool :=
  let totalReruns := numLocalReruns + numRemoteReruns in
  let localMismatches := length locals in
  let remoteMismatches := length remotes in
  if bool_decide (1 < localMismatches) || bool_decide (1 < remoteMismatches) then
    if bool_decide (localMismatches = 1) then (REMOTE_NON_DETERMINISTIC, true)
    else (NON_DETERMINISTIC, true)
  else
    let both := bool_decide (localMismatches = 1) && bool_decide (remoteMismatches = 1) in
    let deterministicMismatch :=
      both && bool_decide (locals !! 0 ≠ remotes !! 0) && bool_decide (2 < totalReruns) in
    let localDeterministic := bool_decide (localMismatches = 1) && bool_decide (numRemoteReruns = 0) in
    let remoteDeterministic := bool_decide (remoteMismatches = 1) && bool_decide (numLocalReruns = 0) in
    let deterministic := both && bool_decide (locals !! 0 = remotes !! 0) in
    if localDeterministic || remoteDeterministic || deterministic || deterministicMismatch
    then (DETERMINISTIC, deterministicMismatch)
    else (UNKNOWN, true).

Definition compareDigests (localDigests remoteDigests : list string) (nl nr : nat) :=
  compareObservations localDigests remoteDigests nl nr.

Definition compareExitCodes (localExitCodes remoteExitCodes : list Z) (nl nr : nat) :=
  compareObservations localExitCodes remoteExitCodes nl nr.

Definition join_status (dg ec : DeterminismStatus) : DeterminismStatus :=
  if bool_decide (dg = UNKNOWN) || bool_decide (ec = UNKNOWN) then UNKNOWN
  else if bool_decide (dg = REMOTE_NON_DETERMINISTIC) || bool_decide (ec = REMOTE_NON_DETERMINISTIC)
  then REMOTE_NON_DETERMINISTIC
  else if bool_decide (dg = NON_DETERMINISTIC) || bool_decide (ec = NON_DETERMINISTIC)
  then NON_DETERMINISTIC
  else DETERMINISTIC.

(** The body of the last loop of [compareAction]: [None] deletes the entry. *)
Definition classify (a : action) (lec rec : list Z) (m : Mismatch) : option Mismatch :=
  let '(dgStatus, logDg) := compareDigests (LocalDigests m) (RemoteDigests m)
    (numLocalReruns a) (numRemoteReruns a) in
  let '(ecStatus, logEc) := compareExitCodes lec rec (numLocalReruns a) (numRemoteReruns a) in
  if negb logDg && negb logEc then None
  else Some {|
    Path := Path m; ActionDigest := ActionDigest m;
    LocalDigests := if negb logDg then [] else LocalDigests m;
    RemoteDigests := if negb logDg then [] else RemoteDigests m;
    LocalExitCodes := if logDg && negb logEc then [] else lec;
    RemoteExitCodes := if logDg && negb logEc then [] else rec;
    Determinism := join_status dgStatus ecStatus |}.

Definition mismatchesToProto (ms : gmap string Mismatch) (numVerified : Z) : Verification :=
  let keys := sort_Strings (map_to_list ms).*1 in
  {| Mismatches := omap (λ k, ms !! k) keys;
     TotalMismatches := int32 (Z.of_nat (size ms));
     TotalVerified := int64 numVerified |}.

Definition gather_step (adigest : string) (remote : bool)
    (acc : gmap string Mismatch * Z * list Z) (r : RerunMetadata) :=
  let '(ms, n, codes) := acc in
  let '(ms', k) := findMismatches (OutputFileDigests r) (OutputDirectoryDigests r) ms adigest remote in
  (ms', (n + k)%Z, codes ++ [ExitCode r]).

(** The two gathering loops of [compareAction]. *)
Definition gather (a : action) : gmap string Mismatch * Z * list Z * list Z :=
  let '(ms, n, lec) := foldl (gather_step (digest a) false) (∅, 0%Z, []) (localReruns a) in
  let '(ms, n, rec) := foldl (gather_step (digest a) true) (ms, n, [])
                         (default [] (remoteReruns a)) in
  (ms, n, dedupExitCodes lec, dedupExitCodes rec).

(** The value stored in [LocalMetadata.Verification], [None] when the action is
    not compared. *)
Definition compareAction (a : action) : option Verification :=
  if negb (compare a) then None else
  let '(ms, n, lec, rec) := gather a in
  Some (mismatchesToProto (omap (classify a lec rec) ms) n).

(** ** Abstract specification *)

Definition digests_of (r : RerunMetadata) : gmap string string :=
  allDg (OutputFileDigests r) (OutputDirectoryDigests r).

(** The digests that a list of reruns observed for a path. *)
Definition observed (rs : list RerunMetadata) (fp : string) : list string :=
  omap (λ r, digests_of r !! fp) rs.

Definition obs_set (rs : list RerunMetadata) (fp : string) : gset string :=
  list_to_set (observed rs fp).

Definition code_set (rs : list RerunMetadata) : gset Z := list_to_set (ExitCode <$> rs).

(** The verdict on the sets of local and remote observations. *)
Definition spec_compare {A} `{Countable A} (L R : gset A) (nl nr : nat)
    : DeterminismStatus * bool :=
  if bool_decide (1 < size L ∨ 1 < size R) then
    (if bool_decide (size L = 1) then REMOTE_NON_DETERMINISTIC else NON_DETERMINISTIC, true)
  else
    let mismatch := bool_decide (size L = 1 ∧ size R = 1 ∧ L ≠ R ∧ 2 < nl + nr) in
    if bool_decide (size L = 1 ∧ nr = 0) || bool_decide (size R = 1 ∧ nl = 0)
       || bool_decide (size L = 1 ∧ L = R) || mismatch
    then (DETERMINISTIC, mismatch)
    else (UNKNOWN, true).

(** The verdict on a path: [None] when the path is not reported. *)
Definition spec_path (a : action) (fp : string) : option DeterminismStatus :=
  let L := obs_set (localReruns a) fp in
  let R := obs_set (default [] (remoteReruns a)) fp in
  let '(ds, ldg) := spec_compare L R (numLocalReruns a) (numRemoteReruns a) in
  let '(es, lec) := spec_compare (code_set (localReruns a))
    (code_set (default [] (remoteReruns a))) (numLocalReruns a) (numRemoteReruns a) in
  if bool_decide (L ∪ R = ∅) then None
  else if negb ldg && negb lec then None
  else Some (join_status ds es).

(** ** Lemmas *)

Lemma compareObservations_sets {A} `{Countable A} (locals remotes : list A) nl nr :
  NoDup locals → NoDup remotes →
  compareObservations locals remotes nl nr
  = spec_compare (list_to_set locals) (list_to_set remotes) nl nr.
Proof.
  intros HL HR. unfold compareObservations, spec_compare. cbv zeta.
  rewrite !size_list_to_set by done.
  assert (bool_decide (1 < length locals ∨ 1 < length remotes) =
    bool_decide (1 < length locals) || bool_decide (1 < length remotes)) as ->
    by (repeat case_bool_decide; simpl; first [done|lia]).
  destruct (bool_decide (1 < length locals) || bool_decide (1 < length remotes)) eqn:E.
  { by repeat case_bool_decide. }
  apply orb_false_iff in E as [E1%bool_decide_eq_false E2%bool_decide_eq_false].
  destruct locals as [|x [|??]], remotes as [|y [|??]]; simpl in E1, E2; try lia; simpl;
    repeat case_bool_decide; simpl in *; try done; try set_solver.
Qed.

(** The effect of one pass over the digests, for any order of the keys. *)
Lemma find_step_foldl dig remote kvs ms n :
  NoDup kvs.*1 →
  let r := foldl (find_step dig remote) (ms, n) kvs in
  (∀ fp, r.1 !! fp =
    match (list_to_map kvs : gmap string string) !! fp with
    | None => ms !! fp
    | Some dg => Some (add_digest remote dg (default (new_mismatch fp dig) (ms !! fp)))
    end) ∧
  (r.2 = n + (Z.of_nat (size r.1) - Z.of_nat (size ms)))%Z.
Proof.
  revert ms n. induction kvs as [|[k d] kvs IH]; intros ms n Hnd; simpl.
  { split; [done|lia]. }
  apply NoDup_cons in Hnd as [Hk Hnd]. unfold ToSlash.
  set (ms0 := if ms !! k is Some _ then ms else <[k := new_mismatch k dig]> ms).
  set (n0 := if ms !! k is Some _ then n else (n + 1)%Z).
  assert ((let '(ms1, numVerified) := match ms !! k with Some _ => (ms, n)
      | None => (<[k := new_mismatch k dig]> ms, (n + 1)%Z) end in
      (alter (add_digest remote d) k ms1, numVerified)) = (alter (add_digest remote d) k ms0, n0)) as ->.
  { subst ms0 n0. by destruct (ms !! k). }
  destruct (IH (alter (add_digest remote d) k ms0) n0 Hnd) as [IH1 IH2].
  assert (size (alter (add_digest remote d) k ms0) = size ms0) as Hsz
    by by rewrite <- !size_dom, dom_alter_L.
  split.
  - intros fp. rewrite IH1. destruct (decide (k = fp)) as [<-|Hne].
    + rewrite lookup_insert_eq.
      rewrite (not_elem_of_list_to_map_1 kvs k) by done.
      rewrite lookup_alter_eq. subst ms0. by destruct (ms !! k) eqn:E; [rewrite E|rewrite lookup_insert_eq].
    + rewrite lookup_insert_ne, lookup_alter_ne by done. subst ms0.
      by destruct (ms !! k); [|rewrite lookup_insert_ne by done].
  - rewrite IH2, Hsz. subst ms0 n0. destruct (ms !! k) eqn:E; [lia|].
    rewrite map_size_insert_None by done. lia.
Qed.

Lemma findMismatches_spec f d ms dig remote :
  let r := findMismatches f d ms dig remote in
  (∀ fp, r.1 !! fp =
    match allDg f d !! fp with
    | None => ms !! fp
    | Some dg => Some (add_digest remote dg (default (new_mismatch fp dig) (ms !! fp)))
    end) ∧
  (r.2 = Z.of_nat (size r.1) - Z.of_nat (size ms))%Z.
Proof.
  unfold findMismatches.
  destruct (find_step_foldl dig remote (map_to_list (allDg f d)) ms 0 (NoDup_fst_map_to_list _)) as [H1 H2].
  rewrite list_to_map_to_list in H1. split; [exact H1|lia].
Qed.

Definition clean_digests (rs : list RerunMetadata) : Prop :=
  ∀ fp, Forall (λ d, Clean d = d) (observed rs fp).

(** A digest list holds exactly the observations [obs], once each. *)
Definition holds (l obs : list string) : Prop :=
  NoDup l ∧ (∀ x, x ∈ l ↔ x ∈ obs) ∧ Forall (λ x, Clean x = x) l.

Lemma holds_nil : holds [] [].
Proof. split; [constructor|]. split; [done|constructor]. Qed.

Lemma holds_snoc l obs d :
  holds l obs → Clean d = d → holds (dedup_go (l ++ [d])) (obs ++ [d]).
Proof.
  intros (Hn & He & Hc) Hd.
  destruct (Dedup_clean (l ++ [d]) _ (dedup_go_any _)) as (H1 & H2 & H3).
  { apply Forall_app. by repeat constructor. }
  split; [done|]. split; [|done]. intros x. rewrite H2, !elem_of_app. by rewrite He.
Qed.

Lemma holds_set l obs : holds l obs → list_to_set l =@{gset string} list_to_set obs.
Proof. intros (_ & He & _). apply set_eq. intros x. by rewrite !elem_of_list_to_set, He. Qed.

(** What the map holds after the reruns [rl] and [rr] were gathered. *)
Definition gathered (ms : gmap string Mismatch) (rl rr : list RerunMetadata) : Prop :=
  ∀ fp, match ms !! fp with
        | None => observed rl fp = [] ∧ observed rr fp = []
        | Some m => Path m = fp ∧ observed rl fp ++ observed rr fp ≠ [] ∧
                    holds (LocalDigests m) (observed rl fp) ∧
                    holds (RemoteDigests m) (observed rr fp)
        end.

Lemma observed_snoc rs r fp :
  observed (rs ++ [r]) fp = observed rs fp ++ match digests_of r !! fp with Some d => [d] | None => [] end.
Proof. unfold observed. rewrite omap_app. simpl. by destruct (digests_of r !! fp). Qed.

Lemma gathered_step remote dig ms rl rr r :
  gathered ms rl rr → clean_digests [r] →
  let ms' := (findMismatches (OutputFileDigests r) (OutputDirectoryDigests r) ms dig remote).1 in
  gathered ms' (if remote then rl else rl ++ [r]) (if remote then rr ++ [r] else rr).
Proof.
  intros Hg Hc ms' fp. subst ms'.
  destruct (findMismatches_spec (OutputFileDigests r) (OutputDirectoryDigests r) ms dig remote) as [-> _].
  specialize (Hg fp). specialize (Hc fp). unfold observed in Hc. simpl in Hc.
  fold (digests_of r). destruct (digests_of r !! fp) as [d|] eqn:Ed.
  - assert (Clean d = d) as Hd by by apply Forall_cons in Hc as [? _].
    destruct (ms !! fp) as [m|]; simpl.
    + destruct Hg as (HP & Hne & HL & HR).
      destruct remote; simpl; rewrite ?observed_snoc, ?Ed; (split; [done|]);
        (split; [by destruct (observed rl fp), (observed rr fp)|]); auto using holds_snoc.
    + destruct Hg as [HL HR].
      destruct remote; simpl; rewrite ?observed_snoc, ?Ed, ?HL, ?HR;
        do 3 (split; [first [done|apply holds_nil|by apply (holds_snoc [] [] d holds_nil)]|]);
        first [apply holds_nil|by apply (holds_snoc [] [] d holds_nil)].
  - destruct (ms !! fp) as [m|]; destruct remote; rewrite ?observed_snoc, ?Ed, ?app_nil_r; done.
Qed.

Lemma clean_digests_cons r rs : clean_digests (r :: rs) → clean_digests [r] ∧ clean_digests rs.
Proof.
  intros H. split; intros fp; specialize (H fp); unfold observed in *; simpl in *;
    destruct (digests_of r !! fp); try constructor; by inversion H.
Qed.

Lemma gather_loop remote dig rs ms n codes rl rr :
  gathered ms rl rr → clean_digests rs →
  let r := foldl (gather_step dig remote) (ms, n, codes) rs in
  gathered r.1.1 (if remote then rl else rl ++ rs) (if remote then rr ++ rs else rr) ∧
  r.2 = codes ++ (ExitCode <$> rs) ∧
  (r.1.2 = n + (Z.of_nat (size r.1.1) - Z.of_nat (size ms)))%Z.
Proof.
  revert ms n codes rl rr. induction rs as [|r rs IH]; intros ms n codes rl rr Hg Hc; simpl.
  { rewrite !app_nil_r. split; [by destruct remote|]. split; [done|lia]. }
  apply clean_digests_cons in Hc as [Hr Hrs].
  pose proof (gathered_step remote dig ms rl rr r Hg Hr) as Hg'.
  pose proof (proj2 (findMismatches_spec (OutputFileDigests r) (OutputDirectoryDigests r) ms dig remote)) as Hn.
  destruct (findMismatches _ _ ms dig remote) as [ms' k]. simpl in *.
  destruct (IH ms' (n + k)%Z (codes ++ [ExitCode r]) _ _ Hg' Hrs) as (H1 & H2 & H3).
  split; [|split; [by rewrite H2, <- app_assoc|lia]].
  destruct remote; by rewrite <- app_assoc in H1.
Qed.

Lemma dedupExitCodes_spec l :
  NoDup (dedupExitCodes l) ∧ list_to_set (dedupExitCodes l) =@{gset Z} list_to_set l.
Proof.
  unfold dedupExitCodes.
  enough (∀ r seen, NoDup r → list_to_set r =@{gset Z} seen →
    let p := foldl dedup_exit_step (r, seen) l in
    NoDup p.1 ∧ list_to_set p.1 =@{gset Z} seen ∪ list_to_set l) as H.
  { destruct (H [] ∅) as [H1 H2]; [constructor|done|]. split; [done|]. rewrite H2. set_solver. }
  induction l as [|n l IH]; intros r seen Hr Hs; simpl; [set_solver|].
  case_decide as Hin.
  - destruct (IH r seen Hr Hs) as [H1 H2]. split; [done|]. rewrite H2. set_solver.
  - destruct (IH (r ++ [n]) ({[n]} ∪ seen)) as [H1 H2].
    + apply NoDup_app. repeat split; [done| |by repeat constructor; set_solver].
      intros x Hx ->%list_elem_of_singleton. set_solver.
    + set_solver.
    + split; [done|]. rewrite H2. set_solver.
Qed.

Definition remotes (a : action) : list RerunMetadata := default [] (remoteReruns a).

Lemma gather_spec a :
  clean_digests (localReruns a) → clean_digests (remotes a) →
  ∃ ms lec rec, gather a = (ms, Z.of_nat (size ms), lec, rec) ∧
    gathered ms (localReruns a) (remotes a) ∧
    NoDup lec ∧ list_to_set lec = code_set (localReruns a) ∧
    NoDup rec ∧ list_to_set rec = code_set (remotes a).
Proof.
  intros Hl Hr. unfold gather. fold (remotes a).
  destruct (gather_loop false (digest a) (localReruns a) ∅ 0 [] [] []) as (H1 & H2 & H3);
    [by intros fp; rewrite lookup_empty|done|].
  destruct (foldl _ (∅, 0%Z, []) _) as [[ms n] lec]. simpl in *.
  destruct (gather_loop true (digest a) (remotes a) ms n [] _ _ H1 Hr) as (G1 & G2 & G3).
  destruct (foldl _ (ms, n, []) _) as [[ms' n'] rec]. simpl in *.
  rewrite map_size_empty in H3. subst lec rec.
  destruct (dedupExitCodes_spec (ExitCode <$> localReruns a)).
  destruct (dedupExitCodes_spec (ExitCode <$> remotes a)).
  exists ms', (dedupExitCodes (ExitCode <$> localReruns a)), (dedupExitCodes (ExitCode <$> remotes a)).
  split_and!; try done. repeat f_equal. lia.
Qed.

(** The classified map carries the specification's verdict on every path. *)
Lemma classified_spec a ms lec rec fp :
  gathered ms (localReruns a) (remotes a) →
  NoDup lec → list_to_set lec = code_set (localReruns a) →
  NoDup rec → list_to_set rec = code_set (remotes a) →
  match omap (classify a lec rec) ms !! fp with
  | Some m => Path m = fp ∧ spec_path a fp = Some (Determinism m)
  | None => spec_path a fp = None
  end.
Proof.
  intros Hg Hnl Hsl Hnr Hsr. rewrite lookup_omap. specialize (Hg fp).
  unfold spec_path. fold (remotes a). unfold obs_set.
  destruct (ms !! fp) as [m|]; simpl.
  - destruct Hg as (HP & Hne & HL & HR). unfold classify, compareDigests, compareExitCodes.
    rewrite (compareObservations_sets (LocalDigests m)) by first [apply HL|apply HR].
    rewrite compareObservations_sets by done. rewrite Hsl, Hsr.
    rewrite (holds_set _ _ HL), (holds_set _ _ HR).
    destruct (spec_compare (list_to_set (observed (localReruns a) fp)) _ _ _) as [ds ldg].
    destruct (spec_compare (code_set _) _ _ _) as [es lc].
    rewrite bool_decide_false.
    + by destruct ldg, lc.
    + rewrite <- list_to_set_app_L. intros E. apply Hne.
      destruct (observed (localReruns a) fp ++ observed (remotes a) fp); [done|]. set_solver.
  - destruct Hg as [-> ->]. simpl.
    destruct (spec_compare ∅ _ _ _) as [ds ldg]. destruct (spec_compare (code_set _) _ _ _) as [es lc].
    by rewrite bool_decide_true by set_solver.
Qed.

(** The list of the proto is the map, in the order of its keys. *)
Lemma mismatchesToProto_paths ms n :
  (∀ fp m, ms !! fp = Some m → Path m = fp) →
  Path <$> Mismatches (mismatchesToProto ms n) = sort_Strings (map_to_list ms).*1.
Proof.
  intros HP. unfold mismatchesToProto. simpl.
  assert (∀ k, k ∈ sort_Strings (map_to_list ms).*1 → is_Some (ms !! k)) as Hin.
  { intros k. rewrite sort_Strings_perm, list_elem_of_fmap.
    intros ([k' m] & -> & H%elem_of_map_to_list). eauto. }
  induction (sort_Strings (map_to_list ms).*1) as [|k ks IH]; [done|]. simpl.
  destruct (Hin k) as [m Hm]; [by left|]. rewrite Hm. simpl. f_equal; [by apply HP|].
  apply IH. intros k' Hk. apply Hin. by right.
Qed.

Lemma mismatchesToProto_elem ms n m :
  m ∈ Mismatches (mismatchesToProto ms n) ↔ ∃ fp, ms !! fp = Some m.
Proof.
  unfold mismatchesToProto. simpl. rewrite list_elem_of_omap. split.
  - intros (k & _ & H). eauto.
  - intros [fp H]. exists fp. split; [|done]. rewrite sort_Strings_perm, list_elem_of_fmap.
    exists (fp, m). split; [done|]. by apply elem_of_map_to_list.
Qed.

Lemma mismatchesToProto_sorted ms n :
  (∀ fp m, ms !! fp = Some m → Path m = fp) →
  let v := mismatchesToProto ms n in
  StronglySorted String.le (Path <$> Mismatches v) ∧ NoDup (Path <$> Mismatches v) ∧
  length (Mismatches v) = size ms.
Proof.
  intros HP v. subst v. rewrite (mismatchesToProto_paths ms n HP). split_and!.
  - apply sort_Strings_sorted.
  - rewrite sort_Strings_perm. apply NoDup_fst_map_to_list.
  - rewrite <- (length_fmap Path), (mismatchesToProto_paths ms n HP), sort_Strings_perm.
    by rewrite length_fmap, length_map_to_list.
Qed.

(** The paths for which some rerun produced an output. *)
Definition all_paths (rs : list RerunMetadata) : gset string := ⋃ ((λ r, dom (digests_of r)) <$> rs).

Lemma elem_of_all_paths rs fp : fp ∈ all_paths rs ↔ observed rs fp ≠ [].
Proof.
  unfold all_paths. rewrite elem_of_union_list. split.
  - intros (X & (r & -> & Hr)%list_elem_of_fmap & H). apply elem_of_dom in H as [d Hd].
    assert (d ∈ observed rs fp) as Hin by (apply list_elem_of_omap; eauto).
    by destruct (observed rs fp); [apply elem_of_nil in Hin|].
  - intros Hne. destruct (observed rs fp) as [|d ds] eqn:E; [done|].
    assert (d ∈ observed rs fp) as Hin by (rewrite E; left).
    apply list_elem_of_omap in Hin as (r & Hr & Hd). exists (dom (digests_of r)).
    split; [|by apply elem_of_dom_2 in Hd]. apply list_elem_of_fmap. eauto.
Qed.

Lemma gathered_dom ms rl rr : gathered ms rl rr → dom ms = all_paths (rl ++ rr).
Proof.
  intros Hg. apply set_eq. intros fp. rewrite elem_of_dom, elem_of_all_paths.
  unfold observed. rewrite omap_app. specialize (Hg fp). unfold observed in Hg.
  destruct (ms !! fp).
  - destruct Hg as (_ & Hne & _). split; [done|by eexists].
  - destruct Hg as [-> ->]. split; [by intros [? ?]|done].
Qed.

(** Reruns that all produced the digests [dm] and the exit code [c]. *)
Definition agree (rs : list RerunMetadata) (dm : gmap string string) (c : Z) : Prop :=
  ∀ r, r ∈ rs → digests_of r = dm ∧ ExitCode r = c.

Lemma agree_clean rs dm c :
  agree rs dm c → (∀ fp d, dm !! fp = Some d → Clean d = d) → clean_digests rs.
Proof.
  intros Ha Hd fp. apply Forall_forall. intros d (r & Hin & Hr)%list_elem_of_omap.
  destruct (Ha r Hin) as [E _]. rewrite E in Hr. eauto.
Qed.

Lemma obs_set_agree rs dm c fp :
  agree rs dm c →
  obs_set rs fp = match rs, dm !! fp with _ :: _, Some d => {[d]} | _, _ => ∅ end.
Proof.
  intros Ha. apply set_eq. intros x. unfold obs_set, observed.
  rewrite elem_of_list_to_set, list_elem_of_omap. split.
  - intros (r & Hin & Hx). destruct (Ha r Hin) as [E _]. rewrite E in Hx. rewrite Hx.
    destruct rs; [by apply elem_of_nil in Hin|]. set_solver.
  - destruct rs as [|r rs]; [set_solver|]. destruct (dm !! fp) as [d|] eqn:E; [|set_solver].
    intros ->%elem_of_singleton. exists r. split; [left|]. by destruct (Ha r) as [-> _]; [left|].
Qed.

Lemma code_set_agree rs dm c :
  agree rs dm c → code_set rs = match rs with _ :: _ => {[c]} | [] => ∅ end.
Proof.
  intros Ha. apply set_eq. intros x. unfold code_set.
  rewrite elem_of_list_to_set, list_elem_of_fmap. split.
  - intros (r & -> & Hin). destruct (Ha r Hin) as [_ ->].
    destruct rs; [by apply elem_of_nil in Hin|]. set_solver.
  - destruct rs as [|r rs]; [set_solver|]. intros ->%elem_of_singleton. exists r.
    split; [|left]. symmetry. apply Ha. left.
Qed.

(** ** Properties *)

(** C6: the verification record implements the specification on sets of
    observations, whatever order [dedup] ranges in: a path is reported with a
    determinism status exactly when the specification says so, each path once,
    in the order of the paths, and the mismatch count is their number. *)
Theorem compareAction_refines_spec a :
  compare a = true → clean_digests (localReruns a) → clean_digests (remotes a) →
  ∃ v, compareAction a = Some v ∧
    (∀ fp D, spec_path a fp = Some D ↔
             ∃ m, m ∈ Mismatches v ∧ Path m = fp ∧ Determinism m = D) ∧
    StronglySorted String.le (Path <$> Mismatches v) ∧ NoDup (Path <$> Mismatches v) ∧
    TotalMismatches v = int32 (Z.of_nat (length (Mismatches v))).
Proof.
  intros Hcmp Hl Hr. unfold compareAction. rewrite Hcmp. simpl.
  destruct (gather_spec a Hl Hr) as (ms & lec & rec & -> & Hg & N1 & S1 & N2 & S2).
  pose proof (λ fp, classified_spec a ms lec rec fp Hg N1 S1 N2 S2) as Hc.
  set (final := omap (classify a lec rec) ms) in *.
  assert (∀ fp m, final !! fp = Some m → Path m = fp) as HP.
  { intros fp m Hm. specialize (Hc fp). rewrite Hm in Hc. apply Hc. }
  destruct (mismatchesToProto_sorted final (Z.of_nat (size ms)) HP) as (Hs & Hn & Hlen).
  eexists. split; [reflexivity|]. split; [|split; [done|split; [done|by rewrite Hlen]]].
  intros fp D. setoid_rewrite mismatchesToProto_elem. specialize (Hc fp). split.
  - intros HD. destruct (final !! fp) as [m|] eqn:E; [|congruence].
    destruct Hc as [Hp Hsp]. exists m. rewrite Hsp in HD. injection HD as <-. eauto.
  - intros (m & (fp' & Hm) & Hp & <-). pose proof (HP _ _ Hm) as Hp'.
    rewrite Hp in Hp'. subst fp'. rewrite Hm in Hc. apply Hc.
Qed.

(** The count of verified outputs is the number of distinct paths that
    some rerun produced. *)
Theorem compareAction_verified a v :
  clean_digests (localReruns a) → clean_digests (remotes a) →
  compareAction a = Some v →
  TotalVerified v = int64 (Z.of_nat (size (all_paths (localReruns a ++ remotes a)))).
Proof.
  intros Hl Hr. unfold compareAction. destruct (compare a); simpl; [|done].
  destruct (gather_spec a Hl Hr) as (ms & lec & rec & -> & Hg & _). intros [= <-]. simpl.
  by rewrite <- (gathered_dom _ _ _ Hg), size_dom.
Qed.

(** reruns that agree are never reported.  When every local and remote
    rerun produced the same output digests and the same exit code, on both
    sides or on the only side that was asked for, there is no mismatch. *)
Theorem compareAction_agreement a v dm c :
  compareAction a = Some v →
  (∀ r, r ∈ localReruns a ++ remotes a → digests_of r = dm ∧ ExitCode r = c) →
  (∀ fp d, dm !! fp = Some d → Clean d = d) →
  (localReruns a = [] ↔ numLocalReruns a = 0) →
  (remotes a = [] ↔ numRemoteReruns a = 0) →
  Mismatches v = [].
Proof.
  intros Hv Hagree Hclean Hnl Hnr.
  assert (agree (localReruns a) dm c) as AL by (intros r ?; apply Hagree; set_solver).
  assert (agree (remotes a) dm c) as AR by (intros r ?; apply Hagree; set_solver).
  assert (∀ fp, spec_path a fp = None) as Hnone.
  { intros fp. unfold spec_path. fold (remotes a).
    rewrite !(obs_set_agree _ dm c), !(code_set_agree _ dm c) by done.
    unfold spec_compare. destruct (localReruns a) as [|rl rls], (remotes a) as [|rr rrs], (dm !! fp) as [d|];
      rewrite ?size_singleton, ?size_empty; repeat case_bool_decide; simpl; try done; set_solver by lia. }
  unfold compareAction in Hv. destruct (compare a); simpl in Hv; [|done].
  destruct (gather_spec a (agree_clean _ _ _ AL Hclean) (agree_clean _ _ _ AR Hclean)) as (ms & lec & rec & Heq & Hg & N1 & S1 & N2 & S2).
  rewrite Heq in Hv. injection Hv as <-.
  destruct (Mismatches _) as [|m l] eqn:E; [done|exfalso].
  assert (m ∈ Mismatches (mismatchesToProto (omap (classify a lec rec) ms) (Z.of_nat (size ms)))) as Hin
    by (rewrite E; left).
  apply mismatchesToProto_elem in Hin as [fp Hm].
  pose proof (classified_spec a ms lec rec fp Hg N1 S1 N2 S2) as H. rewrite Hm, Hnone in H. by destruct H.
Qed.

End Compare.

(** ** Witnesses *)

Lemma dedup_any l : Dedup l (dedup l).
Proof. unfold Dedup. reflexivity. Qed.

Definition rerun_example (d : string) (c : Z) : RerunMetadata :=
  {| OutputFileDigests := {["a.o" := d; "b.d" := "ee/4"]}; OutputDirectoryDigests := ∅; ExitCode := c |}.

Definition action_example (d1 d2 : string) : action :=
  {| compare := true; digest := "act/1"; numLocalReruns := 2; numRemoteReruns := 1;
     localReruns := [rerun_example d1 0; rerun_example d1 0];
     remoteReruns := Some [rerun_example d2 0] |}.

(** Checks clean digests of concrete reruns by computation. *)
Lemma clean_digests_compute rs :
  forallb (λ r, forallb (λ kv, String.eqb (Clean kv.2) kv.2) (map_to_list (digests_of r))) rs = true →
  clean_digests rs.
Proof.
  rewrite forallb_forall. intros H fp. apply Forall_forall.
  intros d (r & Hin & Hd)%list_elem_of_omap. apply list_elem_of_In, H in Hin.
  rewrite forallb_forall in Hin. apply elem_of_map_to_list, list_elem_of_In, Hin in Hd.
  by apply String.eqb_eq in Hd.
Qed.

Lemma compareAction_refines_spec_witness :
  ∃ v m, compareAction dedup (action_example "aa/1" "bb/2") = Some v ∧
         m ∈ Mismatches v ∧ Path m = "a.o" ∧ Determinism m = DETERMINISTIC.
Proof.
  destruct (compareAction_refines_spec dedup dedup_any (action_example "aa/1" "bb/2"))
    as (v & Hv & Hspec & _); [reflexivity|apply clean_digests_compute; vm_compute; reflexivity..|].
  destruct (proj1 (Hspec "a.o" DETERMINISTIC)) as (m & H); [vm_compute; reflexivity|].
  exists v, m. split; [exact Hv|exact H].
Defined.

Lemma compareAction_verified_witness :
  ∃ v, compareAction dedup (action_example "aa/1" "bb/2") = Some v ∧ TotalVerified v = 2%Z.
Proof.
  eexists. split; [reflexivity|].
  rewrite (compareAction_verified dedup dedup_any (action_example "aa/1" "bb/2"));
    [vm_compute; reflexivity|apply clean_digests_compute; vm_compute; reflexivity..|reflexivity].
Defined.

Lemma compareAction_agreement_witness :
  ∃ v, compareAction dedup (action_example "aa/1" "aa/1") = Some v ∧ Mismatches v = [].
Proof.
  eexists. split; [reflexivity|].
  apply (compareAction_agreement dedup dedup_any (action_example "aa/1" "aa/1") _
    {["a.o" := "aa/1"; "b.d" := "ee/4"]} 0); [reflexivity|..].
  - intros r Hr. repeat (apply elem_of_cons in Hr as [->|Hr]; [split; reflexivity|]).
    by apply elem_of_nil in Hr.
  - apply (map_Forall_to_list (λ _ d, Clean d = d)). vm_compute. repeat constructor.
  - split; discriminate.
  - split; discriminate.
Defined.

End Compare.
