(* ===== verification/Labels.v ===== *)
(** * Action labels: [internal/pkg/labels] *)
From S2P Require Import Prelude GoStrings.
From Stdlib Require Import Ascii.

Module Labels.

Definition actionType := "type".
Definition compiler := "compiler".
Definition lang := "lang".
Definition actionTool := "tool".

Definition Compile := "compile".
Definition Tool := "tool".
Definition Link := "link".
Definition Archive := "archive".
Definition AbiDump := "abi-dump".
Definition Lint := "lint".
Definition APKSigning := "apksigning".

Definition Clang := "clang".
Definition ClangCL := "clang-cl".
Definition NaCl := "nacl".
Definition Javac := "javac".
Definition R8 := "r8".
Definition D8 := "d8".
Definition Metalava := "metalava".
Definition HeaderAbiDumper := "header-abi-dumper".
Definition ClangTidy := "clang-tidy".
Definition SignAPKJAR := "signapkjar".
Definition TsCompiler := "tsc".

Definition Cpp := "cpp".
Definition Java := "java".
Definition Ts := "typescript".

Definition ClangTool := "clang".
Definition LLVMTool := "llvm".

Record Labels := mkLabels {
  ActionType : string;
  Compiler : string;
  Lang : string;
  ActionTool : string
}.

#[export] Instance Labels_eq_dec : EqDecision Labels.
Proof. solve_decision. Defined.

#[export] Instance Labels_countable : Countable Labels.
Proof.
  apply (inj_countable' (λ l, (ActionType l, Compiler l, Lang l, ActionTool l))
    (λ '(a, c, l, t), mkLabels a c l t)). by intros [].
Defined.

Definition ToolLabels : Labels := mkLabels Tool "" "" "".
Definition ClangCppLabels : Labels := mkLabels Compile Clang Cpp "".
Definition ClangCLCppLabels : Labels := mkLabels Compile ClangCL Cpp "".
Definition NaClLabels : Labels := mkLabels Compile NaCl Cpp "".
Definition ClangLinkLabels : Labels := mkLabels Link "" "" ClangTool.
Definition NaClLinkLabels : Labels := mkLabels Link "" "" NaCl.
Definition LLVMArLabels : Labels := mkLabels Archive "" "" LLVMTool.
Definition ClangLintLabels : Labels := mkLabels Lint "" Cpp ClangTidy.
Definition HeaderAbiDumpLabels : Labels := mkLabels AbiDump "" "" HeaderAbiDumper.
Definition JavacLabels : Labels := mkLabels Compile Javac Java "".
Definition R8Labels : Labels := mkLabels Compile R8 "" "".
Definition D8Labels : Labels := mkLabels Compile D8 "" "".
Definition MetalavaLabels : Labels := mkLabels Compile Metalava Java "".
Definition SignAPKLabels : Labels := mkLabels APKSigning SignAPKJAR "" "".
Definition TscLabels : Labels := mkLabels Compile TsCompiler Ts "".

Definition FromMap (l : gmap string string) : Labels :=
  {| ActionType := default "" (l !! actionType);
     Compiler := default "" (l !! compiler);
     Lang := default "" (l !! lang);
     ActionTool := default "" (l !! actionTool) |}.

Definition set_nonempty (k v : string) (m : gmap string string) : gmap string string :=
  if String.eqb v "" then m else <[k := v]> m.

Definition ToMap (l : Labels) : gmap string string :=
  set_nonempty actionTool (ActionTool l)
    (set_nonempty lang (Lang l)
      (set_nonempty compiler (Compiler l)
        (set_nonempty actionType (ActionType l) ∅))).

Definition label_pair (kv : string * string) : string := kv.1 +:+ "=" +:+ kv.2.

Definition ToKey (labels : gmap string string) : string :=
  "[" +:+ Join (sort_Strings (label_pair <$> map_to_list labels)) "," +:+ "]".

(** [sha256_hex] is the hexadecimal SHA-256 of a string; the single-flight
    cache in front of it stores what it returns. *)
Definition ToDigest (sha256_hex : string → string) (l : gmap string string) : string :=
  str_take 8 (sha256_hex (ToKey l)).

(** ** Lemmas *)

Lemma lookup_set_nonempty k v m k' :
  set_nonempty k v m !! k' =
    if decide (k = k') then (if String.eqb v "" then m !! k' else Some v) else m !! k'.
Proof.
  unfold set_nonempty. case_decide as E.
  - subst. destruct (String.eqb v ""); [done|]. apply lookup_insert_eq.
  - destruct (String.eqb v ""); [done|]. by apply lookup_insert_ne.
Qed.

(** A label that [ToKey] can tell apart: no separators where they matter. *)
Definition plain_label (kv : string * string) : Prop :=
  contains_char "=" kv.1 = false ∧ contains_char "," kv.1 = false ∧ contains_char "," kv.2 = false.

Definition plain_labels (m : gmap string string) : Prop := Forall plain_label (map_to_list m).

Lemma label_pair_inj kv kv' :
  plain_label kv → plain_label kv' → label_pair kv = label_pair kv' → kv = kv'.
Proof.
  destruct kv as [k v], kv' as [k' v']. intros (H1 & _) (H2 & _) E. unfold label_pair in E. simpl in *.
  apply (f_equal (λ s, SplitN2 s "=")) in E. change ("=" +:+ ?x) with (String "=" x) in E.
  rewrite !SplitN2_app in E by done. by simplify_eq.
Qed.

Lemma label_pair_no_comma kv : plain_label kv → contains_char "," (label_pair kv) = false.
Proof.
  intros (_ & H1 & H2). unfold label_pair. rewrite !contains_char_app, H1, H2. done.
Qed.

(** The sorted pairs can be read back from the key. *)
Lemma ToKey_pairs m :
  plain_labels m → m ≠ ∅ →
  Split (TrimSuffix (str_drop 1 (ToKey m)) "]") "," = sort_Strings (label_pair <$> map_to_list m).
Proof.
  intros Hp Hne. unfold ToKey. change ("[" +:+ ?x) with (String "[" x). simpl str_drop.
  rewrite TrimSuffix_app. apply Split_Join.
  - intros E. apply Hne, map_to_list_empty_iff. pose proof (sort_Strings_perm (label_pair <$> map_to_list m)) as P.
    rewrite E in P. apply Permutation_nil_l in P. by destruct (map_to_list m).
  - rewrite (sort_Strings_perm (label_pair <$> map_to_list m)). apply Forall_fmap.
    eapply Forall_impl; [exact Hp|]. apply label_pair_no_comma.
Qed.

Lemma fmap_label_pair_perm l1 l2 :
  Forall plain_label l1 → Forall plain_label l2 →
  label_pair <$> l1 ≡ₚ label_pair <$> l2 → l1 ≡ₚ l2.
Proof.
  revert l2. induction l1 as [|x l1 IH]; intros l2 H1 H2 HP.
  - apply Permutation_nil_l in HP. by destruct l2.
  - apply Forall_cons in H1 as [Hx H1].
    assert (label_pair x ∈ label_pair <$> l2) as Hin by (rewrite <- HP; left).
    apply list_elem_of_fmap in Hin as (y & Hy & Hin).
    rewrite Forall_forall in H2. pose proof (label_pair_inj x y Hx (H2 y Hin) Hy) as <-.
    apply elem_of_Permutation in Hin as [l2' Hl2]. rewrite Hl2. constructor.
    rewrite Hl2 in HP. simpl in HP. apply Permutation_cons_inv in HP. apply IH; [done| |done].
    apply Forall_forall. intros z Hz. apply H2. rewrite Hl2. by right.
Qed.

(** ** Properties *)

(** Converting labels to a map and back is the identity. *)
Theorem FromMap_ToMap l : FromMap (ToMap l) = l.
Proof.
  destruct l as [a c g t]. unfold FromMap, ToMap. cbn [ActionType Compiler Lang ActionTool].
  rewrite !lookup_set_nonempty, lookup_empty. simpl.
  destruct (String.eqb_spec a ""), (String.eqb_spec c ""), (String.eqb_spec g ""),
    (String.eqb_spec t ""); by subst.
Qed.

(** The key of a label map identifies it: two maps whose labels hold no
    separator have the same key only when they are equal, so they share a
    forecast data set and a statistics row only then. *)
Theorem ToKey_injective m1 m2 :
  plain_labels m1 → plain_labels m2 → ToKey m1 = ToKey m2 → m1 = m2.
Proof.
  intros H1 H2 E.
  assert (∀ m, plain_labels m → m ≠ ∅ → ToKey m ≠ ToKey ∅) as Hempty.
  { intros m Hm Hne Ek. pose proof (ToKey_pairs m Hm Hne) as P. rewrite Ek in P.
    change (Split (TrimSuffix (str_drop 1 (ToKey ∅)) "]") ",") with [""] in P.
    pose proof (sort_Strings_perm (label_pair <$> map_to_list m)) as Q. rewrite <- P in Q.
    assert ("" ∈ label_pair <$> map_to_list m) as Hin by (rewrite <- Q; left).
    apply list_elem_of_fmap in Hin as ([k v] & Hkv & _). unfold label_pair in Hkv.
    by destruct k. }
  destruct (decide (m1 = ∅)) as [->|N1], (decide (m2 = ∅)) as [->|N2].
  - done.
  - by destruct (Hempty m2 H2 N2).
  - by destruct (Hempty m1 H1 N1).
  - pose proof (ToKey_pairs m1 H1 N1) as P1. rewrite E, (ToKey_pairs m2 H2 N2) in P1.
    apply map_to_list_inj, fmap_label_pair_perm; [done..|].
    rewrite <- (sort_Strings_perm (label_pair <$> map_to_list m1)), <- P1. apply sort_Strings_perm.
Qed.

Lemma ToKey_injective_witness :
  plain_labels (ToMap ClangCppLabels) ∧ ToMap (FromMap (ToMap ClangCppLabels)) = ToMap ClangCppLabels.
Proof.
  assert (plain_labels (ToMap ClangCppLabels)) as H by (vm_compute; repeat constructor).
  split; [exact H|]. apply ToKey_injective; [exact H|exact H|reflexivity].
Defined.

End Labels.
