(* ===== verification/Forecast.v ===== *)
(** * Download-latency forecasts: [internal/pkg/reproxy/forecast.go]

    A data set is a ring buffer of the last samples with a sorted snapshot that
    a background loop refreshes.  The specification of the ring is the list of
    all inserted samples: the snapshot is the sorted window of the last ones. *)
From S2P Require Import Prelude GoStrings Labels.
Import Labels.

Module Forecast.

Definition datasetSize : nat := 500.
Definition defaultMinSize : nat := 50.
Definition downloadPercentileCutoff : Z := 90.

Record dataset := {
  dataPoints : list Z;
  head : nat;
  currSize : nat;
  minSizeForStats : nat;
  sortedData : list Z
}.

(** [&dataset{dataPoints: make([]int, n), minSizeForStats: k}] *)
Definition new_dataset (n k : nat) : dataset :=
  {| dataPoints := replicate n 0%Z; head := 0; currSize := 0; minSizeForStats := k; sortedData := [] |}.

(** The write panics when [head] is out of range, the remainder when there is
    no slot. *)
Definition insert (d : dataset) (v : Z) : res dataset :=
  if bool_decide (head d < length (dataPoints d)) then
    let n := length (dataPoints d) in
    Ok {| dataPoints := <[head d := v]> (dataPoints d);
          head := (head d + 1) mod n;
          currSize := if bool_decide (n < currSize d + 1) then n else currSize d + 1;
          minSizeForStats := minSizeForStats d;
          sortedData := sortedData d |}
  else Panic.

Definition sort_Ints (l : list Z) : list Z := merge_sort Z.le l.

Definition sort (d : dataset) : dataset :=
  if bool_decide (currSize d < minSizeForStats d) then d
  else {| dataPoints := dataPoints d; head := head d; currSize := currSize d;
          minSizeForStats := minSizeForStats d;
          sortedData := sort_Ints (take (currSize d) (dataPoints d)) |}.

Definition percentile (d : dataset) (p : Z) : res Z :=
  if bool_decide (p < 0 ∨ 100 < p)%Z then Fail (EMsg "percentile must be between 0 and 100")
  else if bool_decide (length (sortedData d) = 0)
  then Fail (EMsg "no computation ran on dataset yet")
  else index (sortedData d) (Z.to_nat (Z.of_nat (length (sortedData d)) * p / 100)).

Record Forecast := {
  downloadLatencies : gmap string dataset;
  minSize : nat
}.

(** One tick of [Run]: every data set is sorted; the percentile is only
    logged. *)
Definition run_tick (f : Forecast) : Forecast :=
  {| downloadLatencies := sort <$> downloadLatencies f; minSize := minSize f |}.

(** [download_ms] is the duration of the action's download event, [None] when
    the record has no remote metadata or no such event. *)
Definition RecordSample (f : Forecast) (lbls : gmap string string) (download_ms : option Z)
    : res Forecast :=
  match download_ms with
  | None => Ok f
  | Some ms =>
      let l := ToKey lbls in
      let min := if bool_decide (minSize f = 0) then defaultMinSize else minSize f in
      let ds := default (new_dataset datasetSize min) (downloadLatencies f !! l) in
      let? ds' := insert ds ms in
      Ok {| downloadLatencies := <[l := ds']> (downloadLatencies f); minSize := min |}
  end.

(** The result is a [time.Duration], in nanoseconds of 64 bits. *)
Definition PercentileDownloadLatency (f : Forecast) (lbls : gmap string string) (p : Z) : res Z :=
  match downloadLatencies f !! ToKey lbls with
  | None => Fail (EMsg "couldn't find a dataset for labels")
  | Some ds => let? dlp := percentile ds p in Ok (int64 (int64 dlp * 1000000))
  end.

(** ** Specification: the window of the last samples *)

Definition window (n : nat) (vs : list Z) : list Z := drop (length vs - n) vs.

Fixpoint insert_all (d : dataset) (vs : list Z) : res dataset :=
  match vs with
  | [] => Ok d
  | v :: vs' => let? d' := insert d v in insert_all d' vs'
  end.

(** The ring of [n] slots after the samples [vs]: slot [t mod n] holds sample
    [t] for the last [n] samples. *)
Definition ring (n k : nat) (d : dataset) (vs : list Z) : Prop :=
  length (dataPoints d) = n ∧ head d = length vs mod n ∧
  currSize d = min (length vs) n ∧ minSizeForStats d = k ∧
  ∀ t, length vs - n ≤ t < length vs → dataPoints d !! (t mod n) = vs !! t.

Lemma ring_new n k : 0 < n → ring n k (new_dataset n k) [].
Proof.
  intros Hn. unfold ring. simpl. split_and!; try done.
  - by rewrite length_replicate.
  - by rewrite Nat.Div0.mod_0_l.
  - intros t Ht. lia.
Qed.

(** Two of the last [n] sample numbers share no slot. *)
Lemma mod_window n a b : 0 < n → a < b → b < a + n → a mod n ≠ b mod n.
Proof.
  intros Hn Hab Hb E.
  pose proof (Nat.div_mod_eq a n). pose proof (Nat.div_mod_eq b n).
  assert (a / n < b / n ∨ b / n ≤ a / n) as [Hd|Hd] by lia; nia.
Qed.

Lemma ring_insert n k d vs v :
  0 < n → ring n k d vs → ∃ d', insert d v = Ok d' ∧ ring n k d' (vs ++ [v]) ∧
    sortedData d' = sortedData d.
Proof.
  intros Hn (Hl & Hh & Hc & Hm & Hd). unfold insert.
  assert (head d < n) by (rewrite Hh; apply Nat.mod_upper_bound; lia).
  rewrite bool_decide_true by lia. eexists. split; [reflexivity|]. split; [|done].
  unfold ring. simpl. rewrite length_app, length_insert. simpl.
  split_and!; [done| | |done|].
  - rewrite Hl, Hh. by rewrite Nat.Div0.add_mod_idemp_l.
  - rewrite Hl, Hc. case_bool_decide; lia.
  - intros t Ht. destruct (decide (t = length vs)) as [->|Hne].
    + rewrite Hh, list_lookup_insert_eq by (rewrite Hl, <- Hh; lia).
      by rewrite lookup_app_r, Nat.sub_diag by lia.
    + rewrite list_lookup_insert_ne, lookup_app_l by (rewrite ?Hh; try apply not_eq_sym, mod_window; lia).
      apply Hd. lia.
Qed.

Lemma ring_insert_all n k d pre vs :
  0 < n → ring n k d pre → ∃ d', insert_all d vs = Ok d' ∧ ring n k d' (pre ++ vs) ∧
    sortedData d' = sortedData d.
Proof.
  intros Hn. revert d pre. induction vs as [|v vs IH]; intros d pre Hr; simpl.
  { exists d. by rewrite app_nil_r. }
  destruct (ring_insert n k d pre v Hn Hr) as (d1 & -> & Hr1 & Hs1). rewrite bind_Ok.
  destruct (IH d1 (pre ++ [v]) Hr1) as (d2 & H2 & Hr2 & Hs2). exists d2.
  rewrite <- app_assoc in Hr2. split_and!; [done..|congruence].
Qed.

(** The filled slots are the window, rotated. *)
Lemma ring_window n k d vs :
  0 < n → ring n k d vs → take (currSize d) (dataPoints d) ≡ₚ window n vs.
Proof.
  intros Hn (Hl & Hh & Hc & Hm & Hd). unfold window.
  destruct (decide (length vs ≤ n)) as [Hle|Hgt].
  - replace (length vs - n) with 0 in * by lia. rewrite drop_0, Hc, Nat.min_l by lia.
    replace (take (length vs) (dataPoints d)) with vs; [done|].
    apply list_eq. intros i. destruct (decide (i < length vs)) as [Hi|Hi].
    + rewrite lookup_take_lt by lia. rewrite <- (Hd i) by lia. by rewrite Nat.mod_small by lia.
    + rewrite lookup_take_ge by lia. apply lookup_ge_None. lia.
  - rewrite Hc, Nat.min_r, take_ge by lia.
    rewrite <- (take_drop (head d) (dataPoints d)) at 1. rewrite Permutation_app_comm.
    assert (head d < n) as Hhn by (rewrite Hh; apply Nat.mod_upper_bound; lia).
    replace (drop (head d) (dataPoints d) ++ take (head d) (dataPoints d))
      with (drop (length vs - n) vs); [done|].
    apply list_eq. intros i. rewrite lookup_drop.
    destruct (decide (i < n)) as [Hi|Hi].
    + assert ((length vs - n + i) mod n = (head d + i) mod n) as Hmod.
      { rewrite Hh, Nat.Div0.add_mod_idemp_l.
        replace (length vs + i) with ((length vs - n + i) + 1 * n) by lia.
        by rewrite Nat.Div0.mod_add. }
      rewrite <- (Hd (length vs - n + i)), Hmod by lia.
      destruct (decide (head d + i < n)) as [Hlt|Hge].
      * rewrite lookup_app_l, lookup_drop by (rewrite length_drop; lia).
        by rewrite Nat.mod_small by lia.
      * rewrite lookup_app_r by (rewrite length_drop; lia). rewrite length_drop, Hl.
        rewrite lookup_take_lt by lia. f_equal.
        replace (head d + i) with ((head d + i - n) + 1 * n) by lia.
        rewrite Nat.Div0.mod_add, Nat.mod_small by lia. lia.
    + rewrite (proj2 (lookup_ge_None vs _)) by lia. symmetry. apply lookup_ge_None.
      rewrite length_app, length_drop, length_take. lia.
Qed.

Lemma sort_Ints_perm l : sort_Ints l ≡ₚ l.
Proof. apply merge_sort_Permutation. Qed.

Lemma sort_Ints_sorted l : StronglySorted Z.le (sort_Ints l).
Proof. apply (StronglySorted_merge_sort _ _). Qed.

Lemma sort_Ints_unique l1 l2 : l1 ≡ₚ l2 → sort_Ints l1 = sort_Ints l2.
Proof.
  intros H. apply (StronglySorted_unique Z.le); [apply sort_Ints_sorted..|].
  by rewrite !sort_Ints_perm.
Qed.

(** In a sorted list the elements before a position are at most, and the
    elements from it on at least, the element there. *)
Lemma sorted_split (l : list Z) i x :
  StronglySorted Z.le l → l !! i = Some x →
  Forall (λ y, (y ≤ x)%Z) (take (S i) l) ∧ Forall (λ y, (x ≤ y)%Z) (drop i l).
Proof.
  intros Hs Hi. rewrite <- (take_drop_middle l i x Hi) in Hs.
  apply StronglySorted_app in Hs as (H1 & _ & [H2 _]%StronglySorted_cons).
  split.
  - rewrite (take_S_r l i x) by done. apply Forall_app. split; [|by repeat constructor].
    apply Forall_forall. intros y Hy. apply H1; [done|left].
  - rewrite (drop_S l x i) by done. by constructor.
Qed.

Lemma percentile_index_lt n p : (0 < n)%nat → (0 ≤ p < 100)%Z → Z.to_nat (Z.of_nat n * p / 100) < n.
Proof. intros Hn Hp. apply Nat2Z.inj_lt. rewrite Z2Nat.id by (apply Z.div_pos; lia). apply Z.div_lt_upper_bound; nia. Qed.

(** ** Properties *)

(** The ring implements its specification.  Whatever the number of samples,
    inserting never fails, and sorting then gives the sorted list of the last
    [n] samples, unless there are fewer than the minimum, when the snapshot is
    left alone. *)
Theorem dataset_refines_window n k vs :
  0 < n →
  ∃ d, insert_all (new_dataset n k) vs = Ok d ∧
    sortedData (sort d) =
      if bool_decide (min (length vs) n < k) then [] else sort_Ints (window n vs).
Proof.
  intros Hn. destruct (ring_insert_all n k _ [] vs Hn (ring_new n k Hn)) as (d & Hd & Hr & Hs).
  exists d. split; [done|]. pose proof Hr as (_ & _ & Hc & Hm & _). simpl in *.
  unfold sort. rewrite Hc, Hm. case_bool_decide; [done|]. simpl. rewrite <- Hc.
  by apply sort_Ints_unique, (ring_window n k).
Qed.

Lemma dataset_refines_window_witness :
  ∃ d, insert_all (new_dataset 3 2) [5; 9; 1; 7; 2]%Z = Ok d ∧ sortedData (sort d) = [1; 2; 7]%Z.
Proof. apply (dataset_refines_window 3 2 [5; 9; 1; 7; 2]%Z). lia. Defined.

(** On a sorted snapshot, the p-th percentile for p below 100 is a sample
    with at least p percent of the samples at most it and the others at least
    it. *)
Theorem percentile_rank d p :
  StronglySorted Z.le (sortedData d) → sortedData d ≠ [] → (0 ≤ p < 100)%Z →
  let n := length (sortedData d) in
  let i := Z.to_nat (Z.of_nat n * p / 100) in
  ∃ x, percentile d p = Ok x ∧ x ∈ sortedData d ∧
    Forall (λ y, (y ≤ x)%Z) (take (S i) (sortedData d)) ∧
    Forall (λ y, (x ≤ y)%Z) (drop i (sortedData d)) ∧ i < n.
Proof.
  intros Hs Hne Hp n i. assert (0 < n) as Hn by (subst n; destruct (sortedData d); [done|simpl; lia]).
  pose proof (percentile_index_lt n p Hn Hp) as Hi. fold i in Hi.
  destruct (lookup_lt_is_Some_2 (sortedData d) i Hi) as [x Hx].
  exists x. unfold percentile. rewrite bool_decide_false by lia.
  rewrite bool_decide_false by (fold n; lia). unfold index. fold n i. rewrite Hx.
  split; [done|]. split; [by eapply list_elem_of_lookup_2|].
  destruct (sorted_split _ _ _ Hs Hx). done.
Qed.

Definition snapshot_example : dataset :=
  {| dataPoints := [3; 1; 2]%Z; head := 0; currSize := 3; minSizeForStats := 1;
     sortedData := [1; 2; 3]%Z |}.

Lemma percentile_rank_witness :
  ∃ x, percentile snapshot_example 90 = Ok x ∧ x ∈ sortedData snapshot_example.
Proof.
  destruct (percentile_rank snapshot_example 90) as (x & H1 & H2 & _);
    [|discriminate|lia|exists x; split; assumption].
  repeat constructor; lia.
Defined.

(** The argument check lets 100 through although the hundredth percentile
    is out of range: on any non-empty snapshot it panics.  A percentile outside
    of 0 to 100, or a snapshot without samples, is an error. *)
Theorem percentile_edges d p :
  (sortedData d ≠ [] → percentile d 100 = Panic) ∧
  ((p < 0 ∨ 100 < p)%Z → ∃ e, percentile d p = Fail e) ∧
  (sortedData d = [] → ∃ e, percentile d p = Fail e) ∧
  (percentile d p = Panic → p = 100%Z).
Proof.
  split_and!.
  - intros Hne. unfold percentile. rewrite bool_decide_false by lia.
    rewrite bool_decide_false by (destruct (sortedData d); [done|simpl; lia]).
    rewrite Z.div_mul, Nat2Z.id by lia. unfold index. by rewrite (proj2 (lookup_ge_None _ _)) by lia.
  - intros H. unfold percentile. rewrite bool_decide_true by done. eauto.
  - intros H. unfold percentile. rewrite H. case_bool_decide; eauto.
  - unfold percentile. case_bool_decide as Hr; [done|]. case_bool_decide as Hn; [done|].
    unfold index. intros HP. destruct (decide (p = 100)%Z) as [|Hne]; [done|exfalso].
    destruct (lookup_lt_is_Some_2 (sortedData d)
      (Z.to_nat (Z.of_nat (length (sortedData d)) * p / 100))) as [x Hx].
    { apply percentile_index_lt; lia. }
    by rewrite Hx in HP.
Qed.

Lemma percentile_edges_witness :
  percentile {| dataPoints := [4]%Z; head := 0; currSize := 1; minSizeForStats := 1;
                sortedData := [4]%Z |} 100 = Panic.
Proof. apply (percentile_edges _ 0). discriminate. Defined.

End Forecast.
