(* ===== verification/LocalResources.v ===== *)
(** * Local execution: [internal/pkg/localresources/manager.go] and
    [internal/pkg/reproxy/localexec.go]

    The manager takes CPUs and memory from two weighted semaphores, in this
    order.  The semaphore is a third-party package: it is the class
    [Weighted] with its documented laws, and [counting] is an instance.  The
    concurrent calls of [Lock] are tasks that advance one semaphore operation at
    a time, in any interleaving. *)
From S2P Require Import Prelude GoStrings Labels.
Import Labels.

(** What [golang.org/x/sync/semaphore] promises.  [grant s n] is the moment
    [Acquire(ctx, n)] returns [nil]; it is [None] while the call has to block. *)
Class Weighted (sem : Type) := {
  NewWeighted : Z → sem;
  grant : sem → Z → option sem;
  Release : sem → Z → res sem;
  sem_size : sem → Z;
  sem_cur : sem → Z
}.

Class WeightedLaws (sem : Type) `{Weighted sem} := {
  new_size n : sem_size (NewWeighted n) = n;
  new_cur n : sem_cur (NewWeighted n) = 0%Z;
  grant_size s n s' : grant s n = Some s' → sem_size s' = sem_size s;
  grant_cur s n s' : grant s n = Some s' → sem_cur s' = (sem_cur s + n)%Z;
  grant_bound s n s' : grant s n = Some s' → (sem_cur s' ≤ sem_size s')%Z;
  grant_idle s n : sem_cur s = 0%Z → (n ≤ sem_size s)%Z → is_Some (grant s n);
  release_ok s n : (0 ≤ n ≤ sem_cur s)%Z →
    ∃ s', Release s n = Ok s' ∧ sem_size s' = sem_size s ∧ sem_cur s' = (sem_cur s - n)%Z
}.

(** A semaphore that counts what is held. *)
Record counting := { c_size : Z; c_cur : Z }.

#[export] Instance counting_Weighted : Weighted counting := {|
  NewWeighted n := {| c_size := n; c_cur := 0 |};
  grant s n := if bool_decide (c_cur s + n ≤ c_size s)%Z
               then Some {| c_size := c_size s; c_cur := c_cur s + n |} else None;
  Release s n := if bool_decide (c_cur s - n < 0)%Z then Panic
                 else Ok {| c_size := c_size s; c_cur := c_cur s - n |};
  sem_size := c_size;
  sem_cur := c_cur
|}.

#[export] Instance counting_laws : WeightedLaws counting.
Proof.
  split; simpl; intros; try done; repeat case_bool_decide; simplify_eq; simpl; try lia; eauto.
Qed.

Module LocalResources.

Definition min (a b : Z) : Z := if (a <? b)%Z then a else b.
Definition max (a b : Z) : Z := if (a >? b)%Z then a else b.

Lemma min_spec a b : min a b = Z.min a b.
Proof. unfold min. destruct (Z.ltb_spec a b); lia. Qed.

Lemma max_spec a b : max a b = Z.max a b.
Proof. unfold max. rewrite Z.gtb_ltb. destruct (Z.ltb_spec b a); lia. Qed.

Section Manager.
Context {sem : Type} `{Weighted sem}.

Record Manager := {
  cpus : sem;
  ram : sem;
  totalCPUs : Z;
  totalRAMMBs : Z
}.

Definition NewManager (c r : Z) : Manager := {|
  cpus := NewWeighted (max 1 c);
  ram := NewWeighted (max 1 r);
  totalCPUs := max 1 c;
  totalRAMMBs := max 1 r
|}.

(** [runtime.NumCPU] and [TotalRAMMBs] are arguments. *)
Definition NewDefaultManager (NumCPU TotalRAMMBs : Z) : Manager := NewManager NumCPU TotalRAMMBs.

Definition with_sems (m : Manager) (c r : sem) : Manager :=
  {| cpus := c; ram := r; totalCPUs := totalCPUs m; totalRAMMBs := totalRAMMBs m |}.

(** The capping of the request at the start of [Lock]. *)
Definition cap (m : Manager) (c r : Z) : Z * Z :=
  if (c >? totalCPUs m)%Z || (r >? totalRAMMBs m)%Z
  then (min c (totalCPUs m), min r (totalRAMMBs m))
  else (c, r).

(** Where a call of [Lock] is: at its first [Acquire], at its second one,
    returned with the release function, released, or returned an error. *)
Inductive phase :=
  | AcquireCPU (c r : Z)
  | AcquireRAM (c r : Z)
  | Locked (c r : Z)
  | Released
  | Refused (e : error).

Inductive event :=
  | Granted
  | CtxDone (e : error)
  | ReleaseCalled.

Definition Lock (m : Manager) (c r : Z) : phase :=
  let '(c', r') := cap m c r in AcquireCPU c' r'.

(** One semaphore operation of a call; [None] when the event cannot happen in
    the phase. *)
Definition Lock_step (m : Manager) (p : phase) (e : event) : option (res (Manager * phase)) :=
  match p, e with
  | AcquireCPU c r, Granted =>
      s ← grant (cpus m) c; Some (Ok (with_sems m s (ram m), AcquireRAM c r))
  | AcquireCPU c r, CtxDone err => Some (Ok (m, Refused err))
  | AcquireRAM c r, Granted =>
      s ← grant (ram m) r; Some (Ok (with_sems m (cpus m) s, Locked c r))
  | AcquireRAM c r, CtxDone err =>
      Some (let? s := Release (cpus m) c in Ok (with_sems m s (ram m), Refused err))
  | Locked c r, ReleaseCalled =>
      Some (let? s := Release (cpus m) c in
            let? t := Release (ram m) r in Ok (with_sems m s t, Released))
  | _, _ => None
  end.

(** *** The calls in flight *)

Record system := { manager : Manager; tasks : list phase }.

Definition system_step (s : system) (i : nat) (e : event) : option (res system) :=
  p ← tasks s !! i;
  r ← Lock_step (manager s) p e;
  Some (let? (m, p') := r in Ok {| manager := m; tasks := <[i := p']> (tasks s) |}).

(** A schedule: events that cannot happen are skipped. *)
Fixpoint run (s : system) (sched : list (nat * event)) : res system :=
  match sched with
  | [] => Ok s
  | (i, e) :: sched' =>
      match system_step s i e with
      | None => run s sched'
      | Some r => let? s' := r in run s' sched'
      end
  end.

Definition start (m : Manager) (reqs : list (Z * Z)) : system :=
  {| manager := m; tasks := (λ q, Lock m q.1 q.2) <$> reqs |}.

Definition held_cpus (p : phase) : Z :=
  match p with AcquireRAM c _ | Locked c _ => c | _ => 0 end.
Definition held_ram (p : phase) : Z := match p with Locked _ r => r | _ => 0 end.
Definition running_cpus (p : phase) : Z := match p with Locked c _ => c | _ => 0 end.

Definition total (f : phase → Z) (l : list phase) : Z := foldr (λ p a, (f p + a)%Z) 0%Z l.

Definition finished (p : phase) : bool :=
  match p with Released | Refused _ => true | _ => false end.

Definition fits (m : Manager) (p : phase) : Prop :=
  match p with
  | AcquireCPU c r | AcquireRAM c r | Locked c r =>
      (0 ≤ c ≤ totalCPUs m)%Z ∧ (0 ≤ r ≤ totalRAMMBs m)%Z
  | _ => True
  end.

Record inv (s : system) : Prop := {
  inv_fits : Forall (fits (manager s)) (tasks s);
  inv_cpus : sem_cur (cpus (manager s)) = total held_cpus (tasks s);
  inv_ram : sem_cur (ram (manager s)) = total held_ram (tasks s);
  inv_size_cpus : sem_size (cpus (manager s)) = totalCPUs (manager s);
  inv_size_ram : sem_size (ram (manager s)) = totalRAMMBs (manager s);
  inv_cpus_le : (sem_cur (cpus (manager s)) ≤ totalCPUs (manager s))%Z;
  inv_ram_le : (sem_cur (ram (manager s)) ≤ totalRAMMBs (manager s))%Z
}.

Context {Laws : WeightedLaws sem}.

Lemma cap_spec m c r : cap m c r = (Z.min c (totalCPUs m), Z.min r (totalRAMMBs m)).
Proof.
  unfold cap. rewrite !Z.gtb_ltb, !min_spec.
  destruct (Z.ltb_spec (totalCPUs m) c), (Z.ltb_spec (totalRAMMBs m) r); simpl; f_equal; lia.
Qed.

Lemma total_insert f l i p q :
  l !! i = Some p → total f (<[i := q]> l) = (total f l - f p + f q)%Z.
Proof.
  revert i. induction l as [|a l IH]; intros [|i] Hi; simplify_eq/=; [lia|].
  rewrite (IH i Hi). lia.
Qed.

Lemma total_elem f l i p :
  Forall (λ q, (0 ≤ f q)%Z) l → l !! i = Some p → (0 ≤ f p ≤ total f l)%Z.
Proof.
  revert i. induction l as [|a l IH]; intros [|i] Hf Hi; simplify_eq/=.
  - apply Forall_cons in Hf as [? Hf]. enough (0 ≤ total f l)%Z by lia.
    clear -Hf. induction Hf; simpl; lia.
  - apply Forall_cons in Hf as [? Hf]. pose proof (IH i Hf Hi). lia.
Qed.

Lemma total_zero f l : Forall (λ q, f q = 0%Z) l → total f l = 0%Z.
Proof. induction 1; simpl; lia. Qed.

Lemma total_le f g l : Forall (λ q, (f q ≤ g q)%Z) l → (total f l ≤ total g l)%Z.
Proof. induction 1; simpl; lia. Qed.

Lemma fits_held m l : Forall (fits m) l →
  Forall (λ q, (0 ≤ held_cpus q)%Z) l ∧ Forall (λ q, (0 ≤ held_ram q)%Z) l ∧
  Forall (λ q, (running_cpus q ≤ held_cpus q)%Z) l.
Proof. intros Hf. split_and!; (eapply Forall_impl; [exact Hf|]); intros []; simpl; lia. Qed.

Lemma inv_start c r reqs :
  Forall (λ q, 0 ≤ q.1 ∧ 0 ≤ q.2)%Z reqs → inv (start (NewManager c r) reqs).
Proof.
  intros Hr. unfold start. split; simpl; rewrite ?new_cur, ?new_size; try done.
  - apply Forall_fmap. eapply Forall_impl; [exact Hr|]. intros [c' r'] [H1 H2]. simpl in *.
    unfold Lock. rewrite cap_spec. simpl. rewrite !max_spec. lia.
  - symmetry. apply total_zero, Forall_fmap, Forall_true. intros q. unfold Lock. simpl. by rewrite cap_spec.
  - symmetry. apply total_zero, Forall_fmap, Forall_true. intros q. unfold Lock. simpl. by rewrite cap_spec.
  - rewrite max_spec. lia.
  - rewrite max_spec. lia.
Qed.

(** What one operation does to the two semaphores, when the invariant holds:
    it never panics, and moves what the phase holds. *)
Lemma Lock_step_ok s i p e r :
  inv s → tasks s !! i = Some p → Lock_step (manager s) p e = Some r →
  ∃ m' p', r = Ok (m', p') ∧ fits (manager s) p' ∧
    totalCPUs m' = totalCPUs (manager s) ∧ totalRAMMBs m' = totalRAMMBs (manager s) ∧
    sem_size (cpus m') = totalCPUs m' ∧ sem_size (ram m') = totalRAMMBs m' ∧
    (sem_cur (cpus m') ≤ totalCPUs m')%Z ∧ (sem_cur (ram m') ≤ totalRAMMBs m')%Z ∧
    sem_cur (cpus m') = (sem_cur (cpus (manager s)) - held_cpus p + held_cpus p')%Z ∧
    sem_cur (ram m') = (sem_cur (ram (manager s)) - held_ram p + held_ram p')%Z.
Proof.
  intros [Hf Hc Hr Hsc Hsr Hlc Hlr] Hi Hst.
  destruct (fits_held _ _ Hf) as (F1 & F2 & _).
  pose proof (total_elem held_cpus _ _ _ F1 Hi) as Bc.
  pose proof (total_elem held_ram _ _ _ F2 Hi) as Br.
  rewrite <- Hc in Bc. rewrite <- Hr in Br.
  pose proof (Forall_lookup_1 _ _ _ _ Hf Hi) as Fp.
  destruct p as [c q|c q|c q| |err], e as [|err'|]; simpl in *; try discriminate Hst.
  - destruct (grant (cpus (manager s)) c) as [t|] eqn:G; simplify_eq/=.
    eexists _, _. split; [reflexivity|]. simpl.
    pose proof (grant_bound _ _ _ G). pose proof (grant_size _ _ _ G). pose proof (grant_cur _ _ _ G).
    split_and!; lia.
  - simplify_eq/=. eexists _, _. split; [reflexivity|]. simpl. split_and!; lia.
  - destruct (grant (ram (manager s)) q) as [t|] eqn:G; simplify_eq/=.
    eexists _, _. split; [reflexivity|]. simpl.
    pose proof (grant_bound _ _ _ G). pose proof (grant_size _ _ _ G). pose proof (grant_cur _ _ _ G).
    split_and!; lia.
  - destruct (release_ok (cpus (manager s)) c) as (t & Ht & ? & ?); [lia|]. rewrite Ht in Hst.
    simplify_eq/=. eexists _, _. split; [reflexivity|]. simpl. split_and!; lia.
  - destruct (release_ok (cpus (manager s)) c) as (t & Ht & ? & ?); [lia|]. rewrite Ht in Hst.
    destruct (release_ok (ram (manager s)) q) as (u & Hu & ? & ?); [lia|]. rewrite bind_Ok, Hu in Hst.
    simplify_eq/=. eexists _, _. split; [reflexivity|]. simpl. split_and!; lia.
Qed.

Lemma fits_totals m m' p : totalCPUs m' = totalCPUs m → totalRAMMBs m' = totalRAMMBs m → fits m p → fits m' p.
Proof. intros E1 E2. destruct p; simpl; by rewrite ?E1, ?E2. Qed.

Lemma system_step_inv s i e r :
  inv s → system_step s i e = Some r → ∃ s', r = Ok s' ∧ inv s' ∧
    totalCPUs (manager s') = totalCPUs (manager s) ∧ totalRAMMBs (manager s') = totalRAMMBs (manager s).
Proof.
  intros Hinv Hst. unfold system_step in Hst.
  destruct (tasks s !! i) as [p|] eqn:Hi; [|discriminate Hst]. simpl in Hst.
  destruct (Lock_step (manager s) p e) as [r1|] eqn:HL; [|discriminate Hst]. simpl in Hst.
  destruct (Lock_step_ok _ _ _ _ _ Hinv Hi HL) as (m' & p' & -> & Hp & E1 & E2 & S1 & S2 & L1 & L2 & C1 & C2).
  simplify_eq/=. eexists. split; [reflexivity|]. simpl. split; [|done].
  destruct Hinv as [Hf Hc Hr Hsc Hsr Hlc Hlr].
  split; simpl; try done.
  - apply Forall_insert; [|by eapply fits_totals].
    eapply Forall_impl; [exact Hf|]. intros q. by apply fits_totals.
  - rewrite (total_insert _ _ _ _ _ Hi). lia.
  - rewrite (total_insert _ _ _ _ _ Hi). lia.
Qed.

Lemma system_run_inv s sched :
  inv s → ∃ s', run s sched = Ok s' ∧ inv s' ∧
    totalCPUs (manager s') = totalCPUs (manager s) ∧ totalRAMMBs (manager s') = totalRAMMBs (manager s).
Proof.
  revert s. induction sched as [|[i e] sched IH]; intros s Hs; simpl; [eauto|].
  destruct (system_step s i e) as [r|] eqn:E; [|by apply IH].
  destruct (system_step_inv _ _ _ _ Hs E) as (s1 & -> & H1 & E1 & E2). rewrite bind_Ok.
  destruct (IH s1 H1) as (s' & Hr & H' & E3 & E4). exists s'. split_and!; [done..|congruence|congruence].
Qed.

(** Some call can go on without a cancellation, unless all have finished. *)
Lemma inv_progress s :
  inv s → Forall (λ p, finished p = true) (tasks s) ∨
    ∃ i e s', (e = Granted ∨ e = ReleaseCalled) ∧ system_step s i e = Some (Ok s').
Proof.
  intros Hs.
  assert (∀ i p e, tasks s !! i = Some p → is_Some (Lock_step (manager s) p e) →
    ∃ s', system_step s i e = Some (Ok s')) as Hgo.
  { intros i p e Hi [r Hr]. destruct (Lock_step_ok _ _ _ _ _ Hs Hi Hr) as (m' & p' & -> & _).
    unfold system_step. rewrite Hi. simpl. rewrite Hr. simpl. eauto. }
  destruct (decide (Exists (λ p, match p with Locked _ _ => true | _ => false end = true) (tasks s))) as [HL|HL].
  { apply Exists_exists in HL as (p & [i Hi]%list_elem_of_lookup & Hp). destruct p; try discriminate Hp.
    right. destruct (Hgo i _ ReleaseCalled Hi) as [s' Hs']; [simpl; eauto|]. eauto 10. }
  apply not_Exists_Forall in HL; [|intros; apply _].
  destruct (decide (Exists (λ p, match p with AcquireRAM _ _ => true | _ => false end = true) (tasks s))) as [HR|HR].
  { apply Exists_exists in HR as (p & [i Hi]%list_elem_of_lookup & Hp). destruct p as [|c q| | |]; try discriminate Hp.
    right. destruct (grant_idle (ram (manager s)) q) as [t Ht].
    - rewrite (inv_ram _ Hs). apply total_zero. eapply Forall_impl; [exact HL|]. by intros [].
    - rewrite (inv_size_ram _ Hs). pose proof (Forall_lookup_1 _ _ _ _ (inv_fits _ Hs) Hi) as Hp'. simpl in Hp'. lia.
    - destruct (Hgo i _ Granted Hi) as [s' Hs']; [simpl; rewrite Ht; simpl; eauto|]. eauto 10. }
  apply not_Exists_Forall in HR; [|intros; apply _].
  destruct (decide (Forall (λ p, finished p = true) (tasks s))) as [|HF]; [by left|right].
  apply not_Forall_Exists in HF; [|intros; apply _].
  apply Exists_exists in HF as (p & [i Hi]%list_elem_of_lookup & Hp).
  pose proof (Forall_lookup_1 _ _ _ _ HL Hi) as HLp. pose proof (Forall_lookup_1 _ _ _ _ HR Hi) as HRp.
  destruct p as [c q| | | |]; simpl in *; try done.
  destruct (grant_idle (cpus (manager s)) c) as [t Ht].
  - rewrite (inv_cpus _ Hs). apply total_zero, Forall_lookup. intros j p' Hj.
    pose proof (Forall_lookup_1 _ _ _ _ HL Hj). pose proof (Forall_lookup_1 _ _ _ _ HR Hj). destruct p'; simpl in *; congruence.
  - rewrite (inv_size_cpus _ Hs). pose proof (Forall_lookup_1 _ _ _ _ (inv_fits _ Hs) Hi) as Hp'. simpl in Hp'. lia.
  - destruct (Hgo i _ Granted Hi) as [s' Hs']; [simpl; rewrite Ht; simpl; eauto|]. eauto 10.
Qed.

(** The operations that a call has left. *)
Definition left (p : phase) : Z :=
  match p with AcquireCPU _ _ => 3 | AcquireRAM _ _ => 2 | Locked _ _ => 1 | _ => 0 end.

Lemma step_left s i e s' : system_step s i e = Some (Ok s') → (total left (tasks s') < total left (tasks s))%Z.
Proof.
  unfold system_step. destruct (tasks s !! i) as [p|] eqn:Hi; [|done]. simpl.
  destruct (Lock_step (manager s) p e) as [[[m' p']|err|]|] eqn:HL; simpl; intros Hs; simplify_eq/=.
  rewrite (total_insert _ _ _ _ _ Hi). enough (left p' < left p)%Z by lia.
  destruct p, e; simpl in HL; try discriminate HL.
  - destruct (grant _ _); simplify_eq/=; lia.
  - simplify_eq/=. lia.
  - destruct (grant _ _); simplify_eq/=; lia.
  - destruct (Release _ _); simplify_eq/=; lia.
  - destruct (Release (cpus _) _), (Release (ram _) _); simplify_eq/=; lia.
Qed.

(** Every state can be driven to the end by grants and releases only. *)
Lemma drain s : inv s → ∃ sched s',
  Forall (λ ie, ie.2 = Granted ∨ ie.2 = ReleaseCalled) sched ∧
  run s sched = Ok s' ∧ Forall (λ p, finished p = true) (tasks s').
Proof.
  assert (∀ n s, inv s → (total left (tasks s) < n)%Z → ∃ sched s',
    Forall (λ ie, ie.2 = Granted ∨ ie.2 = ReleaseCalled) sched ∧
    run s sched = Ok s' ∧ Forall (λ p, finished p = true) (tasks s')) as Hn.
  { intros n. induction n as [n IH] using (well_founded_induction (Z.lt_wf 0)). intros s0 Hs Hlt.
    destruct (inv_progress s0 Hs) as [Hf|(i & e & s1 & He & Hst)].
    { exists [], s0. split_and!; [constructor|reflexivity|done]. }
    pose proof (step_left _ _ _ _ Hst).
    assert (0 ≤ total left (tasks s1))%Z.
    { generalize (tasks s1). intros l. induction l as [|[]]; simpl; lia. }
    destruct (system_step_inv _ _ _ _ Hs Hst) as (s2 & [= <-] & Hi1 & _).
    destruct (IH (total left (tasks s0))%Z ltac:(lia) s1 Hi1) as (sched & s' & Hr1 & Hr2 & Hr3); [lia|].
    exists ((i, e) :: sched), s'. split_and!; [by constructor| |done]. simpl. by rewrite Hst. }
  intros Hs. apply (Hn (total left (tasks s) + 1)%Z s Hs). lia.
Qed.

(** C10: mutual exclusion by weight.  From a new manager, whatever the requests
    and however the calls interleave and are cancelled, no release panics, the
    running tasks never use more CPUs or memory than there are, and what the
    semaphores count as taken is what the calls hold: an error gives everything
    back. *)
Theorem Lock_safe c r reqs sched :
  Forall (λ q, 0 ≤ q.1 ∧ 0 ≤ q.2)%Z reqs →
  ∃ s, run (start (NewManager c r) reqs) sched = Ok s ∧
    (total running_cpus (tasks s) ≤ Z.max 1 c)%Z ∧
    (total held_ram (tasks s) ≤ Z.max 1 r)%Z ∧
    sem_cur (cpus (manager s)) = total held_cpus (tasks s) ∧
    sem_cur (ram (manager s)) = total held_ram (tasks s).
Proof.
  intros Hr. destruct (system_run_inv _ sched (inv_start c r reqs Hr)) as (s & Hs & Hi & E1 & E2).
  exists s. destruct Hi as [Hf Hc Hm Hsc Hsr Hlc Hlr]. simpl in *. rewrite max_spec in E1, E2.
  pose proof (total_le _ _ _ (proj2 (proj2 (fits_held _ _ Hf)))).
  split_and!; [done|lia|lia|done|done].
Qed.

(** C28: no deadlock.  Because a request is capped to what exists and the two
    semaphores are taken in one order, every reachable state can be brought to
    the end by grants and releases alone: no call needs a cancellation of
    another one to be served. *)
Theorem Lock_no_deadlock c r reqs sched s :
  Forall (λ q, 0 ≤ q.1 ∧ 0 ≤ q.2)%Z reqs →
  run (start (NewManager c r) reqs) sched = Ok s →
  ∃ sched' s', Forall (λ ie, ie.2 = Granted ∨ ie.2 = ReleaseCalled) sched' ∧
    run s sched' = Ok s' ∧ Forall (λ p, finished p = true) (tasks s').
Proof.
  intros Hr Hs. destruct (system_run_inv _ sched (inv_start c r reqs Hr)) as (s1 & Hs1 & Hi & _).
  rewrite Hs in Hs1. injection Hs1 as ->. by apply drain.
Qed.

End Manager.

Lemma Lock_safe_witness :
  ∃ s : @system counting,
    run (start (NewManager 8 8192) [(8, 4096); (20, 100); (1, 512)])%Z
      [(0, Granted); (1, Granted); (0, Granted); (2, CtxDone ECanceled); (0, ReleaseCalled); (1, Granted)]
      = Ok s ∧ (total running_cpus (tasks s) ≤ 8)%Z ∧ (total held_ram (tasks s) ≤ 8192)%Z.
Proof.
  destruct (Lock_safe (sem := counting) 8 8192 [(8, 4096); (20, 100); (1, 512)]%Z
      [(0, Granted); (1, Granted); (0, Granted); (2, CtxDone ECanceled); (0, ReleaseCalled); (1, Granted)])
    as (s & H1 & H2 & H3 & _).
  - repeat constructor; simpl; lia.
  - exists s. split; [exact H1|split; [exact H2|exact H3]].
Defined.

Lemma Lock_no_deadlock_witness :
  ∃ sched' (s' : @system counting), Forall (λ ie, ie.2 = Granted ∨ ie.2 = ReleaseCalled) sched' ∧
    run (start (NewManager 8 8192) [(8, 4096); (20, 100)]%Z) sched' = Ok s' ∧
    Forall (λ p, finished p = true) (tasks s').
Proof.
  apply (Lock_no_deadlock (sem := counting) 8 8192 [(8, 4096); (20, 100)]%Z []
    (start (NewManager 8 8192) [(8, 4096); (20, 100)]%Z)).
  - repeat constructor; simpl; lia.
  - reflexivity.
Defined.

(** ** The local pool *)

Record requirements := { req_cpus : Z; ramMBs : Z }.

Definition defaultReqs : requirements := {| req_cpus := 1; ramMBs := 512 |}.

Definition lblReqs (l : Labels) : option requirements :=
  if decide (l = MetalavaLabels) then Some {| req_cpus := 8; ramMBs := 8192 |}
  else if decide (l = JavacLabels) then Some {| req_cpus := 8; ramMBs := 4096 |}
  else if decide (l = R8Labels) then Some {| req_cpus := 8; ramMBs := 4096 |}
  else if decide (l = D8Labels) then Some {| req_cpus := 8; ramMBs := 4096 |}
  else if decide (l = ClangLinkLabels) then Some {| req_cpus := 1; ramMBs := 8192 |}
  else None.

(** What the executor returns; [ExitError] is [exec.ExitError]. *)
Inductive exec_result := ExecOk | ExitError (code : Z) | ExecError (e : error).

#[export] Instance exec_result_eq_dec : EqDecision exec_result.
Proof. solve_decision. Defined.

(** What the record and the resources saw of a run. *)
Inductive pool_event :=
  | LocalCommandQueued
  | LocalCommandExecution
  | Executed
  | ResourcesReleased.

(** The requirements that [Run] looks up for a command. *)
Definition required (lbls : gmap string string) : requirements :=
  default defaultReqs (lblReqs (FromMap lbls)).

(** [LocalPool.Run] around its call of [Lock], which returned [lock] (an error,
    or [None] with the resources taken); [execute] is what the executor does
    with the command.  The deferred calls run in reverse order. *)
Definition Run (lock : option error) (execute : exec_result) : Z * exec_result * list pool_event :=
  match lock with
  | Some e => (0%Z, ExecError e, [LocalCommandQueued])
  | None =>
      let exitCode := match execute with ExitError c => c | _ => 0%Z end in
      (exitCode, execute, [LocalCommandQueued; Executed; LocalCommandExecution; ResourcesReleased])
  end.

(** Commands with the given labels that the pool runs at the same time. *)
Definition pool_start {sem} `{Weighted sem} (m : Manager (sem := sem))
    (cmds : list (gmap string string)) : system (sem := sem) :=
  start m ((λ l, (req_cpus (required l), ramMBs (required l))) <$> cmds).

Lemma required_nonneg l : (0 ≤ req_cpus (required l))%Z ∧ (0 ≤ ramMBs (required l))%Z.
Proof. unfold required, lblReqs. repeat case_decide; simpl; lia. Qed.

End LocalResources.
