(* ===== verification/Lifecycle.v ===== *)
(** * The life cycle of the proxy: [internal/pkg/reproxy/server.go]

    Startup ([SetInputProcessor], [SetREClient], [SetStartupErr]), the entry and
    exit of [RunCommand], and [DrainAndReleaseResources], as one transition
    system.  A label is one atomic step of some goroutine: the whole body of a
    method that holds [smu], one channel operation, one operation of the wait
    group.  A close of a closed channel and a negative wait group panic. *)
From S2P Require Import Prelude.

Module Lifecycle.

(** The steps of [DrainAndReleaseResources]. *)
Inductive drain_phase :=
  | NotCalled
  | WaitingStarted
  | Closing
  | WaitingActions
  | CleaningUp
  | Finished.

#[export] Instance drain_phase_eq_dec : EqDecision drain_phase.
Proof. solve_decision. Defined.

(** The steps of a [RunCommand].  [Running late] is an action that the wait
    group counts; [late] records that the drain had already finished its wait
    when it was counted. *)
Inductive command_phase :=
  | Arrived
  | WaitForStarted
  | Entered
  | Running (late : bool)
  | Returned
  | Rejected (e : error).

Record Server := {
  InputProcessor : option nat;
  REClient : option nat;
  startErr : option error;
  started : bool;
  cleanupFns : list nat;
  ran : list nat;
  startupCancelled : bool;
  drain : bool;
  cleanupDone : bool;
  wgShutdown : nat;
  phase : drain_phase;
  commands : list command_phase
}.

(** [Init], with [n] commands that will arrive. *)
Definition Init (n : nat) : Server := {|
  InputProcessor := None; REClient := None; startErr := None; started := false;
  cleanupFns := []; ran := []; startupCancelled := false; drain := false;
  cleanupDone := false; wgShutdown := 0; phase := NotCalled; commands := replicate n Arrived |}.

Definition close (c : bool) : res bool := if c then Panic else Ok true.

Definition with_started (s : Server) (b : bool) : Server := {|
  InputProcessor := InputProcessor s; REClient := REClient s; startErr := startErr s;
  started := b; cleanupFns := cleanupFns s; ran := ran s;
  startupCancelled := startupCancelled s; drain := drain s; cleanupDone := cleanupDone s;
  wgShutdown := wgShutdown s; phase := phase s; commands := commands s |}.

Definition with_startup (s : Server) (ip rc : option nat) (err : option error)
    (fns runs : list nat) : Server := {|
  InputProcessor := ip; REClient := rc; startErr := err;
  started := started s; cleanupFns := fns; ran := runs;
  startupCancelled := startupCancelled s; drain := drain s; cleanupDone := cleanupDone s;
  wgShutdown := wgShutdown s; phase := phase s; commands := commands s |}.

Definition with_drain (s : Server) (ph : drain_phase) (cancelled d cd : bool) (runs : list nat) : Server := {|
  InputProcessor := InputProcessor s; REClient := REClient s; startErr := startErr s;
  started := started s; cleanupFns := cleanupFns s; ran := runs;
  startupCancelled := cancelled; drain := d; cleanupDone := cd;
  wgShutdown := wgShutdown s; phase := ph; commands := commands s |}.

Definition with_command (s : Server) (i : nat) (c : command_phase) (wg : nat) : Server := {|
  InputProcessor := InputProcessor s; REClient := REClient s; startErr := startErr s;
  started := started s; cleanupFns := cleanupFns s; ran := ran s;
  startupCancelled := startupCancelled s; drain := drain s; cleanupDone := cleanupDone s;
  wgShutdown := wg; phase := phase s; commands := <[i := c]> (commands s) |}.

Definition ready (s : Server) : bool :=
  bool_decide (is_Some (startErr s)) ||
  bool_decide (is_Some (InputProcessor s)) && bool_decide (is_Some (REClient s)).

Definition maybeUnblockStartup (s : Server) : res Server :=
  if started s then Ok s
  else if ready s then let? b := close (started s) in Ok (with_started s b)
  else Ok s.

(** [cleanup] is the identity of the function that was passed. *)
Definition SetInputProcessor (s : Server) (ip cleanup : nat) : res Server :=
  match startErr s with
  | Some _ => Ok (with_startup s (InputProcessor s) (REClient s) (startErr s) (cleanupFns s) (ran s ++ [cleanup]))
  | None => maybeUnblockStartup
      (with_startup s (Some ip) (REClient s) (startErr s) (cleanupFns s ++ [cleanup]) (ran s))
  end.

Definition SetREClient (s : Server) (rclient cleanup : nat) : res Server :=
  match startErr s with
  | Some _ => Ok (with_startup s (InputProcessor s) (REClient s) (startErr s) (cleanupFns s) (ran s ++ [cleanup]))
  | None => maybeUnblockStartup
      (with_startup s (InputProcessor s) (Some rclient) (startErr s) (cleanupFns s ++ [cleanup]) (ran s))
  end.

Definition SetStartupErr (s : Server) (err : error) : res Server :=
  match startErr s with
  | Some _ => Ok s
  | None => maybeUnblockStartup
      (with_startup s (InputProcessor s) (REClient s) (Some err) (cleanupFns s) (ran s))
  end.

(** The next step of the goroutine that runs the body of [rrOnce]; [None] when
    it is blocked or has nothing left to do. *)
Definition DrainAndReleaseResources (s : Server) : option (res Server) :=
  match phase s with
  | NotCalled =>
      Some (Ok (if started s
                then with_drain s Closing (startupCancelled s) (drain s) (cleanupDone s) (ran s)
                else with_drain s WaitingStarted true (drain s) (cleanupDone s) (ran s)))
  | WaitingStarted =>
      if started s then Some (Ok (with_drain s Closing (startupCancelled s) (drain s) (cleanupDone s) (ran s)))
      else None
  | Closing =>
      Some (let? d := close (drain s) in
            Ok (with_drain s WaitingActions (startupCancelled s) d (cleanupDone s) (ran s)))
  | WaitingActions =>
      if bool_decide (wgShutdown s = 0)
      then Some (Ok (with_drain s CleaningUp (startupCancelled s) (drain s) (cleanupDone s) (ran s)))
      else None
  | CleaningUp =>
      Some (let? c := close (cleanupDone s) in
            Ok (with_drain s Finished (startupCancelled s) (drain s) c (ran s ++ cleanupFns s)))
  | Finished => None
  end.

Definition waited (ph : drain_phase) : bool :=
  match ph with CleaningUp | Finished => true | _ => false end.

(** The next step of command [i].  The context of a command is cancelled by a
    goroutine of its own some time after [drain] is closed, or by the client:
    [ctx_done] says whether the step sees that. *)
Definition RunCommand (s : Server) (i : nat) (ctx_done : bool) : option (res Server) :=
  c ← commands s !! i;
  match c with
  | Arrived => Some (Ok (with_command s i (if ctx_done then Rejected ECanceled else WaitForStarted) (wgShutdown s)))
  | WaitForStarted =>
      if ctx_done then Some (Ok (with_command s i (Rejected EDeadlineExceeded) (wgShutdown s)))
      else if started s then
        Some (Ok (with_command s i (match startErr s with Some e => Rejected e | None => Entered end) (wgShutdown s)))
      else None
  | Entered => Some (Ok (with_command s i (Running (waited (phase s))) (wgShutdown s + 1)))
  | Running _ =>
      Some (match wgShutdown s with
            | 0 => Panic
            | S n => Ok (with_command s i Returned n)
            end)
  | Returned | Rejected _ => None
  end.

Inductive label :=
  | LSetInputProcessor (ip cleanup : nat)
  | LSetREClient (rclient cleanup : nat)
  | LSetStartupErr (err : error)
  | LDrain
  | LCommand (i : nat) (ctx_done : bool).

Definition step (s : Server) (l : label) : option (res Server) :=
  match l with
  | LSetInputProcessor ip c => Some (SetInputProcessor s ip c)
  | LSetREClient rc c => Some (SetREClient s rc c)
  | LSetStartupErr e => Some (SetStartupErr s e)
  | LDrain => DrainAndReleaseResources s
  | LCommand i b => RunCommand s i b
  end.

(** A schedule: the labels that are blocked are skipped. *)
Fixpoint run (s : Server) (tr : list label) : res Server :=
  match tr with
  | [] => Ok s
  | l :: tr' => match step s l with
                | None => run s tr'
                | Some r => let? s' := r in run s' tr'
                end
  end.

(** ** Ghost state of a schedule *)

Definition given (l : label) : list nat :=
  match l with LSetInputProcessor _ c | LSetREClient _ c => [c] | _ => [] end.

Definition is_ip (l : label) : nat := match l with LSetInputProcessor _ _ => 1 | _ => 0 end.
Definition is_rc (l : label) : nat := match l with LSetREClient _ _ => 1 | _ => 0 end.

(** Every [Set] method is called at most once, as [main] does. *)
Definition called_once (tr : list label) : Prop :=
  sum_list_with is_ip tr ≤ 1 ∧ sum_list_with is_rc tr ≤ 1.

Definition counted (c : command_phase) : nat := match c with Running _ => 1 | _ => 0 end.

(** What holds of every reachable state. *)
Record inv (s : Server) : Prop := {
  inv_started : started s = ready s;
  inv_drain : drain s = match phase s with WaitingActions | CleaningUp | Finished => true | _ => false end;
  inv_done : cleanupDone s = match phase s with Finished => true | _ => false end;
  inv_drained : match phase s with NotCalled | WaitingStarted => True | _ => started s = true end;
  inv_wg : wgShutdown s = sum_list_with counted (commands s);
  inv_late : waited (phase s) = true → ∀ i, commands s !! i ≠ Some (Running false)
}.

Lemma close_false : close false = Ok true. Proof. reflexivity. Qed.

Lemma sum_insert {A} (f : A → nat) (l : list A) i x y :
  l !! i = Some x → sum_list_with f (<[i := y]> l) + f x = sum_list_with f l + f y.
Proof.
  revert i. induction l as [|a l IH]; intros [|i] Hi; simplify_eq/=; [lia|].
  pose proof (IH i Hi). lia.
Qed.

Lemma sum_elem {A} (f : A → nat) (l : list A) i x : l !! i = Some x → f x ≤ sum_list_with f l.
Proof. revert i. induction l as [|a l IH]; intros [|i] Hi; simplify_eq/=; [lia|]. pose proof (IH i Hi). lia. Qed.

Lemma inv_Init n : inv (Init n).
Proof.
  split; simpl; try done.
  - induction n; simpl; lia.
Qed.

Lemma maybeUnblockStartup_Ok s :
  (started s = true → ready s = true) →
  maybeUnblockStartup s = Ok (with_started s (ready s)).
Proof.
  intros H. unfold maybeUnblockStartup. destruct (started s) eqn:E.
  - rewrite H by done. destruct s; simpl in *; by subst.
  - simpl. destruct (ready s) eqn:R; [done|]. destruct s; simpl in *; by subst.
Qed.

(** A [Set] method keeps the invariant and gives what it promises. *)
Lemma startup_inv s ip rc err fns runs :
  inv s → (is_Some (InputProcessor s) → is_Some ip) → (is_Some (REClient s) → is_Some rc) →
  (is_Some (startErr s) → is_Some err) →
  ∃ s', maybeUnblockStartup (with_startup s ip rc err fns runs) = Ok s' ∧ inv s' ∧
    cleanupFns s' = fns ∧ ran s' = runs ∧ phase s' = phase s ∧
    InputProcessor s' = ip ∧ REClient s' = rc ∧ startErr s' = err ∧ (started s = true → started s' = true).
Proof.
  intros [H1 H2 H3 H4 H5 H6] Hip Hrc Herr.
  assert (started s = true → ready (with_startup s ip rc err fns runs) = true) as Hm.
  { rewrite H1. unfold ready. simpl. rewrite !orb_true_iff, !andb_true_iff, !bool_decide_eq_true. tauto. }
  rewrite maybeUnblockStartup_Ok by exact Hm. eexists. split; [reflexivity|].
  simpl. split_and!; try done. split; simpl; try done.
  destruct (phase s); try done; by apply Hm.
Qed.

Lemma Set_early_inv s x : inv s →
  inv (with_startup s (InputProcessor s) (REClient s) (startErr s) (cleanupFns s) x).
Proof. intros [H1 H2 H3 H4 H5 H6]. split; simpl; try done. Qed.

(** The cleanup functions that are still to run. *)
Definition pending (s : Server) : list nat :=
  match phase s with Finished => [] | _ => cleanupFns s end.

(** The fields that only startup writes. *)
Definition same_startup (s s' : Server) : Prop :=
  InputProcessor s' = InputProcessor s ∧ REClient s' = REClient s ∧ startErr s' = startErr s.

Lemma drain_inv s r : inv s → DrainAndReleaseResources s = Some r →
  ∃ s', r = Ok s' ∧ inv s' ∧ same_startup s s' ∧ ran s' ++ pending s' = ran s ++ pending s.
Proof.
  intros [H1 H2 H3 H4 H5 H6] Hr. unfold DrainAndReleaseResources, pending in *.
  destruct (phase s) eqn:Hp; try discriminate Hr.
  - destruct (started s) eqn:Hst; simplify_eq/=; eexists; (split; [reflexivity|]);
      (split; [|done]); split; simpl; rewrite ?Hst; try done.
  - destruct (started s) eqn:Hst; simplify_eq/=. eexists. split; [reflexivity|].
    split; [|done]. split; simpl; rewrite ?Hst; try done.
  - rewrite H2 in Hr. simpl in Hr. simplify_eq/=. eexists. split; [reflexivity|].
    split; [|done]. split; simpl; try done.
  - case_bool_decide as Hw; simplify_eq/=. eexists. split; [reflexivity|].
    split; [|done]. split; simpl; try done. intros _ i Hi.
    pose proof (sum_elem counted _ _ _ Hi) as Hc. simpl in Hc. lia.
  - rewrite H3 in Hr. simpl in Hr. simplify_eq/=. eexists. split; [reflexivity|].
    split; [|simpl; by rewrite app_nil_r]. split; simpl; try done.
Qed.

Lemma with_command_inv s i c d :
  inv s → commands s !! i = Some c → (waited (phase s) = true → d ≠ Running false) →
  inv (with_command s i d (wgShutdown s - counted c + counted d)).
Proof.
  intros [H1 H2 H3 H4 H5 H6] Hi Hd. split; simpl; try done.
  - pose proof (sum_insert counted _ _ _ d Hi). pose proof (sum_elem counted _ _ _ Hi). lia.
  - intros Hw j. destruct (decide (i = j)) as [<-|Hne].
    + rewrite list_lookup_insert_eq by (by eapply lookup_lt_Some). intros [= ->]. by apply Hd.
    + rewrite list_lookup_insert_ne by done. by apply H6.
Qed.

Lemma command_inv s i b r : inv s → RunCommand s i b = Some r →
  ∃ s', r = Ok s' ∧ inv s' ∧ same_startup s s' ∧ ran s' ++ pending s' = ran s ++ pending s.
Proof.
  intros Hs Hr. unfold RunCommand in Hr. destruct (commands s !! i) as [c|] eqn:Hi; [|discriminate Hr].
  simpl in Hr.
  assert (∀ d, (waited (phase s) = true → d ≠ Running false) →
    ∃ s', Ok (with_command s i d (wgShutdown s - counted c + counted d)) = Ok s' ∧ inv s' ∧
      same_startup s s' ∧ ran s' ++ pending s' = ran s ++ pending s) as Hgo.
  { intros d Hd. eexists. split; [reflexivity|]. split; [by apply with_command_inv|done]. }
  destruct c as [| | |late| |err]; simpl in Hr, Hgo; rewrite ?Nat.sub_0_r in Hgo; try discriminate Hr.
  - injection Hr as <-. destruct b.
    + rewrite <- (Nat.add_0_r (wgShutdown s)). by apply (Hgo (Rejected ECanceled)).
    + rewrite <- (Nat.add_0_r (wgShutdown s)). by apply (Hgo WaitForStarted).
  - destruct b; [injection Hr as <-|destruct (started s); [injection Hr as <-|discriminate Hr]];
      rewrite <- (Nat.add_0_r (wgShutdown s)).
    + by apply (Hgo (Rejected EDeadlineExceeded)).
    + destruct (startErr s) as [e|]; [by apply (Hgo (Rejected e))|by apply (Hgo Entered)].
  - injection Hr as <-. apply (Hgo (Running (waited (phase s)))). intros Hw. by rewrite Hw.
  - pose proof (inv_wg _ Hs) as Hwg. pose proof (sum_elem counted _ _ _ Hi) as Hc. simpl in Hc.
    destruct (wgShutdown s) as [|n]; [lia|]. injection Hr as <-.
    specialize (Hgo Returned). simpl in Hgo. rewrite Nat.sub_0_r, Nat.add_0_r in Hgo. by apply Hgo.
Qed.

(** What one label does to the invariant and to the cleanup functions. *)
Lemma step_inv s l r : inv s → step s l = Some r →
  ∃ s', r = Ok s' ∧ inv s' ∧
    (is_Some (InputProcessor s') → is_Some (InputProcessor s) ∨ is_ip l = 1) ∧
    (is_Some (REClient s') → is_Some (REClient s) ∨ is_rc l = 1) ∧
    ((started s = true → is_Some (startErr s) ∨ (is_ip l = 0 ∧ is_rc l = 0)) →
     ran s' ++ pending s' ≡ₚ ran s ++ pending s ++ given l).
Proof.
  intros Hs Hst.
  assert (∀ s', same_startup s s' → (is_Some (InputProcessor s') → is_Some (InputProcessor s)) ∧
    (is_Some (REClient s') → is_Some (REClient s))) as Hsame by (intros s' (E1 & E2 & _); by rewrite E1, E2).
  destruct l as [ip c|rc c|e| |i b]; simpl in Hst.
  - injection Hst as <-. unfold SetInputProcessor. destruct (startErr s) as [err|] eqn:He.
    + eexists. split; [reflexivity|]. rewrite <- He. split; [by apply Set_early_inv|].
      split_and!; [by left|by left|]. intros _. unfold pending. simpl.
      rewrite <- app_assoc. apply Permutation_app_head, Permutation_app_comm.
    + rewrite <- He. destruct (startup_inv s (Some ip) (REClient s) (startErr s) (cleanupFns s ++ [c]) (ran s))
        as (s' & Hs' & Hi & E1 & E2 & E3 & E4 & E5 & E6 & _); [done|done|done|done|].
      exists s'. split; [done|]. split; [done|]. rewrite E4, E5. split_and!; [by right|by left|].
      intros Hlate. unfold pending. rewrite E1, E2, E3. destruct (phase s) eqn:Hp; rewrite ?app_assoc; try done.
      exfalso. pose proof (inv_drained _ Hs) as Hd. rewrite Hp in Hd.
      destruct (Hlate Hd) as [[x Hx]|[Hx _]]; [congruence|done].
  - injection Hst as <-. unfold SetREClient. destruct (startErr s) as [err|] eqn:He.
    + eexists. split; [reflexivity|]. rewrite <- He. split; [by apply Set_early_inv|].
      split_and!; [by left|by left|]. intros _. unfold pending. simpl.
      rewrite <- app_assoc. apply Permutation_app_head, Permutation_app_comm.
    + rewrite <- He. destruct (startup_inv s (InputProcessor s) (Some rc) (startErr s) (cleanupFns s ++ [c]) (ran s))
        as (s' & Hs' & Hi & E1 & E2 & E3 & E4 & E5 & E6 & _); [done|done|done|done|].
      exists s'. split; [done|]. split; [done|]. rewrite E4, E5. split_and!; [by left|by right|].
      intros Hlate. unfold pending. rewrite E1, E2, E3. destruct (phase s) eqn:Hp; rewrite ?app_assoc; try done.
      exfalso. pose proof (inv_drained _ Hs) as Hd. rewrite Hp in Hd.
      destruct (Hlate Hd) as [[x Hx]|[_ Hx]]; [congruence|done].
  - injection Hst as <-. unfold SetStartupErr. destruct (startErr s) as [err|] eqn:He.
    + eexists. split; [reflexivity|]. split; [done|]. split_and!; [by left|by left|]. simpl. by rewrite app_nil_r.
    + destruct (startup_inv s (InputProcessor s) (REClient s) (Some e) (cleanupFns s) (ran s))
        as (s' & Hs' & Hi & E1 & E2 & E3 & E4 & E5 & E6 & _); [done|done|done|done|].
      exists s'. split; [done|]. split; [done|]. rewrite E4, E5. split_and!; [by left|by left|].
      intros _. unfold pending. rewrite E1, E2, E3. simpl. by rewrite app_nil_r.
  - destruct (drain_inv _ _ Hs Hst) as (s' & -> & Hi & Hss & Hp). exists s'. split; [done|].
    split; [done|]. destruct (Hsame _ Hss). split_and!; [by left; auto|by left; auto|].
    intros _. rewrite Hp. simpl. by rewrite app_nil_r.
  - destruct (command_inv _ _ _ _ Hs Hst) as (s' & -> & Hi & Hss & Hp). exists s'. split; [done|].
    split; [done|]. destruct (Hsame _ Hss). split_and!; [by left; auto|by left; auto|].
    intros _. rewrite Hp. simpl. by rewrite app_nil_r.
Qed.

Lemma run_inv s tr : inv s → ∃ s', run s tr = Ok s' ∧ inv s'.
Proof.
  revert s. induction tr as [|l tr IH]; intros s Hs; simpl; [eauto|].
  destruct (step s l) as [r|] eqn:E; [|by apply IH].
  destruct (step_inv _ _ _ Hs E) as (s1 & -> & H1 & _). rewrite bind_Ok. by apply IH.
Qed.

(** The calls that are still to come, given the components that are set. *)
Definition may_come (s : Server) (tr : list label) : Prop :=
  called_once tr ∧ (is_Some (InputProcessor s) → sum_list_with is_ip tr = 0) ∧
  (is_Some (REClient s) → sum_list_with is_rc tr = 0).

Lemma blocked_given s l : step s l = None → given l = [].
Proof. by destruct l. Qed.

Lemma run_cleanup s tr s' :
  inv s → may_come s tr → run s tr = Ok s' →
  ran s' ++ pending s' ≡ₚ ran s ++ pending s ++ (tr ≫= given).
Proof.
  revert s. induction tr as [|l tr IH]; intros s Hs ((Ho1 & Ho2) & Hip & Hrc) Hr; simpl in *.
  { simplify_eq. by rewrite app_nil_r. }
  destruct (step s l) as [r|] eqn:E.
  - destruct (step_inv _ _ _ Hs E) as (s1 & -> & H1 & Hip1 & Hrc1 & Hp). rewrite bind_Ok in Hr.
    rewrite (IH s1 H1); [..|exact Hr].
    + rewrite app_assoc, (app_assoc (ran s)), (app_assoc (ran s ++ pending s)). apply Permutation_app_tail.
      rewrite <- app_assoc. apply Hp. intros Hstart. rewrite (inv_started _ Hs) in Hstart. unfold ready in Hstart.
      rewrite orb_true_iff, andb_true_iff, !bool_decide_eq_true in Hstart.
      destruct Hstart as [|[Hx Hy]]; [by left|right]. specialize (Hip Hx). specialize (Hrc Hy). lia.
    + split; [split; lia|]. split.
      * intros [Hx|Hx]%Hip1; [specialize (Hip Hx); lia|lia].
      * intros [Hx|Hx]%Hrc1; [specialize (Hrc Hx); lia|lia].
  - rewrite (IH s Hs); [..|exact Hr].
    + by rewrite (blocked_given _ _ E).
    + split; [split; lia|]. split; intros Hx; [specialize (Hip Hx)|specialize (Hrc Hx)]; lia.
Qed.

(** C26: for every schedule of the startup, drain and command goroutines, no
    channel is closed twice and the wait group never goes below zero, and
    startup is unblocked exactly when there was an error or both components
    are there. *)
Theorem lifecycle_safe n tr :
  ∃ s, run (Init n) tr = Ok s ∧
    (started s = true ↔
      is_Some (startErr s) ∨ (is_Some (InputProcessor s) ∧ is_Some (REClient s))) ∧
    (cleanupDone s = true → drain s = true ∧ started s = true) ∧
    wgShutdown s = sum_list_with counted (commands s).
Proof.
  destruct (run_inv _ tr (inv_Init n)) as (s & Hs & [H1 H2 H3 H4 H5 H6]). exists s.
  split; [done|]. split; [|split; [|done]].
  - rewrite H1. unfold ready. by rewrite orb_true_iff, andb_true_iff, !bool_decide_eq_true.
  - rewrite H2, H3. by destruct (phase s).
Qed.

(** C3: every cleanup function runs exactly once.  When each [Set] method is
    called at most once, in whatever order with the startup error and the
    shutdown, the functions that have run and those that the drain will run are
    the ones that were given, and after the cleanup all of them have run. *)
Theorem cleanup_exactly_once n tr s :
  called_once tr → run (Init n) tr = Ok s →
  ran s ++ pending s ≡ₚ tr ≫= given ∧ (cleanupDone s = true → ran s ≡ₚ tr ≫= given).
Proof.
  intros Ho Hr. pose proof (run_cleanup _ _ _ (inv_Init n) ltac:(split; [done|split; intros []; done]) Hr) as Hp.
  simpl in Hp. split; [done|].
  destruct (run_inv _ tr (inv_Init n)) as (s1 & Hs1 & Hi). rewrite Hr in Hs1. injection Hs1 as <-.
  rewrite (inv_done _ Hi). unfold pending in Hp. destruct (phase s); try done. by rewrite app_nil_r in Hp.
Qed.

Definition trace_example : list label :=
  [LSetInputProcessor 1 10; LDrain; LDrain; LSetStartupErr ECanceled; LSetREClient 2 20;
   LDrain; LDrain; LDrain; LDrain].

Definition trace_end : Server :=
  Eval vm_compute in match run (Init 0) trace_example with Ok s => s | _ => Init 0 end.

Lemma trace_example_run : run (Init 0) trace_example = Ok trace_end.
Proof. vm_compute. reflexivity. Qed.

Lemma trace_example_once : called_once trace_example.
Proof. split; vm_compute; lia. Qed.

Lemma cleanup_exactly_once_witness :
  run (Init 0) trace_example = Ok trace_end ∧ ran trace_end ≡ₚ (trace_example ≫= given).
Proof.
  split; [exact trace_example_run|].
  exact (proj2 (cleanup_exactly_once 0 trace_example trace_end trace_example_once trace_example_run) eq_refl).
Defined.

(** The drain waits for every action that it could see: after the cleanup
    no action runs that was counted before the wait ended.  It cannot see a
    command that passed the entry checks but was not yet counted: there is a
    schedule in which the resources are released while its action runs. *)
Theorem drain_waits_for_counted :
  (∀ n tr s i late, run (Init n) tr = Ok s → cleanupDone s = true →
    commands s !! i = Some (Running late) → late = true) ∧
  (∃ tr s, run (Init 1) tr = Ok s ∧ cleanupDone s = true ∧ ran s = [10; 20] ∧
    commands s !! 0 = Some (Running true)).
Proof.
  split.
  - intros n tr s i late Hr Hd Hi. destruct (run_inv _ tr (inv_Init n)) as (s1 & Hs1 & Hv).
    rewrite Hr in Hs1. injection Hs1 as <-. rewrite (inv_done _ Hv) in Hd.
    destruct late; [done|]. exfalso. apply (inv_late _ Hv) in Hi; [done|]. by destruct (phase s).
  - exists [LSetInputProcessor 1 10; LSetREClient 2 20; LCommand 0 false; LCommand 0 false;
            LDrain; LDrain; LDrain; LDrain; LCommand 0 false].
    eexists. vm_compute. by split_and!.
Qed.

End Lifecycle.
