(* ===== verification/GoFloat.v ===== *)
(** * The [float64] arithmetic that the code uses

    IEEE 754 binary64 numbers with rounding to nearest even, as the Standard
    Library's executable specification computes them. *)
From S2P Require Import Prelude.
From Stdlib Require Export Floats.SpecFloat.

Definition float64 : Type := spec_float.

(** [float64(z)] of an integer. *)
Definition float64_of_int (z : Z) : float64 := binary_normalize 53 1024 z 0 false.

(** The literal [n/d]: the nearest float. *)
Definition float64_lit (n d : Z) : float64 :=
  SFdiv 53 1024 (float64_of_int n) (float64_of_int d).

Definition fdiv (x y : float64) : float64 := SFdiv 53 1024 x y.
Definition fmul (x y : float64) : float64 := SFmul 53 1024 x y.
(** [x >= y]; false when one is not a number. *)
Definition fge (x y : float64) : bool := SFleb y x.
Definition feq (x y : float64) : bool := SFeqb x y.
Definition fgt (x y : float64) : bool := SFltb y x.

(** [int64(x)] for a finite number: truncation toward zero. *)
Definition int64_of_float (x : float64) : Z :=
  match x with
  | S754_finite s m e =>
      let a := if (0 <=? e)%Z then (Z.pos m * 2 ^ e)%Z else (Z.pos m / 2 ^ (- e))%Z in
      int64 (if s then - a else a)%Z
  | _ => 0%Z
  end.

Example ratio_half : fge (fdiv (float64_of_int 5) (float64_of_int 10)) (float64_lit 1 2) = true.
Proof. vm_compute. reflexivity. Qed.
Example ratio_nan : fge (fdiv (float64_of_int 0) (float64_of_int 0)) (float64_of_int 0) = false.
Proof. vm_compute. reflexivity. Qed.
Example trunc_example : int64_of_float (fmul (float64_of_int 7) (float64_lit 1 2)) = 3%Z.
Proof. vm_compute. reflexivity. Qed.
