(* ===== verification/FailEarly.v ===== *)
(** * Failing a build early: [internal/pkg/reproxy/server.go]

    The windowed counters of actions and fallbacks, the periodic check that
    turns [failBuild] on, and the contexts whose cancellation carries a cause.
    The specification of a counter is the list of its increments with their
    times. *)
From S2P Require Import Prelude GoFloat.

Module FailEarly.

(** ** Contexts with a cause *)

(** [ctxWithCause]: [inner] is the error of the embedded context. *)
Record ctxWithCause := { inner : option error; cause : option error }.

Definition Err (c : ctxWithCause) : option error :=
  match cause c with Some e => Some e | None => inner c end.

(** The function that [cancelWithCause] returns: the cause is stored first, and
    the context is cancelled unless it was done already. *)
Definition cancel_with (e : option error) (c : ctxWithCause) : ctxWithCause :=
  {| inner := match inner c with Some i => Some i | None => Some ECanceled end; cause := e |}.

(** ** Windowed counters *)

(** [timers] are the pending [time.AfterFunc] calls: when they fire and what
    they take back. *)
Record windowedCount := { cnt : Z; window : Z; timers : list (Z * Z) }.

Definition new_windowedCount (w : Z) : windowedCount := {| cnt := 0; window := w; timers := [] |}.

Definition Add (now inc : Z) (wc : windowedCount) : windowedCount := {|
  cnt := int64 (cnt wc + inc);
  window := window wc;
  timers := if bool_decide (window wc = 0%Z) then timers wc
            else timers wc ++ [((now + window wc)%Z, inc)] |}.

(** The timers that are due at [now] fire. *)
Definition fire (now : Z) (wc : windowedCount) : windowedCount := {|
  cnt := foldr (λ t c, int64 (c + - t.2)) (cnt wc) (filter (λ t, (t.1 ≤ now)%Z) (timers wc));
  window := window wc;
  timers := filter (λ t, ¬ (t.1 ≤ now)%Z) (timers wc) |}.

Definition Load (wc : windowedCount) : Z := cnt wc.

(** ** The check *)

(** The number of timeouts that are allowed; [main] adds to it
    ([ReproxyMain.v]). *)
Definition AllowedIPTimeouts : Z := 7.

(** [allowedIPTimeouts] is the value of that variable once [main] has started. *)
Record Config := { FailEarlyMinActionCount : Z; FailEarlyMinFallbackRatio : float64; allowedIPTimeouts : Z }.

Record State := {
  numFallbacks : windowedCount;
  numActions : windowedCount;
  numIPTimeouts : Z;
  failBuild : bool;
  failBuildErr : option error;
  activeActions : gmap string ctxWithCause
}.

Section Check.

(** [fmt.Sprintf] with [%v] of an integer, and with [%.1f%%] of a float. *)
Variables (format_int : Z → string) (format_percent : float64 → string).
Variable cfg : Config.

Definition too_many_timeouts (nt : Z) : bool := (nt >? allowedIPTimeouts cfg)%Z.

Definition too_many_fallbacks (nf na : Z) : bool :=
  fge (fdiv (float64_of_int nf) (float64_of_int na)) (FailEarlyMinFallbackRatio cfg).

Definition getFailBuildErr (nf na nt : Z) : option error :=
  if too_many_timeouts nt then
    Some (EMsg ("this build has encountered too many action input processing timeouts. Number of timeouts "
                +:+ format_int nt +:+ " > " +:+ format_int (allowedIPTimeouts cfg)))
  else if too_many_fallbacks nf na then
    Some (EMsg ("this build has encountered too many local fallbacks. This means that the ratio of actions that failed remotely is equal to or above the preconfigured threshold of "
                +:+ format_percent (fmul (FailEarlyMinFallbackRatio cfg) (float64_of_int 100))))
  else None.

Definition checkFailBuild (s : State) : State :=
  let nf := Load (numFallbacks s) in
  let na := Load (numActions s) in
  let nt := numIPTimeouts s in
  if (nt <=? allowedIPTimeouts cfg)%Z && (na <? FailEarlyMinActionCount cfg)%Z then s
  else if too_many_timeouts nt || too_many_fallbacks nf na then
    let err := getFailBuildErr nf na nt in
    {| numFallbacks := numFallbacks s; numActions := numActions s; numIPTimeouts := nt;
       failBuild := true; failBuildErr := err;
       activeActions := cancel_with err <$> activeActions s |}
  else s.

Definition shouldFailBuild (s : State) : bool * option error := (failBuild s, failBuildErr s).

(** [monitorFailBuildConditions] returns at once when the feature is off, and
    otherwise checks at every tick. *)
Definition monitor_enabled : bool :=
  negb ((FailEarlyMinActionCount cfg =? 0)%Z || feq (FailEarlyMinFallbackRatio cfg) (float64_of_int 0)).

Definition monitorFailBuildConditions (ticks : nat) (s : State) : State :=
  if monitor_enabled then Nat.iter ticks checkFailBuild s else s.

(** The specification of the condition under which a build is failed. *)
Definition must_fail (nf na nt : Z) : Prop :=
  (allowedIPTimeouts cfg < nt)%Z ∨
  (FailEarlyMinActionCount cfg ≤ na)%Z ∧ too_many_fallbacks nf na = true.

(** A check fails the build exactly when there were too many input
    processing timeouts, or enough actions with too high a share of fallbacks.
    Then the error is set, and the context of every action in flight is done
    with that error; otherwise nothing changes. *)
Theorem checkFailBuild_spec s :
  let nf := Load (numFallbacks s) in
  let na := Load (numActions s) in
  let nt := numIPTimeouts s in
  (must_fail nf na nt →
     ∃ e, shouldFailBuild (checkFailBuild s) = (true, Some e) ∧
       ∀ id c, activeActions (checkFailBuild s) !! id = Some c → Err c = Some e ∧ is_Some (inner c)) ∧
  (¬ must_fail nf na nt → checkFailBuild s = s).
Proof.
  intros nf na nt. unfold checkFailBuild, must_fail. fold nf na nt. split.
  - intros Hm. assert (((nt <=? allowedIPTimeouts cfg)%Z && (na <? FailEarlyMinActionCount cfg)%Z) = false) as ->.
    { apply andb_false_iff. destruct Hm as [Hm|[Hm _]]; [left; lia|right; lia]. }
    assert (too_many_timeouts nt || too_many_fallbacks nf na = true) as Hor.
    { apply orb_true_iff. unfold too_many_timeouts. destruct Hm as [Hm|[_ Hm]]; [left; lia|by right]. }
    rewrite Hor. unfold shouldFailBuild. simpl.
    assert (∃ e, getFailBuildErr nf na nt = Some e) as [e He].
    { unfold getFailBuildErr. destruct (too_many_timeouts nt); [eauto|]. simpl in Hor. rewrite Hor. eauto. }
    exists e. rewrite He. split; [done|]. intros id c.
    rewrite lookup_fmap. destruct (activeActions s !! id) as [c0|]; [|done]. intros [= <-].
    simpl. by destruct (inner c0).
  - intros Hm. case_match eqn:E; [done|]. rewrite andb_false_iff in E.
    destruct (too_many_timeouts nt) eqn:Et.
    { exfalso. apply Hm. left. unfold too_many_timeouts in Et. lia. }
    destruct (too_many_fallbacks nf na) eqn:Ef; [|done]. exfalso. apply Hm. right.
    unfold too_many_timeouts in Et. destruct E; [lia|]. split; [lia|done].
Qed.

End Check.

Definition config_example : Config :=
  {| FailEarlyMinActionCount := 4; FailEarlyMinFallbackRatio := float64_lit 1 2; allowedIPTimeouts := AllowedIPTimeouts |}.
Definition state_example : State := {|
  numFallbacks := {| cnt := 3; window := 0; timers := [] |};
  numActions := {| cnt := 5; window := 0; timers := [] |};
  numIPTimeouts := 1; failBuild := false; failBuildErr := None;
  activeActions := {[ "id" := {| inner := None; cause := None |} ]} |}.

Lemma checkFailBuild_spec_witness :
  ∃ e, shouldFailBuild (checkFailBuild pretty (λ _, "50.0%") config_example state_example) = (true, Some e).
Proof.
  destruct (proj1 (checkFailBuild_spec pretty (λ _, "50.0%") config_example state_example))
    as (e & He & _).
  - right. split; vm_compute; [discriminate|reflexivity].
  - exists e. exact He.
Defined.

(** ** What a windowed counter counts *)

Definition sum (l : list (Z * Z)) : Z := foldr (λ t c, (c + t.2)%Z) 0%Z l.

Lemma fire_cnt l c : foldr (λ t c, int64 (c + - t.2)) (int64 c) l = int64 (c - sum l).
Proof.
  induction l as [|[t i] l IH]; simpl; [f_equal; lia|]. rewrite IH, int64_add. f_equal. lia.
Qed.

Lemma sum_app l k : sum (l ++ k) = (sum l + sum k)%Z.
Proof. induction l as [|[] l IH]; simpl; lia. Qed.

Lemma sum_filter (P : Z * Z → Prop) `{∀ x, Decision (P x)} l :
  sum l = (sum (filter P l) + sum (filter (λ x, ¬ P x) l))%Z.
Proof.
  induction l as [|x l IH]; simpl; [done|].
  rewrite !filter_cons. destruct (decide (P x)), (decide (¬ P x)); simpl; try lia; tauto.
Qed.

(** The life of a counter: increments at given times. *)
Definition adds (wc : windowedCount) (evs : list (Z * Z)) : windowedCount :=
  foldl (λ wc ev, Add ev.1 ev.2 (fire ev.1 wc)) wc evs.

(** The increments that a window of length [w] still covers at [now]. *)
Definition live (now w : Z) (evs : list (Z * Z)) : list (Z * Z) :=
  filter (λ ev, now < ev.1 + w)%Z evs.

Definition shift (w : Z) (ev : Z * Z) : Z * Z := ((ev.1 + w)%Z, ev.2).

Lemma sum_shift w l : sum (shift w <$> l) = sum l.
Proof.
  induction l as [|[t i] l IH]; [done|]. rewrite fmap_cons.
  change (sum (shift w <$> l) + i = sum l + i)%Z. by rewrite IH.
Qed.

Lemma live_later now now' w evs :
  (now ≤ now')%Z →
  filter (λ t, ¬ (t.1 ≤ now')%Z) (shift w <$> live now w evs) = shift w <$> live now' w evs.
Proof.
  intros Hle. unfold live. induction evs as [|[t i] evs IH]; [done|].
  rewrite !filter_cons. simpl.
  destruct (decide (now < t + w)%Z), (decide (now' < t + w)%Z); try lia; rewrite ?fmap_cons, ?filter_cons; simpl.
  - rewrite decide_True by lia. by rewrite IH.
  - rewrite decide_False by lia. apply IH.
  - apply IH.
Qed.

(** The counter, its timers and the increments so far, at time [now]. *)
Definition counts (wc : windowedCount) (evs : list (Z * Z)) (now : Z) : Prop :=
  cnt wc = int64 (sum (if bool_decide (window wc = 0%Z) then evs else live now (window wc) evs)) ∧
  timers wc = if bool_decide (window wc = 0%Z) then [] else shift (window wc) <$> live now (window wc) evs.

Lemma fire_counts wc evs now now' :
  counts wc evs now → (now ≤ now')%Z → counts (fire now' wc) evs now'.
Proof.
  intros [Hc Ht] Hle. unfold counts, fire. simpl. rewrite Ht, Hc.
  case_bool_decide as Hw; [done|]. rewrite live_later by done. split; [|done].
  rewrite fire_cnt. f_equal.
  pose proof (sum_filter (λ t, (t.1 ≤ now')%Z) (shift (window wc) <$> live now (window wc) evs)) as Hs.
  cbv beta in Hs. rewrite live_later in Hs by done. rewrite !sum_shift in Hs. lia.
Qed.

Lemma Add_counts wc evs now inc :
  counts wc evs now → (0 ≤ window wc)%Z → counts (Add now inc wc) (evs ++ [(now, inc)]) now.
Proof.
  intros [Hc Ht] Hw. unfold counts, Add. simpl. rewrite Ht, Hc, int64_add.
  case_bool_decide as H0.
  - split; [|done]. rewrite sum_app. simpl. f_equal; lia.
  - unfold live. rewrite filter_app, filter_cons. simpl. rewrite decide_True by lia.
    rewrite sum_app, fmap_app. simpl. split; [f_equal; lia|done].
Qed.

Lemma adds_counts wc evs0 now evs :
  counts wc evs0 now → (0 ≤ window wc)%Z → Sorted Z.le (now :: evs.*1) →
  ∃ t, counts (adds wc evs) (evs0 ++ evs) t ∧ window (adds wc evs) = window wc ∧
    t = default now (last evs.*1).
Proof.
  revert wc evs0 now. induction evs as [|[t i] evs IH]; intros wc evs0 now Hc Hw Hs; simpl.
  { exists now. by rewrite app_nil_r. }
  apply Sorted_inv in Hs as [Hs Hle]. simpl in Hle. apply HdRel_inv in Hle.
  destruct (IH (Add t i (fire t wc)) (evs0 ++ [(t, i)]) t) as (t' & H1 & H2 & H3).
  - apply Add_counts; [by eapply fire_counts|done].
  - done.
  - exact Hs.
  - exists t'. rewrite <- app_assoc in H1. simpl in H2. split_and!; [done|done|].
    rewrite H3. change (default t (last evs.*1) = default now (last (t :: evs.*1))).
    rewrite last_cons. by destruct (last evs.*1).
Qed.

Lemma Sorted_snoc (l : list Z) x :
  Sorted Z.le (l ++ [x]) → Sorted Z.le l ∧ ∀ y, last l = Some y → (y ≤ x)%Z.
Proof.
  induction l as [|a l IH]; intros Hl; [split; [constructor|done]|].
  apply Sorted_inv in Hl as [Hl Ha]. destruct (IH Hl) as [H1 H2]. destruct l as [|b l].
  - split; [repeat constructor|]. intros y [= <-]. by apply HdRel_inv in Ha.
  - split; [constructor; [done|constructor; by apply HdRel_inv in Ha]|exact H2].
Qed.

(** C17: a windowed counter counts the increments of the last window.  Whatever
    the increments and their times, its value at a later time is their sum (in
    64 bits) over the window before that time, or over all when there is no
    window. *)
Theorem windowedCount_refines w evs now :
  (0 ≤ w)%Z → Sorted Z.le (evs.*1 ++ [now]) →
  Load (fire now (adds (new_windowedCount w) evs)) =
    int64 (sum (if bool_decide (w = 0%Z) then evs else filter (λ ev, now < ev.1 + w)%Z evs)).
Proof.
  intros Hw Hs. destruct evs as [|[t i] evs].
  { unfold adds, fire, Load. simpl. by destruct (bool_decide _). }
  apply Sorted_snoc in Hs as [Hs Hlast].
  destruct (adds_counts (new_windowedCount w) [] t ((t, i) :: evs)) as (t' & Hc & H3 & H4).
  - split; simpl; by destruct (bool_decide _).
  - done.
  - constructor; [exact Hs|]. constructor. simpl. lia.
  - assert (t' ≤ now)%Z as Hle.
    { destruct (last ((t, i) :: evs).*1) as [y|] eqn:Hl; [|by rewrite last_None in Hl].
      rewrite H4. by apply Hlast. }
    pose proof (fire_counts _ _ _ now Hc Hle) as [Hf _]. unfold Load. rewrite Hf.
    change (window (fire now ?x)) with (window x). by rewrite H3.
Qed.

Lemma windowedCount_refines_witness :
  Load (fire 25 (adds (new_windowedCount 10) [(1, 1); (12, 1); (18, 2); (24, 1)]))%Z = 3%Z.
Proof.
  rewrite (windowedCount_refines 10 [(1, 1); (12, 1); (18, 2); (24, 1)]%Z 25).
  - reflexivity.
  - lia.
  - simpl. repeat constructor; lia.
Defined.

End FailEarly.
