(* ===== verification/GoFS.v ===== *)
(** * The file operations of package [os] that the code uses

    A file system is a map from absolute, clean paths to files and directories;
    the root is always a directory.  An operation that fails leaves the file
    system unchanged. *)
From S2P Require Import Prelude GoStrings GoPath.

Inductive node := NFile (content : string) (mode : Z) | NDir.

#[export] Instance node_eq_dec : EqDecision node.
Proof. solve_decision. Defined.

Notation fs := (gmap string node).

Module OS.

Definition is_dir (f : fs) (p : string) : bool :=
  bool_decide (p = "/") || bool_decide (f !! p = Some NDir).

(** [q] is below the directory [p]. *)
Definition below (p q : string) : bool := HasPrefix q (p +:+ "/").

Definition Stat (f : fs) (p : string) : res node :=
  if is_dir f p then Ok NDir else or_fail ENotExist (f !! p).

(** The content that reading a file gives; a directory cannot be read. *)
Definition ReadFile (f : fs) (p : string) : res string :=
  let? n := Stat f p in
  match n with NFile c _ => Ok c | NDir => Fail (EMsg "is a directory") end.

(** [os.Create]: an empty file; an existing one is truncated and keeps its
    mode. *)
Definition Create (f : fs) (p : string) : res fs :=
  if is_dir f p then Fail (EMsg "is a directory")
  else if negb (is_dir f (Filepath.Dir p)) then Fail ENotExist
  else Ok (<[p := NFile "" (match f !! p with Some (NFile _ m) => m | _ => 438%Z end)]> f).

(** The write of a whole content to an open file. *)
Definition Write (f : fs) (p content : string) : res fs :=
  match f !! p with
  | Some (NFile _ m) => Ok (<[p := NFile content m]> f)
  | _ => Fail (EMsg "not a file")
  end.

(** [os.WriteFile]: the file is created or truncated, and written. *)
Definition WriteFile (f : fs) (p content : string) : res fs :=
  let? f := Create f p in Write f p content.

Definition Chmod (f : fs) (p : string) (mode : Z) : res fs :=
  match f !! p with
  | Some (NFile c _) => Ok (<[p := NFile c mode]> f)
  | Some NDir => Ok f
  | None => Fail ENotExist
  end.

Definition Mode (n : node) : Z := match n with NFile _ m => m | NDir => 493%Z end.

Definition has_children (f : fs) (p : string) : bool :=
  existsb (λ kv, below p kv.1) (map_to_list f).

Definition Remove (f : fs) (p : string) : res fs :=
  match f !! p with
  | None => Fail ENotExist
  | Some NDir => if has_children f p then Fail (EMsg "directory not empty") else Ok (delete p f)
  | Some (NFile _ _) => Ok (delete p f)
  end.

Definition RemoveAll (f : fs) (p : string) : fs :=
  filter (λ kv : string * node, negb (below p kv.1) && negb (bool_decide (kv.1 = p))) f.

(** The directories from the root to [p], outermost first. *)
Fixpoint ancestors (fuel : nat) (p : string) : list string :=
  match fuel with
  | 0 => []
  | S n => if bool_decide (p = "/") || bool_decide (p = ".") then []
           else ancestors n (Filepath.Dir p) ++ [p]
  end.

Definition mkdir_step (r : res fs) (p : string) : res fs :=
  let? f := r in
  match f !! p with
  | Some (NFile _ _) => Fail (EMsg "not a directory")
  | Some NDir => Ok f
  | None => Ok (<[p := NDir]> f)
  end.

Definition MkdirAll (f : fs) (p : string) : res fs :=
  foldl mkdir_step (Ok f) (ancestors (String.length p + 1) p).

Definition move_key (src dst k : string) : string :=
  if below src k then dst +:+ str_drop (String.length src) k else k.

Definition Rename (f : fs) (src dst : string) : res fs :=
  if negb (is_dir f (Filepath.Dir dst)) then Fail ENotExist else
  match f !! src with
  | None => Fail ENotExist
  | Some (NFile c m) =>
      if is_dir f dst then Fail (EMsg "file exists") else Ok (<[dst := NFile c m]> (delete src f))
  | Some NDir =>
      match f !! dst with
      | Some (NFile _ _) => Fail (EMsg "not a directory")
      | Some NDir =>
          if has_children f dst then Fail (EMsg "directory not empty")
          else Ok (<[dst := NDir]> (list_to_map ((λ kv, (move_key src dst kv.1, kv.2)) <$> map_to_list (delete src f))))
      | None => Ok (<[dst := NDir]> (list_to_map ((λ kv, (move_key src dst kv.1, kv.2)) <$> map_to_list (delete src f))))
      end
  end.

Lemma Rename_file f src dst c m :
  is_dir f (Filepath.Dir dst) = true → f !! src = Some (NFile c m) → is_dir f dst = false →
  Rename f src dst = Ok (<[dst := NFile c m]> (delete src f)).
Proof. intros H1 H2 H3. unfold Rename. by rewrite H1, H2, H3. Qed.

Lemma WriteFile_ReadFile f p content f' : WriteFile f p content = Ok f' → ReadFile f' p = Ok content.
Proof.
  unfold WriteFile, Create. destruct (is_dir f p) eqn:Ed; [done|]. destruct (negb _); [done|]. cbn [mbind res_bind].
  unfold Write. rewrite lookup_insert_eq. intros [= <-]. unfold ReadFile, Stat, is_dir in *.
  apply orb_false_iff in Ed as [-> _]. by rewrite lookup_insert_eq.
Qed.

(** A removal whose error is only logged. *)
Definition try_Remove (f : fs) (p : string) : fs := match Remove f p with Ok f => f | _ => f end.

Lemma try_Remove_other f p q : q ≠ p → try_Remove f p !! q = f !! q.
Proof.
  intros Hq. unfold try_Remove, Remove. destruct (f !! p) as [[c m|]|]; [|destruct (has_children f p)|]; try done;
    by apply lookup_delete_ne.
Qed.

Lemma try_Remove_file f p q c m : try_Remove f p !! q = Some (NFile c m) → f !! q = Some (NFile c m) ∧ q ≠ p.
Proof.
  destruct (decide (q = p)) as [->|Hq]; [|by rewrite try_Remove_other]. unfold try_Remove, Remove.
  destruct (f !! p) as [[]|] eqn:E; [by rewrite lookup_delete_eq| |by rewrite E].
  destruct (has_children f p); [by rewrite E|by rewrite lookup_delete_eq].
Qed.

(** Only the paths of the list are touched, and no file is left there. *)
Lemma try_Removes_spec ps f :
  (∀ q, q ∉ ps → foldl try_Remove f ps !! q = f !! q) ∧
  (∀ q c m, q ∈ ps → foldl try_Remove f ps !! q ≠ Some (NFile c m)).
Proof.
  assert (∀ f q c m, foldl try_Remove f ps !! q = Some (NFile c m) → f !! q = Some (NFile c m) ∧ q ∉ ps) as H.
  { induction ps as [|p ps IH]; intros f0 q c m; simpl.
    - intros H. split; [done|]. by intros ?%elem_of_nil.
    - intros [H1 H2]%IH. apply try_Remove_file in H1 as [H1 H3]. split; [done|]. by rewrite not_elem_of_cons. }
  split; [|intros q c m Hq Hs; by apply H in Hs as [_ ?]].
  clear H. intros q Hq. revert f. induction ps as [|p ps IH]; intros f; [done|]. simpl.
  apply not_elem_of_cons in Hq as [Hq1 Hq2]. rewrite IH by done. by apply try_Remove_other.
Qed.

(** The directories that [MkdirAll] leaves, and where it has nothing to do. *)
Lemma mkdir_fold ps r f' :
  foldl mkdir_step r ps = Ok f' →
  ∃ f, r = Ok f ∧ (∀ q, f !! q = Some NDir → f' !! q = Some NDir) ∧ ∀ q, q ∈ ps → f' !! q = Some NDir.
Proof.
  revert r. induction ps as [|p ps IH]; intros r; simpl.
  - intros ->. exists f'. split_and!; [done|done|]. by intros q ?%elem_of_nil.
  - intros (f1 & E & H1 & H2)%IH. unfold mkdir_step in E. destruct r as [f|e|]; [|done..]. cbn [mbind res_bind] in E.
    exists f. split; [done|]. destruct (f !! p) as [[c m|]|] eqn:Ep; [done|..]; injection E as <-.
    + split; [done|]. intros q [->|Hq]%elem_of_cons; [by apply H1|by apply H2].
    + split.
      * intros q Hq. apply H1. rewrite lookup_insert_ne; [done|]. intros ->. congruence.
      * intros q [->|Hq]%elem_of_cons; [apply H1, lookup_insert_eq|by apply H2].
Qed.

Lemma MkdirAll_dirs f p f' q :
  MkdirAll f p = Ok f' → q ∈ ancestors (String.length p + 1) p → f' !! q = Some NDir.
Proof. intros (f0 & _ & _ & H)%mkdir_fold. apply H. Qed.

Lemma MkdirAll_id f p :
  (∀ q, q ∈ ancestors (String.length p + 1) p → f !! q = Some NDir) → MkdirAll f p = Ok f.
Proof.
  unfold MkdirAll. generalize (ancestors (String.length p + 1) p) as ps. induction ps as [|q ps IH]; intros H; [done|].
  cbn [foldl]. assert (mkdir_step (Ok f) q = Ok f) as -> by (unfold mkdir_step; cbn [mbind res_bind]; by rewrite (H q) by left). apply IH. intros q' Hq. apply H. by right.
Qed.

Lemma WriteFile_other f p content f' q : WriteFile f p content = Ok f' → q ≠ p → f' !! q = f !! q.
Proof.
  unfold WriteFile, Create, Write. intros H Hq. destruct (is_dir f p); [done|]. destruct (negb _); [done|]. cbn [mbind res_bind] in H.
  rewrite lookup_insert_eq in H. injection H as <-. by rewrite !lookup_insert_ne.
Qed.

Lemma WriteFile_not_dir f p content f' : WriteFile f p content = Ok f' → f !! p ≠ Some NDir.
Proof.
  unfold WriteFile, Create. intros H E. unfold is_dir at 1 in H. rewrite E in H. rewrite (bool_decide_true (Some NDir = Some NDir)) in H by done.
  by rewrite orb_true_r in H.
Qed.

(** What is there stays there. *)
Lemma mkdir_fold_keeps ps f f' q n : foldl mkdir_step (Ok f) ps = Ok f' → f !! q = Some n → f' !! q = Some n.
Proof.
  revert f. induction ps as [|p ps IH]; intros f; cbn [foldl]; [by intros [= <-]|]. intros H Hq.
  pose proof (mkdir_fold _ _ _ H) as (f1 & E & _). rewrite E in H. apply (IH f1 H). unfold mkdir_step in E. cbn [mbind res_bind] in E.
  destruct (f !! p) as [[c m|]|] eqn:Ep; [done|by injection E as <-|]. injection E as <-. rewrite lookup_insert_ne; [done|]. intros ->. congruence.
Qed.

Lemma MkdirAll_keeps f p f' q n : MkdirAll f p = Ok f' → f !! q = Some n → f' !! q = Some n.
Proof. apply mkdir_fold_keeps. Qed.

Lemma ReadFile_file f p c : ReadFile f p = Ok c ↔ p ≠ "/" ∧ ∃ m, f !! p = Some (NFile c m).
Proof.
  unfold ReadFile, Stat, is_dir. destruct (decide (p = "/")) as [->|Hp]; [split; [done|by intros [? _]]|].
  rewrite (bool_decide_false (p = "/")) by done. rewrite orb_false_l.
  destruct (f !! p) as [[c' m|]|]; case_bool_decide; simplify_eq/=; naive_solver.
Qed.

End OS.
