(* ===== verification/GoGlob.v ===== *)
(** * Patterns of file names: [path/filepath]'s [Match] and [Glob]

    A pattern is cut into what it consists of; a malformed one has no such
    parts.  Characters are bytes.  [Glob] looks at the file system of [GoFS.v]. *)
From S2P Require Import Prelude GoStrings GoPath GoFS.
From Stdlib Require Import Ascii.

Module Glob.

(** ** Patterns *)

Inductive tok := Star | Any | Lit (c : ascii) | Class (negated : bool) (ranges : list (ascii * ascii)).

#[export] Instance tok_eq_dec : EqDecision tok.
Proof. solve_decision. Defined.

Definition ErrBadPattern : error := EMsg "syntax error in pattern".

Definition backslash : ascii := "\".

(** A character of a class, which something has to follow. *)
Definition getEsc (s : string) : option (ascii * string) :=
  match s with
  | EmptyString => None
  | String c s' =>
      let r := if Ascii.eqb c "-" || Ascii.eqb c "]" then None
               else if Ascii.eqb c backslash then match s' with String c s'' => Some (c, s'') | EmptyString => None end
               else Some (c, s') in
      match r with Some (_, EmptyString) => None | _ => r end
  end.

(** The ranges of a class and the pattern after it; [fuel] is the length of the
    pattern. *)
Fixpoint ranges_of (fuel : nat) (s : string) (acc : list (ascii * ascii)) : option (list (ascii * ascii) * string) :=
  match fuel with
  | O => None
  | S fuel =>
      if HasPrefix s "]" && (0 <? length acc)%nat then Some (acc, str_drop 1 s)
      else '(lo, s) ← getEsc s;
           if HasPrefix s "-" then '(hi, s) ← getEsc (str_drop 1 s); ranges_of fuel s (acc ++ [(lo, hi)])
           else ranges_of fuel s (acc ++ [(lo, lo)])
  end.

Fixpoint toks_of (fuel : nat) (s : string) : option (list tok) :=
  match fuel, s with
  | _, EmptyString => Some []
  | O, _ => None
  | S fuel, String c s' =>
      if Ascii.eqb c "*" then (Star ::.) <$> toks_of fuel s'
      else if Ascii.eqb c "?" then (Any ::.) <$> toks_of fuel s'
      else if Ascii.eqb c backslash then
        match s' with String c s'' => (Lit c ::.) <$> toks_of fuel s'' | EmptyString => None end
      else if Ascii.eqb c "[" then
        let neg := HasPrefix s' "^" in
        '(rs, s'') ← ranges_of (S (String.length s')) (if neg then str_drop 1 s' else s') [];
        (Class neg rs ::.) <$> toks_of fuel s''
      else (Lit c ::.) <$> toks_of fuel s'
  end.

Definition toks (pattern : string) : option (list tok) := toks_of (String.length pattern) pattern.

(** ** Matching *)

Definition in_range (a : ascii) (r : ascii * ascii) : bool :=
  (N_of_ascii r.1 <=? N_of_ascii a)%N && (N_of_ascii a <=? N_of_ascii r.2)%N.

(** No star and no question mark stands for a slash. *)
Definition tok_char (t : tok) (a : ascii) : bool :=
  match t with
  | Star | Any => negb (Ascii.eqb a Filepath.slash)
  | Lit c => Ascii.eqb a c
  | Class neg rs => xorb neg (existsb (in_range a) rs)
  end.

Fixpoint match_toks (ts : list tok) (s : string) : bool :=
  match ts with
  | [] => (s =? "")%string
  | Star :: ts =>
      (fix go (s : string) : bool :=
         match_toks ts s || match s with String a s' => tok_char Star a && go s' | EmptyString => false end) s
  | t :: ts => match s with String a s' => tok_char t a && match_toks ts s' | EmptyString => false end
  end.

Definition Match (pattern name : string) : res bool :=
  match toks pattern with Some ts => Ok (match_toks ts name) | None => Fail ErrBadPattern end.

Definition is_meta (c : ascii) : bool := Ascii.eqb c "*" || Ascii.eqb c "?" || Ascii.eqb c "[" || Ascii.eqb c backslash.
Definition hasMeta (p : string) : bool := negb (str_forallb (λ c, negb (is_meta c)) p).

(** ** Glob *)

(** The names in a directory, sorted. *)
Definition names (f : fs) (dir : string) : list string :=
  sort_Strings (omap (λ kv : string * node, if bool_decide (Filepath.Dir kv.1 = dir) && bool_decide (kv.1 ≠ dir)
                                              then Some (Filepath.Base kv.1) else None) (map_to_list f)).

(** The files of one directory that match the last element of a pattern. *)
Definition glob (f : fs) (dir pattern : string) (found : list string) : res (list string) :=
  if OS.is_dir f dir then
    foldl (λ r n, let? l := r in let? b := Match pattern n in Ok (if b : bool then l ++ [Filepath.Join [dir; n]] else l))
      (Ok found) (names f dir)
  else Ok found.

(** [filepath.Split]: the text after the last slash, and the text before it,
    without slashes at its end. *)
Definition split_pattern (pattern : string) : string * string :=
  let ws := Split pattern Filepath.slash in
  match removelast ws with
  | [] => (".", pattern)
  | [d] => (if (d =? "")%string then "/" else d, List.last ws "")
  | ds => (GoStrings.Join ds "/", List.last ws "")
  end.

(** [fuel] bounds the directories of the pattern that have patterns themselves. *)
Fixpoint glob_from (fuel : nat) (f : fs) (pattern : string) : res (list string) :=
  let? _ := Match pattern "" in
  if negb (hasMeta pattern) then Ok (if is_ok (OS.Stat f pattern) then [pattern] else [])
  else
    let '(dir, file) := split_pattern pattern in
    if negb (hasMeta dir) then glob f dir file []
    else if (dir =? pattern)%string then Fail ErrBadPattern
    else match fuel with
         | O => Fail EFuel
         | S fuel =>
             let? m := glob_from fuel f dir in
             foldl (λ r d, let? l := r in glob f d file l) (Ok []) m
         end.

Definition Glob (f : fs) (pattern : string) : res (list string) := glob_from (length (Split pattern Filepath.slash)) f pattern.

(** ** Lemmas *)

Lemma toks_literal s : str_forallb (λ c, negb (is_meta c)) s = true → toks s = Some (Lit <$> String.list_ascii_of_string s).
Proof.
  unfold toks. induction s as [|c s IH]; simpl; [done|]. intros [Hc Hs]%andb_true_iff. unfold is_meta in Hc.
  destruct (Ascii.eqb c "*"), (Ascii.eqb c "?"), (Ascii.eqb c "["), (Ascii.eqb c backslash); try done. by rewrite (IH Hs).
Qed.

Lemma match_literal s t : match_toks (Lit <$> String.list_ascii_of_string s) t = (t =? s)%string.
Proof.
  revert t. induction s as [|c s IH]; intros [|a t]; try done. simpl. rewrite IH. by destruct (Ascii.eqb a c).
Qed.

(** A name without special characters matches itself alone. *)
Lemma Match_literal s t : hasMeta s = false → Match s t = Ok (t =? s)%string.
Proof. intros H%negb_false_iff. unfold Match. rewrite toks_literal by done. by rewrite match_literal. Qed.

(** What a star matches. *)
Lemma match_star ts s :
  match_toks (Star :: ts) s = true ↔
  ∃ s1 s2, s = s1 +:+ s2 ∧ str_forallb (λ a, negb (Ascii.eqb a Filepath.slash)) s1 = true ∧ match_toks ts s2 = true.
Proof.
  induction s as [|a s IH].
  - simpl. rewrite orb_false_r. split; [intros H; by exists "", ""|]. intros ([] & [] & E & _ & H); try done.
  - change (match_toks (Star :: ts) (String a s)) with (match_toks ts (String a s) || (tok_char Star a && match_toks (Star :: ts) s)).
    rewrite orb_true_iff, andb_true_iff, IH. split.
    + intros [H|[Ha (s1 & s2 & -> & H1 & H2)]]; [by exists "", (String a s)|]. exists (String a s1), s2. simpl in *. by rewrite Ha, H1.
    + intros ([|b s1] & s2 & E & H1 & H2); simpl in *; [left; by rewrite E|]. injection E as -> ->.
      apply andb_true_iff in H1 as [Hb H1]. right. split; [done|]. by exists s1, s2.
Qed.

Example patterns :
  Match "*.rpl" "reproxy_1.rpl" = Ok true ∧ Match "*.rpl" "a/b.rpl" = Ok false ∧
  Match "reproxy.*.log.INFO.*" "reproxy.host.log.INFO.1" = Ok true ∧ Match "reproxy.*.log.INFO.*" "reproxy.INFO" = Ok false ∧
  Match "[a-c]?\*" "bx*" = Ok true ∧ Match "[^a-c]" "b" = Ok false ∧ Match "[" "b" = Fail ErrBadPattern ∧
  Match "a[]b" "b" = Fail ErrBadPattern ∧ Match "*a*b" "xaab" = Ok true.
Proof. split_and!; reflexivity. Qed.

End Glob.
