(* ===== verification/Command.v ===== *)
(** * Interfaces to the remote execution SDK

    The data of the SDK's [command] package that the proxy reads and writes, and
    the two interfaces through which it calls the SDK: results ([SDK]) and
    remote execution contexts ([Rexec]).  Their laws state what the packages
    document. *)
From S2P Require Import Prelude GoStrings GoPath GoFS.

(** ** Commands *)

Record VirtualInput := {
  vi_Path : string;
  vi_Contents : string;
  vi_IsEmptyDirectory : bool;
  vi_Digest : string;
  vi_Mtime : Z;
  vi_FileMode : Z
}.

Record InputExclusion := { ie_Regex : string; ie_Type : Z }.

Record InputSpec := {
  Inputs : list string;
  VirtualInputs : list VirtualInput;
  InputExclusions : list InputExclusion;
  EnvironmentVariables : gmap string string
}.

Record Identifiers := {
  CommandID : string;
  InvocationID : string;
  ToolName : string;
  ToolVersion : string;
  ExecutionID : string
}.

Record Command := {
  Args : list string;
  ExecRoot : string;
  WorkingDir : string;
  RemoteWorkingDir : string;
  cmd_InputSpec : option InputSpec;
  OutputFiles : list string;
  OutputDirs : list string;
  Platform : gmap string string;
  cmd_Identifiers : Identifiers
}.

Definition with_Args (c : Command) (args : list string) : Command := {|
  Args := args; ExecRoot := ExecRoot c; WorkingDir := WorkingDir c;
  RemoteWorkingDir := RemoteWorkingDir c; cmd_InputSpec := cmd_InputSpec c;
  OutputFiles := OutputFiles c; OutputDirs := OutputDirs c; Platform := Platform c;
  cmd_Identifiers := cmd_Identifiers c |}.

Definition with_InputSpec (c : Command) (sp : option InputSpec) : Command := {|
  Args := Args c; ExecRoot := ExecRoot c; WorkingDir := WorkingDir c;
  RemoteWorkingDir := RemoteWorkingDir c; cmd_InputSpec := sp;
  OutputFiles := OutputFiles c; OutputDirs := OutputDirs c; Platform := Platform c;
  cmd_Identifiers := cmd_Identifiers c |}.

Definition with_dirs (c : Command) (wd rwd : string) : Command := {|
  Args := Args c; ExecRoot := ExecRoot c; WorkingDir := wd;
  RemoteWorkingDir := rwd; cmd_InputSpec := cmd_InputSpec c;
  OutputFiles := OutputFiles c; OutputDirs := OutputDirs c; Platform := Platform c;
  cmd_Identifiers := cmd_Identifiers c |}.

Definition with_outputs (c : Command) (files dirs : list string) : Command := {|
  Args := Args c; ExecRoot := ExecRoot c; WorkingDir := WorkingDir c;
  RemoteWorkingDir := RemoteWorkingDir c; cmd_InputSpec := cmd_InputSpec c;
  OutputFiles := files; OutputDirs := dirs; Platform := Platform c;
  cmd_Identifiers := cmd_Identifiers c |}.

Definition with_Platform (c : Command) (p : gmap string string) : Command := {|
  Args := Args c; ExecRoot := ExecRoot c; WorkingDir := WorkingDir c;
  RemoteWorkingDir := RemoteWorkingDir c; cmd_InputSpec := cmd_InputSpec c;
  OutputFiles := OutputFiles c; OutputDirs := OutputDirs c; Platform := p;
  cmd_Identifiers := cmd_Identifiers c |}.

Definition with_Identifiers (c : Command) (i : Identifiers) : Command := {|
  Args := Args c; ExecRoot := ExecRoot c; WorkingDir := WorkingDir c;
  RemoteWorkingDir := RemoteWorkingDir c; cmd_InputSpec := cmd_InputSpec c;
  OutputFiles := OutputFiles c; OutputDirs := OutputDirs c; Platform := Platform c;
  cmd_Identifiers := i |}.

Definition with_env (sp : InputSpec) (env : gmap string string) : InputSpec := {|
  Inputs := Inputs sp; VirtualInputs := VirtualInputs sp; InputExclusions := InputExclusions sp;
  EnvironmentVariables := env |}.

(** ** Results *)

Inductive ResultStatus :=
  | SuccessResultStatus
  | CacheHitResultStatus
  | NonZeroExitResultStatus
  | TimeoutResultStatus
  | InterruptedResultStatus
  | RemoteErrorResultStatus
  | LocalErrorResultStatus.

#[export] Instance ResultStatus_eq_dec : EqDecision ResultStatus.
Proof. solve_decision. Defined.

Record Result := { Status : ResultStatus; ExitCode : Z; res_Err : option error }.

#[export] Instance Result_eq_dec : EqDecision Result.
Proof. solve_decision. Defined.

(** ** Execution options *)

Record ExecutionOptions := {
  AcceptCached : bool;
  DoNotCache : bool;
  DownloadOutErr : bool;
  DownloadOutputs : bool;
  PreserveUnchangedOutputMtime : bool
}.

Class SDK := {
  IsOk : Result → bool;
  NewResultFromExitCode : Z → Result;
  NewLocalErrorResult : error → Result;
  RemoteErrorExitCode : Z;
  DefaultExecutionOptions : ExecutionOptions
}.

(** A result is ok when its status is success or cache hit; the constructors
    give the statuses they are named after. *)
Class SDKLaws `{SDK} := {
  IsOk_status r : IsOk r = bool_decide (Status r = SuccessResultStatus ∨ Status r = CacheHitResultStatus);
  exit_status n : Status (NewResultFromExitCode n) =
    if bool_decide (n = 0%Z) then SuccessResultStatus else NonZeroExitResultStatus;
  exit_code n : ExitCode (NewResultFromExitCode n) = n;
  exit_err n : n = 0%Z → res_Err (NewResultFromExitCode n) = None;
  local_error_status e : Status (NewLocalErrorResult e) = LocalErrorResultStatus;
  local_error_err e : res_Err (NewLocalErrorResult e) = Some e
}.

Lemma local_error_not_ok `{SDKLaws} e : IsOk (NewLocalErrorResult e) = false.
Proof. rewrite IsOk_status. apply bool_decide_false. rewrite local_error_status. intros [E|E]; discriminate E. Qed.

Lemma exit_ok `{SDKLaws} n : IsOk (NewResultFromExitCode n) = bool_decide (n = 0%Z).
Proof.
  rewrite IsOk_status. apply bool_decide_ext. rewrite exit_status.
  case_bool_decide; split; try done; [by left|by intros [E|E]].
Qed.

(** The constructors as their names say, for examples. *)
Definition sdk_example : SDK := {|
  IsOk r := bool_decide (Status r = SuccessResultStatus ∨ Status r = CacheHitResultStatus);
  NewResultFromExitCode n := {|
    Status := if bool_decide (n = 0%Z) then SuccessResultStatus else NonZeroExitResultStatus;
    ExitCode := n; res_Err := if bool_decide (n = 0%Z) then None else Some (EMsg "exit") |};
  NewLocalErrorResult e := {| Status := LocalErrorResultStatus; ExitCode := 35; res_Err := Some e |};
  RemoteErrorExitCode := 45;
  DefaultExecutionOptions := {| AcceptCached := true; DoNotCache := false; DownloadOutErr := true;
    DownloadOutputs := true; PreserveUnchangedOutputMtime := false |} |}.

Lemma sdk_example_laws : @SDKLaws sdk_example.
Proof.
  split; simpl; try done.
  intros n ->. done.
Qed.

(** ** Remote execution contexts *)

(** What the proxy reads of [command.Metadata]. *)
Record Metadata := { ActionDigest : string; CommandDigest : string }.

Definition empty_Metadata : Metadata := {| ActionDigest := ""; CommandDigest := "" |}.

(** A flattened output: its digest. *)
Notation outputs := (gmap string string).

(** A context [rexec.Context] and its operations, on the state of the context
    and the files of the machine.  [ctx_out] is what the context has written to
    the output stream that it was created with. *)
Class Rexec (ctx : Type) := {
  NewContext : Command → ExecutionOptions → res ctx;
  GetCachedResult : ctx → fs → ctx * fs;
  ExecuteRemotely : ctx → fs → ctx * fs;
  UpdateCachedResult : ctx → fs → ctx;
  GetFlattenedOutputs : ctx → res outputs;
  DownloadSpecifiedOutputs : outputs → string → ctx → fs → ctx * fs;
  ctx_Result : ctx → option Result;
  ctx_Metadata : ctx → Metadata;
  ctx_out : ctx → string
}.

(** A finished execution has a result, and a download leaves one. *)
Class RexecLaws (ctx : Type) `{Rexec ctx} := {
  executed_result c f : is_Some (ctx_Result (ExecuteRemotely c f).1);
  downloaded_result outs dir c f :
    is_Some (ctx_Result c) → is_Some (ctx_Result (DownloadSpecifiedOutputs outs dir c f).1);
  updated_result c f : is_Some (ctx_Result (UpdateCachedResult c f))
}.
