(* ===== verification/GoNet.v ===== *)
(** * Addresses

    The functions of the Go standard library that take addresses and the paths
    of sockets apart, with the lemmas on splitting that the clients use. *)
From S2P Require Import Prelude GoStrings GoPath.
From Stdlib Require Import Ascii.

Module Net.

(** [strings.Replace(s, old, new, -1)] for an [old] that is not empty. *)
Fixpoint replace_from (fuel : nat) (s old new : string) : string :=
  match fuel with
  | O => s
  | S fuel =>
      if HasPrefix s old then new +:+ replace_from fuel (str_drop (String.length old) s) old new
      else match s with
           | EmptyString => ""
           | String a s => String a (replace_from fuel s old new)
           end
  end.
Definition ReplaceAll (s old new : string) : string := replace_from (S (String.length s)) s old new.

(** [filepath.Split] *)
Fixpoint split_file (dir s : string) (file : string) : string * string :=
  match s with
  | EmptyString => (dir, file)
  | String a s =>
      if Ascii.eqb a "/" then split_file (dir +:+ file +:+ "/") s ""
      else split_file dir s (file +:+ String a "")
  end.
Definition SplitFile (path : string) : string * string := split_file "" path "".

Fixpoint index_of (c : ascii) (s : string) : option nat :=
  match s with
  | EmptyString => None
  | String a s => if Ascii.eqb a c then Some O else S <$> index_of c s
  end.

Fixpoint last_index (c : ascii) (s : string) : option nat :=
  match s with
  | EmptyString => None
  | String a s =>
      match last_index c s with
      | Some i => Some (S i)
      | None => if Ascii.eqb a c then Some O else None
      end
  end.

Definition substr (i j : nat) (s : string) : string := str_take (j - i) (str_drop i s).

Definition missingPort : error := EMsg "missing port in address".
Definition tooManyColons : error := EMsg "too many colons in address".

(** The checks on stray brackets, in the text from [j] and from [k] on. *)
Definition check_brackets (hostport : string) (host : string) (i j k : nat) : res (string * string) :=
  if contains_char "[" (str_drop j hostport) then Fail (EMsg "unexpected '[' in address")
  else if contains_char "]" (str_drop k hostport) then Fail (EMsg "unexpected ']' in address")
  else Ok (host, str_drop (S i) hostport).

(** [net.SplitHostPort] *)
Definition SplitHostPort (hostport : string) : res (string * string) :=
  match last_index ":" hostport with
  | None => Fail missingPort
  | Some i =>
      if HasPrefix hostport "[" then
        match index_of "]" hostport with
        | None => Fail (EMsg "missing ']' in address")
        | Some fin =>
            if (S fin =? String.length hostport)%nat then Fail missingPort
            else if (S fin =? i)%nat then check_brackets hostport (substr 1 fin hostport) i 1 (S fin)
            else if HasPrefix (str_drop (S fin) hostport) ":" then Fail tooManyColons
            else Fail missingPort
        end
      else
        let host := str_take i hostport in
        if contains_char ":" host then Fail tooManyColons
        else check_brackets hostport host i 0 0
  end.

Example SplitHostPort_v4 : SplitHostPort "127.0.0.1:8000" = Ok ("127.0.0.1", "8000").
Proof. reflexivity. Qed.
Example SplitHostPort_v6 : SplitHostPort "[::1]:80" = Ok ("::1", "80").
Proof. reflexivity. Qed.
Example SplitHostPort_v6_bare : SplitHostPort "::1:80" = Fail tooManyColons.
Proof. reflexivity. Qed.
Example SplitHostPort_none : SplitHostPort "[::1]" = Fail missingPort.
Proof. reflexivity. Qed.
Example ReplaceAll_twice : ReplaceAll "/a/reproxy_d/reproxy.sock" "reproxy" "depscan" = "/a/depscan_d/depscan.sock".
Proof. reflexivity. Qed.
Example SplitFile_ex : SplitFile "a/b/s.sock" = ("a/b/", "s.sock") ∧ SplitFile "s.sock" = ("", "s.sock").
Proof. split; reflexivity. Qed.

Lemma SplitFile_app path : (SplitFile path).1 +:+ (SplitFile path).2 = path.
Proof.
  unfold SplitFile. enough (∀ s d f, (split_file d s f).1 +:+ (split_file d s f).2 = d +:+ f +:+ s) as H by apply (H path "" "").
  induction s as [|a s IH]; intros d f; simpl; [by rewrite str_app_nil_r|].
  destruct (Ascii.eqb_spec a "/") as [->|_]; rewrite IH; rewrite ?str_app_assoc; done.
Qed.

End Net.
