(* ===== verification/GoEffects.v ===== *)
(** * Programs that talk to their environment

    A program of this file performs calls to its environment (remote
    procedures, processes, the clock) and continues with their answers; there
    are finitely many along each path, so that it ends by construction.  An
    execution is a list of calls with the answers they got; a handler that
    answers from a state makes it run. *)
From S2P Require Import Prelude.

Module Effects.

Section programs.

Context {C : Type} {answer : C → Type}.

Inductive prog (A : Type) :=
  | Ret (a : A)
  | Call (c : C) (k : answer c → prog A).
#[global] Arguments Ret {A} a.
#[global] Arguments Call {A} c k.

#[export] Instance prog_ret : MRet prog := @Ret.
#[export] Instance prog_bind : MBind prog := λ A B f,
  fix go (p : prog A) : prog B :=
    match p with Ret a => f a | Call c k => Call c (λ x, go (k x)) end.

Definition call (c : C) : prog (answer c) := Call c Ret.

(** One call with its answer. *)
Record event := Event { ev_call : C; ev_answer : answer ev_call }.

Fixpoint exec {A} (p : prog A) (tr : list event) (b : A) : Prop :=
  match p with
  | Ret a => tr = [] ∧ b = a
  | Call c k => ∃ x tr', tr = Event c x :: tr' ∧ exec (k x) tr' b
  end.

Lemma exec_Ret {A} (a : A) tr b : exec (Ret a) tr b ↔ tr = [] ∧ b = a.
Proof. reflexivity. Qed.

Lemma exec_Call {A} c (k : answer c → prog A) tr b :
  exec (Call c k) tr b ↔ ∃ x tr', tr = Event c x :: tr' ∧ exec (k x) tr' b.
Proof. reflexivity. Qed.

Lemma exec_bind {A B} (p : prog A) (f : A → prog B) tr b :
  exec (p ≫= f) tr b ↔ ∃ a t1 t2, tr = t1 ++ t2 ∧ exec p t1 a ∧ exec (f a) t2 b.
Proof.
  revert tr. induction p as [a|c k IH]; intros tr.
  - change (Ret a ≫= f) with (f a). split; [intros H; by exists a, [], tr|].
    intros (a' & t1 & t2 & -> & [-> ->]%exec_Ret & H). done.
  - change (Call c k ≫= f) with (Call c (λ x, k x ≫= f)). rewrite exec_Call. split.
    + intros (x & tr' & -> & (a & t1 & t2 & -> & H1 & H2)%IH). exists a, (Event c x :: t1), t2.
      split; [done|]. split; [by exists x, t1|done].
    + intros (a & t1 & t2 & -> & (x & t1' & -> & H1)%exec_Call & H2). exists x, (t1' ++ t2).
      split; [done|]. apply IH. eauto 6.
Qed.

Lemma exec_call1 c tr (x : answer c) : exec (call c) tr x ↔ tr = [Event c x].
Proof.
  unfold call. rewrite exec_Call. setoid_rewrite exec_Ret. naive_solver.
Qed.

(** *** Handlers *)

Section run.

Context {S : Type} (h : ∀ c, S → answer c * S).

Fixpoint run {A} (p : prog A) (s : S) : A * list event * S :=
  match p with
  | Ret a => (a, [], s)
  | Call c k =>
      let '(x, s) := h c s in
      let '(a, tr, s) := run (k x) s in (a, Event c x :: tr, s)
  end.

Lemma run_exec {A} (p : prog A) s : exec p (run p s).1.2 (run p s).1.1.
Proof.
  revert s. induction p as [a|c k IH]; intros s; simpl; [done|].
  destruct (h c s) as [x s']. specialize (IH x s'). destruct (run (k x) s') as [[a tr] s'']. by exists x, tr.
Qed.

End run.

(** *** What holds along all executions *)

(** Every call that the program can make satisfies [P], whatever the answers. *)
Fixpoint all_calls {A} (P : C → Prop) (p : prog A) : Prop :=
  match p with Ret _ => True | Call c k => P c ∧ ∀ x, all_calls P (k x) end.

Lemma all_calls_exec {A} (P : C → Prop) (p : prog A) tr a :
  all_calls P p → exec p tr a → Forall (λ e, P (ev_call e)) tr.
Proof. revert tr. induction p as [b|c k IH]; intros tr; [by intros _ [-> _]|].
  intros [Hc Hk] (x & tr' & -> & H). constructor; [done|]. by eapply IH. Qed.

Lemma all_calls_bind {A B} (P : C → Prop) (p : prog A) (f : A → prog B) :
  all_calls P p → (∀ a, all_calls P (f a)) → all_calls P (p ≫= f).
Proof.
  intros Hp Hf. induction p as [a|c k IH]; [apply Hf|]. destruct Hp as [Hc Hk]. split; [done|]. intros x. by apply IH.
Qed.

(** Every result of the program satisfies [Q], whatever the answers. *)
Fixpoint all_rets {A} (Q : A → Prop) (p : prog A) : Prop :=
  match p with Ret a => Q a | Call c k => ∀ x, all_rets Q (k x) end.

Lemma all_rets_bind {A B} (Q : A → Prop) (R : B → Prop) (p : prog A) (f : A → prog B) :
  all_rets Q p → (∀ a, Q a → all_rets R (f a)) → all_rets R (p ≫= f).
Proof. intros Hp Hf. induction p as [a|c k IH]; [by apply Hf|]. intros x. by apply IH. Qed.

Lemma all_rets_exec {A} (Q : A → Prop) (p : prog A) tr a : all_rets Q p → exec p tr a → Q a.
Proof.
  revert tr. induction p as [b|c k IH]; intros tr; [by intros ? [_ ->]|]. intros Hk (x & tr' & _ & H). by eapply IH.
Qed.

Lemma all_calls_bind_rets {A B} (P : C → Prop) (Q : A → Prop) (p : prog A) (f : A → prog B) :
  all_calls P p → all_rets Q p → (∀ a, Q a → all_calls P (f a)) → all_calls P (p ≫= f).
Proof.
  intros Hp Hq Hf. induction p as [a|c k IH]; [by apply Hf|]. destruct Hp as [Hc Hk]. split; [done|]. intros x. by apply IH.
Qed.

Lemma all_calls_impl {A} (P Q : C → Prop) (p : prog A) :
  (∀ c, P c → Q c) → all_calls P p → all_calls Q p.
Proof. intros H. induction p as [|c k IH]; simpl; [done|]. intros [? Hk]. split; [auto|]. intros x. by apply IH. Qed.

(** *** What the environment keeps

    The environment has a state of its own, that each event changes; [step]
    refuses the answers that it cannot give.  [wp p s Q] says that [I] holds
    all along, from [s] on, and [Q] at the end. *)
Section wp.

Context {S : Type} (step : S → event → option S) (I : S → Prop).

Fixpoint wp {A} (p : prog A) (s : S) (Q : A → S → Prop) : Prop :=
  I s ∧
  match p with
  | Ret a => Q a s
  | Call c k => ∀ x s', step s (Event c x) = Some s' → wp (k x) s' Q
  end.

Fixpoint steps (s : S) (tr : list event) : option S :=
  match tr with [] => Some s | e :: tr => step s e ≫= λ s', steps s' tr end.

(** [I] in every state that the events go through. *)
Definition always (s : S) (tr : list event) : Prop :=
  ∀ t1 t2 s1, tr = t1 ++ t2 → steps s t1 = Some s1 → I s1.

Lemma app_cons_inv (e e' : event) l t1 t2 : e :: l = (e' :: t1) ++ t2 → e = e' ∧ l = t1 ++ t2.
Proof. simpl. intros [=]. done. Qed.

Lemma steps_app s t1 t2 : steps s (t1 ++ t2) = steps s t1 ≫= λ s', steps s' t2.
Proof. revert s. induction t1 as [|e t1 IH]; intros s; simpl; [done|]. destruct (step s e); simpl; [apply IH|done]. Qed.

Lemma always_nil s : I s → always s [].
Proof. intros H [|??] t2 s1; [by intros _ [= <-]|done]. Qed.

Lemma always_app s t1 s1 t2 : always s t1 → steps s t1 = Some s1 → always s1 t2 → always s (t1 ++ t2).
Proof.
  intros H1 E1 H2 u1 u2 s2 E Es. apply app_eq_app in E as (l & [[-> ->]|[-> ->]]).
  - by apply (H1 u1 l).
  - rewrite steps_app, E1 in Es. simpl in Es. by apply (H2 l u2).
Qed.

Lemma wp_mono {A} (p : prog A) s (Q R : A → S → Prop) :
  wp p s Q → (∀ a s, I s → Q a s → R a s) → wp p s R.
Proof.
  intros H HQ. revert s H. induction p as [a|c k IH]; intros s [HI H]; (split; [done|]); [by apply HQ|].
  intros x s' E. by apply IH, H.
Qed.

Lemma wp_bind {A B} (p : prog A) (f : A → prog B) s Q :
  wp p s (λ a s', wp (f a) s' Q) → wp (p ≫= f) s Q.
Proof.
  revert s. induction p as [a|c k IH]; intros s [HI H]; [exact H|]. split; [done|]. intros x s' E. by apply IH, H.
Qed.

Lemma wp_I {A} (p : prog A) s Q : wp p s Q → I s.
Proof. destruct p; by intros [HI _]. Qed.

Lemma wp_exec {A} (p : prog A) s Q tr a :
  wp p s Q → exec p tr a → always s tr ∧ ∀ s', steps s tr = Some s' → Q a s'.
Proof.
  revert s tr. induction p as [b|c k IH]; intros s tr H He.
  - destruct He as [-> ->]. destruct H as [HI HQ]. split; [|by intros s' [= <-]].
    intros [|??] t2 s1 E; [by intros [= <-]|done].
  - destruct He as (x & tr' & -> & He). destruct H as [HI H]. simpl.
    destruct (step s (Event c x)) as [s1|] eqn:E.
    + destruct (IH x s1 tr' (H x s1 E) He) as [Ha HQ]. split; [|exact HQ].
      intros [|e t1] t2 s2 Et; simpl; [by intros [= <-]|]. apply app_cons_inv in Et as [<- ->]. rewrite E. simpl. by eapply Ha.
    + split; [|done]. intros [|e t1] t2 s2 Et; simpl; [by intros [= <-]|]. apply app_cons_inv in Et as [<- ->]. by rewrite E.
Qed.

Lemma run_steps (h : ∀ c, S → answer c * S) :
  (∀ c s, step s (Event c (h c s).1) = Some (h c s).2) →
  ∀ {A} (p : prog A) s, steps s (run h p s).1.2 = Some (run h p s).2.
Proof.
  intros Hh A p. induction p as [a|c k IH]; intros s; simpl; [done|]. pose proof (Hh c s) as H.
  destruct (h c s) as [x s']. specialize (IH x s'). destruct (run h (k x) s') as [[a tr] s'']. simpl in *. by rewrite H.
Qed.

End wp.

End programs.

#[global] Arguments prog {C} answer A.
#[global] Arguments event {C} answer.

(** Split the executions in the context by the program that they execute. *)
Ltac inv_exec :=
  repeat match goal with
  | H : exec (Ret _) _ _ |- _ => apply exec_Ret in H as [? ?]; simplify_eq/=
  | H : exec (Call _ _) _ _ |- _ =>
      let x := fresh "x" in let t := fresh "t" in let H' := fresh "Hx" in
      apply exec_Call in H as (x & t & ? & H'); simplify_eq/=
  | H : exec (call _) _ _ |- _ => apply exec_call1 in H; simplify_eq/=
  | H : exec (_ ≫= _) _ _ |- _ =>
      let x := fresh "a" in let t1 := fresh "t" in let t2 := fresh "t" in
      let H1 := fresh "Hx" in let H2 := fresh "Hx" in
      apply exec_bind in H as (x & t1 & t2 & ? & H1 & H2); simplify_eq/=
  end.

End Effects.
