(* ===== verification/DepsScanner.v ===== *)
(** * The client of the dependency scanner service:
      [internal/pkg/cppdependencyscanner]

    The client starts the service as a process of its own, connects to it,
    sends it the requests and restarts it when it stops answering.  Its
    methods are programs over the calls they make to the system: the remote
    procedures, the process, the clock, the file system. *)
From S2P Require Import Prelude GoStrings GoPath GoNet GoEffects.
From Stdlib Require Import Ascii.
Import Filepath Net Effects.

Module DepsScanner.

(** ** Data *)

Record CapabilitiesResponse := { Caching : bool; ExpectsResourceDir : bool }.

Record CPPProcessInputsRequest := {
  req_ExecId : string;
  req_Command : list string;
  req_Directory : string;
  req_CmdEnv : list string;
  req_Filename : string
}.

Record CPPProcessInputsResponse := {
  resp_Dependencies : list string;
  resp_UsedCache : bool;
  resp_Error : string
}.

(** [command.Result]: the exit code, and the error of a command that could not
    be run to its end. *)
Record Result := { ExitCode : Z; r_Err : option error }.

(** What a request waits for, the first of: the end of its context, an error of
    the remote call, its response. *)
Inductive select_request :=
  | ReqDone (e : error)
  | ReqErr (e : error)
  | ReqResp (r : CPPProcessInputsResponse).

(** What a new client waits for, the first of: the end of its context, the end
    of the process, the outcome of connecting. *)
Inductive select_connect :=
  | ConnDone (e : error)
  | ConnExited (r : Result)
  | ConnConnected (r : res CapabilitiesResponse).

(** The calls to the system.  Contexts that can be terminated and the channels
    on which the end of a process is reported have the number of their
    creation; no process reports on channel 0, the nil one. *)
Inductive system_call :=
  | Now
  | Rand (n : Z)
  | OpenPort
  | Remove (path : string)
  | ExecuteInBackground (ctx : nat) (args : list string) (env : gmap string string) (ch : nat)
  | Terminate (ctx : nat)
  | WaitExit (ch : nat) (timeout : Z)
  | Shutdown (timeout : Z)
  | GetCapabilities (timeout : Z)
  | CtxErr
  | Sleep (d : Z)
  | Request (r : CPPProcessInputsRequest)
  | RequestCtxErr
  | Connect (address : string) (timeout : Z) (ch : nat)
  | Diagnostics.

Definition answer (c : system_call) : Type :=
  match c with
  | Now => Z
  | Rand _ => Z
  | OpenPort => res Z
  | Remove _ => option error
  | ExecuteInBackground _ _ _ _ => option error
  | Terminate _ => unit
  | WaitExit _ _ => option Result
  | Shutdown _ => option error
  | GetCapabilities _ => res CapabilitiesResponse
  | CtxErr => option error
  | Sleep _ => unit
  | Request _ => select_request
  | RequestCtxErr => option error
  | Connect _ _ _ => select_connect
  | Diagnostics => unit
  end.

Notation prog := (prog answer).
Notation trace := (list (event answer)).

(** [client] is nil until the service answers; [serviceRestarted] is the zero
    time until the first restart. *)
Record DepsScannerClient := {
  terminate : nat;
  address : string;
  executable : string;
  cacheDir : string;
  cacheFileMaxMb : Z;
  useDepsCache : bool;
  logDir : string;
  client : bool;
  ch : nat;
  serviceRestarted : option Z;
  capabilities : option CapabilitiesResponse
}.

Definition with_address (c : DepsScannerClient) (a : string) : DepsScannerClient :=
  {| terminate := terminate c; address := a; executable := executable c; cacheDir := cacheDir c;
     cacheFileMaxMb := cacheFileMaxMb c; useDepsCache := useDepsCache c; logDir := logDir c; client := client c;
     ch := ch c; serviceRestarted := serviceRestarted c; capabilities := capabilities c |}.
Definition with_process (c : DepsScannerClient) (t : nat) (e : string) (n : nat) : DepsScannerClient :=
  {| terminate := t; address := address c; executable := e; cacheDir := cacheDir c;
     cacheFileMaxMb := cacheFileMaxMb c; useDepsCache := useDepsCache c; logDir := logDir c; client := client c;
     ch := n; serviceRestarted := serviceRestarted c; capabilities := capabilities c |}.
Definition with_client (c : DepsScannerClient) (b : bool) : DepsScannerClient :=
  {| terminate := terminate c; address := address c; executable := executable c; cacheDir := cacheDir c;
     cacheFileMaxMb := cacheFileMaxMb c; useDepsCache := useDepsCache c; logDir := logDir c; client := b;
     ch := ch c; serviceRestarted := serviceRestarted c; capabilities := capabilities c |}.
Definition with_serviceRestarted (c : DepsScannerClient) (t : Z) : DepsScannerClient :=
  {| terminate := terminate c; address := address c; executable := executable c; cacheDir := cacheDir c;
     cacheFileMaxMb := cacheFileMaxMb c; useDepsCache := useDepsCache c; logDir := logDir c; client := client c;
     ch := ch c; serviceRestarted := Some t; capabilities := capabilities c |}.

(** [updateCapabilities] *)
Definition updateCapabilities (c : DepsScannerClient) (r : CapabilitiesResponse) : DepsScannerClient :=
  {| terminate := terminate c; address := address c; executable := executable c; cacheDir := cacheDir c;
     cacheFileMaxMb := cacheFileMaxMb c; useDepsCache := useDepsCache c; logDir := logDir c; client := client c;
     ch := ch c; serviceRestarted := serviceRestarted c; capabilities := Some r |}.

Definition Capabilities (c : DepsScannerClient) : option CapabilitiesResponse := capabilities c.

(** Durations in nanoseconds. *)
Definition Second : Z := 1000000000.
Definition shutdownTimeout : Z := 60 * Second.
Definition localhost : string := "127.0.0.1".

(** The error of the operation is kept and the client returned in every case. *)
Definition fail {A} (e : error) (c : DepsScannerClient) : prog (res A * DepsScannerClient) := Ret (Fail e, c).

(** ** Addresses *)

Section addresses.

(** [ipc.GrpcCxxSupportsUDS] and [os.TempDir()]. *)
Variables (GrpcCxxSupportsUDS : bool) (TempDir : string).

(** The address, or the path of the socket, "" for none. *)
Definition socket_path (addr : string) : prog (string + string) :=
  if HasPrefix addr "unix://" then
    if Contains addr "reproxy" then Ret (inl (ReplaceAll addr "reproxy" "depscan"))
    else
      let '(dir, sockFileName) := SplitFile (str_drop 7 addr) in
      Ret (inr (Join [dir; "ds_" +:+ sockFileName]))
  else if HasPrefix addr "pipe://" then
    Call (Rand 1000) (λ n, Ret (inr (Join [TempDir; "ds_" +:+ pretty n +:+ ".sock"])))
  else Ret (inr "").

Definition tcp_address (addr : string) : prog (res string) :=
  let addr := if HasPrefix addr "unix://" || HasPrefix addr "pipe://" then localhost +:+ ":0" else addr in
  match SplitHostPort addr with
  | Ok (base, _) =>
      Call OpenPort (λ r, Ret match r with
        | Ok port => Ok (base +:+ ":" +:+ pretty port)
        | Fail e => Fail (EWrap "failed to find open port" e)
        | Panic => Panic
        end)
  | Fail e => Ret (Fail (EWrap "failed to find base address" e))
  | Panic => Ret Panic
  end.

Definition buildAddress (proxyServerAddress : string) : prog (res string) :=
  if GrpcCxxSupportsUDS then
    socket_path proxyServerAddress ≫= λ r,
    match r with
    | inl a => Ret (Ok a)
    | inr socketFilePath =>
        let sfLen := String.length socketFilePath in
        if (0 <? sfLen)%nat && (sfLen <=? 108)%nat then Ret (Ok ("unix://" +:+ socketFilePath))
        else tcp_address proxyServerAddress
    end
  else tcp_address proxyServerAddress.

End addresses.

(** The socket that [removeUDSFile] removes. *)
Definition removeUDSFile (addr : string) : prog unit :=
  if negb (HasPrefix addr "unix") then Ret tt
  else
    let udsPath :=
      if HasPrefix addr "unix://" then TrimPrefix addr "unix://"
      else if HasPrefix addr "unix:" then TrimPrefix addr "unix:" else addr in
    Call (Remove udsPath) (λ _, Ret tt).

(** ** The process *)

Section process.

(** [os.Environ()] and [os.LookupEnv]. *)
Variables (Environ : list string) (LookupEnv : string → option string).

(** The loop of [findKeyVal]: the key is the first parts, longer and longer. *)
Fixpoint find_split (lookupEnvFunc : string → option string) (front back : list string) : option (string * string) :=
  let pkey := GoStrings.Join front "=" in
  let pval := GoStrings.Join back "=" in
  if bool_decide (lookupEnvFunc pkey = Some pval) then Some (pkey, pval)
  else match back with
       | [] => None
       | p :: back => find_split lookupEnvFunc (front ++ [p]) back
       end.

Definition findKeyVal (envStr : string) (lookupEnvFunc : string → option string) : res (string * string) :=
  match Split envStr "=" with
  | [k; v] => Ok (k, v)
  | p :: ps => or_fail (EMsg "could not find any matching env var") (find_split lookupEnvFunc [p] ps)
  | [] => Fail (EMsg "could not find any matching env var")
  end.

(** One variable of the environment: two of them are flags of the service. *)
Definition env_step (acc : list string * gmap string string) (e : string) : res (list string * gmap string string) :=
  let? kv := findKeyVal e LookupEnv in
  let '(key, val) := kv in
  Ok (if (key =? "FLAGS_experimental_segfault")%string then (acc.1 ++ ["--experimental_segfault"; val], acc.2)
      else if (key =? "FLAGS_experimental_deadlock")%string then (acc.1 ++ ["--experimental_deadlock"; val], acc.2)
      else (acc.1, <[key := val]> acc.2)).

Fixpoint env_steps (acc : list string * gmap string string) (l : list string) : res (list string * gmap string string) :=
  match l with
  | [] => Ok acc
  | e :: l => let? acc := env_step acc e in env_steps acc l
  end.

Definition cmdArgs (c : DepsScannerClient) : list string :=
  [executable c; "--server_address"; address c; "--cache_dir"; cacheDir c;
   "--deps_cache_max_mb"; pretty (cacheFileMaxMb c);
   if useDepsCache c then "--enable_deps_cache" else "--noenable_deps_cache"].

(** The command line and the environment of the service. *)
Definition service_command (c : DepsScannerClient) : res (list string * gmap string string) :=
  let? acc := env_steps (cmdArgs c, ∅) Environ in
  let '(args, env) := acc in
  Ok (args, if (logDir c =? "")%string then env else <["GLOG_log_dir" := logDir c]> env).

Definition startService (exe : string) (c : DepsScannerClient) : prog (res unit * DepsScannerClient) :=
  let c := with_process c (S (terminate c)) exe (ch c) in
  match service_command c with
  | Fail e => fail e c
  | Panic => Ret (Panic, c)
  | Ok (args, env) =>
      removeUDSFile (address c) ≫= λ _,
      let c := with_process c (terminate c) exe (S (ch c)) in
      Call (ExecuteInBackground (terminate c) args env (ch c)) (λ r,
        match r with None => Ret (Ok tt, c) | Some e => fail e c end)
  end.

(** Two waits for the end of the process, with a termination in between. *)
Definition wait_exit (timeout : Z) (c : DepsScannerClient) : prog (res unit) :=
  Call (WaitExit (ch c) timeout) (λ r, match r with
  | Some _ => Ret (Ok tt)
  | None => Call (Terminate (terminate c)) (λ _, Call (WaitExit (ch c) timeout) (λ r, match r with
      | Some _ => Ret (Ok tt)
      | None => Ret (Fail (EWrap "could not shutdown. Giving up" EDeadlineExceeded))
      end))
  end).

Definition stopService (timeout : Z) (c : DepsScannerClient) : prog (res unit) :=
  if (executable c =? "")%string then Ret (Ok tt)
  else if client c then Call (Shutdown timeout) (λ _, wait_exit timeout c)
  else Call (Terminate (terminate c)) (λ _, wait_exit timeout c).

(** [verifyService]: the tries that are left.  A call on a client that is nil
    panics. *)
Definition verify_timeout : Z := 10 * Second.
Fixpoint verify_tries (n : nat) (c : DepsScannerClient) : prog (res unit * DepsScannerClient) :=
  match n with
  | O => fail (EWrap "Unable to connect to server" EDeadlineExceeded) c
  | S n =>
      Call (GetCapabilities verify_timeout) (λ r, Call CtxErr (λ d, match d with
      | Some _ => verify_tries n c
      | None => match r with
                | Ok caps => Ret (Ok tt, updateCapabilities c caps)
                | _ => Call (Sleep verify_timeout) (λ _, verify_tries n c)
                end
      end))
  end.
Definition verifyService (c : DepsScannerClient) : prog (res unit * DepsScannerClient) :=
  if negb (client c) then Ret (Panic, c) else verify_tries 10 c.

(** [t.Before(ds.serviceRestarted)] *)
Definition restarted_since (t : Z) (c : DepsScannerClient) : bool :=
  match serviceRestarted c with Some t' => (t <? t')%Z | None => false end.

(** The restart of a caller that read the clock at [t], with the lock held. *)
Definition restart_locked (exe : string) (t : Z) (c : DepsScannerClient) : prog (res unit * DepsScannerClient) :=
  if restarted_since t c then Ret (Ok tt, c)
  else
    stopService shutdownTimeout c ≫= λ r,
    match r with
    | Fail e => fail (EWrap "Unable to shutdown service" e) c
    | Panic => Ret (Panic, c)
    | Ok _ =>
        startService exe c ≫= λ '(r, c),
        match r with
        | Fail e => fail (EWrap "Unable to start service" e) c
        | Panic => Ret (Panic, c)
        | Ok _ =>
            verifyService c ≫= λ '(r, c),
            match r with
            | Ok _ => Call Now (λ t', Ret (Ok tt, with_serviceRestarted c t'))
            | _ => Ret (r, c)
            end
        end
    end.

Definition not_managed : error := EMsg "Service is not managed by reproxy".

Definition restartService (exe : string) (c : DepsScannerClient) : prog (res unit * DepsScannerClient) :=
  if (exe =? "")%string then fail not_managed c
  else Call Now (λ t, restart_locked exe t c).

(** [Close] *)
Definition Close (c : DepsScannerClient) : prog DepsScannerClient :=
  if negb (client c) then Ret c
  else stopService shutdownTimeout c ≫= λ _, Ret (with_client c false).

(** ** Requests *)

(** [status.FromError(err)] gives the code [Unavailable]. *)
Variable Unavailable : error → bool.

(** The dependencies of a response: those that are empty are left out, those
    that are relative are under the directory of the request. *)
Definition absDeps (directory : string) (deps : list string) : list string :=
  omap (λ p, if (p =? "")%string then None else Some (if negb (IsAbs p) then Join [directory; p] else p)) deps.

Definition no_response (e : error) : error := EWrap "failed to get response from scandeps" e.
Definition unexpected (e : error) : error := EWrap "An unexpected error occurred communicating with the service" e.

Definition restart_lost (c : DepsScannerClient) : prog (res (list string * bool) * DepsScannerClient) :=
  restartService (executable c) c ≫= λ '(r, c),
  match r with
  | Fail e => fail (EWrap "communication with service lost; failed to restart service" e) c
  | Panic => Ret (Panic, c)
  | Ok _ => fail (EMsg "communication with service lost; service restarted") c
  end.

Definition request_failed (e : error) (c : DepsScannerClient) : prog (res (list string * bool) * DepsScannerClient) :=
  if Unavailable e then
    Call RequestCtxErr (λ d, match d with
    | Some e' => if negb (errors_Is e' EDeadlineExceeded) then fail (no_response e') c else fail (unexpected e) c
    | None => restart_lost c
    end)
  else fail (unexpected e) c.

Definition request_done (e : error) (c : DepsScannerClient) : prog (res (list string * bool) * DepsScannerClient) :=
  if negb (errors_Is e EDeadlineExceeded) then fail (no_response e) c
  else
    restartService (executable c) c ≫= λ '(r, c),
    match r with
    | Ok _ => fail (no_response e) c
    | Fail e' => fail (EWrap "failed to get response from scandeps; additionally failed to restart service" e') c
    | Panic => Ret (Panic, c)
    end.

Definition ProcessInputs (execID : string) (compileCommand : list string) (filename directory : string)
    (cmdEnv : list string) (c : DepsScannerClient) : prog (res (list string * bool) * DepsScannerClient) :=
  if negb (client c) then Ret (Panic, c) else
  Call (Request {| req_ExecId := execID; req_Command := compileCommand; req_Directory := directory;
                   req_CmdEnv := cmdEnv; req_Filename := filename |}) (λ a,
  match a with
  | ReqDone e => request_done e c
  | ReqErr e => request_failed e c
  | ReqResp resp =>
      if negb (resp_Error resp =? "")%string then fail (EMsg ("input processing failed: " +:+ resp_Error resp)) c
      else Ret (Ok (absDeps directory (resp_Dependencies resp), resp_UsedCache resp), c)
  end).

(** ** New clients *)

Variables (GrpcCxxSupportsUDS : bool) (TempDir : string).

(** The arguments of [New]. *)
Record config := {
  cfg_cacheDir : string;
  cfg_cacheFileMaxMb : Z;
  cfg_useDepsCache : bool;
  cfg_logDir : string;
  depsScannerAddress : string;
  proxyServerAddress : string;
  connTimeout : Z
}.

Definition initial_client (g : config) : DepsScannerClient := {|
  terminate := 0; address := depsScannerAddress g; executable := ""; cacheDir := cfg_cacheDir g;
  cacheFileMaxMb := cfg_cacheFileMaxMb g; useDepsCache := cfg_useDepsCache g; logDir := cfg_logDir g; client := false;
  ch := 0; serviceRestarted := None; capabilities := None |}.

(** The service is started when the address names an executable. *)
Definition launch (g : config) (c : DepsScannerClient) : prog (res DepsScannerClient) :=
  if HasPrefix (depsScannerAddress g) "exec://" then
    buildAddress GrpcCxxSupportsUDS TempDir (proxyServerAddress g) ≫= λ a,
    match a with
    | Fail e => Ret (Fail (EWrap "Failed to build address for dependency scanner" e))
    | Panic => Ret Panic
    | Ok addr =>
        startService (str_drop 7 (depsScannerAddress g)) (with_address c addr) ≫= λ '(r, c),
        Ret match r with
            | Ok _ => Ok c
            | Fail e => Fail (EWrap "Failed to start dependency scanner" e)
            | Panic => Panic
            end
    end
  else Ret (Ok c).

(** The wait for the connection. *)
Definition connected (g : config) (c : DepsScannerClient) : prog (res DepsScannerClient) :=
  Call (Connect (address c) (connTimeout g) (ch c)) (λ s, match s with
  | ConnDone e =>
      stopService (1 * Second) c ≫= λ _,
      Ret (Fail (EWrap "Failed to connect to dependency scanner service after seconds" e))
  | ConnExited r =>
      Ret (Fail (match r_Err r with
                 | Some e => EWrap "terminated during startup" e
                 | None => EMsg "terminated during startup" end))
  | ConnConnected (Fail e) => Ret (Fail (EWrap "Failed to connect to dependency scanner service" e))
  | ConnConnected Panic => Ret Panic
  | ConnConnected (Ok caps) => Ret (Ok (updateCapabilities (with_client c true) caps))
  end).

Definition client_New (g : config) : prog (res DepsScannerClient) :=
  (launch g (initial_client g) ≫= λ r,
   match r with Ok c => connected g c | Fail e => Ret (Fail e) | Panic => Ret Panic end) ≫= λ r,
  match r with
  | Fail e => Call Diagnostics (λ _, Ret (Fail e))
  | _ => Ret r
  end.

(** [cppdependencyscanner.New] tries once more. *)
Definition New (g : config) : prog (res DepsScannerClient) :=
  client_New g ≫= λ r, match r with Fail _ => client_New g | _ => Ret r end.

End process.

(** ** The processes and the clock

    What the environment keeps: the processes whose end has not been received
    yet, by channel, and the time.  A process reports its end once, and the
    clock does not go back. *)
Record world := { live : gset nat; clock : Z }.

Definition reap (w : world) (n : nat) : option world :=
  if bool_decide (n ∈ live w) then Some {| live := live w ∖ {[n]}; clock := clock w |} else None.

Definition world_step (w : world) (e : event answer) : option world :=
  match e with
  | Event c a =>
      match c as c return answer c → option world with
      | Now => λ t, if (clock w <=? t)%Z then Some {| live := live w; clock := t |} else None
      | ExecuteInBackground _ _ _ n => λ r,
          Some match r with None => {| live := {[n]} ∪ live w; clock := clock w |} | Some _ => w end
      | WaitExit n _ => λ r, match r with Some _ => reap w n | None => Some w end
      | Connect _ _ n => λ s, match s with ConnExited _ => reap w n | _ => Some w end
      | _ => λ _, Some w
      end a
  end.

(** At most one process of the service at a time. *)
Definition one_service (w : world) : Prop := size (live w) ≤ 1.

(** Every process that lives reports on the channel of the client. *)
Definition tracks (c : DepsScannerClient) (w : world) : Prop := live w ⊆ {[ch c]}.

Lemma tracks_one c w : tracks c w → one_service w.
Proof. intros H. unfold one_service. trans (size ({[ch c]} : gset nat)); [by apply subseteq_size|]. rewrite size_singleton. done. Qed.

Notation dwp := (wp world_step one_service).

Lemma wp_ret {A} (a : A) w (Q : A → world → Prop) : one_service w → Q a w → dwp (Ret a) w Q.
Proof. by split. Qed.

(** A call that does not change the processes. *)
Lemma wp_call {A} c (k : answer c → prog A) w Q :
  one_service w → (∀ x, world_step w (Event c x) = Some w) → (∀ x, dwp (k x) w Q) → dwp (Call c k) w Q.
Proof. intros HI Hc Hk. split; [done|]. intros x w' E. rewrite Hc in E. injection E as <-. apply Hk. Qed.

Section restart.

Variables (Environ : list string) (LookupEnv : string → option string).

Lemma wait_exit_wp timeout c w :
  tracks c w →
  dwp (wait_exit timeout c) w (λ r w', clock w' = clock w ∧
    match r with Ok _ => live w' = ∅ ∧ live w = {[ch c]} | Fail e => w' = w ∧ errors_Is e EDeadlineExceeded = true | Panic => False end).
Proof.
  intros Hc. pose proof (tracks_one _ _ Hc) as H1.
  assert (∀ w', reap w (ch c) = Some w' → live w' = ∅ ∧ live w = {[ch c]} ∧ clock w' = clock w) as Hreap.
  { intros w'. unfold reap. case_bool_decide; [|done]. intros [= <-]. unfold tracks in Hc. simpl. split; [set_solver|]. split; [set_solver|done]. }
  split; [done|]. intros [r|] w'; cbn [world_step].
  - intros (E1 & E2 & E3)%Hreap. apply wp_ret; [|auto]. unfold one_service. rewrite E1, size_empty; lia.
  - intros [= <-]. apply wp_call; [done..|]. intros _. split; [done|]. intros [r|] w'; cbn [world_step].
    + intros (E1 & E2 & E3)%Hreap. apply wp_ret; [|auto]. unfold one_service. rewrite E1, size_empty; lia.
    + intros [= <-]. apply wp_ret; auto.
Qed.

Lemma stopService_wp timeout c w :
  tracks c w → executable c ≠ "" →
  dwp (stopService timeout c) w (λ r w', clock w' = clock w ∧
    match r with Ok _ => live w' = ∅ ∧ live w = {[ch c]} | Fail e => w' = w ∧ errors_Is e EDeadlineExceeded = true | Panic => False end).
Proof.
  intros Hc He. unfold stopService. apply String.eqb_neq in He as ->.
  destruct (client c); (apply wp_call; [by eapply tracks_one|done|]; intros _; by apply wait_exit_wp).
Qed.

Lemma service_command_no_panic c : no_panic (service_command Environ LookupEnv c).
Proof.
  unfold service_command. apply bind_no_panic; [|by intros [] _].
  generalize (cmdArgs c, ∅ : gmap string string). induction Environ as [|e l IH]; intros acc; simpl; [done|].
  apply bind_no_panic; [|intros a _; apply IH]. unfold env_step. apply bind_no_panic; [|by intros [] _].
  unfold findKeyVal. destruct (Split e "=") as [|k [|v [|]]]; try done; apply or_fail_no_panic.
Qed.

(** What a start leaves as it was. *)
Definition same_service (c c' : DepsScannerClient) : Prop :=
  executable c' = executable c ∧ client c' = client c ∧ serviceRestarted c' = serviceRestarted c.

Lemma startService_wp c w :
  live w = ∅ →
  dwp (startService Environ LookupEnv (executable c) c) w (λ '(r, c') w', clock w' = clock w ∧ same_service c c' ∧
    tracks c' w' ∧ match r with Ok _ => live w' = {[ch c']} | Fail _ => live w' = ∅ | Panic => False end).
Proof.
  intros Hw. assert (one_service w) as H1 by (unfold one_service; rewrite Hw, size_empty; lia).
  assert (∀ c, tracks c w) as Ht by (intros c'; unfold tracks; set_solver).
  unfold startService. set (c1 := with_process c (S (terminate c)) (executable c) (ch c)).
  destruct (service_command Environ LookupEnv c1) as [[args env]|e|] eqn:Es;
    [|apply wp_ret; [done|]; split_and!; [done| |apply Ht|done]; done|by destruct (service_command_no_panic c1)].
  unfold removeUDSFile.
  set (c2 := with_process c1 (terminate c1) (executable c) (S (ch c1))).
  assert (dwp (Call (ExecuteInBackground (terminate c2) args env (ch c2))
      (λ r, match r with None => Ret (Ok tt, c2) | Some e => fail e c2 end)) w (λ '(r, c') w',
      clock w' = clock w ∧ same_service c c' ∧ tracks c' w' ∧
      match r with Ok _ => live w' = {[ch c']} | Fail _ => live w' = ∅ | Panic => False end)) as Hex.
  { split; [done|]. intros [e|] w' [= <-]; [apply wp_ret; [done|]; split_and!; [done| |apply Ht|done]; done|].
    assert (tracks c2 {| live := {[ch c2]} ∪ live w; clock := clock w |}) as Ht2 by (unfold tracks; simpl; set_solver).
    apply wp_ret; [by eapply tracks_one|]. split; [done|]. split; [done|]. split; [done|]. simpl. set_solver. }
  destruct (negb _); [exact Hex|]. apply wp_call; [done..|]. intros _. exact Hex.
Qed.

Lemma verifyService_wp c w :
  one_service w → client c = true →
  dwp (verifyService c) w (λ '(r, c') w', w' = w ∧ same_service c c' ∧ ch c' = ch c ∧
    match r with Ok _ => capabilities c' ≠ None | Fail e => errors_Is e EDeadlineExceeded = true | Panic => False end).
Proof.
  intros H1 Hc. unfold verifyService. rewrite Hc. cbn [negb]. generalize 10 as n. induction n as [|n IH].
  - apply wp_ret; [done|]. by repeat split.
  - apply wp_call; [done..|]. intros r. apply wp_call; [done..|]. intros [e|]; [exact IH|].
    assert (dwp (Call (Sleep verify_timeout) (λ _, verify_tries n c)) w (λ '(r, c') w', w' = w ∧ same_service c c' ∧ ch c' = ch c ∧
      match r with Ok _ => capabilities c' ≠ None | Fail e => errors_Is e EDeadlineExceeded = true | Panic => False end))
      as Hs by (apply wp_call; [done..|]; intros _; exact IH).
    destruct r; [|exact Hs..]. apply wp_ret; [done|]. by repeat split.
Qed.

(** The client of a service that is running: it was started, it answered once,
    its process reports to it, and it was not restarted in the future. *)
Definition running (c : DepsScannerClient) (w : world) : Prop :=
  tracks c w ∧ executable c ≠ "" ∧ client c = true ∧ ∀ t, serviceRestarted c = Some t → (t ≤ clock w)%Z.

(** A restart that succeeds was made after the caller had read the clock. *)
Definition restarted_after (t : Z) (c : DepsScannerClient) : Prop :=
  ∃ t', serviceRestarted c = Some t' ∧ (t ≤ t')%Z.

Lemma running_same c c' w w' :
  running c w → same_service c c' → tracks c' w' → clock w' = clock w → running c' w'.
Proof.
  intros (_ & He & Hc & Ht) (E1 & E2 & E3) H Ew. unfold running. rewrite E1, E2, E3, Ew. auto.
Qed.

Lemma restart_locked_wp t c w :
  running c w → (t ≤ clock w)%Z →
  dwp (restart_locked Environ LookupEnv (executable c) t c) w (λ '(r, c') w', running c' w' ∧ executable c' = executable c ∧
    (∀ t0, restarted_after t0 c → restarted_after t0 c') ∧
    match r with Ok _ => restarted_after t c' | Fail _ => True | Panic => False end).
Proof.
  intros Hr Hle. pose proof Hr as (Ht & He & Hcl & Hsr). pose proof (tracks_one _ _ Ht) as H1. unfold restart_locked.
  destruct (restarted_since t c) eqn:Es.
  { apply wp_ret; [done|]. split; [done|]. split; [done|]. split; [done|]. unfold restarted_since in Es.
    destruct (serviceRestarted c) as [t'|] eqn:E; [|done]. exists t'. split; [done|]. apply Z.ltb_lt in Es. lia. }
  apply wp_bind. eapply wp_mono; [by apply stopService_wp|]. cbv beta. intros [[]|e|] w1 _ [Ew1 H]; [|destruct H as [-> _]|done].
  2:{ apply wp_ret; auto. }
  destruct H as [El _]. apply wp_bind. eapply wp_mono; [by apply startService_wp|]. cbv beta.
  intros [r c1] w2 H2 (Ew2 & Hs & Ht2 & Hl2). assert (running c1 w2) as Hr2 by (eapply running_same; [exact Hr|done..|congruence]).
  assert (∀ t0, restarted_after t0 c → restarted_after t0 c1) as Ha1 by (destruct Hs as (_ & _ & E); unfold restarted_after; by rewrite E).
  destruct r as [[]|e|]; [|apply wp_ret; [done|]; split; [done|]; split; [by destruct Hs|by split]|done].
  apply wp_bind. eapply wp_mono; [apply verifyService_wp; [done|by destruct Hr2 as (_ & _ & ? & _)]|]. cbv beta.
  intros [r c2] w3 H3 (-> & Hs2 & Ech & Hok). assert (tracks c2 w2) as Ht3 by (unfold tracks; by rewrite Ech).
  assert (running c2 w2) as Hr3 by (by eapply running_same).
  assert (executable c2 = executable c) as Ee by (destruct Hs2 as (-> & _), Hs as (-> & _); done).
  assert (∀ t0, restarted_after t0 c → restarted_after t0 c2) as Ha2
    by (intros t0 Ht0; destruct Hs2 as (_ & _ & E); unfold restarted_after; rewrite E; by apply Ha1).
  destruct r as [[]|e|]; [|apply wp_ret; auto|done].
  split; [done|]. intros t' w4; cbn [world_step]. destruct (Z.leb_spec (clock w2) t') as [Hle'|]; [|done].
  intros [= <-]. assert (clock w2 = clock w) as Ec by congruence. apply wp_ret; [done|].
  split; [|split; [done|split; [|exists t'; split; [done|lia]]]].
  - destruct Hr3 as (? & ? & ? & _). split_and!; [done..|]. intros t0 [= <-]. simpl. lia.
  - intros t0 (t1 & E & Hle1). exists t'. split; [done|]. pose proof (Hsr t1 E). lia.
Qed.

(** ** Callers that find the service unavailable

    Any number of requests can come to restart the service.  Each reads the
    clock first and then waits for the lock; the clock can be read while a
    restart is going on, which is before the restart reads it, so that a restart
    is one step here. *)
Record sys := {
  s_client : DepsScannerClient;
  s_world : world;
  s_callers : list (Z * option (res unit));
  s_trace : trace
}.

Inductive sys_step : sys → sys → Prop :=
  | sys_read s t w' :
      world_step (s_world s) (Event Now t) = Some w' →
      sys_step s {| s_client := s_client s; s_world := w'; s_callers := s_callers s ++ [(t, None)];
                    s_trace := s_trace s ++ [Event Now t] |}
  | sys_restart s i t tr r c' w' :
      s_callers s !! i = Some (t, None) →
      exec (restart_locked Environ LookupEnv (executable (s_client s)) t (s_client s)) tr (r, c') →
      steps world_step (s_world s) tr = Some w' →
      sys_step s {| s_client := c'; s_world := w'; s_callers := <[i := (t, Some r)]> (s_callers s);
                    s_trace := s_trace s ++ tr |}.

(** A caller read the clock in the past, and is told of success only when the
    service was restarted since. *)
Definition caller_ok (c : DepsScannerClient) (w : world) (x : Z * option (res unit)) : Prop :=
  (x.1 ≤ clock w)%Z ∧
  match x.2 with Some (Ok _) => restarted_after x.1 c | Some Panic => False | _ => True end.

Definition sys_inv (w0 : world) (s : sys) : Prop :=
  running (s_client s) (s_world s) ∧ steps world_step w0 (s_trace s) = Some (s_world s) ∧
  always world_step one_service w0 (s_trace s) ∧ Forall (caller_ok (s_client s) (s_world s)) (s_callers s).

Lemma world_step_clock w e w' : world_step w e = Some w' → (clock w ≤ clock w')%Z.
Proof.
  destruct e as [c a], c; cbn [world_step]; unfold reap; repeat case_match; intros [= <-]; simpl; try lia.
Qed.

Lemma steps_clock w tr w' : steps world_step w tr = Some w' → (clock w ≤ clock w')%Z.
Proof.
  revert w. induction tr as [|e tr IH]; intros w; simpl; [intros [= <-]; lia|].
  destruct (world_step w e) as [w1|] eqn:E; simpl; [|done]. intros H%IH. apply world_step_clock in E. lia.
Qed.

Lemma caller_ok_mono c w c' w' x :
  (clock w ≤ clock w')%Z → (∀ t0, restarted_after t0 c → restarted_after t0 c') → caller_ok c w x → caller_ok c' w' x.
Proof. intros Hw Ha [H1 H2]. split; [lia|]. destruct x.2 as [[]|]; auto. Qed.

Lemma sys_inv_step w0 s s' : sys_step s s' → sys_inv w0 s → sys_inv w0 s'.
Proof.
  intros Hst (Hr & Hs & Ha & Hc). destruct Hst as [s t w' E|s i t tr r c' w' Hi He Hw]; unfold sys_inv; simpl.
  - pose proof (world_step_clock _ _ _ E) as Hle. cbn [world_step] in E. destruct (Z.leb_spec (clock (s_world s)) t) as [Hlt|]; [|done].
    injection E as <-. rewrite steps_app, Hs. simpl. apply Z.leb_le in Hlt as Hb. rewrite Hb. simpl.
    assert (running (s_client s) {| live := live (s_world s); clock := t |}) as Hr'.
    { destruct Hr as (? & ? & ? & Ht). split_and!; [done..|]. intros t0 E0. specialize (Ht t0 E0). simpl. lia. }
    split; [done|]. split; [done|]. split.
    + eapply always_app; [done..|]. assert (dwp (call Now) (s_world s) (λ _ _, True)) as Hw.
      { pose proof (tracks_one _ _ (proj1 Hr)). split; [done|]. intros t0 w1; cbn [world_step].
        destruct (Z.leb (clock (s_world s)) t0); intros E1; [|done]. injection E1 as <-. by split. }
      by apply (wp_exec _ _ _ _ _ [Event Now t] t Hw), exec_call1.
    + apply Forall_app. split; [|constructor; [split; simpl; [lia|done]|done]].
      eapply Forall_impl; [exact Hc|]. intros x. by apply caller_ok_mono.
  - pose proof (steps_clock _ _ _ Hw) as Hle. pose proof (proj1 (Forall_lookup _ _) Hc _ _ Hi) as [Hti _].
    destruct (wp_exec _ _ _ _ _ _ _ (restart_locked_wp t _ _ Hr Hti) He) as [Hal Hend].
    destruct (Hend w' Hw) as (Hr' & _ & Hmono & Hres). split; [done|]. rewrite steps_app, Hs. split; [done|].
    split; [by eapply always_app|]. apply Forall_insert; [|split; [simpl in *; lia|by destruct r]].
    eapply Forall_impl; [exact Hc|]. intros x. by apply caller_ok_mono.
Qed.

Definition init (c : DepsScannerClient) (w : world) : sys :=
  {| s_client := c; s_world := w; s_callers := []; s_trace := [] |}.


(** *** One restart for all *)

(** Callers that hold the lock one after the other. *)
Fixpoint serve_all (ts : list Z) (c : DepsScannerClient) : prog (list (res unit) * DepsScannerClient) :=
  match ts with
  | [] => Ret ([], c)
  | t :: ts =>
      restart_locked Environ LookupEnv (executable c) t c ≫= λ '(r, c),
      serve_all ts c ≫= λ '(rs, c), Ret (r :: rs, c)
  end.

Definition is_start (c : system_call) : bool := match c with ExecuteInBackground _ _ _ _ => true | _ => false end.
Definition starts (tr : trace) : nat := length (filter (λ e, is_start (ev_call e) = true) tr).

(** The times that the clock gave. *)
Definition now_of (e : event answer) : option Z :=
  match e with Event c a => match c as c return answer c → option Z with Now => λ t, Some t | _ => λ _, None end a end.
Definition nows (tr : trace) : list Z := omap now_of tr.

Lemma starts_app t1 t2 : starts (t1 ++ t2) = starts t1 + starts t2.
Proof. unfold starts. by rewrite filter_app, length_app. Qed.

Lemma starts_none {A} (p : prog A) tr a : all_calls (λ c, is_start c = false) p → exec p tr a → starts tr = 0.
Proof.
  intros Hp He. pose proof (all_calls_exec _ _ _ _ Hp He) as H. unfold starts. clear -H.
  induction H as [|e tr Hx _ IH]; [done|]. rewrite filter_cons_False; [done|]. by rewrite Hx.
Qed.

Lemma stopService_starts timeout c tr r : exec (stopService timeout c) tr r → starts tr = 0.
Proof.
  apply starts_none. unfold stopService, wait_exit.
  destruct (_ =? _)%string; [done|]. destruct (client c); (split; [done|]; intros _; split; [done|]; intros [|]; [done|];
    split; [done|]; intros _; split; [done|]; by intros [|]).
Qed.

Lemma verifyService_starts c tr r : exec (verifyService c) tr r → starts tr = 0.
Proof.
  apply starts_none. unfold verifyService. destruct (negb _); [done|]. generalize 10 as n. induction n as [|n IH]; [done|].
  split; [done|]. intros r'. split; [done|]. intros [e|]; [exact IH|]. destruct r'; [done|by split..].
Qed.

Lemma removeUDSFile_calls addr : all_calls (λ c, is_start c = false) (removeUDSFile addr).
Proof. unfold removeUDSFile. by destruct (negb _). Qed.

Lemma startService_starts exe c tr c' : exec (startService Environ LookupEnv exe c) tr (Ok tt, c') → starts tr = 1.
Proof.
  unfold startService, fail. set (c1 := with_process _ _ _ _).
  destruct (service_command _ _ _) as [[args env]|e|]; [|intros [_ [=]]..].
  intros (u & t1 & t2 & -> & H1 & ([e|] & t' & -> & H2))%exec_bind; destruct H2 as [-> [=]].
  rewrite starts_app, (starts_none _ _ _ (removeUDSFile_calls _) H1). done.
Qed.

(** A restart that succeeds and was not made before by another starts the
    service once, and notes a time that the clock gave. *)
Lemma restart_locked_Ok exe t c tr c' :
  exec (restart_locked Environ LookupEnv exe t c) tr (Ok tt, c') → restarted_since t c = false →
  starts tr = 1 ∧ ∃ t', t' ∈ nows tr ∧ serviceRestarted c' = Some t'.
Proof.
  intros H Hs. unfold restart_locked, fail in H. rewrite Hs in H.
  apply exec_bind in H as ([[]|e|] & t1 & t2 & -> & H1 & H); [|destruct H as [_ [=]]..].
  apply exec_bind in H as ([[[]|e|] c1] & t3 & t4 & -> & H2 & H); [|destruct H as [_ [=]]..].
  apply exec_bind in H as ([[[]|e|] c2] & t5 & t6 & -> & H3 & H); [|destruct H as [_ [=]]..].
  destruct H as (t' & t7 & -> & [-> [= ->]]).
  rewrite !starts_app, (stopService_starts _ _ _ _ H1), (startService_starts _ _ _ _ H2), (verifyService_starts _ _ _ H3).
  split; [done|]. exists t'. split; [|done]. unfold nows. rewrite !omap_app. set_solver.
Qed.

Lemma serve_all_served ts c tr r :
  exec (serve_all ts c) tr r → Forall (λ u, restarted_since u c = true) ts →
  tr = [] ∧ r = (replicate (length ts) (Ok tt), c).
Proof.
  revert tr r. induction ts as [|t ts IH]; intros tr r H Hts; [exact H|]. apply Forall_cons in Hts as [Ht Hts].
  cbn [serve_all] in H. unfold restart_locked in H. rewrite Ht in H.
  apply exec_bind in H as (x & t1 & t2 & -> & [-> ->] & H).
  apply exec_bind in H as (y & t3 & t4 & -> & H3 & H). destruct (IH _ _ H3 Hts) as [-> ->]. destruct H as [-> ->]. done.
Qed.

(** Requests that found the service unavailable before it was restarted
    share one restart: when the first of them to hold the lock succeeds, the
    others succeed at once, and the service was started exactly once. *)
Theorem callers_share_restart t ts c tr rs c' :
  exec (serve_all (t :: ts) c) tr (Ok tt :: rs, c') → restarted_since t c = false →
  (∀ t', t' ∈ nows tr → Forall (λ u, (u < t')%Z) ts) →
  rs = replicate (length ts) (Ok tt) ∧ starts tr = 1.
Proof.
  intros H Hs Hn. cbn [serve_all] in H.
  apply exec_bind in H as ([r c1] & t1 & t2 & -> & H1 & H).
  apply exec_bind in H as ([rs' c2] & t3 & t4 & -> & H3 & [-> [= <- -> ->]]).
  destruct (restart_locked_Ok _ _ _ _ _ H1 Hs) as (E & t' & Hin & Et).
  apply serve_all_served in H3 as [-> [= -> _]].
  - rewrite !app_nil_r. by split.
  - assert (Forall (λ u, (u < t')%Z) ts) as Hts by (apply Hn; unfold nows; rewrite omap_app; set_solver).
    eapply Forall_impl; [exact Hts|]. intros u Hu. unfold restarted_since. rewrite Et. by apply Z.ltb_lt.
Qed.

(** A start that fails is final: no process is left to report its end to the
    client, so that no later restart gets past the end of the old one. *)
Lemma failed_start_is_final t c w :
  live w = ∅ → executable c ≠ "" → restarted_since t c = false →
  dwp (restart_locked Environ LookupEnv (executable c) t c) w (λ '(r, c') w',
    c' = c ∧ live w' = ∅ ∧ ∃ e, r = Fail e ∧ errors_Is e EDeadlineExceeded = true).
Proof.
  intros Hl He Hs. unfold restart_locked. rewrite Hs. assert (tracks c w) as Ht by (unfold tracks; set_solver).
  apply wp_bind. eapply wp_mono; [by apply stopService_wp|]. cbv beta. intros [[]|e|] w1 H1 [_ H]; [set_solver| |done].
  destruct H as [-> H]. apply wp_ret; [done|]. split; [done|]. split; [done|]. eexists. split; [done|]. simpl. by rewrite H.
Qed.

End restart.

(** ** The environment of the service *)

Lemma find_split_finds lookup front b1 b2 :
  b2 ≠ [] → lookup (GoStrings.Join (front ++ b1) "=") = Some (GoStrings.Join b2 "=") →
  ∃ c1 c2, b1 ++ b2 = c1 ++ c2 ∧ c2 ≠ [] ∧
    find_split lookup front (b1 ++ b2) = Some (GoStrings.Join (front ++ c1) "=", GoStrings.Join c2 "=") ∧
    lookup (GoStrings.Join (front ++ c1) "=") = Some (GoStrings.Join c2 "=").
Proof.
  intros Hne. revert front. induction b1 as [|x b1 IH]; intros front H.
  - exists [], b2. rewrite app_nil_r in *. split; [done|]. split; [done|]. simpl. split; [|done].
    destruct b2; [done|]. simpl. by rewrite bool_decide_true.
  - simpl. case_bool_decide as Hb.
    + exists [], (x :: b1 ++ b2). rewrite app_nil_r. by repeat split.
    + destruct (IH (front ++ [x])) as (c1 & c2 & E & Hc & Hf & Hl); [by rewrite <- app_assoc|].
      rewrite <- app_assoc in Hf, Hl. exists (x :: c1), c2. simpl. rewrite E. rewrite E in Hf. by repeat split.
Qed.

(** The service gets every variable of the environment as a variable of
    the environment: whatever equal signs there are in its name and in its
    value, it is taken apart into a name and a value that the environment has
    for it, the very same ones when there is just one equal sign. *)
Theorem findKeyVal_spec lookup k v :
  lookup k = Some v →
  ∃ k' v', findKeyVal (k +:+ "=" +:+ v) lookup = Ok (k', v') ∧ k' +:+ "=" +:+ v' = k +:+ "=" +:+ v ∧
    lookup k' = Some v' ∧ (contains_char "=" k = false → contains_char "=" v = false → k' = k ∧ v' = v).
Proof.
  intros Hl. unfold findKeyVal. change (k +:+ "=" +:+ v) with (k +:+ String "=" v). rewrite Split_app.
  destruct (Split k "=") as [|p ps] eqn:Ek; [by destruct (Split_nonempty k "=")|].
  pose proof (Join_Split k "=") as Jk. pose proof (Join_Split v "=") as Jv. rewrite Ek in Jk.
  destruct (find_split_finds lookup [p] ps (Split v "=")) as (c1 & c2 & E & Hne & Hf & Hl2);
    [apply Split_nonempty|change ([p] ++ ps) with (p :: ps); by rewrite Jk, Jv|].
  assert (GoStrings.Join (p :: c1) "=" +:+ "=" +:+ GoStrings.Join c2 "=" = k +:+ String "=" v) as Ej.
  { rewrite <- (Join_Split (k +:+ String "=" v) "="), Split_app, Ek. rewrite <- app_comm_cons, E.
    change (p :: c1 ++ c2) with ((p :: c1) ++ c2). by rewrite Join_app. }
  assert (match Split v "=", ps with [v'], [] => p = k ∧ v' = v | _, _ => True end) as H2.
  { by destruct (Split v "=") as [|v' [|]], ps. }
  rewrite <- app_comm_cons. destruct (ps ++ Split v "=") as [|q [|q' l]] eqn:El.
  - apply app_eq_nil in El as [_ El]. by destruct (Split_nonempty v "=").
  - destruct ps; [|destruct ps, (Split v "=") eqn:Ev; try done; by destruct (Split_nonempty v "=")].
    simpl in El. rewrite El in H2. destruct H2 as [-> ->]. exists k, v. by repeat split.
  - rewrite Hf. simpl. eexists _, _. split; [done|]. split; [exact Ej|]. split; [exact Hl2|]. intros Hk Hv.
    rewrite (Split_none v) in El by done. rewrite (Split_none k) in Ek by done. injection Ek as <- <-. done.
Qed.

(** ** New clients *)

Section new.

Variables (Environ : list string) (LookupEnv : string → option string) (GrpcCxxSupportsUDS : bool) (TempDir : string).

Lemma buildAddress_wp addr w :
  one_service w → dwp (buildAddress GrpcCxxSupportsUDS TempDir addr) w (λ _ w', w' = w).
Proof.
  intros H1. assert (dwp (tcp_address addr) w (λ _ w', w' = w)) as Ht.
  { unfold tcp_address. destruct (SplitHostPort _) as [[base port]|e|]; [|by split..]. apply wp_call; [done..|]. by intros x. }
  unfold buildAddress. destruct GrpcCxxSupportsUDS; [|exact Ht]. apply wp_bind.
  assert (dwp (socket_path TempDir addr) w (λ _ w', w' = w)) as Hs.
  { unfold socket_path. destruct (HasPrefix addr "unix://").
    - destruct (Contains _ _); [by split|]. by destruct (SplitFile _).
    - destruct (HasPrefix addr "pipe://"); [|by split]. apply wp_call; [done..|]. by intros x. }
  eapply wp_mono; [exact Hs|]. cbv beta. intros [a|p] w' _ ->; [by split|]. destruct (_ && _); [by split|exact Ht].
Qed.

Definition new_client (r : res DepsScannerClient) (w : world) : Prop :=
  match r with
  | Ok c => client c = true ∧ capabilities c ≠ None ∧ (executable c ≠ "" → running c w ∧ live w = {[ch c]})
  | _ => True
  end.

Lemma connected_wp g c w :
  tracks c w → (executable c ≠ "" → live w = {[ch c]}) → serviceRestarted c = None →
  dwp (connected g c) w new_client.
Proof.
  intros Ht Hl Hs. pose proof (tracks_one _ _ Ht) as H1. split; [done|]. intros [e|r|[caps|e|]] w'; cbn [world_step].
  - intros [= <-]. apply wp_bind. destruct (executable c =? "")%string eqn:He.
    + unfold stopService. rewrite He. by repeat split.
    + apply String.eqb_neq in He. eapply wp_mono; [by apply stopService_wp|]. cbv beta. intros a w' H _. by split.
  - unfold reap. case_bool_decide; [|done]. intros [= <-]. apply wp_ret; [|done]. unfold one_service, tracks in *. simpl.
    replace (live w ∖ {[ch c]}) with (∅ : gset nat) by set_solver. rewrite size_empty. lia.
  - intros [= <-]. apply wp_ret; [done|]. simpl. split; [done|]. split; [done|]. intros He. split; [|by apply Hl].
    repeat split; simpl; [exact Ht|exact He|]. by rewrite Hs.
  - by intros [= <-].
  - by intros [= <-].
Qed.

Lemma launch_wp g c w :
  live w = ∅ → executable c = "" → serviceRestarted c = None →
  dwp (launch Environ LookupEnv GrpcCxxSupportsUDS TempDir g c) w (λ r w', match r with
    | Ok c' => tracks c' w' ∧ (executable c' ≠ "" → live w' = {[ch c']}) ∧ serviceRestarted c' = None | _ => True end).
Proof.
  intros Hl He Hs. assert (one_service w) as H1 by (unfold one_service; rewrite Hl, size_empty; lia).
  unfold launch. destruct (HasPrefix _ _).
  2:{ apply wp_ret; [done|]. split; [unfold tracks; set_solver|]. by split. }
  apply wp_bind. eapply wp_mono; [by apply buildAddress_wp|]. cbv beta. intros [addr|e|] w' _ ->; [|by split..].
  apply wp_bind. set (exe := str_drop 7 _). set (c1 := with_address c addr).
  pose proof (startService_wp Environ LookupEnv (with_process c1 (terminate c1) exe (ch c1)) w Hl) as Hst.
  change (executable (with_process c1 (terminate c1) exe (ch c1))) with exe in Hst.
  change (startService Environ LookupEnv exe (with_process c1 (terminate c1) exe (ch c1))) with
    (startService Environ LookupEnv exe c1) in Hst.
  eapply wp_mono; [exact Hst|]. cbv beta. intros [[[]|e|] c'] w' H' (_ & (_ & _ & E) & Ht & Hl'); [|by split|done].
  apply wp_ret; [done|]. split; [done|]. split; [by intros _|]. by rewrite E.
Qed.

(** A new client is connected and knows what the service can do, and when
    it started the service itself, the one process of it reports to the client:
    the client is one that can be restarted safely. *)
Theorem client_New_running g tr c w w' :
  live w = ∅ → exec (client_New Environ LookupEnv GrpcCxxSupportsUDS TempDir g) tr (Ok c) → steps world_step w tr = Some w' →
  client c = true ∧ capabilities c ≠ None ∧ (executable c ≠ "" → running c w' ∧ live w' = {[ch c]}).
Proof.
  intros Hl He Hs. enough (dwp (client_New Environ LookupEnv GrpcCxxSupportsUDS TempDir g) w new_client) as Hw
    by exact (proj2 (wp_exec _ _ _ _ _ _ _ Hw He) _ Hs).
  unfold client_New. apply wp_bind, wp_bind. eapply wp_mono; [by apply launch_wp|]. cbv beta.
  intros [c1|e|] w1 H1 H; [|split; [done|]; split; [done|]; by intros [] ? [= <-]|by split].
  destruct H as (Ht & Hl1 & Hs1). eapply wp_mono; [by apply connected_wp|]. cbv beta.
  intros [c2|e|] w2 H2 Hn; [by split| |by split]. split; [done|]. by intros [] ? [= <-].
Qed.

End new.

(** ** Requests *)

Lemma absDeps_abs directory deps : IsAbs directory = true → Forall (λ p, IsAbs p = true) (absDeps directory deps).
Proof.
  intros Hd. apply Forall_forall. intros p (q & _ & H)%list_elem_of_omap. destruct (q =? "")%string; [done|].
  injection H as <-. destruct (IsAbs q) eqn:E; [done|]. by apply IsAbs_Join2.
Qed.

(** A request changes nothing but when its time is over or the connection is
    lost; it is then that the service is restarted. *)
Lemma ProcessInputs_spec Environ LookupEnv Unavailable execID cmd filename directory env c tr r c' :
  client c = true →
  exec (ProcessInputs Environ LookupEnv Unavailable execID cmd filename directory env c) tr (r, c') →
  ∃ q a tr', tr = Event (Request q) a :: tr' ∧
    match a with
    | ReqResp resp =>
        tr' = [] ∧ c' = c ∧
        (resp_Error resp = "" → r = Ok (absDeps directory (resp_Dependencies resp), resp_UsedCache resp)) ∧
        (resp_Error resp ≠ "" → is_ok r = false)
    | ReqDone e => is_ok r = false ∧ (errors_Is e EDeadlineExceeded = false → tr' = [] ∧ c' = c)
    | ReqErr e => is_ok r = false ∧ (Unavailable e = false → tr' = [] ∧ c' = c)
    end.
Proof.
  intros Hc H. unfold ProcessInputs in H. rewrite Hc in H. cbn [negb] in H. apply exec_Call in H as (a & tr' & -> & H).
  eexists _, a, tr'. split; [done|].
  assert (∀ e, exec (fail e c : prog (res (list string * bool) * DepsScannerClient)) tr' (r, c') → is_ok r = false ∧ tr' = [] ∧ c' = c) as Hf
    by (intros e [-> [= -> ->]]; done).
  destruct a as [e|e|resp].
  - unfold request_done in H. destruct (errors_Is e EDeadlineExceeded); cbn [negb] in H; [|apply Hf in H; naive_solver].
    by apply exec_bind in H as ([[[]|?|] ?] & ? & ? & _ & _ & _ & [= -> _]).
  - unfold request_failed in H. destruct (Unavailable e); [|apply Hf in H; naive_solver].
    apply exec_Call in H as (d & t' & -> & H). split; [|done].
    destruct d as [e'|]; [by destruct (errors_Is _ _); destruct H as [_ [= -> _]]|].
    by apply exec_bind in H as ([[[]|?|] ?] & ? & ? & _ & _ & _ & [= -> _]).
  - destruct (String.eqb_spec (resp_Error resp) "") as [E|E]; cbn [negb] in H.
    + destruct H as [-> [= -> ->]]. done.
    + destruct H as [-> [= -> ->]]. done.
Qed.

(** ** On a concrete system *)

Module Concrete.

(** A system where a start ends with [start] and connecting with [conn]; all
    else succeeds, and a process ends when it is waited for. *)
Section sim.

Variables (start : option error) (conn : res CapabilitiesResponse).

Definition caps : CapabilitiesResponse := {| Caching := true; ExpectsResourceDir := false |}.

Definition sim (c : system_call) (w : world) : answer c * world :=
  match c as c return answer c * world with
  | Now => ((clock w + 1)%Z, {| live := live w; clock := clock w + 1 |})
  | Rand _ => (7%Z, w)
  | OpenPort => (Ok 8123%Z, w)
  | Remove _ => (None, w)
  | ExecuteInBackground _ _ _ n =>
      (start, match start with None => {| live := {[n]} ∪ live w; clock := clock w |} | Some _ => w end)
  | Terminate _ => (tt, w)
  | WaitExit n _ =>
      match reap w n with Some w' => (Some {| ExitCode := 0; r_Err := None |}, w') | None => (None, w) end
  | Shutdown _ => (None, w)
  | GetCapabilities _ => (Ok caps, w)
  | CtxErr => (None, w)
  | Sleep _ => (tt, w)
  | Request _ => (ReqDone EDeadlineExceeded, w)
  | RequestCtxErr => (None, w)
  | Connect _ _ _ => (ConnConnected conn, w)
  | Diagnostics => (tt, w)
  end.

Lemma sim_ok c w : world_step w (Event c (sim c w).1) = Some (sim c w).2.
Proof.
  destruct c; try reflexivity.
  - cbn [world_step sim fst snd]. destruct (Z.leb_spec (clock w) (clock w + 1)); [done|lia].
  - cbn [world_step sim]. by destruct (reap w ch0) eqn:E; cbn [fst snd].
Qed.

End sim.

Definition Environ : list string := ["HOME=/root"; "FLAGS_experimental_deadlock=x.cc"; "A=B=C"].
Definition LookupEnv (k : string) : option string :=
  if (k =? "HOME")%string then Some "/root"
  else if (k =? "FLAGS_experimental_deadlock")%string then Some "x.cc"
  else if (k =? "A=B")%string then Some "C" else None.

Definition cfg : config := {|
  cfg_cacheDir := "/tmp/cache"; cfg_cacheFileMaxMb := 256; cfg_useDepsCache := true; cfg_logDir := "/tmp/log";
  depsScannerAddress := "exec:///bin/scandeps"; proxyServerAddress := "unix:///tmp/reproxy.sock"; connTimeout := 30 * Second |}.

Definition w0 : world := {| live := ∅; clock := 100 |}.
Definition new_run := run (sim None (Ok caps)) (client_New Environ LookupEnv true "/tmp" cfg) w0.
Definition c0 : DepsScannerClient := {|
  terminate := 1; address := "unix:///tmp/depscan.sock"; executable := "/bin/scandeps"; cacheDir := "/tmp/cache";
  cacheFileMaxMb := 256; useDepsCache := true; logDir := "/tmp/log"; client := true; ch := 1;
  serviceRestarted := None; capabilities := Some caps |}.
Definition w1 : world := {| live := {[1]}; clock := 100 |}.

Lemma new_run_exec : exec (client_New Environ LookupEnv true "/tmp" cfg) new_run.1.2 new_run.1.1.
Proof. exact (run_exec (sim None (Ok caps)) (client_New Environ LookupEnv true "/tmp" cfg) w0). Qed.

Lemma new_run_steps : steps world_step w0 new_run.1.2 = Some new_run.2.
Proof. exact (run_steps world_step _ (sim_ok None (Ok caps)) (client_New Environ LookupEnv true "/tmp" cfg) w0). Qed.

Example new_client_made : new_run.1.1 = Ok c0 ∧ new_run.2 = w1.
Proof. split; vm_compute; reflexivity. Qed.

(** The command line and the variables that the service gets. *)
Example command_made :
  service_command Environ LookupEnv c0 = Ok (
    ["/bin/scandeps"; "--server_address"; "unix:///tmp/depscan.sock"; "--cache_dir"; "/tmp/cache";
     "--deps_cache_max_mb"; "256"; "--enable_deps_cache"; "--experimental_deadlock"; "x.cc"],
    {[ "HOME" := "/root"; "A=B" := "C"; "GLOG_log_dir" := "/tmp/log" ]}).
Proof. vm_compute. reflexivity. Qed.

Definition address_of (a : string) : res string := (run (sim None (Ok caps)) (buildAddress true "/tmp" a) w0).1.1.

(** The limit on the length of a socket's path holds for the paths that are
    made with a prefix, and not for those that have "reproxy" in them, the
    directories among them. *)
Example addresses :
  address_of "unix:///some/dir/somesocket.sock" = Ok "unix:///some/dir/ds_somesocket.sock" ∧
  address_of "pipe://pipename.pipe" = Ok "unix:///tmp/ds_7.sock" ∧
  address_of "127.0.0.1:8000" = Ok "127.0.0.1:8123" ∧
  address_of ("unix:///" +:+ Join (replicate 30 "abcd")) = Ok "127.0.0.1:8123" ∧
  address_of ("unix:///" +:+ Join (replicate 30 "abcd" ++ ["reproxy.sock"])) =
    Ok ("unix:///" +:+ Join (replicate 30 "abcd" ++ ["depscan.sock"])) ∧
  address_of "unix:///tmp/reproxy_1/reproxy.sock" = Ok "unix:///tmp/depscan_1/depscan.sock".
Proof. split_and!; vm_compute; reflexivity. Qed.

(** A connection that fails leaves the process running: [New] starts a second
    one, and neither is told to end or waited for. *)
Example connect_error_leaks :
  let r := run (sim None (Fail (EMsg "refused"))) (New Environ LookupEnv true "/tmp" cfg) w0 in
  is_ok r.1.1 = false ∧ starts r.1.2 = 2 ∧
  Forall (λ e, match ev_call e with Terminate _ | Shutdown _ | WaitExit _ _ => False | _ => True end) r.1.2.
Proof. vm_compute. split; [done|]. split; [done|]. repeat constructor. Qed.

Definition restart_run (start : option error) (t : Z) (c : DepsScannerClient) (w : world) :=
  run (sim start (Ok caps)) (restart_locked Environ LookupEnv (executable c) t c) w.

(** After a start that failed, a system that starts processes again does not
    help: the next restart gives up waiting for the end of the old one. *)
Example start_after_failed_start :
  let r1 := restart_run (Some (EMsg "no memory")) 100 c0 w1 in
  let r2 := restart_run None 101 r1.1.1.2 r1.2 in
  is_ok r1.1.1.1 = false ∧ is_ok r2.1.1.1 = false ∧ starts r2.1.2 = 0.
Proof. split_and!; vm_compute; reflexivity. Qed.

Lemma running_c0 : running c0 w1.
Proof. split; [unfold tracks; simpl; set_solver|]. done. Qed.

(** Two requests read the clock and then restart the service. *)
Definition s1 : sys := {| s_client := c0; s_world := w1; s_callers := [(100%Z, None)]; s_trace := [Event Now 100%Z] |}.

Definition restarted (s : sys) (i : nat) (t : Z) : sys :=
  let r := restart_run None t (s_client s) (s_world s) in
  {| s_client := r.1.1.2; s_world := r.2; s_callers := <[i := (t, Some r.1.1.1)]> (s_callers s);
     s_trace := s_trace s ++ r.1.2 |}.

Lemma sim_restart s i t :
  s_callers s !! i = Some (t, None) → sys_step Environ LookupEnv s (restarted s i t).
Proof.
  intros Hi. apply sys_restart; [done| |by apply run_steps, sim_ok]. rewrite <- surjective_pairing. apply run_exec.
Qed.

End Concrete.


Lemma callers_share_restart_witness :
  let r := run (Concrete.sim None (Ok Concrete.caps)) (serve_all Concrete.Environ Concrete.LookupEnv [100%Z; 99%Z; 100%Z] Concrete.c0)
    Concrete.w1 in
  ∃ rs, r.1.1.1 = Ok tt :: rs ∧ rs = replicate 2 (Ok tt) ∧ starts r.1.2 = 1.
Proof.
  set (r := run _ _ _). cbv zeta. exists [Ok tt; Ok tt]. split; [vm_compute; reflexivity|].
  apply (callers_share_restart Concrete.Environ Concrete.LookupEnv 100 [99; 100]%Z Concrete.c0 r.1.2 _ r.1.1.2).
  - assert ((Ok tt :: [Ok tt; Ok tt], r.1.1.2) = r.1.1) as -> by (rewrite (surjective_pairing r.1.1); f_equal; vm_compute; reflexivity).
    apply run_exec.
  - reflexivity.
  - assert (nows r.1.2 = [101%Z]) as -> by (vm_compute; reflexivity). intros t' ->%list_elem_of_singleton. repeat constructor; lia.
Defined.

Lemma findKeyVal_spec_witness :
  ∃ k v, findKeyVal "A=B=C" Concrete.LookupEnv = Ok (k, v) ∧ Concrete.LookupEnv k = Some v.
Proof.
  destruct (findKeyVal_spec Concrete.LookupEnv "A=B" "C") as (k & v & H & _ & Hl & _); [reflexivity|]. eauto.
Defined.

Lemma client_New_running_witness :
  running Concrete.c0 Concrete.w1 ∧ live Concrete.w1 = {[ch Concrete.c0]}.
Proof.
  destruct Concrete.new_client_made as [E1 E2].
  pose proof Concrete.new_run_exec as He. rewrite E1 in He. pose proof Concrete.new_run_steps as Hs. rewrite E2 in Hs.
  destruct (client_New_running Concrete.Environ Concrete.LookupEnv true "/tmp" Concrete.cfg _ Concrete.c0
    Concrete.w0 Concrete.w1 eq_refl He Hs) as (_ & _ & H). by apply H.
Defined.

End DepsScanner.
