(* ===== verification/DepsFile.v ===== *)
(** * Dependency files of actions: [internal/pkg/deps/parser.go]

    A local action whose results go to the remote cache records the digests of
    its headers next to the dependency file that the compiler writes; a cached
    result is used only when they are still the same. *)
From S2P Require Import Prelude GoStrings GoPath GoRegexp GoFS Command.
From Stdlib Require Import Ascii.
Import Filepath Regexp.

Module DepsFile.

Definition notFoundMarker : string := "NA".
Definition nl : string := String "010" "".

(** [\s*([^\s]+?):?\s+\\?] *)
Definition nonspace (a : ascii) : bool := negb (re_space a).
Definition dFileParser (s : string) : option (string * string) :=
  greedy re_space s (λ s1, one nonspace s1 (λ t, lazy nonspace t (λ s2,
    opt (re_char ":") s2 (λ s3, one re_space s3 (λ u, greedy re_space u (λ s4,
      opt (re_char "092") s4 (λ s5, Some (between s1 s2, s5)))))))).

(** [(.+?\/?.+)\s*] *)
Definition digest_group {A} (s3 : string) (k : string → string → option A) : option A :=
  one re_dot s3 (λ t, lazy re_dot t (λ u, opt (re_char "/") u (λ v, one re_dot v (λ x, greedy re_dot x (λ s4,
    greedy re_space s4 (λ s5, k (between s3 s4) s5)))))).

(** [\s*(.+?):(.+?\/?.+)\s*] *)
Definition depsFileParser (s : string) : option (string * string * string) :=
  greedy re_space s (λ s1, one re_dot s1 (λ t, lazy re_dot t (λ s2, one (re_char ":") s2 (λ s3,
    digest_group s3 (λ g s5, Some (between s1 s2, g, s5)))))).

(** [digest.Digest], and what the cache of file metadata says of a path: the
    digest, and the error if there is one; a missing file has
    [ENotExist]. *)
Class Digests := {
  digest : Type;
  digest_eq_dec : EqDecision digest;
  digest_String : digest → string;
  NewFromString : string → res digest
}.
#[export] Existing Instance digest_eq_dec.

Record Metadata `{Digests} := { md_Digest : digest; md_Err : option error }.

Record Parser := { p_ExecRoot : string; p_WorkingDir : string }.

Section parser.

Context `{Digests}.
Variable p : Parser.
Variable DigestStore_Get : string → Metadata.

Definition getRelPath (base path : string) : res string :=
  let? relPath := Rel base path in
  if HasPrefix relPath ".." then Fail (EMsg "path is not under the base") else Ok relPath.

(** The path of one match; those that are absolute and not under the working
    directory are skipped. *)
Definition dfile_dep (m : string) : option string :=
  if IsAbs m
  then match getRelPath (Join [p_ExecRoot p; p_WorkingDir p]) m with Ok r => Some r | _ => None end
  else Some m.

Definition readDFileDeps (w : fs) (dFilePath : string) : res (list string) :=
  let? buf := OS.ReadFile w (Join [p_ExecRoot p; dFilePath]) in
  match FindAll dFileParser buf with
  | _ :: ((_ :: _) as ms) => Ok (omap dfile_dep ms)
  | _ => Fail (EMsg "d file has wrong format")
  end.

Definition file_metadata (relPath : string) : Metadata :=
  DigestStore_Get (Join [p_ExecRoot p; p_WorkingDir p; relPath]).

Definition deps_line (name status : string) : string := name +:+ ":" +:+ status +:+ nl.

Definition dep_line (relPath : string) : option string :=
  let md := file_metadata relPath in
  match md_Err md with
  | None => Some (deps_line (Clean relPath) (digest_String (md_Digest md)))
  | Some ENotExist => Some (deps_line (Clean relPath) notFoundMarker)
  | Some _ => None
  end.

(** [addDep]: whether the file has a digest, and the set of lines. *)
Definition addDep (relPath : string) (deps : gset string) : bool * gset string :=
  (bool_decide (md_Err (file_metadata relPath) = None),
   match dep_line relPath with Some l => {[l]} ∪ deps | None => deps end).

Definition GetDeps (w : fs) (dFilePath : string) : res string :=
  let? dFileDeps := readDFileDeps w dFilePath in
  let deps := foldl (λ deps dep, (addDep dep deps).2) ∅ dFileDeps in
  Ok (GoStrings.Join (sort_Strings (elements deps)) "").

Definition deps_path (dFilePath : string) : string := Join [p_ExecRoot p; dFilePath +:+ ".deps"].

Definition WriteDepsFile (w : fs) (dFilePath : string) : res fs :=
  let? deps := GetDeps w dFilePath in OS.WriteFile w (deps_path dFilePath) deps.

(** The loop of [VerifyDepsFile]. *)
Fixpoint verify_matches (l : list (string * string)) : res bool :=
  match l with
  | [] => Ok true
  | (name, status) :: l =>
      let md := file_metadata name in
      if (status =? notFoundMarker)%string then
        if bool_decide (md_Err md = None) then Ok false else verify_matches l
      else
        let? dg := NewFromString status in
        if bool_decide (md_Digest md = dg) then verify_matches l else Ok false
  end.

Definition VerifyDepsFile (w : fs) (dFilePath : string) : res bool :=
  let? buf := OS.ReadFile w (deps_path dFilePath) in
  verify_matches (FindAll depsFileParser buf).

End parser.

(** ** Lines read back *)

(** A name that the expression can tell from the rest of its line, and the
    status of one. *)
Definition plain_name (n : string) : Prop :=
  n ≠ "" ∧ stops re_space n ∧ str_forallb (λ a, re_dot a && negb (re_char ":" a)) n = true.
Definition plain_status (st : string) : Prop := 2 ≤ String.length st ∧ str_forallb re_dot st = true.

Lemma digest_group_line {A} st rest (k : string → string → option A) r :
  plain_status st → stops re_space rest → k st rest = Some r →
  digest_group (st +:+ nl +:+ rest) k = Some r.
Proof.
  intros [Hl Hd] Hr Hk. unfold digest_group.
  set (K := λ v, one re_dot v (λ x, greedy re_dot x (λ s4, greedy re_space s4
    (λ s5, k (between (st +:+ nl +:+ rest) s4) s5)))).
  assert (∀ x y, re_dot x = true → str_forallb re_dot y = true → K (String x (y +:+ nl +:+ rest)) = Some r) as HK.
  { intros x y Hx Hy. unfold K, one. rewrite Hx. apply greedy_all; [done|done|].
    apply (greedy_all re_space nl rest); [done|done|]. by rewrite between_app. }
  destruct st as [|c [|e st]]; simpl in Hl; [lia|lia|]. simpl in Hd.
  apply andb_prop in Hd as [Hc [He Hst]%andb_prop]. change (String c (String e st) +:+ nl +:+ rest) with
    (String c (String e (st +:+ nl +:+ rest))). unfold one at 1. rewrite Hc. apply lazy_now.
  unfold opt. pose proof (HK e st He Hst) as H2. fold K.
  destruct (one (re_char "/") (String e (st +:+ nl +:+ rest)) K) as [r'|] eqn:E; [|exact H2].
  unfold one in E. destruct (re_char "/" e); [|done]. destruct st as [|x st]; [done|]. simpl in Hst.
  apply andb_prop in Hst as [Hx Hst]. rewrite <- E. apply (HK x st Hx Hst).
Qed.

Lemma depsFileParser_line n st rest :
  plain_name n → plain_status st → stops re_space rest →
  depsFileParser (deps_line n st +:+ rest) = Some ((n, st), rest).
Proof.
  intros (Hne & Hs & Hn) Hst Hr. unfold deps_line. rewrite !str_app_assoc.
  destruct n as [|a n]; [done|]. cbn [str_forallb] in Hn. apply andb_prop in Hn as [[Ha _]%andb_prop Hn].
  change (String a n +:+ ":" +:+ st +:+ nl +:+ rest) with (String a (n +:+ String ":" (st +:+ nl +:+ rest))).
  unfold depsFileParser. apply (greedy_all re_space "" (String a _)); [done|exact Hs|].
  unfold one at 1. rewrite Ha. apply lazy_first.
  - eapply str_forallb_impl; [|exact Hn]. by intros b [? _]%andb_prop.
  - intros u1 [|b u2] -> Hu; [done|]. rewrite str_forallb_app in Hn. apply andb_prop in Hn as [_ Hn].
    cbn [str_forallb] in Hn. apply andb_prop in Hn as [[_ Hb]%andb_prop _].
    change (String b u2 +:+ ?v) with (String b (u2 +:+ v)). unfold one. apply negb_true_iff in Hb. by rewrite Hb.
  - unfold one at 1. change (re_char ":" ":") with true. cbv iota.
    apply digest_group_line; [done|done|]. change (String a (n +:+ ?v)) with (String a n +:+ v). by rewrite between_app.
Qed.

Definition line_of (x : string * string) : string := deps_line x.1 x.2.
Definition plain_entry (x : string * string) : Prop := plain_name x.1 ∧ plain_status x.2.

Lemma line_of_inj x y : plain_entry x → plain_entry y → line_of x = line_of y → x = y.
Proof.
  intros [H1 H2] [H3 H4] E. pose proof (depsFileParser_line _ _ "" H1 H2 I) as P1.
  pose proof (depsFileParser_line _ _ "" H3 H4 I) as P2. change (deps_line x.1 x.2) with (line_of x) in P1.
  change (deps_line y.1 y.2) with (line_of y) in P2. rewrite E, P2 in P1. injection P1 as ? ?.
  destruct x, y; simpl in *; congruence.
Qed.

Lemma FindAll_lines l :
  Forall plain_entry l → FindAll depsFileParser (GoStrings.Join (line_of <$> l) "") = l.
Proof.
  intros H. unfold FindAll.
  enough (∀ n, String.length (GoStrings.Join (line_of <$> l) "") ≤ n →
    matches n depsFileParser (GoStrings.Join (line_of <$> l) "") = l) as He by by apply He.
  assert (∀ x l, GoStrings.Join (line_of <$> (x :: l)) "" = line_of x +:+ GoStrings.Join (line_of <$> l) "") as Hj.
  { intros x [|y l']; simpl; [by rewrite str_app_nil_r|done]. }
  induction H as [|x l [Hx1 Hx2] Hl IH]; intros n Hn; [by destruct n|]. rewrite Hj in *.
  assert (String.length (line_of x) > 0) as Hpos.
  { unfold line_of, deps_line. destruct Hx1 as [Hne _]. destruct x.1; [done|]. simpl. lia. }
  rewrite str_app_length in Hn. destruct n as [|n]; [lia|]. cbn [matches].
  assert (stops re_space (GoStrings.Join (line_of <$> l) "")) as Hr.
  { destruct Hl as [|y l [Hy _] _]; [done|]. rewrite Hj. unfold line_of, deps_line. destruct Hy as (Hne & Hs & _).
    destruct y.1; [done|exact Hs]. }
  change (line_of x) with (deps_line x.1 x.2). rewrite (search_now _ _ _ (depsFileParser_line x.1 x.2 _ Hx1 Hx2 Hr)). rewrite IH by lia. by destruct x.
Qed.

(** ** What verification finds *)

Section verify.

Context `{Digests}.
Variable p : Parser.
(** What the cache of metadata says when the file is written, and later. *)
Variables before after : string → Metadata.

(** The assumptions on digests: they are printed on one line, differ from the
    marker and are read back. *)
Context (H_print : ∀ d, plain_status (digest_String d) ∧ digest_String d ≠ notFoundMarker).
Context (H_read : ∀ d, NewFromString (digest_String d) = Ok d).

(** A dependency that had a digest has it still, and one that was missing is
    missing still; nothing is recorded of one that could not be read. *)
Definition unchanged (relPath : string) : Prop :=
  let m1 := file_metadata p before relPath in
  let m2 := file_metadata p after relPath in
  match md_Err m1 with
  | None => md_Digest m2 = md_Digest m1
  | Some ENotExist => md_Err m2 ≠ None
  | Some _ => True
  end.

(** The entry of a dependency. *)
Definition dep_entry (relPath : string) : option (string * string) :=
  let md := file_metadata p before relPath in
  match md_Err md with
  | None => Some (Clean relPath, digest_String (md_Digest md))
  | Some ENotExist => Some (Clean relPath, notFoundMarker)
  | Some _ => None
  end.

Lemma dep_line_entry d : dep_line p before d = line_of <$> dep_entry d.
Proof. unfold dep_line, dep_entry. destruct (md_Err _) as [[]|]; done. Qed.

Lemma addDep_lines deps acc l :
  l ∈ foldl (λ deps dep, (addDep p before dep deps).2) acc deps ↔
  l ∈ acc ∨ ∃ d x, d ∈ deps ∧ dep_entry d = Some x ∧ l = line_of x.
Proof.
  revert acc. induction deps as [|d deps IH]; intros acc; simpl; [set_solver|]. rewrite IH, dep_line_entry.
  setoid_rewrite elem_of_cons. destruct (dep_entry d) as [x|] eqn:E; simpl.
  - rewrite elem_of_union, elem_of_singleton. split.
    + intros [[->|?]|(d' & y & ? & ? & ->)]; [right; exists d, x; auto|by left|right; exists d', y; auto].
    + intros [?|(d' & y & [->|?] & Ey & ->)]; [auto|left; left; congruence|right; exists d', y; auto].
  - split; [intros [?|(d' & y & ? & ? & ->)]; [by left|right; exists d', y; auto]|].
    intros [?|(d' & y & [->|?] & Ey & ->)]; [by left|congruence|right; exists d', y; auto].
Qed.

Lemma Forall_entries (P : string * string → Prop) ls :
  Forall (λ l, ∃ x, P x ∧ l = line_of x) ls → ∃ xs, ls = line_of <$> xs ∧ Forall P xs.
Proof.
  induction 1 as [|l ls (x & Hx & ->) _ (xs & -> & Hxs)]; [by exists []|]. exists (x :: xs). by split; [|constructor].
Qed.

Lemma dep_entry_plain d x : plain_name (Clean d) → dep_entry d = Some x → plain_entry x.
Proof.
  intros Hd. unfold dep_entry. destruct (md_Err _) as [[]|]; intros [= <-]; (split; [done|]); [|apply H_print].
  split; [simpl; lia|reflexivity].
Qed.

(** The entries that are written. *)
Lemma GetDeps_entries w dFile deps :
  readDFileDeps p w dFile = Ok deps → Forall (λ d, plain_name (Clean d)) deps →
  ∃ xs, GetDeps p before w dFile = Ok (GoStrings.Join (line_of <$> xs) "") ∧ Forall plain_entry xs ∧
    ∀ x, x ∈ xs ↔ ∃ d, d ∈ deps ∧ dep_entry d = Some x.
Proof.
  intros Hr Hp. unfold GetDeps. rewrite Hr. cbn [mbind res_bind].
  set (S := foldl _ _ _). rewrite Forall_forall in Hp.
  assert (∀ l, l ∈ sort_Strings (elements S) ↔ ∃ d x, d ∈ deps ∧ dep_entry d = Some x ∧ l = line_of x) as Hl.
  { intros l. rewrite sort_Strings_perm, elem_of_elements. subst S. rewrite addDep_lines. set_solver. }
  destruct (Forall_entries (λ x, plain_entry x ∧ ∃ d, d ∈ deps ∧ dep_entry d = Some x) (sort_Strings (elements S)))
    as (xs & E & Hxs).
  { apply Forall_forall. intros l (d & x & Hd & Hx & ->)%Hl. exists x. split; [|done].
    split; [by eapply dep_entry_plain; [apply Hp|]|by exists d]. }
  exists xs. rewrite E. split; [done|]. rewrite Forall_forall in Hxs. split; [apply Forall_forall; by intros x Hx; apply Hxs|].
  intros x. split; [by intros Hx; apply Hxs|]. intros (d & Hd & Hx).
  assert (line_of x ∈ sort_Strings (elements S)) as Hin by (apply Hl; by exists d, x). rewrite E in Hin.
  apply list_elem_of_fmap in Hin as (y & Ey & Hy). rewrite (line_of_inj x y); [done| |by apply Hxs|done].
  by eapply dep_entry_plain; [apply Hp|].
Qed.

(** The answer is that of the entries. *)
Definition entry_ok (x : string * string) : Prop :=
  let md := file_metadata p after x.1 in
  if (x.2 =? notFoundMarker)%string then md_Err md ≠ None else NewFromString x.2 = Ok (md_Digest md).

Lemma verify_entries xs :
  Forall (λ x, x.2 = notFoundMarker ∨ is_ok (NewFromString x.2) = true) xs →
  ∃ b, verify_matches p after xs = Ok b ∧ (b = true ↔ Forall entry_ok xs).
Proof.
  induction 1 as [|[n st] xs Hx _ (b & E & Hb)]; cbn [verify_matches]; [by exists true|].
  setoid_rewrite Forall_cons. unfold entry_ok at 1. simpl.
  destruct (String.eqb_spec st notFoundMarker) as [->|Hne].
  - case_bool_decide as He; [exists false; split; [done|]; naive_solver|]. exists b. split; [done|]. naive_solver.
  - simpl in Hx. destruct Hx as [?|Hx]; [done|]. destruct (NewFromString st) as [dg|e|]; [|done..]. cbn [mbind res_bind].
    case_bool_decide as He.
    + exists b. split; [done|]. rewrite Hb. split; [intros Hall; split; [|exact Hall]|by intros [_ ?]]. simpl. by f_equal.
    + exists false. split; [done|]. split; [done|]. intros [[= ->] _]. done.
Qed.

(** C20: verifying a recorded dependency file tells whether the dependencies are
    as they were: whatever the file system is by then, as long as it holds the
    file that was written, the answer is yes exactly when every dependency that
    had a digest has the same one and every one that was missing is missing.
    The names may hold neither a colon nor white space. *)
Theorem VerifyDepsFile_spec w w' w2 dFile deps :
  IsAbs (p_ExecRoot p) = true → readDFileDeps p w dFile = Ok deps →
  Forall (λ d, IsAbs d = false ∧ plain_name (Clean d)) deps →
  WriteDepsFile p before w dFile = Ok w' →
  OS.ReadFile w2 (deps_path p dFile) = OS.ReadFile w' (deps_path p dFile) →
  ∃ b, VerifyDepsFile p after w2 dFile = Ok b ∧ (b = true ↔ Forall unchanged deps).
Proof.
  intros He Hr Hd Hw E2.
  destruct (GetDeps_entries w dFile deps Hr) as (xs & Eg & Hp & Hx); [eapply Forall_impl; [exact Hd|]; by intros ? []|].
  unfold WriteDepsFile in Hw. rewrite Eg in Hw. cbn [mbind res_bind] in Hw. apply OS.WriteFile_ReadFile in Hw.
  unfold VerifyDepsFile. rewrite E2, Hw. cbn [mbind res_bind]. rewrite FindAll_lines by done.
  assert (∀ d x, dep_entry d = Some x → x.1 = Clean d ∧
    (x.2 = notFoundMarker ∨ x.2 ≠ notFoundMarker ∧ x.2 = digest_String (md_Digest (file_metadata p before d)))) as Hde.
  { intros d x. unfold dep_entry. destruct (md_Err _) as [[]|]; intros [= <-]; (split; [done|]); [by left|].
    right. split; [apply H_print|done]. }
  destruct (verify_entries xs) as (b & Eb & Hb).
  { apply Forall_forall. intros x (d & _ & Ed)%Hx. destruct (Hde d x Ed) as [_ [?|[_ ->]]]; [by left|]. right. by rewrite H_read. }
  exists b. split; [done|]. rewrite Hb, !Forall_forall. rewrite Forall_forall in Hd.
  assert (∀ d x, d ∈ deps → dep_entry d = Some x → entry_ok x ↔ unchanged d) as Hok.
  { intros d x Hin Ed. destruct (Hd d Hin) as [Hrel _]. unfold entry_ok, unchanged, file_metadata.
    destruct (Hde d x Ed) as [-> _]. rewrite Join3_Clean by done. unfold dep_entry, file_metadata in Ed.
    set (D := md_Digest (before (Join [p_ExecRoot p; p_WorkingDir p; d]))) in *.
    destruct (md_Err (before _)) as [[]|]; try done; injection Ed as <-; cbn [snd]; [by rewrite String.eqb_refl|].
    destruct (H_print D) as [_ Hne]. apply String.eqb_neq in Hne as ->. rewrite H_read. clear. split; [by intros [= ->]|by intros ->]. }
  split; [intros Hall d Hin|intros Hall x (d & Hin & Ed)%Hx; by apply (Hok d), Hall].
  destruct (dep_entry d) as [x|] eqn:Ed; [by apply (Hok d x), Hall, Hx; eauto|].
  unfold dep_entry in Ed. unfold unchanged. destruct (md_Err _) as [[]|]; done.
Qed.

End verify.

(** ** On concrete files *)

Module Concrete.

(** Two digests. *)
#[export] Instance two_digests : Digests := {|
  digest := bool;
  digest_String b := if b then "2f13aef4/140" else "77aa1c0e/9";
  NewFromString s :=
    if (s =? "2f13aef4/140")%string then Ok true
    else if (s =? "77aa1c0e/9")%string then Ok false else Fail (EMsg "invalid digest")
|}.

Definition parser : Parser := {| p_ExecRoot := "/r"; p_WorkingDir := "out" |}.
Definition store (a : bool) (path : string) : Metadata :=
  if (path =? "/r/out/gen/a.h")%string then {| md_Digest := a; md_Err := None |}
  else {| md_Digest := false; md_Err := Some ENotExist |}.
Definition dfile (content : string) : fs := {[ "/r" := NDir; "/r/a.d" := NFile content 0 ]}.

(** A line continuation, a path under the working directory given as an
    absolute one, one outside of it and a file that is missing. *)
Definition content : string :=
  "a.o: gen/a.h \" +:+ nl +:+ " /r/out/gen/a.h /usr/include/stdio.h no.h" +:+ nl.
Definition content_deps : list string := ["gen/a.h"; "gen/a.h"; "no.h"].

Example content_read : readDFileDeps parser (dfile content) "a.d" = Ok content_deps.
Proof. vm_compute. reflexivity. Qed.

(** The last name of a file that does not end in white space is lost. *)
Example last_name_lost : readDFileDeps parser (dfile "a.o: x.h y.h") "a.d" = Ok ["x.h"].
Proof. vm_compute. reflexivity. Qed.

(** A target alone is a format error. *)
Example target_alone : readDFileDeps parser (dfile ("a.o:" +:+ nl)) "a.d" = Fail (EMsg "d file has wrong format").
Proof. vm_compute. reflexivity. Qed.

(** A colon in a name is taken for the end of it: a file that was just written
    cannot be verified. *)
Example colon_in_name :
  (let? w := WriteDepsFile parser (store true) (dfile ("a.o: c:x.h" +:+ nl)) "a.d" in
   VerifyDepsFile parser (store true) w "a.d") = Fail (EMsg "invalid digest").
Proof. vm_compute. reflexivity. Qed.

Example written : ∃ w, WriteDepsFile parser (store true) (dfile content) "a.d" = Ok w ∧
  OS.ReadFile w "/r/a.d.deps" = Ok ("gen/a.h:2f13aef4/140" +:+ nl +:+ "no.h:NA" +:+ nl).
Proof. eexists. split; vm_compute; reflexivity. Qed.

End Concrete.

Lemma VerifyDepsFile_spec_witness :
  ∃ w' b, WriteDepsFile Concrete.parser (Concrete.store true) (Concrete.dfile Concrete.content) "a.d" = Ok w' ∧
    VerifyDepsFile Concrete.parser (Concrete.store false) w' "a.d" = Ok b ∧
    (b = true ↔ Forall (unchanged Concrete.parser (Concrete.store true) (Concrete.store false)) Concrete.content_deps).
Proof.
  destruct (WriteDepsFile Concrete.parser (Concrete.store true) (Concrete.dfile Concrete.content) "a.d") as [w'|e|] eqn:E;
    [|vm_compute in E; discriminate E|vm_compute in E; discriminate E].
  destruct (VerifyDepsFile_spec Concrete.parser (Concrete.store true) (Concrete.store false)) with
    (w := Concrete.dfile Concrete.content) (w' := w') (w2 := w') (dFile := "a.d") (deps := Concrete.content_deps)
    as (b & ? & ?).
  - intros [|]; (split; [split; [vm_compute; lia|reflexivity]|discriminate]).
  - intros [|]; reflexivity.
  - reflexivity.
  - vm_compute. reflexivity.
  - repeat constructor; discriminate.
  - exact E.
  - reflexivity.
  - exists w', b. auto.
Defined.

End DepsFile.
