(* ===== verification/Stash.v ===== *)
(** * Stashing in-out files: [internal/pkg/reproxy/stash.go]

    Before an action runs a second time, the files that are both inputs and
    outputs are copied aside; the returned function moves the copies back. *)
From S2P Require Import Prelude GoStrings GoPath GoFS.
Import OS.

Module Stash.

Section Stash.

(** The path of the [i]-th copy: a fresh UUID in the temporary directory. *)
Variable dest : nat → string.

(** The file system, the map [newFiles], and the number of UUIDs used. *)
Record stash := { st_fs : fs; newFiles : gmap string string; used : nat }.

(** One round of the loop; every failed step continues with the next file. *)
Definition stash_step (st : stash) (srcPath : string) : stash :=
  let f := st_fs st in
  match Stat f srcPath with
  | Ok source =>
      let destPath := dest (used st) in
      match Create f destPath with
      | Ok f1 =>
          let failed := {| st_fs := f1; newFiles := newFiles st; used := S (used st) |} in
          match source with
          | NDir => failed
          | NFile content _ =>
              match Write f1 destPath content with
              | Ok f2 =>
                  match Stat f2 srcPath with
                  | Ok si =>
                      match Chmod f2 destPath (Mode si) with
                      | Ok f3 => {| st_fs := f3; newFiles := <[destPath := srcPath]> (newFiles st); used := S (used st) |}
                      | _ => {| st_fs := f2; newFiles := newFiles st; used := S (used st) |}
                      end
                  | _ => {| st_fs := f2; newFiles := newFiles st; used := S (used st) |}
                  end
              | _ => failed
              end
          end
      | _ => {| st_fs := f; newFiles := newFiles st; used := S (used st) |}
      end
  | _ => st
  end.

Definition StashFiles (f : fs) (paths : list string) : stash :=
  foldl stash_step {| st_fs := f; newFiles := ∅; used := 0 |} paths.

(** The returned function, for an order [order] in which it ranges over
    [newFiles]; errors of [Rename] are dropped. *)
Definition restore_step (f : fs) (kv : string * string) : fs :=
  match Rename f kv.1 kv.2 with Ok f' => f' | _ => f end.

Definition restoreFn (order : list (string * string)) (f : fs) : fs := foldl restore_step f order.

(** ** The copies are faithful *)

Context (f0 : fs) (paths : list string).
Hypothesis dest_inj : ∀ i j, dest i = dest j → i = j.
Hypothesis dest_fresh : ∀ i, f0 !! dest i = None.
Hypothesis dest_path : ∀ i, dest i ≠ "/" ∧ dest i ∉ paths.
Hypothesis dest_dir : ∀ i, is_dir f0 (Filepath.Dir (dest i)) = true.

(** A regular file that can be stashed. *)
Definition regular (p : string) : Prop := p ≠ "/" ∧ ∃ c m, f0 !! p = Some (NFile c m).

Record good (st : stash) (done : list string) : Prop := {
  good_new d p : newFiles st !! d = Some p →
    p ∈ done ∧ (∃ i, i < used st ∧ d = dest i) ∧ regular p ∧ st_fs st !! d = f0 !! p;
  good_all p : p ∈ done → regular p → ∃ d, newFiles st !! d = Some p;
  good_frame q : (∀ i, i < used st → q ≠ dest i) → st_fs st !! q = f0 !! q;
  good_file i : i < used st → ∃ c m, st_fs st !! dest i = Some (NFile c m)
}.

Lemma is_dir_file (f : fs) p c m : p ≠ "/" → f !! p = Some (NFile c m) → is_dir f p = false.
Proof. intros H1 H2. unfold is_dir. rewrite bool_decide_false by done. rewrite H2. by rewrite bool_decide_false. Qed.

Lemma good_dir st done p :
  good st done → is_dir f0 p = true → is_dir (st_fs st) p = true.
Proof.
  intros Hg. unfold is_dir. rewrite !orb_true_iff, !bool_decide_eq_true. intros [->|Hp]; [by left|right].
  rewrite (good_frame _ _ Hg); [done|]. intros i _ ->. by rewrite dest_fresh in Hp.
Qed.

Lemma good_skip st done p : good st done → ¬ regular p → good st (done ++ [p]).
Proof.
  intros [H1 H2 H3 H4] Hp. split; [| |done..].
  - intros d q Hd. destruct (H1 d q Hd) as (? & ? & ? & ?). split_and!; [set_solver|done..].
  - intros q [Hq| ->%list_elem_of_singleton]%elem_of_app Hr; [by apply H2|done].
Qed.

(** The state after the copy number [used st] has been written. *)
Definition written (st : stash) (p : string) (n : node) (new : gmap string string) : stash :=
  {| st_fs := <[dest (used st) := n]> (st_fs st); newFiles := new; used := S (used st) |}.

Lemma good_written st done p c m new :
  good st done →
  (new = newFiles st ∧ ¬ regular p ∨
   new = <[dest (used st) := p]> (newFiles st) ∧ regular p ∧ f0 !! p = Some (NFile c m)) →
  good (written st p (NFile c m) new) (done ++ [p]).
Proof.
  intros [H1 H2 H3 H4] Hnew.
  assert (∀ i, i < used st → dest i ≠ dest (used st)) as Hne by (intros i Hi E%dest_inj; lia).
  split; simpl.
  - intros d q Hd.
    assert (newFiles st !! d = Some q ∨ (d = dest (used st) ∧ q = p ∧ regular p ∧ f0 !! p = Some (NFile c m))) as Hcase.
    { destruct Hnew as [[-> _]|(-> & Hr & Hf)]; [by left|].
      apply lookup_insert_Some in Hd as [[<- <-]|[_ Hd]]; [by right|by left]. }
    destruct Hcase as [Hold|(-> & -> & Hr & Hf)].
    + destruct (H1 d q Hold) as (Ha & (i & Hi & ->) & Hr & Hf). split_and!; [set_solver|exists i; split; [lia|done]|done|].
      by rewrite lookup_insert_ne by (apply not_eq_sym; by apply Hne).
    + split_and!; [set_solver|exists (used st); split; [lia|done]|done|]. by rewrite lookup_insert_eq.
  - intros q [Hq|Hq%list_elem_of_singleton]%elem_of_app Hr.
    + destruct (H2 q Hq Hr) as [d Hd]. exists d. destruct Hnew as [[-> _]|(-> & _)]; [done|].
      rewrite lookup_insert_ne; [done|]. intros <-. destruct (H1 _ _ Hd) as (_ & (i & Hi & E%dest_inj) & _). lia.
    + subst q. destruct Hnew as [[_ Hn]|(-> & _)]; [done|]. exists (dest (used st)). apply lookup_insert_eq.
  - intros q Hq. rewrite lookup_insert_ne by (apply not_eq_sym, Hq; lia). apply H3. intros i Hi. apply Hq. lia.
  - intros i Hi. destruct (decide (i = used st)) as [->|Hi'].
    + rewrite lookup_insert_eq. eauto.
    + rewrite lookup_insert_ne by (apply not_eq_sym, Hne; lia). apply H4. lia.
Qed.

Lemma Create_dest st done : good st done →
  Create (st_fs st) (dest (used st)) = Ok (<[dest (used st) := NFile "" 438]> (st_fs st)).
Proof.
  intros Hg. pose proof (good_frame _ _ Hg (dest (used st)) ltac:(intros i Hi E%dest_inj; lia)) as Hn.
  rewrite dest_fresh in Hn. destruct (dest_path (used st)) as [Hs _]. unfold Create, is_dir.
  rewrite bool_decide_false by done. rewrite Hn, bool_decide_false by done. simpl.
  fold (is_dir (st_fs st) (Filepath.Dir (dest (used st)))). by rewrite (good_dir _ _ _ Hg (dest_dir _)).
Qed.

Lemma Stat_file (f : fs) p n : p ≠ "/" → f !! p = Some n → Stat f p = Ok n.
Proof.
  intros Hp Hf. unfold Stat, is_dir. rewrite bool_decide_false by done. rewrite Hf. simpl.
  case_bool_decide as Hb; [by injection Hb as ->|done].
Qed.

Lemma stash_step_good st done p : p ∈ paths → good st done → good (stash_step st p) (done ++ [p]).
Proof.
  intros Hp Hg. assert (st_fs st !! p = f0 !! p) as Hfp.
  { apply (good_frame _ _ Hg). intros i _ ->. by destruct (dest_path i). }
  unfold stash_step. destruct (Stat (st_fs st) p) as [source|e|] eqn:Hst; cycle 1.
  { apply good_skip; [done|]. intros [Hs (c & m & Hc)]. rewrite <- Hfp in Hc.
    by rewrite (Stat_file _ _ _ Hs Hc) in Hst. }
  { apply good_skip; [done|]. intros [Hs (c & m & Hc)]. rewrite <- Hfp in Hc.
    by rewrite (Stat_file _ _ _ Hs Hc) in Hst. }
  rewrite (Create_dest _ _ Hg). destruct source as [c m|].
  - assert (p ≠ "/" ∧ st_fs st !! p = Some (NFile c m)) as [Hs Hc].
    { unfold Stat, is_dir in Hst. case_bool_decide; simpl in Hst; [by injection Hst|].
      case_bool_decide; [by injection Hst|]. split; [done|]. destruct (st_fs st !! p); simpl in Hst; congruence. }
    unfold Write. rewrite lookup_insert_eq, insert_insert_eq.
    assert (dest (used st) ≠ p) as Hdp by (intros <-; by destruct (dest_path (used st))).
    rewrite (Stat_file _ p (NFile c m)) by (try done; by rewrite lookup_insert_ne).
    unfold Chmod. rewrite lookup_insert_eq, insert_insert_eq. simpl.
    rewrite Hfp in Hc. apply (good_written _ _ _ c m); [done|right]. split; [done|]. split; [|done].
    split; [done|eauto].
  - apply (good_written _ _ _ "" 438); [done|left]. split; [done|]. intros [Hs (c & m & Hc)].
    rewrite <- Hfp in Hc. rewrite (Stat_file _ _ _ Hs Hc) in Hst. discriminate Hst.
Qed.

Lemma StashFiles_good : good (StashFiles f0 paths) paths.
Proof.
  unfold StashFiles.
  assert (∀ l done st, l ⊆ paths → good st done → good (foldl stash_step st l) (done ++ l)) as Hl.
  { induction l as [|p l IH]; intros done st Hsub Hg; simpl; [by rewrite app_nil_r|].
    rewrite (app_assoc done [p] l : done ++ p :: l = (done ++ [p]) ++ l). apply IH; [set_solver|].
    apply stash_step_good; [set_solver|done]. }
  apply (Hl paths []); [done|]. split; simpl; try done.
  - intros p Hp. by apply elem_of_nil in Hp.
  - intros i Hi. lia.
Qed.

(** ** Restoring *)

(** The state after the action ran: the copies are intact, and the originals
    can be written again. *)
Record restorable (order : list (string * string)) (g : fs) : Prop := {
  res_copy d p : (d, p) ∈ order → g !! d = f0 !! p;
  res_dir d p : (d, p) ∈ order → is_dir g (Filepath.Dir p) = true;
  res_file d p : (d, p) ∈ order → is_dir g p = false
}.

Lemma is_dir_step (g : fs) d c m s c' m' p :
  g !! d = Some (NFile c m) → is_dir g s = false →
  is_dir (<[s := NFile c' m']> (delete d g)) p = is_dir g p.
Proof.
  intros Hd Hs. unfold is_dir in *. f_equal. apply bool_decide_ext.
  destruct (decide (s = p)) as [<-|Hsp].
  - rewrite lookup_insert_eq. split; [done|]. apply orb_false_iff in Hs as [_ Hs].
    by rewrite bool_decide_eq_false in Hs.
  - rewrite lookup_insert_ne by done. destruct (decide (d = p)) as [<-|Hdp].
    + rewrite lookup_delete_eq, Hd. done.
    + by rewrite lookup_delete_ne.
Qed.

(** The entries of [newFiles]: copies of regular files under fresh names. *)
Definition copies (order : list (string * string)) : Prop :=
  NoDup order.*1 ∧ ∀ d p, (d, p) ∈ order → regular p ∧ p ∈ paths ∧ ∃ i, d = dest i.

Lemma restore_one d p order g :
  copies ((d, p) :: order) → restorable ((d, p) :: order) g →
  ∃ c m, f0 !! p = Some (NFile c m) ∧ restore_step g (d, p) = <[p := NFile c m]> (delete d g) ∧
    copies order ∧ restorable order (<[p := NFile c m]> (delete d g)).
Proof.
  intros [Hnd Hc] Hg. destruct (Hc d p ltac:(left)) as ((Hroot & c & m & Hcm) & Hpp & i & ->).
  assert (g !! dest i = Some (NFile c m)) as Hcopy by (rewrite <- Hcm; apply (res_copy _ _ Hg); left).
  assert (is_dir g p = false) as Hf by (apply (res_file _ _ Hg (dest i)); left).
  assert (is_dir g (Filepath.Dir p) = true) as Hdir by (apply (res_dir _ _ Hg (dest i)); left).
  exists c, m. split; [done|]. split; [unfold restore_step; simpl; by rewrite (Rename_file _ _ _ c m)|].
  apply NoDup_cons in Hnd as [Hd Hnd].
  split; [split; [done|intros e q He; apply Hc; by right]|].
  split; intros e q He.
  - assert (e ≠ dest i) as Hne by (intros ->; apply Hd, list_elem_of_fmap; by exists (dest i, q)).
    assert (e ≠ p) as Hep.
    { intros ->. destruct (Hc p q ltac:(by right)) as (_ & _ & j & ->). by destruct (dest_path j). }
    rewrite lookup_insert_ne, lookup_delete_ne by done. apply (res_copy _ _ Hg). by right.
  - rewrite (is_dir_step _ _ c m) by done. eapply (res_dir _ _ Hg). by right.
  - rewrite (is_dir_step _ _ c m) by done. eapply (res_file _ _ Hg). by right.
Qed.

Lemma restore_all order g :
  copies order → restorable order g →
  (∀ p, p ∈ order.*2 → restoreFn order g !! p = f0 !! p) ∧
  (∀ p, p ∉ order.*2 → p ∉ order.*1 → restoreFn order g !! p = g !! p).
Proof.
  revert g. induction order as [|[d p] order IH]; intros g Hc Hg.
  { split; [intros p Hp; by apply elem_of_nil in Hp|done]. }
  destruct (restore_one _ _ _ _ Hc Hg) as (c & m & Hcm & Hstep & Hc' & Hg').
  change (restoreFn ((d, p) :: order) g) with (restoreFn order (restore_step g (d, p))). rewrite Hstep.
  destruct (IH _ Hc' Hg') as [IH1 IH2]. simpl. split.
  - intros q Hq. destruct (decide (q ∈ order.*2)) as [Hin|Hin]; [by apply IH1|].
    apply elem_of_cons in Hq as [->|Hq]; [|done].
    rewrite IH2; [by rewrite lookup_insert_eq|done|]. intros ([e q] & He & Heq)%list_elem_of_fmap.
    simpl in He. subst e. destruct (proj2 Hc' p q Heq) as (_ & _ & j & ->).
    destruct Hc as [_ Hc]. destruct (Hc d (dest j) ltac:(left)) as (_ & Hj & _). by destruct (dest_path j).
  - intros q Hq1 Hq2. rewrite not_elem_of_cons in Hq1, Hq2. destruct Hq1, Hq2.
    by rewrite IH2, lookup_insert_ne, lookup_delete_ne by done.
Qed.

Lemma newFiles_copies order :
  order ≡ₚ map_to_list (newFiles (StashFiles f0 paths)) → copies order.
Proof.
  intros Hp. pose proof StashFiles_good as Hg. split.
  - rewrite Hp. apply NoDup_fst_map_to_list.
  - intros d p. rewrite Hp, elem_of_map_to_list. intros Hd.
    destruct (good_new _ _ Hg _ _ Hd) as (? & (i & _ & ?) & ? & ?). eauto.
Qed.


End Stash.

(** ** Stashing again and again

    Reruns stash and restore the same files several times, each time with fresh
    copies. *)
Section Repeated.

(** The paths of the copies of stash number [k], the files that are stashed, and
    the files of the machine before the first. *)
Variables (names : nat → nat → string) (L : list string) (d0 : fs).
Hypothesis names_inj : ∀ k i k' i', names k i = names k' i' → k = k' ∧ i = i'.
Hypothesis names_path : ∀ k i, names k i ≠ "/" ∧ names k i ∉ L.

Definition stashed (k : nat) (g : fs) : stash := StashFiles (names k) g L.

(** Where a file is, its directory is. *)
Definition parents (f : fs) : Prop := ∀ p, p ∈ L → regular f p → is_dir f (Filepath.Dir p) = true.

Definition names_dirs (f : fs) : Prop := ∀ k i, is_dir f (Filepath.Dir (names k i)) = true.

(** The files that were there at first are as they were. *)
Definition as_before (f : fs) : Prop := ∀ p, p ∈ L → regular d0 p → f !! p = d0 !! p.

(** The state in which stash number [k] is made. *)
Record ready (k : nat) (g : fs) : Prop := {
  rd_before : as_before g;
  rd_fresh k' i : k ≤ k' → g !! names k' i = None;
  rd_dirs : names_dirs g;
  rd_parents : parents g
}.

(** A state after stash number [k] was made in [g]. *)
Record running (k : nat) (g f : fs) : Prop := {
  rn_copies i : f !! names k i = st_fs (stashed k g) !! names k i;
  rn_fresh k' i : k < k' → f !! names k' i = None;
  rn_dirs : names_dirs f;
  rn_parents : parents f;
  rn_dir p : p ∈ L → is_dir g (Filepath.Dir p) = true → is_dir f (Filepath.Dir p) = true;
  rn_file p : p ∈ L → is_dir g p = false → is_dir f p = false
}.

(** What may happen in between: anything that leaves the copies and the
    directories alone and makes no directory of a file that is stashed. *)
Record tame (f f' : fs) : Prop := {
  tm_copies k i : f' !! names k i = f !! names k i;
  tm_dirs : names_dirs f → names_dirs f';
  tm_parents : parents f → parents f';
  tm_dir p : p ∈ L → is_dir f (Filepath.Dir p) = true → is_dir f' (Filepath.Dir p) = true;
  tm_file p : p ∈ L → is_dir f p = false → is_dir f' p = false
}.

Lemma running_tame k g f f' : running k g f → tame f f' → running k g f'.
Proof.
  intros [A1 A2 A3 A4 A5 A6] [B1 B2 B3 B4 B5]. split; try by auto.
  - intros i. by rewrite B1.
  - intros k' i Hk. rewrite B1. by apply A2.
Qed.

Lemma ready_good k g : ready k g → good (names k) g (stashed k g) L.
Proof.
  intros [_ Hf Hd _]. apply StashFiles_good.
  - intros i j E. by apply names_inj in E as [_ ->].
  - intros i. by apply Hf.
  - intros i. apply names_path.
  - intros i. apply Hd.
Qed.

Lemma ready_other k g q : ready k g → (∀ i, q ≠ names k i) → st_fs (stashed k g) !! q = g !! q.
Proof. intros H Hq. apply (good_frame _ _ _ _ (ready_good k g H)). by intros i _. Qed.

Lemma ready_is_dir k g q : ready k g → is_dir (st_fs (stashed k g)) q = is_dir g q.
Proof.
  intros H. pose proof (ready_good k g H) as Hg. destruct (is_dir g q) eqn:E.
  { apply (good_dir (names k) g) with (done := L); [intros i; by apply (rd_fresh _ _ H)|done|done]. }
  unfold is_dir in *. apply orb_false_iff in E as [E1 E2]. rewrite E1. apply bool_decide_eq_false in E2.
  apply bool_decide_eq_false. intros Hq. apply E2. rewrite <- Hq. symmetry.
  apply (good_frame _ _ _ _ Hg). intros i Hi ->. destruct (good_file _ _ _ _ Hg i Hi) as (c & m & Hc). congruence.
Qed.

(** Right after the stash: the files that it copied are as they were. *)
Lemma ready_running k g : ready k g → running k g (st_fs (stashed k g)) ∧ as_before (st_fs (stashed k g)).
Proof.
  intros H. assert (∀ p, p ∈ L → st_fs (stashed k g) !! p = g !! p) as HL.
  { intros p Hp. apply ready_other; [done|]. intros i ->. by apply (names_path k i). }
  pose proof H as [B F D P]. split; [split|].
  - done.
  - intros k' i Hk. rewrite ready_other; [apply F; lia|done|]. intros j E. apply names_inj in E as [-> _]. lia.
  - intros k' i. rewrite ready_is_dir by done. apply D.
  - intros p Hp [Hr (c & m & Hc)]. rewrite HL in Hc by done. rewrite ready_is_dir by done. apply P; [done|]. split; [done|eauto].
  - intros p Hp. by rewrite ready_is_dir.
  - intros p Hp. by rewrite ready_is_dir.
  - intros p Hp Hr. rewrite HL by done. by apply B.
Qed.

(** The entries of a stash: copies of files under its names, which are intact. *)
Lemma stashed_entries k g f d p :
  ready k g → running k g f → (d, p) ∈ map_to_list (newFiles (stashed k g)) →
  p ∈ L ∧ (∃ i, d = names k i) ∧ regular g p ∧ f !! d = g !! p ∧ is_dir f p = false ∧ is_dir f (Filepath.Dir p) = true.
Proof.
  intros H Hr Hd%elem_of_map_to_list.
  destruct (good_new _ _ _ _ (ready_good k g H) d p Hd) as (Hp & (i & _ & ->) & Hreg & E).
  split; [done|]. split; [by eexists|]. split; [done|]. split; [by rewrite (rn_copies _ _ _ Hr)|].
  split; [|apply (rn_dir _ _ _ Hr); [done|by apply (rd_parents _ _ H)]].
  apply (rn_file _ _ _ Hr); [done|]. destruct Hreg as [Hroot (c & m & Hc)]. by apply (is_dir_file g p c m).
Qed.

(** What the restore writes and what it leaves alone. *)
Lemma restore_values k g f :
  let o := map_to_list (newFiles (stashed k g)) in
  ready k g → running k g f →
  (∀ p, p ∈ o.*2 → restoreFn o f !! p = g !! p) ∧ (∀ p, p ∉ o.*2 → p ∉ o.*1 → restoreFn o f !! p = f !! p).
Proof.
  intros o H Hr. apply (restore_all (names k) g L (names_path k)).
  - apply newFiles_copies; [intros i j E; by apply names_inj in E as [_ ->]|intros i; by apply (rd_fresh _ _ H)|
      apply names_path|apply (rd_dirs _ _ H)|reflexivity].
  - split; intros d p Hd; by destruct (stashed_entries _ _ _ _ _ H Hr Hd) as (_ & _ & _ & ? & ? & ?).
Qed.

Lemma restore_dirs k g f q :
  ready k g → running k g f → is_dir f q = true →
  is_dir (restoreFn (map_to_list (newFiles (stashed k g))) f) q = true.
Proof.
  intros H Hr. destruct (restore_values k g f H Hr) as [_ R2]. unfold is_dir at 1 2. rewrite !orb_true_iff.
  intros [Hq|Hq]; [by left|right]. apply bool_decide_eq_true in Hq. apply bool_decide_eq_true.
  rewrite R2; [done|..]; intros ([d p] & -> & Hd)%list_elem_of_fmap;
    destruct (stashed_entries _ _ _ _ _ H Hr Hd) as (_ & _ & [_ (c & m & Hc)] & E & Ef & _); cbn [fst snd] in Hq.
  - unfold is_dir in Ef. apply orb_false_iff in Ef as [_ Ef]. by apply bool_decide_eq_false in Ef.
  - congruence.
Qed.

(** The restore makes the state ready for the next stash. *)
Lemma restore_ready k g f :
  ready k g → running k g f → ready (S k) (restoreFn (map_to_list (newFiles (stashed k g))) f).
Proof.
  intros H Hr. destruct (restore_values k g f H Hr) as [R1 R2]. set (o := map_to_list (newFiles (stashed k g))) in *.
  split.
  - intros p Hp [Hroot (c & m & Hc)]. pose proof (rd_before _ _ H p Hp ltac:(by split; eauto)) as E. rewrite R1; [done|].
    destruct (good_all _ _ _ _ (ready_good k g H) p Hp) as [d Hd]; [split; [done|]; rewrite E; eauto|].
    apply list_elem_of_fmap. exists (d, p). split; [done|]. by apply elem_of_map_to_list.
  - intros k' i Hk. rewrite R2; [apply (rn_fresh _ _ _ Hr); lia|..]; intros ([d p] & E & Hd)%list_elem_of_fmap;
      destruct (stashed_entries _ _ _ _ _ H Hr Hd) as (Hp & (j & ->) & _); cbn [fst snd] in E.
    + by subst; apply (names_path k' i).
    + apply names_inj in E as [-> _]. lia.
  - intros k' i. by apply restore_dirs, (rn_dirs _ _ _ Hr).
  - intros p Hp [Hroot (c & m & Hc)]. apply restore_dirs; [done..|]. destruct (decide (p ∈ o.*2)) as [Hin|Hin].
    + apply list_elem_of_fmap in Hin as ([d q] & -> & Hd). by apply (stashed_entries _ _ _ _ _ H Hr Hd).
    + rewrite R2 in Hc; [|done|].
      * apply (rn_parents _ _ _ Hr); [done|]. split; eauto.
      * intros ([d q] & -> & Hd)%list_elem_of_fmap. destruct (stashed_entries _ _ _ _ _ H Hr Hd) as (_ & (j & ->) & _).
        by apply (names_path k j).
Qed.

End Repeated.

Fixpoint unary (i : nat) : string :=
  match i with 0 => "u" | S j => "u" +:+ unary j end.
Definition copy_name (i : nat) : string := "/tmp/" +:+ unary i.
Definition fs_example : fs :=
  <["/tmp" := NDir]> (<["/a" := NFile "x" 420]> (<["/b" := NFile "y" 420]> ∅)).

Lemma copy_name_inj i j : copy_name i = copy_name j → i = j.
Proof.
  unfold copy_name. intros H%(inj (String.append _)). revert j H.
  induction i as [|i IH]; intros [|j] H; simpl in H; try done.
  - by destruct j.
  - by destruct i.
  - f_equal. apply IH. by apply (inj (String.append "u")) in H.
Qed.

Lemma copy_name_fresh i : copy_name i ≠ "/" ∧ copy_name i ∉ ["/a"; "/b"] ∧ fs_example !! copy_name i = None.
Proof.
  split; [done|]. split.
  - rewrite !not_elem_of_cons. split_and!; try done. apply not_elem_of_nil.
  - unfold fs_example. rewrite !lookup_insert_ne; [done|..]; unfold copy_name; simpl; intros E; discriminate E.
Qed.

Lemma copy_name_dir i : is_dir fs_example (Filepath.Dir (copy_name i)) = true.
Proof.
  assert (Split (copy_name i) Filepath.slash = [""; "tmp"; unary i]) as H.
  { change (copy_name i) with (GoStrings.Join [""; "tmp"; unary i] (String Filepath.slash "")).
    apply Split_Join; [done|]. repeat constructor. by induction i. }
  unfold Filepath.Dir. rewrite H. vm_compute. reflexivity.
Qed.

Definition stash_example : stash := StashFiles copy_name fs_example ["/a"; "/b"].

Lemma stash_example_ok d p : newFiles stash_example !! d = Some p →
  delete "/b" (<["/a" := NFile "z" 0]> (st_fs stash_example)) !! d = st_fs stash_example !! d ∧
  is_dir (delete "/b" (<["/a" := NFile "z" 0]> (st_fs stash_example))) (Filepath.Dir p) = true ∧
  is_dir (delete "/b" (<["/a" := NFile "z" 0]> (st_fs stash_example))) p = false.
Proof.
  change (newFiles stash_example) with (<["/tmp/uu" := "/b"]> (<["/tmp/u" := "/a"]> (∅ : gmap string string))).
  rewrite !lookup_insert_Some. intros [[<- <-]|[_ [[<- <-]|[_ H]]]]; [vm_compute; done..|].
  by rewrite lookup_empty in H.
Qed.


End Stash.
