(* ===== verification/Action.v ===== *)
(** * Actions: [internal/pkg/reproxy/action.go]

    An action carries a command through local execution, remote execution and
    the remote cache.  The remote side and the files of the machine are reached
    through the interfaces of Command.v; the state of a run is the action, the
    files, and the list of what was done. *)
From S2P Require Import Prelude GoStrings GoPath PathTranslator GoFS Command LocalResources Stash.
From Stdlib Require Import Ascii.
Import Filepath PathTranslator LocalResources.

Module Action.

Inductive ExecutionStrategy :=
  | LOCAL
  | REMOTE
  | REMOTE_LOCAL_FALLBACK
  | RACING
  | UNSPECIFIED.

#[export] Instance ExecutionStrategy_eq_dec : EqDecision ExecutionStrategy.
Proof. solve_decision. Defined.

Record RemoteExecutionOptions := {
  ro_AcceptCached : bool;
  ro_DoNotCache : bool;
  ro_DownloadOutputs : bool;
  ro_PreserveUnchangedOutputMtime : bool;
  ro_Wrapper : string;
  ro_CanonicalizeWorkingDir : bool
}.

Record LocalExecutionOptions := {
  lo_AcceptCached : bool;
  lo_DoNotCache : bool;
  lo_Wrapper : string
}.

(** The getters of a protobuf message accept [nil]. *)
Definition GetRemoteWrapper (o : option RemoteExecutionOptions) : string := default "" (ro_Wrapper <$> o).
Definition GetLocalWrapper (o : option LocalExecutionOptions) : string := default "" (lo_Wrapper <$> o).
Definition GetAcceptCached (o : option LocalExecutionOptions) : bool := default false (lo_AcceptCached <$> o).
Definition GetDoNotCache (o : option LocalExecutionOptions) : bool := default false (lo_DoNotCache <$> o).

(** The parts of the record that the code below writes. *)
Record LocalMetadata := {
  ExecutedLocally : bool;
  lm_Result : option Result;
  ValidCacheHit : bool;
  UpdatedCache : bool
}.

Record RemoteMetadata := {
  rm_Result : option Result;
  CacheHit : bool;
  rm_ActionDigest : string;
  rm_CommandDigest : string
}.

Definition empty_LocalMetadata : LocalMetadata :=
  {| ExecutedLocally := false; lm_Result := None; ValidCacheHit := false; UpdatedCache := false |}.

(** [logger.CommandRemoteMetadataToProto] *)
Definition CommandRemoteMetadataToProto (m : Metadata) : RemoteMetadata :=
  {| rm_Result := None; CacheHit := false; rm_ActionDigest := ActionDigest m; rm_CommandDigest := CommandDigest m |}.

Definition with_rm_Result (r : option Result) (m : RemoteMetadata) : RemoteMetadata :=
  {| rm_Result := r; CacheHit := CacheHit m; rm_ActionDigest := rm_ActionDigest m;
     rm_CommandDigest := rm_CommandDigest m |}.
Definition with_CacheHit (b : bool) (m : RemoteMetadata) : RemoteMetadata :=
  {| rm_Result := rm_Result m; CacheHit := b; rm_ActionDigest := rm_ActionDigest m;
     rm_CommandDigest := rm_CommandDigest m |}.

(** The fields of [action] that its creator sets and no method writes. *)
Record action_config := {
  lbls : gmap string string;
  toolchainInputs : list string;
  lOpt : option LocalExecutionOptions;
  execStrategy : ExecutionStrategy;
  compare : bool;
  numLocalReruns : nat;
  numRemoteReruns : nat;
  cmdEnvironment : list string;
  windowsCross : bool;
  downloadRegex : string;
  downloadTmp : string;
  atomicDownloads : bool
}.

(** [strings.SplitN(item, "=", 2)] of an item without the separator has no
    second element: the access panics. *)
Definition sliceToMap_step (separator : ascii) (m : res (gmap string string)) (item : string)
    : res (gmap string string) :=
  let? result := m in
  match SplitN2 item separator with
  | (k, Some v) => Ok (<[k := v]> result)
  | (_, None) => Panic
  end.

Definition sliceToMap (slice : list string) (separator : ascii) : res (gmap string string) :=
  foldl (sliceToMap_step separator) (Ok ∅) slice.

Definition mergeMaps (dst src : gmap string string) : gmap string string := src ∪ dst.

(** The copy of a command for attempt [idx]: the input specification and its
    list of inputs are copied, the maps in it are shared. *)
Definition duplicateCmd (c : Command) (idx : nat) : Command :=
  with_Identifiers c {|
    CommandID := CommandID (cmd_Identifiers c); InvocationID := InvocationID (cmd_Identifiers c);
    ToolName := ToolName (cmd_Identifiers c); ToolVersion := ToolVersion (cmd_Identifiers c);
    ExecutionID := ExecutionID (cmd_Identifiers c) +:+ "-" +:+ pretty idx |}.

(** Where a run leaves its traces, in order. *)
Inductive event :=
  | EvLocal (c : Command)
  | EvRemote (c : Command) (o : ExecutionOptions)
  | EvGetCached
  | EvExecuted
  | EvDownload (outs : outputs) (dir : string)
  | EvUpdateCache
  | EvForget (path : string)
  | EvVirtualInputs (paths : list string).

Section Action.
Context {ctx : Type} {Rx : Rexec ctx} {Sdk : SDK}.

Record action := {
  a_cfg : action_config;
  a_cmd : Command;
  a_oe : string;
  a_fallbackOE : string;
  a_fallbackExitCode : Z;
  a_fallbackResultStatus : option ResultStatus;
  a_rec_local : option LocalMetadata;
  a_rec_remote : option RemoteMetadata;
  a_rOpt : option RemoteExecutionOptions;
  a_execContext : option ctx;
  a_dFile : string;
  a_depsFile : string;
  a_res : option Result;
  a_rawInOutFiles : option (list string);
  a_digest : string
}.

Definition set_cmd (v_cmd : Command) (a : action) : action := {|
  a_cfg := a_cfg a; a_cmd := v_cmd; a_oe := a_oe a; a_fallbackOE := a_fallbackOE a;
  a_fallbackExitCode := a_fallbackExitCode a; a_fallbackResultStatus := a_fallbackResultStatus a;
  a_rec_local := a_rec_local a; a_rec_remote := a_rec_remote a; a_rOpt := a_rOpt a; a_execContext
  := a_execContext a; a_dFile := a_dFile a; a_depsFile := a_depsFile a; a_res := a_res a;
  a_rawInOutFiles := a_rawInOutFiles a; a_digest := a_digest a |}.

Definition set_oe (v_oe : string) (a : action) : action := {|
  a_cfg := a_cfg a; a_cmd := a_cmd a; a_oe := v_oe; a_fallbackOE := a_fallbackOE a;
  a_fallbackExitCode := a_fallbackExitCode a; a_fallbackResultStatus := a_fallbackResultStatus a;
  a_rec_local := a_rec_local a; a_rec_remote := a_rec_remote a; a_rOpt := a_rOpt a; a_execContext
  := a_execContext a; a_dFile := a_dFile a; a_depsFile := a_depsFile a; a_res := a_res a;
  a_rawInOutFiles := a_rawInOutFiles a; a_digest := a_digest a |}.

Definition set_fallback (v_oe : string) (v_fallbackOE : string) (v_fallbackExitCode : Z) (v_fallbackResultStatus : option ResultStatus) (a : action) : action := {|
  a_cfg := a_cfg a; a_cmd := a_cmd a; a_oe := v_oe; a_fallbackOE := v_fallbackOE;
  a_fallbackExitCode := v_fallbackExitCode; a_fallbackResultStatus := v_fallbackResultStatus;
  a_rec_local := a_rec_local a; a_rec_remote := a_rec_remote a; a_rOpt := a_rOpt a; a_execContext
  := a_execContext a; a_dFile := a_dFile a; a_depsFile := a_depsFile a; a_res := a_res a;
  a_rawInOutFiles := a_rawInOutFiles a; a_digest := a_digest a |}.

Definition set_rec_local (v_rec_local : option LocalMetadata) (a : action) : action := {|
  a_cfg := a_cfg a; a_cmd := a_cmd a; a_oe := a_oe a; a_fallbackOE := a_fallbackOE a;
  a_fallbackExitCode := a_fallbackExitCode a; a_fallbackResultStatus := a_fallbackResultStatus a;
  a_rec_local := v_rec_local; a_rec_remote := a_rec_remote a; a_rOpt := a_rOpt a; a_execContext :=
  a_execContext a; a_dFile := a_dFile a; a_depsFile := a_depsFile a; a_res := a_res a;
  a_rawInOutFiles := a_rawInOutFiles a; a_digest := a_digest a |}.

Definition set_rec_remote (v_rec_remote : option RemoteMetadata) (a : action) : action := {|
  a_cfg := a_cfg a; a_cmd := a_cmd a; a_oe := a_oe a; a_fallbackOE := a_fallbackOE a;
  a_fallbackExitCode := a_fallbackExitCode a; a_fallbackResultStatus := a_fallbackResultStatus a;
  a_rec_local := a_rec_local a; a_rec_remote := v_rec_remote; a_rOpt := a_rOpt a; a_execContext :=
  a_execContext a; a_dFile := a_dFile a; a_depsFile := a_depsFile a; a_res := a_res a;
  a_rawInOutFiles := a_rawInOutFiles a; a_digest := a_digest a |}.

Definition set_rOpt (v_rOpt : option RemoteExecutionOptions) (a : action) : action := {|
  a_cfg := a_cfg a; a_cmd := a_cmd a; a_oe := a_oe a; a_fallbackOE := a_fallbackOE a;
  a_fallbackExitCode := a_fallbackExitCode a; a_fallbackResultStatus := a_fallbackResultStatus a;
  a_rec_local := a_rec_local a; a_rec_remote := a_rec_remote a; a_rOpt := v_rOpt; a_execContext :=
  a_execContext a; a_dFile := a_dFile a; a_depsFile := a_depsFile a; a_res := a_res a;
  a_rawInOutFiles := a_rawInOutFiles a; a_digest := a_digest a |}.

Definition set_execContext (v_execContext : option ctx) (a : action) : action := {|
  a_cfg := a_cfg a; a_cmd := a_cmd a; a_oe := a_oe a; a_fallbackOE := a_fallbackOE a;
  a_fallbackExitCode := a_fallbackExitCode a; a_fallbackResultStatus := a_fallbackResultStatus a;
  a_rec_local := a_rec_local a; a_rec_remote := a_rec_remote a; a_rOpt := a_rOpt a; a_execContext
  := v_execContext; a_dFile := a_dFile a; a_depsFile := a_depsFile a; a_res := a_res a;
  a_rawInOutFiles := a_rawInOutFiles a; a_digest := a_digest a |}.

Definition set_deps (v_dFile : string) (v_depsFile : string) (a : action) : action := {|
  a_cfg := a_cfg a; a_cmd := a_cmd a; a_oe := a_oe a; a_fallbackOE := a_fallbackOE a;
  a_fallbackExitCode := a_fallbackExitCode a; a_fallbackResultStatus := a_fallbackResultStatus a;
  a_rec_local := a_rec_local a; a_rec_remote := a_rec_remote a; a_rOpt := a_rOpt a; a_execContext
  := a_execContext a; a_dFile := v_dFile; a_depsFile := v_depsFile; a_res := a_res a;
  a_rawInOutFiles := a_rawInOutFiles a; a_digest := a_digest a |}.

Definition set_res (v_res : option Result) (a : action) : action := {|
  a_cfg := a_cfg a; a_cmd := a_cmd a; a_oe := a_oe a; a_fallbackOE := a_fallbackOE a;
  a_fallbackExitCode := a_fallbackExitCode a; a_fallbackResultStatus := a_fallbackResultStatus a;
  a_rec_local := a_rec_local a; a_rec_remote := a_rec_remote a; a_rOpt := a_rOpt a; a_execContext
  := a_execContext a; a_dFile := a_dFile a; a_depsFile := a_depsFile a; a_res := v_res;
  a_rawInOutFiles := a_rawInOutFiles a; a_digest := a_digest a |}.

Definition set_rawInOutFiles (v_rawInOutFiles : option (list string)) (a : action) : action := {|
  a_cfg := a_cfg a; a_cmd := a_cmd a; a_oe := a_oe a; a_fallbackOE := a_fallbackOE a;
  a_fallbackExitCode := a_fallbackExitCode a; a_fallbackResultStatus := a_fallbackResultStatus a;
  a_rec_local := a_rec_local a; a_rec_remote := a_rec_remote a; a_rOpt := a_rOpt a; a_execContext
  := a_execContext a; a_dFile := a_dFile a; a_depsFile := a_depsFile a; a_res := a_res a;
  a_rawInOutFiles := v_rawInOutFiles; a_digest := a_digest a |}.

Definition set_digest (v_digest : string) (a : action) : action := {|
  a_cfg := a_cfg a; a_cmd := a_cmd a; a_oe := a_oe a; a_fallbackOE := a_fallbackOE a;
  a_fallbackExitCode := a_fallbackExitCode a; a_fallbackResultStatus := a_fallbackResultStatus a;
  a_rec_local := a_rec_local a; a_rec_remote := a_rec_remote a; a_rOpt := a_rOpt a; a_execContext
  := a_execContext a; a_dFile := a_dFile a; a_depsFile := a_depsFile a; a_res := a_res a;
  a_rawInOutFiles := a_rawInOutFiles a; a_digest := v_digest |}.

Record world := { act : action; disk : fs; events : list event }.

Definition on_act (f : action → action) (w : world) : world :=
  {| act := f (act w); disk := disk w; events := events w |}.
Definition on_disk (d : fs) (w : world) : world :=
  {| act := act w; disk := d; events := events w |}.
Definition emit (e : event) (w : world) : world :=
  {| act := act w; disk := disk w; events := events w ++ [e] |}.

Definition cfg (w : world) : action_config := a_cfg (act w).
Definition cmd (w : world) : Command := a_cmd (act w).

(** [res.IsOk()] on a pointer that may be [nil]. *)
Definition res_IsOk (r : option Result) : res bool :=
  match r with Some r => Ok (IsOk r) | None => Panic end.

Definition execOptionsFromProto (opt : option RemoteExecutionOptions) : ExecutionOptions :=
  match opt with
  | None => DefaultExecutionOptions
  | Some opt => {|
      AcceptCached := ro_AcceptCached opt; DoNotCache := ro_DoNotCache opt; DownloadOutErr := true;
      DownloadOutputs := ro_DownloadOutputs opt;
      PreserveUnchangedOutputMtime := ro_PreserveUnchangedOutputMtime opt |}
  end.

Definition without_download (o : ExecutionOptions) : ExecutionOptions := {|
  AcceptCached := AcceptCached o; DoNotCache := DoNotCache o; DownloadOutErr := DownloadOutErr o;
  DownloadOutputs := false; PreserveUnchangedOutputMtime := PreserveUnchangedOutputMtime o |}.

(** ** Local execution *)

(** The local pool on a command: how [Lock] and the executor returned, what was
    written to the output stream, and the files after. *)
Variable pool : Command → fs → option error * exec_result * string * fs.

Definition exec_error (r : exec_result) : option error :=
  match r with ExecOk => None | ExitError _ => Some (EMsg "exit status") | ExecError e => Some e end.

Definition env_separator : ascii := "=".

(** The command that is run locally and the command of the action afterwards.
    With a wrapper the former is a shallow copy: it shares the input
    specification, and the assignment of the environment writes to both. *)
Definition local_command (a : action) : res (Command * Command) :=
  let wrapper := GetLocalWrapper (lOpt (a_cfg a)) in
  let wrapped := negb (String.eqb wrapper "") in
  let c := if wrapped then with_Args (a_cmd a) (wrapper :: Args (a_cmd a)) else duplicateCmd (a_cmd a) 0 in
  match cmd_InputSpec (a_cmd a) with
  | None => Ok (c, a_cmd a)
  | Some sp =>
      let? env := sliceToMap (cmdEnvironment (a_cfg a)) env_separator in
      let sp' := Some (with_env sp env) in
      Ok (with_InputSpec c sp', if wrapped then with_InputSpec (a_cmd a) sp' else a_cmd a)
  end.

Definition local_result (exitCode : Z) (r : exec_result) : Result :=
  match exec_error r with
  | Some e => if bool_decide (exitCode = 0%Z) then NewLocalErrorResult e else NewResultFromExitCode exitCode
  | None => NewResultFromExitCode exitCode
  end.

Definition record_local (r : Result) (m : option LocalMetadata) : option LocalMetadata :=
  let m := default empty_LocalMetadata m in
  Some {| ExecutedLocally := true; lm_Result := Some r; ValidCacheHit := ValidCacheHit m;
          UpdatedCache := UpdatedCache m |}.

Definition runLocal (w : world) : res world :=
  let? (lcmd, acmd) := local_command (act w) in
  let '(lock, exec, out, disk') := pool lcmd (disk w) in
  let '(exitCode, r, _) := Run lock exec in
  let result := local_result exitCode r in
  let started := bool_decide (lock = None) in
  Ok {| act := set_cmd acmd (set_res (Some result)
          (set_rec_local (record_local result (a_rec_local (act w)))
            (set_oe (if started then a_oe (act w) +:+ out else a_oe (act w)) (act w))));
        disk := if started then disk' else disk w;
        events := if started then events w ++ [EvLocal lcmd] else events w |}.

(** ** Output filters *)

(** [regexp.Compile]: [None] when the expression does not compile. *)
Variable regexp : string → option (string → bool).

Definition minus : ascii := "-".

(** The filter that a regex stands for: a leading minus negates it. *)
Definition regex_filter (re : string) : option (string → bool) :=
  match re with
  | String c re' =>
      if Ascii.eqb c minus then (λ m p, negb (m p)) <$> regexp re' else regexp re
  | EmptyString => regexp re
  end.

Definition excludeOutputsViaFilter (a : action) (outs : outputs) : outputs :=
  let noDl := negb (DownloadOutputs (execOptionsFromProto (a_rOpt a))) in
  let re := downloadRegex (a_cfg a) in
  if String.eqb re "" || String.eqb re "-" then (if noDl then ∅ else outs)
  else match regex_filter re with
       | None => if noDl then ∅ else outs
       | Some m => filter (λ kv : string * string, m kv.1 = true) outs
       end.

(** [digest.NewFromFile(path)] and the hash of a digest. *)
Variables (file_digest : fs → string → res string) (Hash : string → string).

Definition unchanged (f : fs) (destDir : string) (kv : string * string) : bool :=
  let dest := Join [destDir; kv.1] in
  match OS.Stat f dest with
  | Ok _ => match file_digest f dest with
            | Ok d => String.eqb (Hash kv.2) (Hash d)
            | _ => false
            end
  | _ => false
  end.

Definition excludeUnchangedOutputs (f : fs) (wd : string) (outs : outputs) (outDir : string) : outputs :=
  filter (λ kv, unchanged f (Join [outDir; wd]) kv = false) outs.

(** ** Files of an action *)

Definition abs_under (execRoot f : string) : string := if IsAbs f then f else Join [execRoot; f].

(** The files below a directory, or the path itself when it is a file. *)
Definition walk (f : fs) (d : string) : list string :=
  sort_Strings (omap (λ kv, match kv.2 with
    | NFile _ _ => if OS.below d kv.1 || bool_decide (kv.1 = d) then Some kv.1 else None
    | NDir => None end) (map_to_list f)).

Definition fileList (f : fs) (execRoot : string) (files dirs : list string) : list string :=
  (abs_under execRoot <$> files) ++ (dirs ≫= λ d, walk f (Join [execRoot; d])).

(** [fmc] of the action is the file metadata cache: [Delete] makes it forget a
    path. *)
Definition forget_all (paths : list string) (w : world) : world :=
  foldl (λ w p, emit (EvForget p) w) w paths.

Definition clearOutputsCache (w : world) : world :=
  forget_all (fileList (disk w) (Join [ExecRoot (cmd w); WorkingDir (cmd w)])
                       (OutputFiles (cmd w)) (OutputDirs (cmd w))) w.

(** The first loop of [inOutFiles], over the output files relative to the exec
    root: [inps] is the set of inputs that were not taken yet. *)
Definition inout_file (execRoot : string) (acc : list string * gset string) (f : string)
    : list string * gset string :=
  let '(raw, inps) := acc in
  let cleaned := Clean f in
  if decide (cleaned ∈ inps) then (raw ++ [Join [execRoot; cleaned]], inps ∖ {[cleaned]}) else acc.

Definition with_separator (d : string) : string := if HasSuffix d "/" then d else d +:+ "/".

Definition inout_dir (execRoot : string) (acc : list string * gset string) (d : string)
    : list string * gset string :=
  let '(raw, inps) := acc in
  let cleaned := Clean d in
  if decide (cleaned ∈ inps) then (raw ++ [Join [execRoot; cleaned]], inps ∖ {[cleaned]})
  else
    let below := filter (λ inp, HasPrefix inp (with_separator cleaned) = true) inps in
    (raw ++ ((λ inp, Join [execRoot; inp]) <$> elements below), inps ∖ below).

Definition inOutFiles_of (execRoot wd : string) (inputs files dirs : list string) : list string :=
  let inps : gset string := list_to_set (Clean <$> inputs) in
  let acc := foldl (inout_file execRoot) ([], inps) (ListRelToExecRoot execRoot wd files) in
  (foldl (inout_dir execRoot) acc (ListRelToExecRoot execRoot wd dirs)).1.

(** The list is computed once; a [nil] input specification panics. *)
Definition inOutFiles (a : action) : res (list string * action) :=
  match a_rawInOutFiles a with
  | Some l => Ok (l, a)
  | None =>
      match cmd_InputSpec (a_cmd a) with
      | None => Panic
      | Some sp =>
          let c := a_cmd a in
          let l := inOutFiles_of (ExecRoot c) (WorkingDir c) (Inputs sp) (OutputFiles c) (OutputDirs c) in
          Ok (l, set_rawInOutFiles (Some l) a)
      end
  end.

Definition clearInputOutputFileCache (w : world) : res world :=
  let? (l, a') := inOutFiles (act w) in
  Ok (forget_all l (on_act (λ _, a') w)).

(** The paths of the stash's copies, and the order in which they are moved
    back. *)
Variable stash_name : nat → string.

Definition stashInputOutputFiles (w : world) : res (list (string * string) * world) :=
  let? (l, a') := inOutFiles (act w) in
  let st := Stash.StashFiles stash_name (disk w) l in
  Ok (map_to_list (Stash.newFiles st), on_disk (Stash.st_fs st) (on_act (λ _, a') w)).

Definition restoreInOutFiles (copies : list (string * string)) (w : world) : res world :=
  clearInputOutputFileCache (on_disk (Stash.restoreFn copies (disk w)) w).

Definition remove_dir (base : string) (f : fs) (d : string) : fs :=
  let path := Join [base; d] in
  match OS.Stat f path with
  | Ok _ => match OS.MkdirAll (OS.RemoveAll f path) path with Ok f' => f' | _ => OS.RemoveAll f path end
  | _ => f
  end.

Definition remove_file (base depsFile : string) (f : fs) (p : string) : fs :=
  if String.eqb p depsFile then f
  else match OS.Remove f (Join [base; p]) with Ok f' => f' | _ => f end.

Definition removeAllOutputs (w : world) : world :=
  let base := Join [ExecRoot (cmd w); WorkingDir (cmd w)] in
  on_disk (foldl (remove_dir base)
    (foldl (remove_file base (a_depsFile (act w))) (disk w) (OutputFiles (cmd w)))
    (OutputDirs (cmd w))) w.

(** *** The temporary directory of atomic downloads *)

Definition tmpBaseDir : string := ".reproxy_tmp".

Definition tmp_dir (a : action) : string :=
  let base := if String.eqb (downloadTmp (a_cfg a)) ""
              then Join [ExecRoot (a_cmd a); WorkingDir (a_cmd a); tmpBaseDir] else downloadTmp (a_cfg a) in
  Join [base; ExecutionID (cmd_Identifiers (a_cmd a))].

Definition createTmpDir (w : world) : res (string * world) :=
  let? f := OS.MkdirAll (disk w) (tmp_dir (act w)) in
  Ok (tmp_dir (act w), on_disk f w).

(** [a.fmc.Get(path)]: the kind of the file, or the error in the metadata. *)
Variable fmc_Get : fs → string → res node.

Definition move_file (srcDir destDir : string) (acc : res (fs * gset string)) (p : string)
    : res (fs * gset string) :=
  let? (f, dirs) := acc in
  let src := Join [srcDir; p] in
  match fmc_Get f src with
  | Ok _ =>
      let dest := Join [destDir; p] in
      let? (f, dirs) :=
        if decide (Dir dest ∈ dirs) then Ok (f, dirs)
        else let? f := OS.MkdirAll f (Dir dest) in Ok (f, {[Dir dest]} ∪ dirs) in
      let? f := OS.Rename f src dest in
      Ok (f, dirs)
  | _ => Ok (f, dirs)
  end.

Definition move_dir (srcDir destDir : string) (acc : res fs) (d : string) : res fs :=
  let? f := acc in
  let src := Join [srcDir; d] in
  match fmc_Get f src with
  | Ok NDir => OS.Rename (OS.RemoveAll f (Join [destDir; d])) src (Join [destDir; d])
  | _ => Ok f
  end.

Definition moveOutputsFromTemp (c : Command) (tmpDir : string) (f : fs) : res fs :=
  let srcDir := Join [tmpDir; WorkingDir c] in
  let destDir := Join [ExecRoot c; WorkingDir c] in
  let? (f, _) := foldl (move_file srcDir destDir) (Ok (f, ∅)) (OutputFiles c) in
  foldl (move_dir srcDir destDir) (Ok f) (OutputDirs c).

(** ** Remote execution *)

(** The deferred function of [runRemote]: it publishes the result and the
    metadata. *)
Definition publish (r : option Result) (m : Metadata) (w : world) : world :=
  on_act (λ a, set_res r (set_rec_remote (Some (with_rm_Result r (CommandRemoteMetadataToProto m)))
    (set_digest (ActionDigest m) a))) w.

Definition publish_ctx (ec : ctx) (w : world) : world := publish (ctx_Result ec) (ctx_Metadata ec) w.

(** What the context wrote goes to the output stream of the action. *)
Definition with_output (ec : ctx) (w : world) : world :=
  on_act (λ a, set_oe (a_oe a +:+ ctx_out ec) a) w.

Definition remote_command (a : action) : Command :=
  let wrapper := GetRemoteWrapper (a_rOpt a) in
  if String.eqb wrapper "" then a_cmd a else with_Args (a_cmd a) (wrapper :: Args (a_cmd a)).

Definition res_Err_of (r : option Result) : res (option error) :=
  match r with Some r => Ok (res_Err r) | None => Panic end.

(** [runRemote] once the result is ok: download the outputs to [outDir] and,
    for atomic downloads, move them. *)
Definition download (ec : ctx) (outDir : string) (excludeUnchanged : bool) (w : world) : res world :=
  match GetFlattenedOutputs ec with
  | Ok outs =>
      let outs := excludeOutputsViaFilter (act w) outs in
      let outs := if excludeUnchanged
                  then excludeUnchangedOutputs (disk w) (WorkingDir (cmd w)) outs (ExecRoot (cmd w)) else outs in
      let '(ec', f) := DownloadSpecifiedOutputs outs outDir ec (disk w) in
      let w := emit (EvDownload outs outDir) (on_disk f w) in
      let? err := res_Err_of (ctx_Result ec') in
      match err with
      | Some _ => Ok (publish_ctx ec' (with_output ec' w))
      | None =>
          if atomicDownloads (cfg w) then
            match moveOutputsFromTemp (cmd w) outDir (disk w) with
            | Ok f => Ok (publish_ctx ec' (with_output ec' (on_disk f w)))
            | Fail e => Ok (publish (Some (NewLocalErrorResult e)) (ctx_Metadata ec') (with_output ec' w))
            | Panic => Panic
            end
          else Ok (publish_ctx ec' (with_output ec' w))
      end
  | _ => Ok (publish_ctx ec (with_output ec w))
  end.

Definition run_in (outDir : string) (w : world) : res world :=
  let opts := execOptionsFromProto (a_rOpt (act w)) in
  let excludeUnchanged := DownloadOutputs opts && PreserveUnchangedOutputMtime opts in
  let opts := without_download opts in
  let c := remote_command (act w) in
  match NewContext c opts with
  | Fail e => Ok (publish (Some (NewLocalErrorResult e)) empty_Metadata w)
  | Panic => Panic
  | Ok ec =>
      let '(ec, f) := GetCachedResult ec (disk w) in
      let w := emit EvGetCached (on_disk f (emit (EvRemote c opts) w)) in
      let '(ec, w) := match ctx_Result ec with
                      | None => let '(ec, f) := ExecuteRemotely ec (disk w) in (ec, emit EvExecuted (on_disk f w))
                      | Some _ => (ec, w)
                      end in
      let? (ok : bool) := res_IsOk (ctx_Result ec) in
      if ok then download ec outDir excludeUnchanged w else Ok (publish_ctx ec (with_output ec w))
  end.

(** The temporary directory is removed in the background after the return. *)
Definition runRemote (w : world) : res world :=
  if atomicDownloads (cfg w) then
    match createTmpDir w with
    | Ok (tmpDir, w) => run_in tmpDir w
    | Fail e => Ok (on_act (set_res (Some (NewLocalErrorResult e))) w)
    | Panic => Panic
    end
  else run_in (ExecRoot (cmd w)) w.

(** ** The remote cache of local results *)

Definition createExecContext (w : world) : res world :=
  match a_execContext (act w) with
  | Some _ => Ok w
  | None => let? ec := NewContext (cmd w) (execOptionsFromProto (a_rOpt (act w))) in
            Ok (on_act (set_execContext (Some ec)) w)
  end.

(** The dependency files of shallow inputs: [deps.Parser]. *)
Variable VerifyDepsFile : string → fs → res bool.
Variable WriteDepsFile : string → fs → res fs.

Definition cachedResultValid (w : world) : bool :=
  if String.eqb (a_dFile (act w)) "" then true
  else match VerifyDepsFile (a_dFile (act w)) (disk w) with Ok b => b | _ => false end.

Definition on_local (f : LocalMetadata → LocalMetadata) (w : world) : res world :=
  match a_rec_local (act w) with
  | Some m => Ok (on_act (set_rec_local (Some (f m))) w)
  | None => Panic
  end.

Definition set_ValidCacheHit (m : LocalMetadata) : LocalMetadata := {|
  ExecutedLocally := ExecutedLocally m; lm_Result := lm_Result m; ValidCacheHit := true;
  UpdatedCache := UpdatedCache m |}.

Definition set_UpdatedCache (m : LocalMetadata) : LocalMetadata := {|
  ExecutedLocally := ExecutedLocally m; lm_Result := lm_Result m; ValidCacheHit := ValidCacheHit m;
  UpdatedCache := true |}.

Definition getCachedResult (w : world) : res world :=
  match a_execContext (act w) with
  | None => Ok w
  | Some ec =>
      let '(ec, f) := GetCachedResult ec (disk w) in
      let rm := CommandRemoteMetadataToProto (ctx_Metadata ec) in
      let w := emit EvGetCached (on_disk f (on_act (λ a, set_res (ctx_Result ec)
                 (set_rec_remote (Some rm) (set_execContext (Some ec) (set_oe (a_oe a +:+ ctx_out ec) a)))) w)) in
      match ctx_Result ec with
      | None => Ok w
      | Some r =>
          if negb (IsOk r) then Ok w else
          let w := on_act (set_rec_remote (Some (with_rm_Result (Some r) (with_CacheHit true rm)))) w in
          if negb (cachedResultValid w) then
            Ok (on_act (set_res (Some (NewLocalErrorResult (EMsg "failed deps validation")))) w)
          else
            let? w := on_local set_ValidCacheHit w in
            let outs := match GetFlattenedOutputs ec with Ok outs => outs | _ => ∅ end in
            let outs := excludeOutputsViaFilter (act w) outs in
            let '(ec, f) := DownloadSpecifiedOutputs outs (ExecRoot (cmd w)) ec (disk w) in
            Ok (emit (EvDownload outs (ExecRoot (cmd w))) (on_disk f (on_act (set_execContext (Some ec)) w)))
      end
  end.

(** The file that holds the dependencies for later validation. *)
Definition generateDepsFile (w : world) : res world :=
  if String.eqb (a_dFile (act w)) "" then Ok w
  else let? f := WriteDepsFile (a_dFile (act w)) (disk w) in Ok (on_disk f w).

Definition cacheLocal (w : world) : res world :=
  match a_execContext (act w) with
  | None => Ok w
  | Some ec =>
      let? (ok : bool) := res_IsOk (a_res (act w)) in
      if negb ok || GetDoNotCache (lOpt (cfg w)) then Ok w else
      match generateDepsFile w with
      | Fail _ => Ok w
      | Panic => Panic
      | Ok w =>
          let w := clearOutputsCache w in
          let ec := UpdateCachedResult ec (disk w) in
          let w := emit EvUpdateCache (on_act (set_execContext (Some ec)) w) in
          let? err := res_Err_of (ctx_Result ec) in
          match err with
          | Some _ => Ok w
          | None =>
              let rm := CommandRemoteMetadataToProto (ctx_Metadata ec) in
              let rm := match a_rec_remote (act w) with
                        | Some old => with_CacheHit (CacheHit old) (with_rm_Result (rm_Result old) rm)
                        | None => rm
                        end in
              on_local set_UpdatedCache (on_act (set_rec_remote (Some rm)) w)
          end
      end
  end.

(** ** Lemmas *)

(** The specification of the download filter: which outputs are wanted. *)
Definition wanted (a : action) (p : string) : bool :=
  let byDefault := DownloadOutputs (execOptionsFromProto (a_rOpt a)) in
  let re := downloadRegex (a_cfg a) in
  if bool_decide (re = "" ∨ re = "-") then byDefault
  else match regex_filter re with Some m => m p | None => byDefault end.

Lemma excludeOutputsViaFilter_lookup a outs p :
  excludeOutputsViaFilter a outs !! p = if wanted a p then outs !! p else None.
Proof.
  unfold excludeOutputsViaFilter, wanted.
  assert ((String.eqb (downloadRegex (a_cfg a)) "" || String.eqb (downloadRegex (a_cfg a)) "-") =
    bool_decide (downloadRegex (a_cfg a) = "" ∨ downloadRegex (a_cfg a) = "-")) as ->.
  { apply eq_true_iff_eq. by rewrite orb_true_iff, bool_decide_eq_true, !String.eqb_eq. }
  case_bool_decide; [by destruct (DownloadOutputs _)|].
  destruct (regex_filter _) as [m|]; [|by destruct (DownloadOutputs _)].
  destruct (m p) eqn:Hm.
  - destruct (outs !! p) as [d|] eqn:Ho; [by apply map_lookup_filter_Some|].
    apply map_lookup_filter_None. by left.
  - apply map_lookup_filter_None. right. intros d _. simpl. by rewrite Hm.
Qed.

(** Downloads of a run stay within what the filter of the action wants. *)
Definition downloads_wanted (a : action) (evs : list event) : Prop :=
  ∀ outs dir p, EvDownload outs dir ∈ evs → is_Some (outs !! p) → wanted a p = true.

Lemma downloads_wanted_app a l k : downloads_wanted a l → downloads_wanted a k → downloads_wanted a (l ++ k).
Proof. intros H1 H2 outs dir p [Hin|Hin]%elem_of_app; [by eapply H1|by eapply H2]. Qed.

Lemma downloads_wanted_other a e : (∀ outs dir, e ≠ EvDownload outs dir) → downloads_wanted a [e].
Proof. intros He outs dir p Hin%list_elem_of_singleton. by destruct (He outs dir). Qed.

Lemma filtered_wanted a outs dir f wd ex out :
  downloads_wanted a [EvDownload (if ex : bool then excludeUnchangedOutputs f wd (excludeOutputsViaFilter a outs) out
                                  else excludeOutputsViaFilter a outs) dir].
Proof.
  intros outs' dir' p Hin%list_elem_of_singleton. injection Hin as -> ->. intros [d Hd].
  destruct ex.
  - unfold excludeUnchangedOutputs in Hd. apply map_lookup_filter_Some in Hd as [Hd _].
    rewrite excludeOutputsViaFilter_lookup in Hd. by destruct (wanted a p).
  - rewrite excludeOutputsViaFilter_lookup in Hd. by destruct (wanted a p).
Qed.

(** How often a run executed locally or remotely, or wrote to the remote
    cache. *)
Definition is_local (e : event) : nat := match e with EvLocal _ => 1 | _ => 0 end.
Definition is_exec (e : event) : nat := match e with EvExecuted => 1 | _ => 0 end.
Definition is_update (e : event) : nat := match e with EvUpdateCache => 1 | _ => 0 end.
Definition locals (evs : list event) : nat := sum_list_with is_local evs.
Definition execs (evs : list event) : nat := sum_list_with is_exec evs.
Definition updates (evs : list event) : nat := sum_list_with is_update evs.

(** The events of a remote run. *)
Record remote_events (a : action) (n : nat) (evs : list event) : Prop := {
  re_wanted : downloads_wanted a evs;
  re_locals : locals evs = 0;
  re_execs : execs evs ≤ n;
  re_updates : updates evs = 0
}.

Lemma remote_events_app a n m l k :
  remote_events a n l → remote_events a m k → remote_events a (n + m) (l ++ k).
Proof.
  intros [L1 L2 L3 L4] [K1 K2 K3 K4]. split; [by apply downloads_wanted_app|..];
    unfold locals, execs, updates in *; rewrite sum_list_with_app; lia.
Qed.

Lemma remote_events_nil a : remote_events a 0 [].
Proof. split; try done. intros ??? Hin. by apply elem_of_nil in Hin. Qed.

(** What a remote run adds to the state: its events, its result, the record of
    it, and nothing else of the action's configuration. *)
Record ran_remotely (w w' : world) : Prop := {
  rr_events : ∃ evs, events w' = events w ++ evs ∧ remote_events (act w) 1 evs;
  rr_result : is_Some (a_res (act w'));
  rr_record : ∃ m, a_rec_remote (act w') = Some m ∧ rm_Result m = a_res (act w');
  rr_cmd : a_cmd (act w') = a_cmd (act w);
  rr_cfg : a_cfg (act w') = a_cfg (act w) ∧ a_rOpt (act w') = a_rOpt (act w) ∧
           a_rec_local (act w') = a_rec_local (act w) ∧ a_rawInOutFiles (act w') = a_rawInOutFiles (act w)
}.

Context {Laws : SDKLaws} {RLaws : RexecLaws ctx}.

Lemma foldl_res_no_panic {A B} (f : res A → B → res A) l a :
  (∀ m b, no_panic m → no_panic (f m b)) → no_panic a → no_panic (foldl f a l).
Proof. intros Hf. revert a. induction l as [|b l IH]; intros a Ha; simpl; [done|]. by apply IH, Hf. Qed.

Lemma MkdirAll_no_panic f p : no_panic (OS.MkdirAll f p).
Proof.
  apply foldl_res_no_panic; [|done]. intros m b Hm. apply bind_no_panic; [done|]. intros a _.
  unfold no_panic. by destruct (a !! b) as [[]|].
Qed.

Lemma Rename_no_panic f a b : no_panic (OS.Rename f a b).
Proof.
  unfold OS.Rename, no_panic. destruct (negb _); [done|]. destruct (f !! a) as [[]|]; [..|done].
  - by destruct (OS.is_dir f b).
  - destruct (f !! b) as [[]|]; [done| |done]. by destruct (OS.has_children f b).
Qed.

Lemma move_no_panic c tmp f : no_panic (moveOutputsFromTemp c tmp f).
Proof.
  unfold moveOutputsFromTemp. apply bind_no_panic.
  - apply foldl_res_no_panic; [|done]. intros m b Hm. apply bind_no_panic; [done|]. intros [g dirs] _.
    cbv beta iota zeta. destruct (fmc_Get g _); [|done..]. apply bind_no_panic.
    + case_decide; [done|]. apply bind_no_panic; [apply MkdirAll_no_panic|done].
    + intros [g' dirs'] _. apply bind_no_panic; [apply Rename_no_panic|done].
  - intros [g dirs] _. apply foldl_res_no_panic; [|done]. intros m b Hm. apply bind_no_panic; [done|].
    intros g2 _. cbv beta iota zeta. destruct (fmc_Get g2 _) as [[]| |]; try done. apply Rename_no_panic.
Qed.

Lemma publish_ran r m evs w w0 :
  events w = events w0 ++ evs → remote_events (act w0) 1 evs → is_Some r →
  (∃ o, act w = set_oe o (act w0)) → ran_remotely w0 (publish r m w).
Proof.
  intros He Hw Hr [o Ha]. split; simpl; rewrite ?Ha; simpl; [by eauto|done| |done|done].
  eexists. split; [reflexivity|done].
Qed.

Lemma set_oe_id a : set_oe (a_oe a) a = a.
Proof. by destruct a. Qed.

Lemma download_ran ec outDir ex w w0 evs :
  is_Some (ctx_Result ec) → events w = events w0 ++ evs → remote_events (act w0) 1 evs →
  act w = act w0 → ∃ w', download ec outDir ex w = Ok w' ∧ ran_remotely w0 w'.
Proof.
  intros Hr He Hw Ha. unfold download. destruct (GetFlattenedOutputs ec) as [outs|e|].
  2, 3: eexists; (split; [reflexivity|]); apply (publish_ran _ _ evs); simpl; rewrite ?Ha; eauto.
  set (outs' := if ex then _ else _).
  pose proof (downloaded_result outs' outDir ec (disk w) Hr) as Hres.
  destruct (DownloadSpecifiedOutputs outs' outDir ec (disk w)) as [ec' f]. simpl in Hres.
  assert (remote_events (act w0) 1 (evs ++ [EvDownload outs' outDir])) as Hw'.
  { apply (remote_events_app _ 1 0); [done|]. split; try done.
    rewrite <- Ha. unfold outs'. apply filtered_wanted. }
  assert (∀ r m d o, is_Some r → ∃ w', (Ok (publish r m (on_act (λ a, set_oe (a_oe a +:+ o) a)
    (on_disk d (emit (EvDownload outs' outDir) (on_disk f w))))) : res world) = Ok w' ∧ ran_remotely w0 w') as Hgo.
  { intros r m d o Hs. eexists. split; [reflexivity|].
    apply (publish_ran _ _ (evs ++ [EvDownload outs' outDir])); simpl; rewrite ?Ha; eauto.
    by rewrite He, app_assoc. }
  destruct Hres as [r Hres]. unfold publish_ctx, with_output. rewrite Hres. simpl.
  destruct (res_Err r); [apply (Hgo (Some r) _ f); eauto|].
  change (cfg (emit _ (on_disk f w))) with (a_cfg (act w)).
  destruct (atomicDownloads (a_cfg (act w))); [|apply (Hgo (Some r) _ f); eauto].
  match goal with |- context [moveOutputsFromTemp ?c ?t ?d] =>
    pose proof (move_no_panic c t d); destruct (moveOutputsFromTemp c t d) as [f'|e|] eqn:Hm end.
  - apply (Hgo (Some r) _ f'); eauto.
  - apply (Hgo (Some _) _ f); eauto.
  - done.
Qed.

Lemma run_in_ran outDir w :
  (∀ c o, no_panic (NewContext c o)) → ∃ w', run_in outDir w = Ok w' ∧ ran_remotely w w'.
Proof.
  intros Hnc. unfold run_in. specialize (Hnc (remote_command (act w)) (without_download (execOptionsFromProto (a_rOpt (act w))))).
  destruct (NewContext _ _) as [ec|e|]; [| |done].
  2: { eexists. split; [reflexivity|]. apply (publish_ran _ _ []); try done; [by rewrite app_nil_r|..].
       - destruct (remote_events_nil (act w)). split; try done. lia.
       - exists (a_oe (act w)). by rewrite set_oe_id. }
  destruct (GetCachedResult ec (disk w)) as [ec1 f1].
  set (w1 := emit EvGetCached _).
  set (E := [EvRemote (remote_command (act w)) (without_download (execOptionsFromProto (a_rOpt (act w)))); EvGetCached]).
  assert (events w1 = events w ++ E) as He1 by (unfold w1, E; simpl; by rewrite <- app_assoc).
  assert (remote_events (act w) 0 E) as HE.
  { split; try done. apply (downloads_wanted_app _ [_] [_]); by apply downloads_wanted_other. }
  assert (∃ ec2 w2 evs, (match ctx_Result ec1 with
      | None => let '(ec, f) := ExecuteRemotely ec1 (disk w1) in (ec, emit EvExecuted (on_disk f w1))
      | Some _ => (ec1, w1) end) = (ec2, w2) ∧ is_Some (ctx_Result ec2) ∧
      events w2 = events w ++ evs ∧ remote_events (act w) 1 evs ∧ act w2 = act w)
    as (ec2 & w2 & evs & -> & Hr & He & Hw & Ha).
  { destruct (ctx_Result ec1) as [r|] eqn:Hr1.
    - exists ec1, w1, E. rewrite Hr1. destruct HE. split_and!; try done. split; try done. lia.
    - pose proof (executed_result ec1 (disk w1)) as Hr2.
      destruct (ExecuteRemotely ec1 (disk w1)) as [ec2 f2]. simpl in Hr2.
      eexists _, _, (E ++ [EvExecuted]). split; [reflexivity|]. split; [done|]. split; [|split; [|done]].
      + change (events w1 ++ [EvExecuted] = events w ++ E ++ [EvExecuted]). by rewrite He1, <- app_assoc.
      + apply (remote_events_app _ 0 1); [done|]. split; try done. by apply downloads_wanted_other. }
  pose proof Hr as [r Hr']. rewrite Hr'. simpl.
  destruct (IsOk r); [by eapply download_ran|].
  eexists. split; [reflexivity|]. apply (publish_ran _ _ evs); simpl; rewrite ?Ha; eauto.
Qed.

Lemma MkdirAll_error f p e : OS.MkdirAll f p = Fail e → e = EMsg "not a directory".
Proof.
  unfold OS.MkdirAll. generalize (OS.ancestors (String.length p + 1) p). intros l.
  assert (∀ l m, (∀ e, m = Fail e → e = EMsg "not a directory") →
    foldl OS.mkdir_step m l = Fail e → e = EMsg "not a directory") as Hl.
  { clear. induction l as [|x l IH]; intros m Hm Hf; simpl in *; [by apply Hm|]. eapply IH; [|exact Hf].
    intros e' He. destruct m as [f|e0|]; simpl in He; [|by apply Hm|done].
    destruct (f !! x) as [[]|]; congruence. }
  apply Hl. done.
Qed.

Lemma runRemote_ran w :
  (∀ c o, no_panic (NewContext c o)) →
  ∃ w', runRemote w = Ok w' ∧
    ((∃ e, createTmpDir w = Fail e ∧ w' = on_act (set_res (Some (NewLocalErrorResult e))) w) ∨ ran_remotely w w').
Proof.
  intros Hnc. unfold runRemote. destruct (atomicDownloads (cfg w)) eqn:Ha.
  - unfold createTmpDir. pose proof (MkdirAll_no_panic (disk w) (tmp_dir (act w))) as Hm.
    destruct (OS.MkdirAll _ _) as [f|e|]; simpl; [| |done].
    + destruct (run_in_ran (tmp_dir (act w)) (on_disk f w) Hnc) as (w' & Hw' & [R1 R2 R3 R4 R5]).
      exists w'. split; [done|]. right. by split.
    + eexists. split; [reflexivity|]. left. eauto.
  - destruct (run_in_ran (ExecRoot (cmd w)) w Hnc) as (w' & Hw' & Hr). eauto.
Qed.


(** ** Local runs *)

Lemma sliceToMap_cases l sep :
  (Forall (λ item, is_Some (SplitN2 item sep).2) l ∧ ∃ m, sliceToMap l sep = Ok m) ∨
  (¬ Forall (λ item, is_Some (SplitN2 item sep).2) l ∧ sliceToMap l sep = Panic).
Proof.
  unfold sliceToMap.
  assert (∀ l, foldl (sliceToMap_step sep) Panic l = Panic) as HP by (intros k; by induction k).
  generalize (∅ : gmap string string). induction l as [|x l IH]; intros m; simpl; [left; eauto|].
  destruct (SplitN2 x sep) as [k [v|]] eqn:E; simpl.
  - destruct (IH (<[k:=v]> m)) as [[Hf Hm]|[Hf Hm]]; [left|right]; (split; [|done]).
    + constructor; [by rewrite E|done].
    + by intros [_ Hl]%Forall_cons.
  - right. split; [|apply HP]. intros [Hx _]%Forall_cons. rewrite E in Hx. by destruct Hx.
Qed.

(** A local run is ok exactly when the resources were granted and the executor
    succeeded. *)
Lemma local_result_ok lock exec :
  IsOk (local_result (Run lock exec).1.1 (Run lock exec).1.2) = bool_decide (lock = None ∧ exec = ExecOk).
Proof.
  unfold local_result, Run. destruct lock as [e|]; simpl.
  - by rewrite local_error_not_ok.
  - destruct exec as [|c|e]; simpl.
    + by rewrite exit_ok.
    + case_bool_decide; [apply local_error_not_ok|]. rewrite exit_ok. by apply bool_decide_false.
    + apply local_error_not_ok.
Qed.

(** A local run.  It panics exactly when an item of the client's environment
    has no separator; otherwise its result is ok exactly when the resources were
    granted and the executor succeeded.  Without a local wrapper the command of
    the action is untouched.  With a wrapper it is not: the environment of the
    client ends up in the input specification that the action's cache key is
    computed from. *)
Theorem runLocal_spec w :
  (runLocal w = Panic ↔ is_Some (cmd_InputSpec (cmd w)) ∧
     ¬ Forall (λ item, is_Some (SplitN2 item env_separator).2) (cmdEnvironment (cfg w))) ∧
  (∀ w', runLocal w = Ok w' →
     (∃ lcmd acmd r, local_command (act w) = Ok (lcmd, acmd) ∧ a_res (act w') = Some r ∧
        IsOk r = bool_decide ((pool lcmd (disk w)).1.1.1 = None ∧ (pool lcmd (disk w)).1.1.2 = ExecOk)) ∧
     (GetLocalWrapper (lOpt (cfg w)) = "" → a_cmd (act w') = a_cmd (act w)) ∧
     (∀ sp, GetLocalWrapper (lOpt (cfg w)) ≠ "" → cmd_InputSpec (cmd w) = Some sp →
        ∃ env, sliceToMap (cmdEnvironment (cfg w)) env_separator = Ok env ∧
               cmd_InputSpec (cmd w') = Some (with_env sp env))).
Proof.
  assert (∀ lcmd acmd, ∃ w', (let '(lock, exec, out, disk') := pool lcmd (disk w) in
    let '(exitCode, r, _) := Run lock exec in
    let result := local_result exitCode r in
    let started := bool_decide (lock = None) in
    Ok {| act := set_cmd acmd (set_res (Some result)
          (set_rec_local (record_local result (a_rec_local (act w)))
            (set_oe (if started then a_oe (act w) +:+ out else a_oe (act w)) (act w))));
        disk := if started then disk' else disk w;
        events := if started then events w ++ [EvLocal lcmd] else events w |}) = Ok w' ∧
    a_cmd (act w') = acmd ∧ ∃ r, a_res (act w') = Some r ∧
      IsOk r = bool_decide ((pool lcmd (disk w)).1.1.1 = None ∧ (pool lcmd (disk w)).1.1.2 = ExecOk)) as Hgo.
  { intros lcmd acmd. destruct (pool lcmd (disk w)) as [[[lock exec] out] d]. simpl.
    pose proof (local_result_ok lock exec) as Hok. destruct (Run lock exec) as [[code r] evs]. simpl in Hok.
    eexists. split; [reflexivity|]. simpl. eauto. }
  unfold runLocal, local_command. change (a_cfg (act w)) with (cfg w). change (a_cmd (act w)) with (cmd w).
  destruct (cmd_InputSpec (cmd w)) as [sp|] eqn:Hsp.
  - destruct (sliceToMap_cases (cmdEnvironment (cfg w)) env_separator) as [[Hf [env ->]]|[Hf ->]].
    + simpl. edestruct Hgo as (w1 & Hw1 & Hc & r & Hr & Hok). rewrite Hw1. split; [split; [done|tauto]|].
      intros w' [= <-]. split; [eexists _, _, r; split; [reflexivity|done]|]. unfold cmd at 2. rewrite Hc. split.
      * intros ->. done.
      * intros sp0 Hw [= <-]. exists env. split; [done|]. apply String.eqb_neq in Hw. by rewrite Hw.
    + simpl. split; [split; [eauto|done]|done].
  - simpl. edestruct Hgo as (w1 & Hw1 & Hc & r & Hr & Hok). rewrite Hw1. split.
    + split; [done|]. intros [[] _]. done.
    + intros w' [= <-]. split; [eexists _, _, r; split; [reflexivity|done]|]. rewrite Hc. split; [done|]. done.
Qed.

End Action.

(** ** In-out files *)

(** An input that is an output file, an output directory, or below one. *)
Definition is_output (F D : list string) (i : string) : Prop :=
  i ∈ F ∨ ∃ d, d ∈ D ∧ (i = d ∨ HasPrefix i (with_separator d) = true).

(** The inputs that the loops must have taken after the outputs [F] and [D]. *)
Definition must_take (I F D : list string) (i : string) : Prop :=
  i ∈ F ∨ i ∈ D ∨ ∃ d, d ∈ D ∧ d ∉ I ∧ HasPrefix i (with_separator d) = true.

Record taken_so_far (er : string) (I F D taken : list string) (acc : list string * gset string) : Prop := {
  tk_raw : acc.1 = (λ i, Join [er; i]) <$> taken;
  tk_nodup : NoDup taken;
  tk_rest i : i ∈ acc.2 ↔ i ∈ I ∧ i ∉ taken;
  tk_sound i : i ∈ taken → i ∈ I ∧ is_output F D i;
  tk_complete i : i ∈ I → must_take I F D i → i ∈ taken
}.

Lemma is_output_mono F D F' D' i : F ⊆ F' → D ⊆ D' → is_output F D i → is_output F' D' i.
Proof. intros HF HD [Hi|(d & Hd & Hi)]; [left; by apply HF|right; exists d; split; [by apply HD|done]]. Qed.

(** Taking more inputs of the rest keeps the bookkeeping, when they are outputs
    and cover what the new outputs require. *)
Lemma take_more er I F D F' D' taken new raw rest rest' :
  taken_so_far er I F D taken (raw, rest) → F ⊆ F' → D ⊆ D' → NoDup new →
  (∀ i, i ∈ new → i ∈ rest ∧ is_output F' D' i) →
  (∀ i, i ∈ rest' ↔ i ∈ rest ∧ i ∉ new) →
  (∀ i, i ∈ I → must_take I F' D' i → must_take I F D i ∨ i ∈ taken ∨ i ∈ new) →
  taken_so_far er I F' D' (taken ++ new) (raw ++ ((λ i, Join [er; i]) <$> new), rest').
Proof.
  intros [H1 H2 H3 H4 H5] HF HD Hnd Hnew Hrest Hall. simpl in *. split; simpl.
  - by rewrite H1, fmap_app.
  - apply NoDup_app. split_and!; [done| |done]. intros i Hi Hn. destruct (Hnew i Hn) as [Hr _].
    apply H3 in Hr as [_ Hr]. done.
  - intros i. rewrite Hrest, H3, elem_of_app. tauto.
  - intros i [Hi|Hi]%elem_of_app.
    + destruct (H4 i Hi) as [Ha Hb]. split; [done|]. by eapply is_output_mono.
    + destruct (Hnew i Hi) as [Hr Ho]. apply H3 in Hr as [Hr _]. done.
  - intros i Hi Hm. rewrite elem_of_app. destruct (Hall i Hi Hm) as [Ho|[Ho|Ho]]; [left; by apply H5|by left|by right].
Qed.

Lemma inout_file_taken er I F taken acc f :
  taken_so_far er I F [] taken acc →
  ∃ taken', taken_so_far er I (F ++ [Clean f]) [] taken' (inout_file er acc f).
Proof.
  destruct acc as [raw rest]. intros Ht. unfold inout_file. case_decide as Hc.
  - exists (taken ++ [Clean f]). apply (take_more er I F [] _ _ taken [Clean f] raw rest); try done.
    + set_solver. + apply NoDup_singleton.
    + intros i ->%list_elem_of_singleton. split; [done|]. left. set_solver.
    + set_solver.
    + intros i _ [[Hi| ->%list_elem_of_singleton]%elem_of_app|Hi]; [left; by left|set_solver|left; by right].
  - exists taken. rewrite <- (app_nil_r taken). rewrite <- (app_nil_r raw).
    apply (take_more er I F [] _ _ taken [] raw rest); try done.
    + set_solver. + apply NoDup_nil_2. + set_solver. + set_solver.
    + intros i Hi [[Hf| ->%list_elem_of_singleton]%elem_of_app|Hf]; [left; by left| |left; by right].
      right. left. destruct (decide (Clean f ∈ taken)); [done|]. exfalso. apply Hc. by apply (tk_rest _ _ _ _ _ _ Ht).
Qed.

Lemma inout_dir_taken er I F D taken acc d :
  taken_so_far er I F D taken acc →
  ∃ taken', taken_so_far er I F (D ++ [Clean d]) taken' (inout_dir er acc d).
Proof.
  destruct acc as [raw rest]. intros Ht. unfold inout_dir. case_decide as Hc.
  - exists (taken ++ [Clean d]). apply (take_more er I F D _ _ taken [Clean d] raw rest); try done.
    + set_solver. + apply NoDup_singleton.
    + intros i ->%list_elem_of_singleton. split; [done|]. right. exists (Clean d). set_solver.
    + set_solver.
    + intros i Hi [Hf|[Hd|(e & He & HeI & Hp)]].
      * left. by left.
      * apply elem_of_app in Hd as [Hd|Hd]; [left; right; by left|set_solver].
      * apply elem_of_app in He as [He| ->%list_elem_of_singleton]; [left; right; right; eauto|].
        exfalso. apply HeI. by apply (tk_rest _ _ _ _ _ _ Ht) in Hc as [? _].
  - set (new := elements _). exists (taken ++ new).
    apply (take_more er I F D _ _ taken new raw rest); try done.
    + set_solver. + apply NoDup_elements.
    + intros i Hi. apply elem_of_elements, elem_of_filter in Hi as [Hp Hi]. split; [done|]. right.
      exists (Clean d). split; [set_solver|by right].
    + intros i. rewrite elem_of_difference. unfold new. by rewrite elem_of_elements.
    + assert (∀ i, i ∈ I → i ∈ taken ∨ i ∈ rest) as Hor.
      { intros i Hi. destruct (decide (i ∈ taken)); [by left|right]. by apply (tk_rest _ _ _ _ _ _ Ht). }
      intros i Hi [Hf|[Hd|(e & He & HeI & Hp)]].
      * left. by left.
      * apply elem_of_app in Hd as [Hd| ->%list_elem_of_singleton]; [left; right; by left|].
        right. left. by destruct (Hor _ Hi).
      * apply elem_of_app in He as [He| ->%list_elem_of_singleton]; [left; right; right; eauto|].
        right. destruct (Hor i Hi) as [?|Hr]; [by left|right]. by apply elem_of_elements, elem_of_filter.
Qed.

Lemma foldl_taken (step : list string * gset string → string → list string * gset string)
    (P : list string → list string * gset string → Prop) l :
  (∀ done acc x, P done acc → P (done ++ [Clean x]) (step acc x)) →
  ∀ done acc, P done acc → P (done ++ (Clean <$> l)) (foldl step acc l).
Proof.
  intros Hs. induction l as [|x l IH]; intros done acc HP; simpl; [by rewrite app_nil_r|].
  specialize (IH (done ++ [Clean x]) (step acc x) (Hs _ _ _ HP)). by rewrite <- app_assoc in IH.
Qed.

(** The in-out files are the inputs that the action also writes.  Each is
    listed once, as an absolute path; it is an input that is an output file, an
    output directory or below one; and every input that is an output file or
    directory, or below an output directory that is not itself an input, is
    listed. *)
Theorem inOutFiles_spec er wd inputs files dirs :
  let I := Clean <$> inputs in
  let F := Clean <$> ListRelToExecRoot er wd files in
  let D := Clean <$> ListRelToExecRoot er wd dirs in
  ∃ taken, inOutFiles_of er wd inputs files dirs = (λ i, Join [er; i]) <$> taken ∧ NoDup taken ∧
    (∀ i, i ∈ taken → i ∈ I ∧ is_output F D i) ∧
    (∀ i, i ∈ I → must_take I F D i → i ∈ taken).
Proof.
  intros I F D. unfold inOutFiles_of.
  assert (taken_so_far er I [] [] [] ([], list_to_set I)) as H0.
  { split; simpl; try done; [constructor|..].
    - intros i. rewrite elem_of_list_to_set. set_solver.
    - intros i Hi. by apply elem_of_nil in Hi.
    - intros i _ [Hi|[Hi|(d & Hd & _)]]; [..|by apply elem_of_nil in Hd]; by apply elem_of_nil in Hi. }
  destruct (foldl_taken (inout_file er) (λ F acc, ∃ t, taken_so_far er I F [] t acc)
    (ListRelToExecRoot er wd files)) with (done := @nil string) (acc := ([] : list string, list_to_set I : gset string))
    as [t1 H1']; [intros ??? [t Ht]; by eapply inout_file_taken|by eexists|].
  destruct (foldl_taken (inout_dir er) (λ D acc, ∃ t, taken_so_far er I F D t acc)
    (ListRelToExecRoot er wd dirs)) with (done := @nil string) (acc := foldl (inout_file er) ([] : list string, list_to_set I : gset string) (ListRelToExecRoot er wd files))
    as [t2 [R1 R2 R3 R4 R5]]; [intros ??? [t Ht]; by eapply inout_dir_taken|by eexists|].
  exists t2. split_and!; done.
Qed.


Lemma inOutFiles_spec_witness :
  inOutFiles_of "/er" "out" ["out/a"; "src/x"; "out/d/y"] ["a"; "b"] ["d"] = ["/er/out/a"; "/er/out/d/y"] ∧
  ∃ taken, inOutFiles_of "/er" "out" ["out/a"; "src/x"; "out/d/y"] ["a"; "b"] ["d"] =
    (λ i, Join ["/er"; i]) <$> taken ∧ "out/d/y" ∈ taken.
Proof.
  split; [vm_compute; reflexivity|].
  destruct (inOutFiles_spec "/er" "out" ["out/a"; "src/x"; "out/d/y"] ["a"; "b"] ["d"]) as (taken & H1 & _ & _ & H4).
  exists taken. split; [exact H1|]. apply H4.
  - vm_compute. right. right. left.
  - right. right. exists "out/d". split_and!; [vm_compute; left|apply (proj1 (bool_decide_eq_false _)); vm_compute; reflexivity|reflexivity].
Defined.

(** ** An example of the interface *)

(** A remote side that returns the results it is given. *)
Record ctx_ex := { cx_cached : option Result; cx_exec : Result; cx_result : option Result }.

Definition rexec_example : Rexec ctx_ex := {|
  NewContext c o := Ok {| cx_cached := None;
    cx_exec := {| Status := SuccessResultStatus; ExitCode := 0; res_Err := None |}; cx_result := None |};
  GetCachedResult c f := ({| cx_cached := cx_cached c; cx_exec := cx_exec c; cx_result := cx_cached c |}, f);
  ExecuteRemotely c f := ({| cx_cached := cx_cached c; cx_exec := cx_exec c; cx_result := Some (cx_exec c) |}, f);
  UpdateCachedResult c f := {| cx_cached := cx_cached c; cx_exec := cx_exec c; cx_result := Some (cx_exec c) |};
  GetFlattenedOutputs c := Ok {[ "out/a.o" := "d1" ]};
  DownloadSpecifiedOutputs outs dir c f := (c, f);
  ctx_Result := cx_result;
  ctx_Metadata c := {| ActionDigest := "ad"; CommandDigest := "cd" |};
  ctx_out c := ""
|}.

Lemma rexec_example_laws : @RexecLaws ctx_ex rexec_example.
Proof. split; simpl; eauto. Qed.

Definition cmd_example : Command := {|
  Args := ["clang"; "-c"; "a.c"]; ExecRoot := "/er"; WorkingDir := "out"; RemoteWorkingDir := "";
  cmd_InputSpec := Some {| Inputs := ["a.c"]; VirtualInputs := []; InputExclusions := []; EnvironmentVariables := ∅ |};
  OutputFiles := ["a.o"]; OutputDirs := []; Platform := ∅;
  cmd_Identifiers := {| CommandID := "c"; InvocationID := "i"; ToolName := "t"; ToolVersion := "v"; ExecutionID := "e" |} |}.

Definition cfg_example : action_config := {|
  lbls := ∅; toolchainInputs := []; lOpt := None; execStrategy := REMOTE; compare := false;
  numLocalReruns := 0; numRemoteReruns := 0; cmdEnvironment := ["PATH=/bin"]; windowsCross := false;
  downloadRegex := ""; downloadTmp := ""; atomicDownloads := false |}.

Definition action_example : action (ctx := ctx_ex) := {|
  a_cfg := cfg_example; a_cmd := cmd_example; a_oe := ""; a_fallbackOE := ""; a_fallbackExitCode := 0;
  a_fallbackResultStatus := None; a_rec_local := Some empty_LocalMetadata; a_rec_remote := None;
  a_rOpt := None; a_execContext := None; a_dFile := ""; a_depsFile := ""; a_res := None;
  a_rawInOutFiles := None; a_digest := "" |}.

Definition world_example : world (ctx := ctx_ex) := {| act := action_example; disk := ∅; events := [] |}.


Definition wrapped_example : world (ctx := ctx_ex) :=
  on_act (λ a, {|
    a_cfg := {| lbls := ∅; toolchainInputs := [];
      lOpt := Some {| lo_AcceptCached := false; lo_DoNotCache := false; lo_Wrapper := "wrap.sh" |};
      execStrategy := LOCAL; compare := false; numLocalReruns := 0; numRemoteReruns := 0;
      cmdEnvironment := ["PATH=/bin"]; windowsCross := false; downloadRegex := ""; downloadTmp := "";
      atomicDownloads := false |};
    a_cmd := a_cmd a; a_oe := a_oe a; a_fallbackOE := a_fallbackOE a; a_fallbackExitCode := a_fallbackExitCode a;
    a_fallbackResultStatus := a_fallbackResultStatus a; a_rec_local := a_rec_local a; a_rec_remote := a_rec_remote a;
    a_rOpt := a_rOpt a; a_execContext := a_execContext a; a_dFile := a_dFile a; a_depsFile := a_depsFile a;
    a_res := a_res a; a_rawInOutFiles := a_rawInOutFiles a; a_digest := a_digest a |}) world_example.

Definition ok_pool (c : Command) (f : fs) : option error * exec_result * string * fs := (None, ExecOk, "", f).

(** With the wrapper, the environment has leaked into the action's command. *)
Lemma runLocal_spec_witness :
  ∃ w', runLocal (Sdk := sdk_example) ok_pool wrapped_example = Ok w' ∧
    (EnvironmentVariables <$> cmd_InputSpec (cmd w')) = Some {[ "PATH" := "/bin" ]}.
Proof.
  eexists. split; [reflexivity|].
  edestruct (proj2 (proj2 (proj2 (runLocal_spec (Laws := sdk_example_laws) ok_pool wrapped_example) _ eq_refl)))
    as (env & Henv & Hc).
  - discriminate.
  - reflexivity.
  - rewrite Hc. injection Henv as <-. reflexivity.
Defined.

End Action.
