(* ===== verification/ServerRun.v ===== *)
(** * Running an action: the execution strategies of
    [internal/pkg/reproxy/server.go]

    [runAction] selects the strategy; [runLERC] runs locally with the remote
    cache, [runRemote] remotely under a timeout, [runRacing] both at the same
    time.  Input processing, the race (see Race.v) and the SDK are parameters. *)
From S2P Require Import Prelude GoStrings GoPath PathTranslator GoFS Command LocalResources Action.
From Stdlib Require Import Ascii.
Import Filepath PathTranslator LocalResources Action.

Module ServerRun.

(** [inputprocessor.ProcessInputsOptions] and [CommandIO] *)
Record ProcessInputsOptions := {
  o_ExecutionID : string;
  o_Cmd : list string;
  o_WorkingDir : string;
  o_ExecRoot : string;
  o_Inputs : option InputSpec;
  o_Labels : gmap string string;
  o_ToolchainInputs : list string;
  o_WindowsCross : bool;
  o_ExecStrategy : ExecutionStrategy;
  o_CmdEnvironment : list string
}.

Record CommandIO := {
  io_InputSpec : option InputSpec;
  io_OutputFiles : list string;
  io_OutputDirectories : list string;
  EmittedDependencyFile : string;
  UsedShallowMode : bool
}.

(** The flags and options of the server that the strategies read. *)
Record server_config := {
  RemoteDisabled : bool;
  CleanIncludePaths : bool
}.

(** [cleanIncludePaths]: a trailing [-I] reads past the end of the arguments. *)
Definition include_arg (base dir : string) : string :=
  if negb (IsAbs dir) then "-I" +:+ dir
  else match Rel base dir with Ok r => "-I" +:+ r | _ => "-I" +:+ dir end.

Fixpoint clean_args (base : string) (args : list string) : res (list string) :=
  match args with
  | [] => Ok []
  | arg :: rest =>
      if String.eqb arg "-I" then
        match rest with
        | [] => Panic
        | dir :: rest' => let? r := clean_args base rest' in Ok (include_arg base dir :: r)
        end
      else if HasPrefix arg "-I" then
        let? r := clean_args base rest in
        Ok (include_arg base (TrimSpace (TrimPrefix arg "-I")) :: r)
      else let? r := clean_args base rest in Ok (arg :: r)
  end.

Definition cleanIncludePaths (c : Command) : res (list string) :=
  clean_args (Join [ExecRoot c; WorkingDir c]) (Args c).

Section Server.
Context {ctx : Type} {Rx : Rexec ctx} {Sdk : SDK}.
Variable pool : Command → fs → option error * exec_result * string * fs.
Variable regexp : string → option (string → bool).
Variables (file_digest : fs → string → res string) (Hash : string → string).
Variable stash_name : nat → string.
Variable fmc_Get : fs → string → res node.
Variable VerifyDepsFile : string → fs → res bool.
Variable WriteDepsFile : string → fs → res fs.

Notation world := (world (ctx := ctx)).

(** [InputProcessor.ProcessInputs] *)
Variable ProcessInputs : ProcessInputsOptions → res CommandIO.
(** Some order of the map in [dedup]. *)
Variable dedup_go : list string → list string.
(** [digest.NewFromString], and the download of digests to a directory. *)
Variable NewFromString : string → res string.
Variable DownloadOutputs : outputs → string → fs → res fs.
(** The race of Race.v, with the number of fallbacks that it counts. *)
Variable race : world → res (world * nat).
(** [rCtx.Err()] at the end of [runRemote]. *)
Variable rctx_err : world → option error.
Variable error_string : error → string.
Variable srv : server_config.

(** The action with the counters of the server. *)
Record sworld := {
  sw : world;
  numFallbacks : nat;
  numActions : nat;
  numIPTimeouts : nat
}.

Definition on_world (f : world → world) (s : sworld) : sworld :=
  {| sw := f (sw s); numFallbacks := numFallbacks s; numActions := numActions s; numIPTimeouts := numIPTimeouts s |}.
Definition set_world (w : world) (s : sworld) : sworld := on_world (λ _, w) s.
Definition lift (f : world → res world) (s : sworld) : res sworld :=
  let? w := f (sw s) in Ok (set_world w s).
Definition add_fallbacks (n : nat) (s : sworld) : sworld :=
  {| sw := sw s; numFallbacks := numFallbacks s + n; numActions := numActions s; numIPTimeouts := numIPTimeouts s |}.
Definition add_action (s : sworld) : sworld :=
  {| sw := sw s; numFallbacks := numFallbacks s; numActions := numActions s + 1; numIPTimeouts := numIPTimeouts s |}.
Definition add_timeout (s : sworld) : sworld :=
  {| sw := sw s; numFallbacks := numFallbacks s; numActions := numActions s; numIPTimeouts := numIPTimeouts s + 1 |}.

Definition with_cmd (f : Command → Command) (w : world) : world := on_act (λ a, set_cmd (f (a_cmd a)) a) w.

(** ** Inputs and outputs of the command *)

Definition input_options (a : action) : ProcessInputsOptions := {|
  o_ExecutionID := ExecutionID (cmd_Identifiers (a_cmd (ctx := ctx) a));
  o_Cmd := Args (a_cmd a);
  o_WorkingDir := WorkingDir (a_cmd a);
  o_ExecRoot := ExecRoot (a_cmd a);
  o_Inputs := cmd_InputSpec (a_cmd a);
  o_Labels := lbls (a_cfg a);
  o_ToolchainInputs := toolchainInputs (a_cfg a);
  o_WindowsCross := windowsCross (a_cfg a);
  o_ExecStrategy := execStrategy (a_cfg a);
  o_CmdEnvironment := cmdEnvironment (a_cfg a) |}.

(** The command with the processed inputs and outputs. *)
Definition populated (c : Command) (io : CommandIO) (windowsCross : bool) : Command :=
  let er := ExecRoot c in let wd := WorkingDir c in
  let files := ListRelToWorkingDir er wd (dedup_go (OutputFiles c ++ io_OutputFiles io)) in
  let dirs := ListRelToWorkingDir er wd (dedup_go (OutputDirs c ++ io_OutputDirectories io)) in
  let c := with_outputs (with_InputSpec c (io_InputSpec io)) files dirs in
  if windowsCross
  then with_outputs (with_dirs c (ToSlash wd) (ToSlash (RemoteWorkingDir c))) (ToSlash <$> files) (ToSlash <$> dirs)
  else c.

Definition action_populateCommandIO (w : world) : res (option error * world) :=
  match ProcessInputs (input_options (act w)) with
  | Panic => Panic
  | Fail e =>
      let err := EWrap "processing inputs failed" e in
      Ok (Some err, on_act (set_res (Some (NewLocalErrorResult err))) w)
  | Ok io =>
      let w := with_cmd (λ c, populated c io (windowsCross (cfg w))) w in
      Ok (None, if UsedShallowMode io then
                  let d := EmittedDependencyFile io in
                  on_act (set_deps d (if String.eqb d "" then a_depsFile (act w) else d +:+ ".deps")) w
                else w)
  end.

(** The server counts the timeouts of input processing. *)
Definition populateCommandIO (s : sworld) : res (option error * sworld) :=
  let? (err, w) := action_populateCommandIO (sw s) in
  let s := set_world w s in
  Ok (err, match err with
           | Some e => if errors_Is e EIPTimeout then add_timeout s else s
           | None => s
           end).

Definition addDepsFileOutput (w : world) : world :=
  if String.eqb (a_depsFile (act w)) "" then w
  else with_cmd (λ c, with_outputs c (OutputFiles c ++ [RelToWorkingDir (ExecRoot c) (WorkingDir c) (a_depsFile (act w))])
                        (OutputDirs c)) w.

(** ** Virtual inputs *)

Definition add_virtual (outs : outputs) (vi : VirtualInput) : outputs :=
  if negb (String.eqb (vi_Digest vi) "") && String.eqb (vi_Contents vi) ""
  then <[vi_Path vi := match NewFromString (vi_Digest vi) with Ok d => d | _ => "" end]> outs
  else outs.

Definition place_virtual (outs : outputs) (outDir : string) (w : world) (vi : VirtualInput) : world :=
  if bool_decide (is_Some (outs !! vi_Path vi)) then
    let abspath := Join [outDir; vi_Path vi] in
    let f := if bool_decide (vi_FileMode vi = 0%Z) then disk w
             else match OS.Chmod (disk w) abspath (vi_FileMode vi) with Ok f => f | _ => disk w end in
    emit (EvVirtualInputs [abspath]) (on_disk f w)
  else w.

(** The error is only logged by the callers. *)
Definition downloadVirtualInputs (w : world) : world :=
  match cmd_InputSpec (cmd w) with
  | None => w
  | Some sp =>
      let outs := foldl add_virtual ∅ (VirtualInputs sp) in
      let outDir := Join [ExecRoot (cmd w); WorkingDir (cmd w)] in
      match DownloadOutputs outs outDir (disk w) with
      | Ok f => foldl (place_virtual outs outDir) (on_disk f w) (VirtualInputs sp)
      | _ => w
      end
  end.

(** ** Strategies *)

Definition runLERC (s : sworld) : res sworld :=
  let? w :=
    if String.eqb (downloadRegex (cfg (sw s))) "" then Ok (sw s)
    else match a_rOpt (act (sw s)) with
         | None => Panic
         | Some o => Ok (on_act (set_rOpt (Some {|
             ro_AcceptCached := ro_AcceptCached o; ro_DoNotCache := ro_DoNotCache o;
             ro_DownloadOutputs := false;
             ro_PreserveUnchangedOutputMtime := ro_PreserveUnchangedOutputMtime o;
             ro_Wrapper := ro_Wrapper o; ro_CanonicalizeWorkingDir := ro_CanonicalizeWorkingDir o |})) (sw s))
         end in
  match createExecContext w with
  | Panic => Panic
  | Fail e => Ok (set_world (on_act (set_res (Some (NewLocalErrorResult e))) w) s)
  | Ok w =>
      let? (err, s) := populateCommandIO (set_world w s) in
      match err with
      | Some _ => Ok s
      | None =>
          let w := addDepsFileOutput (sw s) in
          if negb (GetAcceptCached (lOpt (cfg w))) then
            let? w := runLocal pool w in
            let? w := cacheLocal WriteDepsFile w in
            Ok (set_world w s)
          else
            let? w := getCachedResult regexp VerifyDepsFile w in
            if match a_res (act w) with Some r => IsOk r | None => false end then Ok (set_world w s)
            else
              let? w := runLocal pool w in
              let? w := cacheLocal WriteDepsFile w in
              Ok (set_world w s)
      end
  end.

Definition ReclientTimeoutExitCode : Z := (RemoteErrorExitCode + 14)%Z.

Definition timeout_result : Result := {|
  Status := TimeoutResultStatus; ExitCode := ReclientTimeoutExitCode; res_Err := Some EReclientTimeout |}.

Definition opt_Is (e : option error) (target : error) : bool :=
  match e with Some e => errors_Is e target | None => false end.

(** The deferred function of [runRemote]: a result that stems from the timeout
    becomes the timeout result. *)
Definition timed_out (r : Result) (rctx : option error) : bool :=
  opt_Is (res_Err r) EReclientTimeout || opt_Is (res_Err r) ECanceled && opt_Is rctx EReclientTimeout.

Definition finish_remote (w : world) : res world :=
  match a_res (act w) with
  | None => Panic
  | Some r =>
      if timed_out r (rctx_err w) then
        match a_rec_remote (act w) with
        | None => Panic
        | Some m => Ok (on_act (λ a, set_res (Some timeout_result)
                          (set_rec_remote (Some (with_rm_Result (Some timeout_result) m)) a)) w)
        end
      else Ok w
  end.

Definition clean_includes (w : world) : res world :=
  if CleanIncludePaths srv then
    let? args := cleanIncludePaths (cmd w) in Ok (with_cmd (λ c, with_Args c args) w)
  else Ok w.

(** What [runRemote] does once the inputs are there. *)
Definition remote_then_restore (w : world) : res world :=
  let? (copies, w) := if compare (cfg w) then stashInputOutputFiles stash_name w else Ok ([], w) in
  let? w := Action.runRemote regexp file_digest Hash fmc_Get w in
  let? (ok : bool) := res_IsOk (a_res (act w)) in
  if negb ok || negb (compare (cfg w)) then Ok w
  else restoreInOutFiles copies (removeAllOutputs w).

Definition runRemote (s : sworld) : res sworld :=
  let? s := lift clean_includes s in
  let? (err, s) := populateCommandIO s in
  let? w := match err with Some _ => Ok (sw s) | None => remote_then_restore (sw s) end in
  lift finish_remote (set_world w s).

Definition runRacing (s : sworld) : res sworld :=
  let? s := lift clean_includes s in
  let? (err, s) := populateCommandIO s in
  match err with
  | Some _ => Ok s
  | None =>
      let? (w, n) := race (sw s) in
      let w := match a_res (act w) with
               | Some _ => w
               | None => on_act (set_res (Some (NewLocalErrorResult (EMsg "racing did not produce a result")))) w
               end in
      Ok (add_fallbacks n (set_world w s))
  end.

(** The fallback of a failed remote run: its output, exit code and status are
    kept for the response. *)
Definition keep_failure (r : Result) (w : world) : world :=
  on_act (λ a, set_fallback "" (a_oe a) (ExitCode r) (Some (Status r)) a) w.

Definition run_strategy (s : sworld) : res sworld :=
  match execStrategy (cfg (sw s)) with
  | LOCAL =>
      let? s := runLERC (on_world downloadVirtualInputs s) in
      match a_res (act (sw s)) with
      | None => Panic
      | Some r =>
          if negb (IsOk r) && negb (bool_decide (Status r = NonZeroExitResultStatus)) then
            let? s := lift (runLocal pool) s in Ok (add_fallbacks 1 s)
          else Ok s
      end
  | REMOTE => runRemote s
  | REMOTE_LOCAL_FALLBACK =>
      let? s := runRemote s in
      match a_res (act (sw s)) with
      | None => Panic
      | Some r =>
          if IsOk r then Ok s
          else
            let s := on_world (λ w, downloadVirtualInputs (keep_failure r w)) s in
            let? s := lift (runLocal pool) s in
            Ok (add_fallbacks 1 s)
      end
  | RACING => runRacing s
  | UNSPECIFIED => Ok (on_world (on_act (set_res (Some (NewLocalErrorResult (EMsg "invalid execution strategy"))))) s)
  end.

Definition canonicalize (w : world) : world :=
  if default false (ro_CanonicalizeWorkingDir <$> a_rOpt (act w))
  then with_cmd (λ c, with_dirs c (WorkingDir c) (toRemoteWorkingDir (WorkingDir c))) w else w.

(** [failing] is what [shouldFailBuild] returns. *)
Definition runAction (failing : bool * option error) (s : sworld) : res sworld :=
  match failing with
  | (true, Some e) =>
      Ok (on_world (on_act (λ a, set_oe (a_oe a +:+ error_string e) (set_res (Some (NewLocalErrorResult e)) a))) s)
  | (true, None) => Ok s
  | (false, _) =>
      if RemoteDisabled srv then
        let? s := lift (runLocal pool) s in Ok (add_action s)
      else
        let? s := run_strategy (on_world canonicalize s) in
        let? s := lift clearInputOutputFileCache s in
        Ok (add_action s)
  end.

(** ** What the strategies may do *)

Context {Laws : SDKLaws} {RLaws : RexecLaws ctx}.

(** A request that [RunCommand] lets through. *)
Record wf (w : world) : Prop := {
  wf_spec : is_Some (cmd_InputSpec (cmd w));
  wf_env : Forall (λ item, is_Some (SplitN2 item env_separator).2) (cmdEnvironment (cfg w));
  wf_local : is_Some (a_rec_local (act w));
  wf_opt : downloadRegex (cfg w) ≠ "" → is_Some (a_rOpt (act w));
  wf_args : CleanIncludePaths srv = true → is_Some (match cleanIncludePaths (cmd w) with Ok l => Some l | _ => None end)
}.

(** From [w] to [w'] with at most [l] local executions, [e] remote ones and [u]
    updates of the remote cache. *)
Record goes (l e u : nat) (w w' : world) : Prop := {
  go_spec : is_Some (cmd_InputSpec (cmd w'));
  go_local : is_Some (a_rec_local (act w'));
  go_cfg : a_cfg (act w') = a_cfg (act w);
  go_opt : is_Some (a_rOpt (act w)) → is_Some (a_rOpt (act w'));
  go_events : ∃ evs, events w' = events w ++ evs ∧ locals evs ≤ l ∧ execs evs ≤ e ∧ updates evs ≤ u
}.

Lemma goes_refl w : is_Some (cmd_InputSpec (cmd w)) → is_Some (a_rec_local (act w)) → goes 0 0 0 w w.
Proof. intros H1 H2. split; try done. exists []. by rewrite app_nil_r. Qed.

Lemma goes_trans l1 e1 u1 l2 e2 u2 w1 w2 w3 :
  goes l1 e1 u1 w1 w2 → goes l2 e2 u2 w2 w3 → goes (l1 + l2) (e1 + e2) (u1 + u2) w1 w3.
Proof.
  intros [A1 A2 A3 A4 (ea & A5 & A6 & A7 & A8)] [B1 B2 B3 B4 (eb & B5 & B6 & B7 & B8)].
  split; [done|done|congruence|by intros; apply B4, A4|].
  exists (ea ++ eb). rewrite B5, A5, app_assoc. unfold locals, execs, updates in *.
  rewrite !sum_list_with_app. split; [done|lia].
Qed.

Lemma goes_weaken l e u l' e' u' w w' :
  goes l e u w w' → l ≤ l' → e ≤ e' → u ≤ u' → goes l' e' u' w w'.
Proof. intros [A1 A2 A3 A4 (ea & A5 & A6 & A7 & A8)] ???. split; try done. exists ea. split_and!; [done|lia..]. Qed.

(** The files play no part. *)
Lemma goes_from l e u w0 w w' : act w = act w0 → events w = events w0 → goes l e u w w' → goes l e u w0 w'.
Proof. intros Ha He [A1 A2 A3 A4 A5]. split; rewrite <- ?Ha, <- ?He; done. Qed.

(** Steps that only touch the action, the files or harmless events. *)
Lemma goes_quiet w w' evs :
  is_Some (cmd_InputSpec (cmd w')) → is_Some (a_rec_local (act w')) → a_cfg (act w') = a_cfg (act w) →
  (is_Some (a_rOpt (act w)) → is_Some (a_rOpt (act w'))) →
  events w' = events w ++ evs → locals evs = 0 → execs evs = 0 → updates evs = 0 → goes 0 0 0 w w'.
Proof. intros. split; try done. exists evs. split_and!; [done|lia..]. Qed.

(** A step that does nothing that is counted. *)
Ltac quiet := apply (goes_quiet _ _ []); try done; simpl; rewrite ?app_nil_r; eauto.

Lemma sliceToMap_Ok w : wf w → ∃ env, sliceToMap (cmdEnvironment (cfg w)) env_separator = Ok env.
Proof. intros Hw. destruct (sliceToMap_cases (cmdEnvironment (cfg w)) env_separator) as [[_ ?]|[Hn _]]; [done|]. by destruct Hn, Hw. Qed.

Lemma runLocal_goes w :
  is_Some (cmd_InputSpec (cmd w)) → (∃ env, sliceToMap (cmdEnvironment (cfg w)) env_separator = Ok env) →
  ∃ w', runLocal pool w = Ok w' ∧ goes 1 0 0 w w' ∧ is_Some (a_res (act w')) ∧
    a_execContext (act w') = a_execContext (act w).
Proof.
  intros [sp Hsp] [env Henv]. unfold runLocal, local_command.
  change (a_cfg (act w)) with (cfg w). change (a_cmd (act w)) with (cmd w). rewrite Hsp, Henv. simpl.
  set (lc := with_InputSpec _ _). destruct (pool lc (disk w)) as [[[lock exec] out] d].
  destruct (Run lock exec) as [[code r] pe]. eexists. split; [reflexivity|]. simpl. split; [|eauto].
  split; simpl; try done.
  - unfold cmd. simpl. destruct (negb _); simpl; rewrite ?Hsp; eauto.
  - case_bool_decide.
    + exists [EvLocal lc]. split; [done|]. unfold locals, execs, updates. simpl. lia.
    + exists []. rewrite app_nil_r. split; [done|]. unfold locals, execs, updates. simpl. lia.
Qed.

Lemma forget_all_act l (w : world) : act (forget_all l w) = act w ∧
  ∃ evs, events (forget_all l w) = events w ++ evs ∧ locals evs = 0 ∧ execs evs = 0 ∧ updates evs = 0.
Proof.
  unfold forget_all. revert w. induction l as [|p l IH]; intros w; simpl; [split; [done|exists []; by rewrite app_nil_r]|].
  destruct (IH (emit (EvForget p) w)) as (-> & evs & -> & H1 & H2 & H3). split; [done|].
  exists (EvForget p :: evs). simpl. by rewrite <- app_assoc.
Qed.

Lemma clearInputOutputFileCache_goes w :
  is_Some (cmd_InputSpec (cmd w)) → is_Some (a_rec_local (act w)) →
  ∃ w', clearInputOutputFileCache w = Ok w' ∧ goes 0 0 0 w w' ∧ a_res (act w') = a_res (act w).
Proof.
  intros [sp Hsp] Hl. unfold clearInputOutputFileCache.
  assert (∃ l a', inOutFiles (act w) = Ok (l, a') ∧ a_cmd a' = a_cmd (act w) ∧ a_cfg a' = a_cfg (act w) ∧
    a_rec_local a' = a_rec_local (act w) ∧ a_rOpt a' = a_rOpt (act w) ∧ a_res a' = a_res (act w))
    as (l & a' & -> & E1 & E2 & E3 & E4 & E5).
  { unfold inOutFiles. change (a_cmd (act w)) with (cmd w). rewrite Hsp.
    destruct (a_rawInOutFiles (act w)); eexists _, _; split; try reflexivity; done. }
  simpl. destruct (forget_all_act l (on_act (λ _, a') w)) as (Ha & evs & He & Q1 & Q2 & Q3).
  eexists. split; [reflexivity|]. rewrite Ha. split; [|done].
  apply (goes_quiet _ _ evs); try done; unfold cmd; rewrite ?Ha; simpl; rewrite ?E1, ?E2, ?E3, ?E4; try done.
Qed.

Lemma clearInputOutputFileCache_remote (w w' : world) :
  clearInputOutputFileCache w = Ok w' → a_rec_remote (act w') = a_rec_remote (act w).
Proof.
  unfold clearInputOutputFileCache, inOutFiles.
  destruct (a_rawInOutFiles (act w)) as [l|]; simpl; [|destruct (cmd_InputSpec (a_cmd (act w))); simpl; [|done]];
    intros [= <-]; by rewrite (proj1 (forget_all_act _ _)).
Qed.

Lemma clearOutputsCache_act (w : world) : act (clearOutputsCache w) = act w ∧
  ∃ evs, events (clearOutputsCache w) = events w ++ evs ∧ locals evs = 0 ∧ execs evs = 0 ∧ updates evs = 0.
Proof. apply forget_all_act. Qed.

Definition res_ok (w : world) : bool :=
  match a_res (act w) with Some r => IsOk r | None => false end.

Lemma on_local_Ok f m (w : world) :
  a_rec_local (act w) = Some m → on_local f w = Ok (on_act (set_rec_local (Some (f m))) w).
Proof. intros Hm. unfold on_local. by rewrite Hm. Qed.

(** The cache is written only for an ok result, when the options allow it. *)
Lemma cacheLocal_goes w :
  (∀ d f, no_panic (WriteDepsFile d f)) →
  is_Some (cmd_InputSpec (cmd w)) → is_Some (a_rec_local (act w)) → is_Some (a_res (act w)) →
  ∃ w', cacheLocal WriteDepsFile w = Ok w' ∧ a_res (act w') = a_res (act w) ∧
    goes 0 0 (if res_ok w && negb (GetDoNotCache (lOpt (cfg w))) then 1 else 0) w w'.
Proof.
  intros Hnp Hsp Hl [r Hr]. pose proof (goes_refl _ Hsp Hl) as H0.
  unfold cacheLocal, res_ok. rewrite Hr. simpl.
  destruct (a_execContext (act w)) as [ec|]; simpl.
  2: { exists w. split_and!; [done|by rewrite Hr|]. eapply goes_weaken; [exact H0|lia..]. }
  destruct (IsOk r); simpl.
  2: { exists w. by rewrite Hr. }
  destruct (GetDoNotCache (lOpt (cfg w))); simpl.
  { exists w. by rewrite Hr. }
  unfold generateDepsFile.
  assert (∀ d, ∃ w', (let w := clearOutputsCache (on_disk d w) in
      let ec := UpdateCachedResult ec (disk w) in
      let w := emit EvUpdateCache (on_act (set_execContext (Some ec)) w) in
      let? err := res_Err_of (ctx_Result ec) in
      match err with
      | Some _ => Ok w
      | None =>
          let rm := CommandRemoteMetadataToProto (ctx_Metadata ec) in
          let rm := match a_rec_remote (act w) with
                    | Some old => with_CacheHit (CacheHit old) (with_rm_Result (rm_Result old) rm)
                    | None => rm
                    end in
          on_local set_UpdatedCache (on_act (set_rec_remote (Some rm)) w)
      end) = Ok w' ∧ a_res (act w') = Some r ∧ goes 0 0 1 w w') as Hgo.
  { intros d. destruct (clearOutputsCache_act (on_disk d w)) as (Ha & evs & He & Q1 & Q2 & Q3).
    set (w1 := clearOutputsCache (on_disk d w)) in *. cbv zeta.
    destruct (updated_result ec (disk w1)) as [r' Hr'].
    set (ec' := UpdateCachedResult ec (disk w1)) in *. set (w2 := emit EvUpdateCache _).
    assert (∀ w3, a_cmd (act w3) = a_cmd (act w) → is_Some (a_rec_local (act w3)) → a_cfg (act w3) = a_cfg (act w) →
      a_rOpt (act w3) = a_rOpt (act w) → events w3 = events w ++ (evs ++ [EvUpdateCache]) → goes 0 0 1 w w3) as Hg.
    { intros w3 E1 E2 E3 E4 E5. split; try done; [unfold cmd; by rewrite E1|by rewrite E4|].
      exists (evs ++ [EvUpdateCache]). unfold locals, execs, updates in *. rewrite !sum_list_with_app. simpl.
      split_and!; [done|lia..]. }
    assert (events w2 = events w ++ (evs ++ [EvUpdateCache])) as He2.
    { unfold w2. simpl. rewrite He. simpl. by rewrite <- app_assoc. }
    rewrite Hr'. simpl. destruct (res_Err r') as [e|].
    - exists w2. split; [done|]. unfold w2 in *. simpl in *. rewrite Ha. simpl. split; [done|].
      apply Hg; simpl; rewrite ?Ha; done.
    - destruct Hl as [m Hm].
      rewrite (on_local_Ok _ m) by (unfold w2; simpl; by rewrite Ha).
      eexists. split; [reflexivity|]. split; [unfold w2; simpl; by rewrite Ha|].
      apply Hg; unfold w2; simpl; rewrite ?Ha; eauto. }
  destruct (String.eqb (a_dFile (act w)) "") eqn:Ed.
  - destruct (Hgo (disk w)) as (w' & Hw' & Hres & Hg). exists w'. split; [|done].
    rewrite <- Hw'. by destruct w.
  - pose proof (Hnp (a_dFile (act w)) (disk w)) as Hn.
    destruct (WriteDepsFile (a_dFile (act w)) (disk w)) as [f|e|]; [| |done].
    + destruct (Hgo f) as (w' & Hw' & Hres & Hg). exists w'. split; [exact Hw'|done].
    + exists w. split_and!; [done|by rewrite Hr|]. eapply goes_weaken; [exact H0|lia..].
Qed.

(** A local run that ends ok has executed. *)
Lemma runLocal_executed w w' :
  runLocal pool w = Ok w' → res_ok w' = true → ∃ c, events w' = events w ++ [EvLocal c].
Proof.
  unfold runLocal. destruct (local_command (act w)) as [[lc acmd]|e|]; simpl; try done.
  destruct (pool lc (disk w)) as [[[lock exec] out] d]. pose proof (local_result_ok lock exec) as Hok.
  destruct (Run lock exec) as [[code r] pe]. simpl in Hok. intros [= <-]. unfold res_ok. simpl. rewrite Hok.
  rewrite bool_decide_eq_true. intros [-> _]. rewrite bool_decide_true by done. by exists lc.
Qed.

(** The dependencies of a shallow cache entry were verified. *)
Definition validated (w : world) : Prop :=
  a_dFile (act w) = "" ∨ ∃ f, VerifyDepsFile (a_dFile (act w)) f = Ok true.

Lemma getCachedResult_goes w :
  is_Some (cmd_InputSpec (cmd w)) → is_Some (a_rec_local (act w)) → is_Some (a_execContext (act w)) →
  ∃ w', getCachedResult regexp VerifyDepsFile w = Ok w' ∧ goes 0 0 0 w w' ∧
    (res_ok w' = true → validated w').
Proof.
  intros Hsp Hl [ec Hec]. unfold getCachedResult. rewrite Hec.
  destruct (GetCachedResult ec (disk w)) as [ec1 f1]. cbv zeta.
  set (rm := CommandRemoteMetadataToProto (ctx_Metadata ec1)).
  set (w1 := emit EvGetCached _).
  assert (events w1 = events w ++ [EvGetCached]) as He1 by done.
  assert (goes 0 0 0 w w1) as Hg1 by (by apply (goes_quiet _ _ [EvGetCached])).
  destruct (ctx_Result ec1) as [r|] eqn:Hr.
  2: { exists w1. split_and!; [done|done|]. unfold res_ok, w1. simpl. by rewrite ?Hr. }
  destruct (IsOk r) eqn:Hok; simpl.
  2: { exists w1. split_and!; [done|done|]. unfold res_ok, w1. simpl. rewrite ?Hr. by rewrite Hok. }
  set (w2 := on_act _ w1).
  assert (goes 0 0 0 w w2) as Hg2 by (by apply (goes_quiet _ _ [EvGetCached])).
  destruct (cachedResultValid VerifyDepsFile w2) eqn:Hv; simpl.
  - assert (validated w2) as Hval.
    { unfold cachedResultValid in Hv. destruct (String.eqb_spec (a_dFile (act w2)) ""); [by left|right].
      exists (disk w2). destruct (VerifyDepsFile _ _) as [[]| |]; try done. }
    destruct Hl as [m Hm]. rewrite (on_local_Ok _ m) by done. rewrite bind_Ok.
    match goal with |- context [DownloadSpecifiedOutputs ?o ?d ec1 ?f] =>
      destruct (DownloadSpecifiedOutputs o d ec1 f) as [ec2 f2];
      eexists; split; [reflexivity|]; split; [|intros _; exact Hval];
      apply (goes_quiet _ _ ([EvGetCached] ++ [EvDownload o d])) end; try done.
    simpl. by rewrite <- app_assoc.
  - eexists. split; [reflexivity|]. split; [by apply (goes_quiet _ _ [EvGetCached])|].
    unfold res_ok. simpl. by rewrite local_error_not_ok.
Qed.

(** What the LERC strategy did between two states. *)
Record lerc_ran (w w' : world) : Prop := {
  le_goes : goes 1 0 1 w w';
  le_result : is_Some (a_res (act w'));
  le_events : ∃ evs, events w' = events w ++ evs ∧ updates evs ≤ locals evs ∧
    (updates evs = 1 → res_ok w' = true ∧ GetDoNotCache (lOpt (cfg w)) = false) ∧
    (res_ok w' = true → locals evs = 0 → validated w' ∧ GetAcceptCached (lOpt (cfg w)) = true)
}.

Context (H_new : ∀ c o, no_panic (NewContext (ctx := ctx) c o)).
Context (H_write : ∀ d f, no_panic (WriteDepsFile d f)).
Context (H_inputs : ∀ o, no_panic (ProcessInputs o) ∧
  (∀ io, ProcessInputs o = Ok io → is_Some (io_InputSpec io)) ∧
  (∀ e, ProcessInputs o = Fail e → errors_Is e EReclientTimeout = false ∧ errors_Is e ECanceled = false)).

Lemma local_then_cache w0 w :
  goes 0 0 0 w0 w → (∃ env, sliceToMap (cmdEnvironment (cfg w)) env_separator = Ok env) →
  ∃ w', (let? w := runLocal pool w in cacheLocal WriteDepsFile w) = Ok w' ∧ lerc_ran w0 w'.
Proof.
  intros Hg0 Henv. destruct (runLocal_goes w (go_spec _ _ _ _ _ Hg0) Henv) as (w1 & Hw1 & Hg1 & Hr1 & _).
  destruct (cacheLocal_goes w1 H_write (go_spec _ _ _ _ _ Hg1) (go_local _ _ _ _ _ Hg1) Hr1) as (w2 & Hw2 & Hr2 & Hg2).
  rewrite Hw1, bind_Ok. exists w2. split; [done|].
  assert (res_ok w2 = res_ok w1) as Hok by (unfold res_ok; by rewrite Hr2).
  pose proof (goes_trans _ _ _ _ _ _ _ _ _ Hg0 Hg1) as Hg01.
  split; [|by rewrite Hr2|].
  - eapply goes_weaken; [exact (goes_trans _ _ _ _ _ _ _ _ _ Hg01 Hg2)|simpl; try lia..]. case_match; lia.
  - destruct (go_events _ _ _ _ _ Hg0) as (e0 & E0 & L0 & X0 & U0).
    destruct (go_events _ _ _ _ _ Hg1) as (e1 & E1 & L1 & X1 & U1).
    destruct (go_events _ _ _ _ _ Hg2) as (e2 & E2 & L2 & X2 & U2).
    assert (cfg w1 = cfg w0) as Hc by exact (go_cfg _ _ _ _ _ Hg01). rewrite Hc in U2.
    assert (res_ok w1 = true → locals e1 = 1) as Hexec.
    { intros Hk. destruct (runLocal_executed _ _ Hw1 Hk) as [c Hc']. rewrite E1 in Hc'.
      apply app_inv_head in Hc'. by rewrite Hc'. }
    exists (e0 ++ e1 ++ e2). rewrite E2, E1, E0, <- !app_assoc. split; [done|].
    unfold locals, updates in *. rewrite !sum_list_with_app, Hok.
    destruct (res_ok w1) eqn:Hk; simpl in U2; [specialize (Hexec eq_refl)|].
    + destruct (GetDoNotCache (lOpt (cfg w0))); simpl in U2; split_and!; try lia; done.
    + split_and!; try lia; done.
Qed.

Lemma populated_spec c io b : is_Some (io_InputSpec io) → is_Some (cmd_InputSpec (populated c io b)).
Proof. unfold populated. by destruct b. Qed.

Lemma populate_goes s :
  is_Some (cmd_InputSpec (cmd (sw s))) → is_Some (a_rec_local (act (sw s))) →
  ∃ err s', populateCommandIO s = Ok (err, s') ∧ goes 0 0 0 (sw s) (sw s') ∧
    a_execContext (act (sw s')) = a_execContext (act (sw s)) ∧
    (∀ e, err = Some e → a_res (act (sw s')) = Some (NewLocalErrorResult e) ∧
       errors_Is e EReclientTimeout = false ∧ errors_Is e ECanceled = false).
Proof.
  intros Hsp Hl. unfold populateCommandIO, action_populateCommandIO.
  destruct (H_inputs (input_options (act (sw s)))) as (Hnp & Hio & Herr).
  destruct (ProcessInputs _) as [io|e|] eqn:Hp; [| |done].
  - specialize (Hio io eq_refl). eexists None, _. split; [reflexivity|].
    split; [|split; [by destruct (UsedShallowMode io)|done]].
    destruct (UsedShallowMode io); (apply (goes_quiet _ _ []); try done;
      [unfold cmd; simpl; by apply populated_spec|simpl; by rewrite app_nil_r]).
  - destruct (Herr e eq_refl) as [E1 E2]. eexists (Some _), _. split; [reflexivity|].
    split; [|split].
    + destruct (errors_Is _ EIPTimeout); (apply (goes_quiet _ _ []); try done; simpl; by rewrite app_nil_r).
    + by destruct (errors_Is _ EIPTimeout).
    + intros e' [= <-]. split; [by destruct (errors_Is _ EIPTimeout)|]. by split.
Qed.

Lemma addDepsFileOutput_goes w :
  is_Some (cmd_InputSpec (cmd w)) → is_Some (a_rec_local (act w)) →
  goes 0 0 0 w (addDepsFileOutput w) ∧ a_execContext (act (addDepsFileOutput w)) = a_execContext (act w).
Proof.
  intros Hsp Hl. unfold addDepsFileOutput. destruct (String.eqb _ _); [by split; [apply goes_refl|]|].
  split; [|done]. apply (goes_quiet _ _ []); try done. simpl. by rewrite app_nil_r.
Qed.

Lemma goes_env l e u w w' : goes l e u w w' → wf w →
  ∃ env, sliceToMap (cmdEnvironment (cfg w')) env_separator = Ok env.
Proof. intros Hg Hw. destruct (sliceToMap_Ok w Hw) as [env He]. exists env. unfold cfg. by rewrite (go_cfg _ _ _ _ _ Hg). Qed.

(** The first steps of [runLERC]. *)
Lemma lerc_options s : wf (sw s) →
  ∃ w, (if String.eqb (downloadRegex (cfg (sw s))) "" then Ok (sw s)
        else match a_rOpt (act (sw s)) with
             | None => Panic
             | Some o => Ok (on_act (set_rOpt (Some {|
                 ro_AcceptCached := ro_AcceptCached o; ro_DoNotCache := ro_DoNotCache o;
                 ro_DownloadOutputs := false;
                 ro_PreserveUnchangedOutputMtime := ro_PreserveUnchangedOutputMtime o;
                 ro_Wrapper := ro_Wrapper o; ro_CanonicalizeWorkingDir := ro_CanonicalizeWorkingDir o |})) (sw s))
             end) = Ok w ∧ goes 0 0 0 (sw s) w.
Proof.
  intros [W1 W2 W3 W4 W5]. destruct (String.eqb_spec (downloadRegex (cfg (sw s))) "") as [He|He].
  - exists (sw s). split; [done|by apply goes_refl].
  - destruct (W4 He) as [o Ho]. rewrite Ho. eexists. split; [reflexivity|].
    quiet.
Qed.

Lemma createExecContext_goes w :
  is_Some (cmd_InputSpec (cmd w)) → is_Some (a_rec_local (act w)) →
  (∃ e, createExecContext w = Fail e) ∨
  ∃ w', createExecContext w = Ok w' ∧ goes 0 0 0 w w' ∧ is_Some (a_execContext (act w')).
Proof.
  intros Hsp Hl. unfold createExecContext. destruct (a_execContext (act w)) as [ec|] eqn:He.
  - right. exists w. split; [done|]. split; [by apply goes_refl|by rewrite He].
  - pose proof (H_new (cmd w) (execOptionsFromProto (a_rOpt (act w)))) as Hn.
    destruct (NewContext _ _) as [ec|e|]; simpl; [right|left; eauto|done].
    eexists. split; [reflexivity|]. split; [|by eexists]. quiet.
Qed.

(** A cached result that is used. *)
Lemma lerc_cached w0 w w' :
  goes 0 0 0 w0 w → goes 0 0 0 w w' → res_ok w' = true → validated w' →
  GetAcceptCached (lOpt (cfg w)) = true → lerc_ran w0 w'.
Proof.
  intros Hg1 Hg2 Hok Hv Ha. pose proof (goes_trans _ _ _ _ _ _ _ _ _ Hg1 Hg2) as Hg.
  assert (cfg w = cfg w0) as Hc by exact (go_cfg _ _ _ _ _ Hg1). rewrite Hc in Ha.
  destruct (go_events _ _ _ _ _ Hg) as (evs & E & L & X & U). split.
  - eapply goes_weaken; [exact Hg|simpl; lia..].
  - unfold res_ok in Hok. destruct (a_res (act w')); [eauto|done].
  - exists evs. split_and!; [done|simpl in *; lia|simpl in *; lia|done].
Qed.

Lemma runLERC_ran s :
  wf (sw s) →
  ∃ s', runLERC s = Ok s' ∧ is_Some (a_res (act (sw s'))) ∧
    (lerc_ran (sw s) (sw s') ∨
     goes 0 0 0 (sw s) (sw s') ∧ ∃ e, a_res (act (sw s')) = Some (NewLocalErrorResult e)).
Proof.
  intros Hwf. unfold runLERC. destruct (lerc_options s Hwf) as (w1 & -> & G1). rewrite bind_Ok.
  destruct (createExecContext_goes w1 (go_spec _ _ _ _ _ G1) (go_local _ _ _ _ _ G1)) as [[e ->]|(w2 & -> & G2 & C2)].
  { eexists. split; [reflexivity|]. simpl. split; [eauto|right]. split; [|eauto].
    apply (goes_trans 0 0 0 0 0 0 _ _ _ G1). pose proof (go_spec _ _ _ _ _ G1). pose proof (go_local _ _ _ _ _ G1). quiet. }
  pose proof (goes_trans _ _ _ _ _ _ _ _ _ G1 G2) as G12.
  destruct (populate_goes (set_world w2 s) (go_spec _ _ _ _ _ G12) (go_local _ _ _ _ _ G12))
    as (err & s3 & -> & G3 & C3 & Herr). rewrite bind_Ok.
  pose proof (goes_trans _ _ _ _ _ _ _ _ _ G12 G3) as G13. simpl in G13.
  destruct err as [e|].
  { exists s3. split; [done|]. destruct (Herr e eq_refl) as [-> _]. split; [eauto|right]. eauto. }
  destruct (addDepsFileOutput_goes (sw s3) (go_spec _ _ _ _ _ G13) (go_local _ _ _ _ _ G13)) as [G4 C4].
  pose proof (goes_trans _ _ _ _ _ _ _ _ _ G13 G4) as G14. cbv zeta.
  set (w4 := addDepsFileOutput (sw s3)) in *.
  destruct (GetAcceptCached (lOpt (cfg w4))) eqn:Hacc; simpl.
  - destruct (getCachedResult_goes w4 (go_spec _ _ _ _ _ G14) (go_local _ _ _ _ _ G14)) as (w5 & -> & G5 & Hv5).
    { rewrite C4, C3. exact C2. }
    rewrite bind_Ok. fold (res_ok w5). destruct (res_ok w5) eqn:Hok.
    + exists (set_world w5 s3). split; [done|]. pose proof (lerc_cached _ _ _ G14 G5 Hok (Hv5 eq_refl) Hacc) as Hl.
      split; [apply Hl|by left].
    + pose proof (goes_trans _ _ _ _ _ _ _ _ _ G14 G5) as G15.
      destruct (local_then_cache (sw s) w5 G15 (goes_env _ _ _ _ _ G15 Hwf)) as (w6 & Hw6 & Hl).
      destruct (runLocal pool w5) as [w5'| |]; try discriminate Hw6. change (cacheLocal WriteDepsFile w5' = Ok w6) in Hw6.
      exists (set_world w6 s3). split; [simpl; by rewrite Hw6|]. split; [apply Hl|by left].
  - destruct (local_then_cache (sw s) w4 G14 (goes_env _ _ _ _ _ G14 Hwf)) as (w6 & Hw6 & Hl).
    destruct (runLocal pool w4) as [w5'| |]; try discriminate Hw6. change (cacheLocal WriteDepsFile w5' = Ok w6) in Hw6.
    exists (set_world w6 s3). split; [simpl; by rewrite Hw6|]. split; [apply Hl|by left].
Qed.

Lemma runLERC_policy_aux s : wf (sw s) →
  ∃ s', runLERC s = Ok s' ∧ goes 1 0 1 (sw s) (sw s') ∧ is_Some (a_res (act (sw s'))).
Proof.
  intros Hw. destruct (runLERC_ran s Hw) as (s' & -> & Hr & [Hl|[Hg _]]); exists s'; split_and!; try done.
  - apply Hl.
  - eapply goes_weaken; [exact Hg|lia..].
Qed.

(** C7: the local-execution-remote-cache strategy.  On a well-formed request it
    returns with a result; it executes at most once, locally, and writes the
    remote cache only after that execution, when it was ok and caching is
    allowed.  When it is ok without having executed, cached results were
    accepted and the dependencies of the cached one were verified; otherwise the
    result is the error of the set-up or of input processing. *)
Theorem runLERC_policy s :
  wf (sw s) →
  ∃ s', runLERC s = Ok s' ∧ is_Some (a_res (act (sw s'))) ∧
    (lerc_ran (sw s) (sw s') ∨
     goes 0 0 0 (sw s) (sw s') ∧ ∃ e, a_res (act (sw s')) = Some (NewLocalErrorResult e)).
Proof. exact (runLERC_ran s). Qed.

(** ** Remote execution under the timeout *)

Lemma errors_Is_local e t : errors_Is e t = false → opt_Is (res_Err (NewLocalErrorResult e)) t = false.
Proof. rewrite local_error_err. done. Qed.

Lemma timed_out_local e rctx :
  errors_Is e EReclientTimeout = false → errors_Is e ECanceled = false →
  timed_out (NewLocalErrorResult e) rctx = false.
Proof. intros H1 H2. unfold timed_out. by rewrite !errors_Is_local. Qed.

Lemma finish_remote_goes w :
  is_Some (cmd_InputSpec (cmd w)) → is_Some (a_rec_local (act w)) → is_Some (a_res (act w)) →
  (is_Some (a_rec_remote (act w)) ∨
   ∃ e, a_res (act w) = Some (NewLocalErrorResult e) ∧ errors_Is e EReclientTimeout = false ∧ errors_Is e ECanceled = false) →
  ∃ w', finish_remote w = Ok w' ∧ goes 0 0 0 w w' ∧ is_Some (a_res (act w')).
Proof.
  intros Hsp Hl [r Hr] Hrec. unfold finish_remote. rewrite Hr.
  destruct (timed_out r (rctx_err w)) eqn:Ht.
  - destruct Hrec as [[m ->]|(e & He & E1 & E2)].
    + eexists. split; [reflexivity|]. simpl. split; [|eauto]. quiet.
    + rewrite Hr in He. injection He as ->. by rewrite timed_out_local in Ht.
  - exists w. split; [done|]. split; [by apply goes_refl|eauto].
Qed.

Lemma stash_goes w :
  is_Some (cmd_InputSpec (cmd w)) → is_Some (a_rec_local (act w)) →
  ∃ l w', stashInputOutputFiles stash_name w = Ok (l, w') ∧ goes 0 0 0 w w'.
Proof.
  intros [sp Hsp] Hl. unfold stashInputOutputFiles, inOutFiles. change (a_cmd (act w)) with (cmd w). rewrite Hsp.
  destruct (a_rawInOutFiles (act w)); simpl; (eexists _, _; split; [reflexivity|]);
    (apply (goes_quiet _ _ []); try done; unfold cmd in *; simpl; rewrite ?Hsp, ?app_nil_r; eauto).
Qed.

Lemma ran_goes w w' : is_Some (cmd_InputSpec (cmd w)) → is_Some (a_rec_local (act w)) →
  ran_remotely regexp w w' → goes 0 1 0 w w'.
Proof.
  intros Hsp Hl [(evs & He & [E1 E2 E3 E4]) R2 R3 R4 (R5 & R6 & R7 & R8)].
  split; unfold cmd in *; rewrite ?R4, ?R5, ?R6, ?R7; try done. exists evs. split_and!; [done|lia..].
Qed.

Lemma action_runRemote_goes w :
  is_Some (cmd_InputSpec (cmd w)) → is_Some (a_rec_local (act w)) →
  ∃ w', Action.runRemote regexp file_digest Hash fmc_Get w = Ok w' ∧ goes 0 1 0 w w' ∧ is_Some (a_res (act w')) ∧
    (is_Some (a_rec_remote (act w')) ∨ ∃ m, a_res (act w') = Some (NewLocalErrorResult (EMsg m))).
Proof.
  intros Hsp Hl. destruct (runRemote_ran regexp file_digest Hash fmc_Get w H_new) as (w' & Hw' & [(e & He & ->)|Hr]);
    eexists; (split; [exact Hw'|]).
  - unfold createTmpDir in He. destruct (OS.MkdirAll _ _) as [f|e'|] eqn:Hm; simpl in He; try discriminate He.
    injection He as <-. apply MkdirAll_error in Hm as ->. simpl.
    split; [|split; [eauto|right; eauto]]. eapply goes_weaken; [quiet|lia..].
  - split; [by apply ran_goes|]. split; [apply (rr_result _ _ _ Hr)|left].
    destruct (rr_record _ _ _ Hr) as (m & -> & _). eauto.
Qed.

Lemma removeAllOutputs_act (w : world) : act (removeAllOutputs w) = act w ∧ events (removeAllOutputs w) = events w.
Proof. done. Qed.

Lemma remote_then_restore_goes w :
  is_Some (cmd_InputSpec (cmd w)) → is_Some (a_rec_local (act w)) →
  ∃ w', remote_then_restore w = Ok w' ∧ goes 0 1 0 w w' ∧ is_Some (a_res (act w')) ∧
    (is_Some (a_rec_remote (act w')) ∨ ∃ m, a_res (act w') = Some (NewLocalErrorResult (EMsg m))).
Proof.
  intros Hsp Hl. unfold remote_then_restore.
  assert (∃ copies w1, (if compare (cfg w) then stashInputOutputFiles stash_name w else Ok ([], w)) = Ok (copies, w1) ∧
    goes 0 0 0 w w1) as (copies & w1 & -> & G1).
  { destruct (compare (cfg w)); [by apply stash_goes|]. exists [], w. split; [done|by apply goes_refl]. }
  rewrite bind_Ok.
  destruct (action_runRemote_goes w1 (go_spec _ _ _ _ _ G1) (go_local _ _ _ _ _ G1)) as (w2 & -> & G2 & [r Hr] & Hrec).
  rewrite bind_Ok, Hr. simpl. pose proof (goes_trans _ _ _ _ _ _ _ _ _ G1 G2) as G12.
  destruct (negb (IsOk r) || negb (compare (cfg w2))) eqn:Hb.
  { exists w2. split_and!; [done|done|by rewrite Hr|done]. }
  apply orb_false_iff in Hb as [Hok _]. apply negb_false_iff in Hok.
  unfold restoreInOutFiles.
  destruct (clearInputOutputFileCache_goes (on_disk (Stash.Stash.restoreFn copies (disk (removeAllOutputs w2))) (removeAllOutputs w2))
    (go_spec _ _ _ _ _ G2) (go_local _ _ _ _ _ G2)) as (w3 & Hw3 & G3 & R3).
  apply (goes_from _ _ _ w2) in G3; [|done..].
  exists w3. split; [exact Hw3|]. split; [exact (goes_trans _ _ _ _ _ _ _ _ _ G12 G3)|]. rewrite R3. simpl.
  rewrite Hr. split; [eauto|left]. destruct Hrec as [Hrec|[m Hm]].
  - rewrite (clearInputOutputFileCache_remote _ _ Hw3). exact Hrec.
  - rewrite Hr in Hm. injection Hm as ->. by rewrite local_error_not_ok in Hok.
Qed.

Lemma clean_includes_goes w : wf w → ∃ w', clean_includes w = Ok w' ∧ goes 0 0 0 w w'.
Proof.
  intros [W1 W2 W3 W4 W5]. unfold clean_includes. destruct (CleanIncludePaths srv) eqn:Hc.
  - destruct (cleanIncludePaths (cmd w)) as [l|e|]; [|destruct (W5 eq_refl); done..].
    eexists. split; [reflexivity|]. quiet.
  - exists w. split; [done|by apply goes_refl].
Qed.

Lemma runRemote_goes s : wf (sw s) →
  ∃ s', runRemote s = Ok s' ∧ goes 0 1 0 (sw s) (sw s') ∧ is_Some (a_res (act (sw s'))).
Proof.
  intros Hwf. unfold runRemote, lift. destruct (clean_includes_goes (sw s) Hwf) as (w1 & -> & G1). rewrite !bind_Ok.
  destruct (populate_goes (set_world w1 s) (go_spec _ _ _ _ _ G1) (go_local _ _ _ _ _ G1)) as (err & s2 & -> & G2 & _ & Herr).
  rewrite bind_Ok. pose proof (goes_trans _ _ _ _ _ _ _ _ _ G1 G2) as G12. simpl in G12.
  assert (∃ w3, (match err with Some _ => Ok (sw s2) | None => remote_then_restore (sw s2) end) = Ok w3 ∧
    goes 0 1 0 (sw s) w3 ∧ is_Some (a_res (act w3)) ∧
    (is_Some (a_rec_remote (act w3)) ∨ ∃ e, a_res (act w3) = Some (NewLocalErrorResult e) ∧
       errors_Is e EReclientTimeout = false ∧ errors_Is e ECanceled = false)) as (w3 & -> & G3 & R3 & Hrec).
  { destruct err as [e|].
    - destruct (Herr e eq_refl) as (He & E1 & E2). exists (sw s2). split; [done|].
      split; [by eapply goes_weaken; [exact G12|lia..]|]. rewrite He. eauto 10.
    - destruct (remote_then_restore_goes (sw s2) (go_spec _ _ _ _ _ G12) (go_local _ _ _ _ _ G12)) as (w3 & Hw3 & G3 & R3 & Hrec).
      exists w3. split; [done|]. split; [exact (goes_trans _ _ _ _ _ _ _ _ _ G12 G3)|]. split; [done|].
      destruct Hrec as [|[m Hm]]; [by left|right]. exists (EMsg m). done. }
  rewrite bind_Ok. destruct (finish_remote_goes w3 (go_spec _ _ _ _ _ G3) (go_local _ _ _ _ _ G3) R3 Hrec) as (w4 & Hw4 & G4 & R4).
  simpl. rewrite Hw4. simpl. eexists. split; [reflexivity|]. simpl. split; [|done].
  exact (goes_trans _ _ _ _ _ _ _ _ _ G3 G4).
Qed.

(** ** The whole action *)

Lemma place_virtual_keeps outs d l (w : world) :
  act (foldl (place_virtual outs d) w l) = act w ∧
  ∃ evs, events (foldl (place_virtual outs d) w l) = events w ++ evs ∧ locals evs = 0 ∧ execs evs = 0 ∧ updates evs = 0.
Proof.
  revert w. induction l as [|vi l IH]; intros w; simpl; [split; [done|exists []; by rewrite app_nil_r]|].
  destruct (IH (place_virtual outs d w vi)) as (-> & evs & -> & H1 & H2 & H3). unfold place_virtual.
  case_bool_decide; simpl; [|eauto 10]. split; [done|]. eexists (_ :: evs). rewrite <- app_assoc. split; [done|]. by split_and!.
Qed.

Lemma downloadVirtualInputs_keeps (w : world) :
  act (downloadVirtualInputs w) = act w ∧
  ∃ evs, events (downloadVirtualInputs w) = events w ++ evs ∧ locals evs = 0 ∧ execs evs = 0 ∧ updates evs = 0.
Proof.
  unfold downloadVirtualInputs.
  assert (act w = act w ∧ ∃ evs, events w = events w ++ evs ∧ locals evs = 0 ∧ execs evs = 0 ∧ updates evs = 0) as H0.
  { split; [done|exists []; by rewrite app_nil_r]. }
  destruct (cmd_InputSpec (cmd w)) as [sp|]; [|done]. destruct (DownloadOutputs _ _ _); [|done..].
  apply (place_virtual_keeps _ _ _ (on_disk a w)).
Qed.

Lemma keeps_goes (w w' : world) :
  is_Some (cmd_InputSpec (cmd w)) → is_Some (a_rec_local (act w)) →
  (act w' = act w ∧ ∃ evs, events w' = events w ++ evs ∧ locals evs = 0 ∧ execs evs = 0 ∧ updates evs = 0) →
  goes 0 0 0 w w'.
Proof.
  intros H1 H2 (Ha & evs & He & Q1 & Q2 & Q3).
  apply (goes_quiet _ _ evs); unfold cmd; rewrite ?Ha; done.
Qed.

Lemma goes_wf w w' :
  wf w → cmd_InputSpec (cmd w') = cmd_InputSpec (cmd w) → a_cfg (act w') = a_cfg (act w) →
  a_rec_local (act w') = a_rec_local (act w) → a_rOpt (act w') = a_rOpt (act w) →
  cleanIncludePaths (cmd w') = cleanIncludePaths (cmd w) → wf w'.
Proof.
  intros [W1 W2 W3 W4 W5] E1 E2 E3 E4 E5. split.
  - by rewrite E1. - unfold cfg. by rewrite E2. - by rewrite E3.
  - unfold cfg. rewrite E2, E4. exact W4. - by rewrite E5.
Qed.

Lemma canonicalize_wf w : wf w → wf (canonicalize w) ∧ goes 0 0 0 w (canonicalize w).
Proof.
  intros Hw. unfold canonicalize. destruct (default false _).
  - split; [by apply (goes_wf w)|]. pose proof (wf_spec _ Hw). pose proof (wf_local _ Hw). quiet.
  - split; [done|]. apply goes_refl; apply Hw.
Qed.

(** What a strategy is allowed to do: local executions, remote executions,
    updates of the remote cache. *)
Definition budget (st : ExecutionStrategy) : nat * nat * nat :=
  match st with
  | LOCAL => (2, 0, 1)
  | REMOTE => (0, 1, 0)
  | REMOTE_LOCAL_FALLBACK => (1, 1, 0)
  | RACING | UNSPECIFIED => (0, 0, 0)
  end.

Definition within (b : nat * nat * nat) (w w' : world) : Prop := goes b.1.1 b.1.2 b.2 w w'.

Lemma lift_runLocal w0 s l e u :
  wf w0 → goes l e u w0 (sw s) →
  ∃ s', lift (runLocal pool) s = Ok s' ∧ goes (l + 1) e u w0 (sw s') ∧ is_Some (a_res (act (sw s'))).
Proof.
  intros Hw Hg. destruct (runLocal_goes (sw s) (go_spec _ _ _ _ _ Hg) (goes_env _ _ _ _ _ Hg Hw)) as (w1 & Hw1 & G1 & R1 & _).
  unfold lift. rewrite Hw1. eexists. split; [reflexivity|]. simpl. split; [|done].
  eapply goes_weaken; [exact (goes_trans _ _ _ _ _ _ _ _ _ Hg G1)|lia..].
Qed.

Lemma run_LOCAL s : wf (sw s) → execStrategy (cfg (sw s)) = LOCAL →
  ∃ s', run_strategy s = Ok s' ∧ goes 2 0 1 (sw s) (sw s') ∧ is_Some (a_res (act (sw s'))).
Proof.
  intros Hw He. unfold run_strategy. rewrite He.
  pose proof (downloadVirtualInputs_keeps (sw s)) as Hk. pose proof Hk as [Ha _].
  pose proof (keeps_goes _ _ (wf_spec _ Hw) (wf_local _ Hw) Hk) as G0.
  destruct (runLERC_policy_aux (on_world downloadVirtualInputs s)) as (s1 & -> & G1 & [r Hr]).
  { apply (goes_wf (sw s)); try done; simpl; unfold cmd; by rewrite Ha. }
  rewrite bind_Ok, Hr. pose proof (goes_trans _ _ _ _ _ _ _ _ _ G0 G1) as G01. simpl in G01.
  destruct (negb (IsOk r) && negb (bool_decide (Status r = NonZeroExitResultStatus))).
  - destruct (lift_runLocal (sw s) s1 1 0 1 Hw G01) as (s2 & -> & G2 & R2). rewrite bind_Ok. eexists. split; [reflexivity|]. done.
  - exists s1. split; [done|]. rewrite Hr. split; [|eauto]. eapply goes_weaken; [exact G01|lia..].
Qed.

Lemma run_FALLBACK s : wf (sw s) → execStrategy (cfg (sw s)) = REMOTE_LOCAL_FALLBACK →
  ∃ s', run_strategy s = Ok s' ∧ goes 1 1 0 (sw s) (sw s') ∧ is_Some (a_res (act (sw s'))).
Proof.
  intros Hw He. unfold run_strategy. rewrite He.
  destruct (runRemote_goes s Hw) as (s1 & -> & G1 & [r Hr]). rewrite bind_Ok, Hr.
  destruct (IsOk r).
  { exists s1. split; [done|]. rewrite Hr. split; [|eauto]. eapply goes_weaken; [exact G1|lia..]. }
  set (s2 := on_world _ s1).
  assert (goes 0 1 0 (sw s) (sw s2)) as G2.
  { assert (goes 0 0 0 (sw s1) (keep_failure r (sw s1))) as Gk.
    { pose proof (go_spec _ _ _ _ _ G1). pose proof (go_local _ _ _ _ _ G1). quiet. }
    pose proof (keeps_goes _ _ (go_spec _ _ _ _ _ Gk) (go_local _ _ _ _ _ Gk) (downloadVirtualInputs_keeps (keep_failure r (sw s1)))) as Gd.
    eapply goes_weaken; [exact (goes_trans _ _ _ _ _ _ _ _ _ (goes_trans _ _ _ _ _ _ _ _ _ G1 Gk) Gd)|lia..]. }
  destruct (lift_runLocal (sw s) s2 0 1 0 Hw G2) as (s3 & -> & G3 & R3). rewrite bind_Ok. eexists. by split.
Qed.

(** Only [runAction] itself counts actions. *)
Lemma lift_actions f s s' : lift f s = Ok s' → numActions s' = numActions s.
Proof. unfold lift. intros H. inv_bind. by subst. Qed.

Lemma populate_actions s err s' : populateCommandIO s = Ok (err, s') → numActions s' = numActions s.
Proof.
  unfold populateCommandIO. destruct (action_populateCommandIO (sw s)) as [[e w]|e|]; simpl; [|done..].
  intros [= <- <-]. destruct e as [e|]; [|done]. by destruct (errors_Is e EIPTimeout).
Qed.

Lemma runLERC_actions s s' : runLERC s = Ok s' → numActions s' = numActions s.
Proof.
  unfold runLERC. intros H. apply bind_Ok_inv in H as (w & _ & H).
  destruct (createExecContext w) as [w1|e|]; [|by injection H as <-|done].
  apply bind_Ok_inv in H as ([err s1] & Hp & H). apply populate_actions in Hp. simpl in Hp.
  destruct err; [by injection H as <-|]. cbv zeta in H.
  destruct (negb _).
  - inv_bind. by subst.
  - apply bind_Ok_inv in H as (w2 & _ & H). fold (res_ok w2) in H. destruct (res_ok w2); inv_bind; by subst.
Qed.

Lemma runRemote_actions s s' : runRemote s = Ok s' → numActions s' = numActions s.
Proof.
  unfold runRemote. intros H. apply bind_Ok_inv in H as (s1 & H1 & H). apply lift_actions in H1.
  apply bind_Ok_inv in H as ([err s2] & H2 & H). apply populate_actions in H2.
  apply bind_Ok_inv in H as (w & _ & H). apply lift_actions in H. simpl in H. congruence.
Qed.

Lemma run_strategy_actions s s' :
  execStrategy (cfg (sw s)) ≠ RACING → run_strategy s = Ok s' → numActions s' = numActions s.
Proof.
  intros Hr H. unfold run_strategy in H. destruct (execStrategy (cfg (sw s))); [| | |done|by injection H as <-].
  - apply bind_Ok_inv in H as (s1 & H1 & H). apply runLERC_actions in H1.
    destruct (a_res (act (sw s1))); [|done]. destruct (negb _ && negb _); [|by injection H as <-].
    apply bind_Ok_inv in H as (s2 & H2 & H). apply lift_actions in H2. injection H as <-. simpl in *. congruence.
  - by apply runRemote_actions.
  - apply bind_Ok_inv in H as (s1 & H1 & H). apply runRemote_actions in H1.
    destruct (a_res (act (sw s1))); [|done]. destruct (IsOk _); [by injection H as <-|].
    apply bind_Ok_inv in H as (s2 & H2 & H). apply lift_actions in H2. injection H as <-. simpl in *. congruence.
Qed.

Lemma run_strategy_goes s : wf (sw s) → execStrategy (cfg (sw s)) ≠ RACING →
  ∃ s', run_strategy s = Ok s' ∧ within (budget (execStrategy (cfg (sw s)))) (sw s) (sw s') ∧
    is_Some (a_res (act (sw s'))).
Proof.
  intros Hw Hr. destruct (execStrategy (cfg (sw s))) eqn:He; [by apply run_LOCAL| |by apply run_FALLBACK|done|].
  - unfold run_strategy. rewrite He. by apply runRemote_goes.
  - unfold run_strategy. rewrite He. eexists. split; [reflexivity|]. simpl. split; [|eauto].
    pose proof (wf_spec _ Hw). pose proof (wf_local _ Hw). unfold within. simpl. quiet.
Qed.


End Server.
(** ** Examples *)

Definition pool_example (c : Command) (f : fs) : option error * exec_result * string * fs :=
  (None, ExecOk, "", f).

Definition inputs_example (o : ProcessInputsOptions) : res CommandIO :=
  Ok {| io_InputSpec := Some (default {| Inputs := []; VirtualInputs := []; InputExclusions := []; EnvironmentVariables := ∅ |} (o_Inputs o));
        io_OutputFiles := ["a.d"]; io_OutputDirectories := []; EmittedDependencyFile := "a.d"; UsedShallowMode := true |}.

Definition srv_example : server_config := {| RemoteDisabled := false; CleanIncludePaths := true |}.

Definition s_example : sworld (ctx := ctx_ex) :=
  {| sw := world_example; numFallbacks := 0; numActions := 3; numIPTimeouts := 0 |}.

Lemma wf_example : wf srv_example (sw s_example).
Proof.
  split; [by eexists| |by eexists|by intros []|].
  - repeat constructor. by eexists.
  - intros _. vm_compute. by eexists.
Qed.

Lemma inputs_example_ok o : no_panic (inputs_example o) ∧
  (∀ io, inputs_example o = Ok io → is_Some (io_InputSpec io)) ∧
  (∀ e, inputs_example o = Fail e → errors_Is e EReclientTimeout = false ∧ errors_Is e ECanceled = false).
Proof. split; [done|]. split; [|done]. intros io [= <-]. by eexists. Qed.

Lemma runLERC_policy_witness :
  ∃ s', runLERC (Rx := rexec_example) (Sdk := sdk_example) pool_example (λ _, None) (λ _ _, Ok true) (λ _ f, Ok f)
    inputs_example id s_example = Ok s' ∧ is_Some (a_res (act (sw s'))).
Proof.
  destruct (runLERC_policy (Rx := rexec_example) (Sdk := sdk_example) (Laws := sdk_example_laws)
    (RLaws := rexec_example_laws) pool_example (λ _, None) (λ _ _, Ok true) (λ _ f, Ok f)
    inputs_example id srv_example ltac:(discriminate) ltac:(discriminate) inputs_example_ok s_example wf_example)
    as (s' & H1 & H2 & _).
  exists s'. split; [exact H1|exact H2].
Defined.


End ServerRun.
