(* ===== verification/Rerun.v ===== *)
(** * Reruns of an action: [rerunAction] of [internal/pkg/reproxy/server.go] and
      [duplicate] of [action.go]

    In compare mode an action is run again, several times remotely and several
    times locally, each time as a copy of it; what the reruns produced is
    recorded and compared (Compare.v). *)
From S2P Require Import Prelude GoStrings GoPath GoFS Command LocalResources Stash Action Compare.
Import LocalResources Action.

Module Rerun.

(** A rerun in the record of an action. *)
Record RerunMetadata := {
  Attempt : Z;
  rr_Result : Result;
  rr_FileDigests : gmap string string;
  rr_DirectoryDigests : gmap string string
}.

Definition zero_rOpt : RemoteExecutionOptions := {|
  ro_AcceptCached := false; ro_DoNotCache := false; ro_DownloadOutputs := false;
  ro_PreserveUnchangedOutputMtime := false; ro_Wrapper := ""; ro_CanonicalizeWorkingDir := false |}.
Definition zero_lOpt : LocalExecutionOptions := {| lo_AcceptCached := false; lo_DoNotCache := false; lo_Wrapper := "" |}.

Definition with_lOpt (c : action_config) (o : option LocalExecutionOptions) : action_config := {|
  lbls := lbls c; toolchainInputs := toolchainInputs c; lOpt := o; execStrategy := execStrategy c; compare := compare c;
  numLocalReruns := numLocalReruns c; numRemoteReruns := numRemoteReruns c; cmdEnvironment := cmdEnvironment c;
  windowsCross := windowsCross c; downloadRegex := downloadRegex c; downloadTmp := downloadTmp c;
  atomicDownloads := atomicDownloads c |}.

(** What a remote rerun asks for: a run of its own that is not cached and
    whose outputs stay where they are. *)
Definition rerun_options (o : RemoteExecutionOptions) : RemoteExecutionOptions := {|
  ro_AcceptCached := false; ro_DoNotCache := true; ro_DownloadOutputs := false;
  ro_PreserveUnchangedOutputMtime := ro_PreserveUnchangedOutputMtime o; ro_Wrapper := ro_Wrapper o;
  ro_CanonicalizeWorkingDir := ro_CanonicalizeWorkingDir o |}.

Definition by_attempt (a b : RerunMetadata) : Prop := (Attempt a ≤ Attempt b)%Z.

#[export] Instance by_attempt_dec a b : Decision (by_attempt a b).
Proof. unfold by_attempt. apply _. Defined.

#[export] Instance by_attempt_total : Total by_attempt.
Proof. intros a b. unfold by_attempt. lia. Qed.
#[export] Instance by_attempt_trans : Transitive by_attempt.
Proof. intros a b c. unfold by_attempt. lia. Qed.

Section Rerun.
Context {ctx : Type} {Rx : Rexec ctx} {Sdk : SDK}.
Variable pool : Command → fs → option error * exec_result * string * fs.
Variable regexp : string → option (string → bool).
Variables (file_digest : fs → string → res string) (Hash : string → string).
Variable fmc_Get : fs → string → res node.
(** The paths of the copies that stash number [k] makes. *)
Variable stash_names : nat → nat → string.
(** The digests of files and of directories in the metadata of a remote run, and
    those that the SDK computes of the outputs on disk. *)
Variable output_digests : RemoteMetadata → gmap string string * gmap string string.
Variable ComputeOutputsToUpload : Command → list string → fs → res (gmap string string * gmap string string).
Variable dedup_go : list string → list string.
(** The order in which the remote reruns, which are concurrent, take place. *)
Variable order : list nat.

Notation action := (Action.action (ctx := ctx)).
Notation world := (Action.world (ctx := ctx)).

Definition with_act (a : action) (w : world) : world := on_act (λ _, a) w.

(** ** Copies of the action *)

(** A copy for attempt [idx]; the record is new, with the environment and the
    labels of that of the action, whose local metadata must be there. *)
Definition duplicate_one (a : action) (idx : nat) : res action :=
  match a_rec_local a with
  | None => Panic
  | Some _ => Ok {|
      a_cfg := with_lOpt (a_cfg a) (Some (default zero_lOpt (lOpt (a_cfg a))));
      a_cmd := duplicateCmd (a_cmd a) idx;
      a_oe := ""; a_fallbackOE := a_fallbackOE a; a_fallbackExitCode := a_fallbackExitCode a;
      a_fallbackResultStatus := a_fallbackResultStatus a;
      a_rec_local := Some empty_LocalMetadata; a_rec_remote := None;
      a_rOpt := Some (default zero_rOpt (a_rOpt a));
      a_execContext := a_execContext a; a_dFile := a_dFile a; a_depsFile := a_depsFile a; a_res := a_res a;
      a_rawInOutFiles := a_rawInOutFiles a; a_digest := a_digest a |}
  end.

Fixpoint duplicates (a : action) (idxs : list nat) : res (list action) :=
  match idxs with
  | [] => Ok []
  | i :: idxs => let? d := duplicate_one a i in let? ds := duplicates a idxs in Ok (d :: ds)
  end.

Definition duplicate (a : action) (n : nat) : res (list action) := duplicates a (seq 0 n).

(** ** Remote reruns *)

Definition remote_rerun (i : nat) (dup : action) (w : world) : res (RerunMetadata * world) :=
  let? w' := runRemote regexp file_digest Hash fmc_Get
               (with_act (set_rOpt (rerun_options <$> a_rOpt dup) dup) w) in
  match a_res (act w'), a_rec_remote (act w') with
  | Some r, Some m =>
      Ok ({| Attempt := Z.of_nat i + 1; rr_Result := r; rr_FileDigests := (output_digests m).1;
             rr_DirectoryDigests := (output_digests m).2 |}, with_act (act w) w')
  | _, _ => Panic
  end.

(** Each rerun is taken to happen at once; they come from the channel in the
    order in which they end. *)
Fixpoint remote_reruns (dups : list action) (order : list nat) (w : world) : res (list RerunMetadata * world) :=
  match order with
  | [] => Ok ([], w)
  | i :: order =>
      let? dup := or_panic (dups !! i) in
      let? (m, w) := remote_rerun i dup w in
      let? (ms, w) := remote_reruns dups order w in
      Ok (m :: ms, w)
  end.

Definition sort_reruns (l : list RerunMetadata) : list RerunMetadata := merge_sort by_attempt l.

(** ** Local reruns *)

Definition out_paths (c : Command) : list string := OutputFiles c ++ OutputDirs c.

(** One rerun by a copy.  A result is looked at even when there was an error, and
    the upload of the outputs has no effect here. *)
Definition local_rerun (i : nat) (dup : action) (w : world) : res (RerunMetadata * world) :=
  let? w' := runLocal pool (with_act dup w) in
  match a_res (act w') with
  | None => Panic
  | Some r =>
      match ComputeOutputsToUpload (cmd w') (out_paths (cmd w')) (disk w') with
      | Ok (files, dirs) =>
          Ok ({| Attempt := Z.of_nat i + 1; rr_Result := r; rr_FileDigests := files; rr_DirectoryDigests := dirs |},
              with_act (act w) w')
      | _ => Panic
      end
  end.

(** The files that are inputs and outputs are put back and copied again. *)
Definition refresh_in_outs (k : nat) (copies : list (string * string)) (w : world) :
    res (list (string * string) * world) :=
  if compare (cfg w) then
    let? w := restoreInOutFiles copies w in stashInputOutputFiles (stash_names (S k)) w
  else Ok (copies, w).

(** The loop from attempt [i] on: [copies] are those of the last stash. *)
Fixpoint local_reruns (i : nat) (dups : list action) (copies : list (string * string)) (w : world) :
    res (list RerunMetadata * world) :=
  match dups with
  | [] => Ok ([], w)
  | dup :: dups =>
      let w := with_act (act w) (clearOutputsCache (with_act dup w)) in
      let? (copies, w) := refresh_in_outs i copies w in
      let? (m, w) := local_rerun i dup w in
      let? (ms, w) := local_reruns (S i) dups copies w in
      Ok (m :: ms, w)
  end.

(** The files are stashed before the loop; the copies of the last stash are left
    where they are. *)
Definition rerun_locally (dups : list action) (w : world) : res (list RerunMetadata * world) :=
  let? (copies, w) := stashInputOutputFiles (stash_names 0) w in
  local_reruns 0 dups copies w.

(** ** The reruns and their comparison *)

Definition compared (r : RerunMetadata) : Compare.RerunMetadata := {|
  Compare.OutputFileDigests := rr_FileDigests r; Compare.OutputDirectoryDigests := rr_DirectoryDigests r;
  Compare.ExitCode := int32 (ExitCode (rr_Result r)) |}.

(** What the record of the action has at the end.  Without remote metadata the
    remote reruns are not recorded. *)
Record reruns := {
  local_metadata : list RerunMetadata;
  remote_metadata : option (list RerunMetadata);
  verification : option Compare.Verification
}.

Definition recorded (a : action) (local remote : list RerunMetadata) : reruns :=
  let remote := (λ _, remote) <$> a_rec_remote a in {|
    local_metadata := local;
    remote_metadata := remote;
    verification := Compare.compareAction dedup_go {|
      Compare.compare := compare (a_cfg a); Compare.digest := a_digest a;
      Compare.numLocalReruns := numLocalReruns (a_cfg a); Compare.numRemoteReruns := numRemoteReruns (a_cfg a);
      Compare.localReruns := compared <$> local;
      Compare.remoteReruns := fmap compared <$> remote |} |}.

Definition rerunAction (w : world) : res (reruns * world) :=
  let? localActionDupes := duplicate (act w) (numLocalReruns (cfg w)) in
  let? remoteActionDupes := duplicate (act w) (numRemoteReruns (cfg w)) in
  let? (remote, w) := remote_reruns remoteActionDupes order w in
  let? (local, w) := rerun_locally localActionDupes w in
  match a_rec_local (act w) with
  | None => Panic
  | Some _ => Ok (recorded (act w) local (sort_reruns remote), w)
  end.

(** ** What the reruns do *)

Context {Laws : SDKLaws} {RLaws : RexecLaws ctx}.

(** The events of reruns, of which at most [n] executed remotely and [m]
    locally, for the download filter [re]. *)
Record rerun_events (re : string) (n m : nat) (evs : list event) : Prop := {
  ev_asks c o : EvRemote c o ∈ evs → AcceptCached o = false ∧ DoNotCache o = true;
  ev_downloads outs dir : re = "" ∨ re = "-" → EvDownload outs dir ∈ evs → outs = ∅;
  ev_execs : execs evs ≤ n;
  ev_locals : locals evs ≤ m;
  ev_updates : updates evs = 0
}.

Lemma rerun_events_app re n n' m m' l k :
  rerun_events re n m l → rerun_events re n' m' k → rerun_events re (n + n') (m + m') (l ++ k).
Proof.
  intros [A1 A2 A3 A4 A5] [B1 B2 B3 B4 B5]. split.
  - intros c o [H|H]%elem_of_app; eauto.
  - intros outs dir Hre [H|H]%elem_of_app; eauto.
  - unfold execs in *. rewrite sum_list_with_app. lia.
  - unfold locals in *. rewrite sum_list_with_app. lia.
  - unfold updates in *. rewrite sum_list_with_app. lia.
Qed.

Lemma rerun_events_nil re n m : rerun_events re n m [].
Proof. split; [intros ?? []%elem_of_nil|intros ??? []%elem_of_nil|simpl; lia..]. Qed.

Lemma rerun_events_forget re paths : rerun_events re 0 0 (EvForget <$> paths).
Proof.
  split.
  - intros c o (p & ? & _)%list_elem_of_fmap. done.
  - intros outs dir _ (p & ? & _)%list_elem_of_fmap. done.
  - unfold execs. induction paths; simpl; [lia|done].
  - unfold locals. induction paths; simpl; [lia|done].
  - unfold updates. by induction paths.
Qed.

Lemma forget_all_events (paths : list string) (w : world) :
  forget_all paths w = {| act := act w; disk := disk w; events := events w ++ (EvForget <$> paths) |}.
Proof.
  unfold forget_all. revert w. induction paths as [|p paths IH]; intros w; simpl.
  { rewrite app_nil_r. by destruct w. }
  rewrite IH. unfold emit. simpl. by rewrite <- app_assoc.
Qed.

(** The options with which the SDK was asked to run. *)
Definition asks (o : ExecutionOptions) (evs : list event) : Prop := ∀ c o', EvRemote c o' ∈ evs → o' = o.

Definition added (P : list event → Prop) (w w' : world) : Prop := ∃ l, events w' = events w ++ l ∧ P l.

Lemma asks_app o l k : asks o l → asks o k → asks o (l ++ k).
Proof. intros H1 H2 c o' [H|H]%elem_of_app; [by eapply H1|by eapply H2]. Qed.

Lemma asks_other o e : (∀ c o', e ≠ EvRemote c o') → asks o [e].
Proof. intros He c o' E%list_elem_of_singleton. by destruct (He c o'). Qed.

Lemma added_nil o (w w' : world) : events w' = events w → added (asks o) w w'.
Proof. intros E. exists []. rewrite app_nil_r. split; [done|]. by intros ?? ?%elem_of_nil. Qed.

Lemma added_trans o (w1 w2 w3 : world) : added (asks o) w1 w2 → added (asks o) w2 w3 → added (asks o) w1 w3.
Proof.
  intros (l & E & H) (k & E' & H'). exists (l ++ k). split; [by rewrite E', E, app_assoc|by apply asks_app].
Qed.

(** To add the events of [w'] is to add those of every state that has them. *)
Lemma added_events o (w w' w'' : world) : events w'' = events w' → added (asks o) w w' → added (asks o) w w''.
Proof. intros E (l & E' & H). exists l. split; [congruence|done]. Qed.

Lemma added_emit o e (w w' : world) :
  (∀ c o', e = EvRemote c o' → o' = o) → added (asks o) w w' → added (asks o) w (emit e w').
Proof.
  intros He H. eapply added_trans; [exact H|]. exists [e]. split; [done|].
  intros c o' Hin%list_elem_of_singleton. by eapply He.
Qed.

Lemma download_asks (ec : ctx) outDir ex o (w w' : world) :
  download regexp file_digest Hash fmc_Get ec outDir ex w = Ok w' → added (asks o) w w'.
Proof.
  unfold download, publish_ctx. destruct (GetFlattenedOutputs ec) as [outs|e|].
  2,3: intros [= <-]; by apply added_nil.
  cbv beta iota zeta. destruct (DownloadSpecifiedOutputs _ _ _ _) as [ec' f].
  destruct (res_Err_of _) as [[e|]|e|]; cbn [mbind res_bind];
    [|destruct (atomicDownloads _); [destruct (moveOutputsFromTemp _ _ _ _) as [f'|e|]|]|done..];
    intros [= <-]; eexists [_]; (split; [reflexivity|by apply asks_other]).
Qed.

Lemma run_in_asks outDir (w w' : world) :
  run_in regexp file_digest Hash fmc_Get outDir w = Ok w' →
  added (asks (without_download (execOptionsFromProto (a_rOpt (act w))))) w w'.
Proof.
  unfold run_in. set (o := execOptionsFromProto _). destruct (NewContext _ _) as [ec|e|]; [|intros [= <-]; by apply added_nil|done].
  destruct (GetCachedResult ec _) as [ec1 f1]. set (w1 := emit EvGetCached _).
  assert (added (asks (without_download o)) w w1) as H1.
  { apply added_emit; [done|]. eapply (added_events _ _ (emit (EvRemote _ _) w)); [reflexivity|].
    apply added_emit; [by intros c' o' [= _ <-]|by apply added_nil]. }
  assert (∀ ec2 w2, added (asks (without_download o)) w w2 →
    (let? (ok : bool) := res_IsOk (ctx_Result ec2) in
     if ok then download regexp file_digest Hash fmc_Get ec2 outDir
                  (DownloadOutputs o && PreserveUnchangedOutputMtime o) w2
     else Ok (publish_ctx ec2 (with_output ec2 w2))) = Ok w' → added (asks (without_download o)) w w') as H2.
  { intros ec2 w2 Hw2. destruct (res_IsOk _) as [[]|e|]; cbn [mbind res_bind]; [|intros [= <-]; exact Hw2|done..].
    intros Hd. eapply added_trans; [exact Hw2|by eapply download_asks]. }
  destruct (ctx_Result ec1) eqn:E1; [|destruct (ExecuteRemotely ec1 (disk w1)) as [ec2 f2]].
  - by apply H2.
  - apply H2. by apply added_emit.
Qed.

(** A remote run asks the SDK with the options of the action and without
    outputs. *)
Lemma runRemote_asks (w w' : world) :
  runRemote regexp file_digest Hash fmc_Get w = Ok w' →
  added (asks (without_download (execOptionsFromProto (a_rOpt (act w))))) w w'.
Proof.
  unfold runRemote. destruct (atomicDownloads (cfg w)); [|by apply run_in_asks].
  unfold createTmpDir. destruct (OS.MkdirAll _ _) as [f|e|]; cbn [mbind res_bind]; [|intros [= <-]; by apply added_nil|done].
  intros H%run_in_asks. exact H.
Qed.

(** ** They return *)

(** The copies: those of the action, with their numbers. *)
Record copy_of (a : action) (i : nat) (d : action) : Prop := {
  cp_cfg : a_cfg d = with_lOpt (a_cfg a) (Some (default zero_lOpt (lOpt (a_cfg a))));
  cp_cmd : a_cmd d = duplicateCmd (a_cmd a) i;
  cp_rOpt : is_Some (a_rOpt d);
  cp_local : is_Some (a_rec_local d)
}.

Lemma duplicates_ok a idxs :
  is_Some (a_rec_local a) → ∃ ds, duplicates a idxs = Ok ds ∧ Forall2 (copy_of a) idxs ds.
Proof.
  intros [m Hm]. induction idxs as [|i idxs (ds & E & H)]; cbn [duplicates]; [exists []; by split|].
  unfold duplicate_one. rewrite Hm, E. cbn [mbind res_bind]. eexists. split; [reflexivity|].
  constructor; [|done]. by split; simpl; eauto.
Qed.

(** The files that are inputs and outputs of the action. *)
Definition in_outs (a : action) : list string :=
  match a_rawInOutFiles a, cmd_InputSpec (a_cmd a) with
  | Some l, _ => l
  | None, Some sp =>
      inOutFiles_of (ExecRoot (a_cmd a)) (WorkingDir (a_cmd a)) (Inputs sp) (OutputFiles (a_cmd a)) (OutputDirs (a_cmd a))
  | None, None => []
  end.

(** The action is as it was, but the list of these files may have been noted. *)
Definition keeps (a a' : action) : Prop := (∃ l, a' = set_rawInOutFiles l a) ∧ in_outs a' = in_outs a.

Lemma keeps_refl a : keeps a a.
Proof. split; [|done]. exists (a_rawInOutFiles a). by destruct a. Qed.
Lemma keeps_trans a b c : keeps a b → keeps b c → keeps a c.
Proof. intros [[l ->] H] [[k ->] H']. split; [by exists k|by rewrite H']. Qed.

(** What a step of the reruns returns: a state with the same action and more
    events. *)
Record stepped (n m : nat) (w w' : world) : Prop := {
  st_act : keeps (act w) (act w');
  st_events : ∃ evs, events w' = events w ++ evs ∧ rerun_events (downloadRegex (cfg w)) n m evs
}.

Lemma stepped_refl w w' : act w' = act w → events w' = events w → stepped 0 0 w w'.
Proof.
  intros E1 E2. split; [rewrite E1; apply keeps_refl|]. exists []. rewrite app_nil_r. split; [done|apply rerun_events_nil].
Qed.

Lemma keeps_cfg a b : keeps a b → a_cfg b = a_cfg a.
Proof. by intros [[l ->] _]. Qed.

Lemma stepped_trans n n' m m' w1 w2 w3 :
  stepped n m w1 w2 → stepped n' m' w2 w3 → stepped (n + n') (m + m') w1 w3.
Proof.
  intros [A1 (l & E & H)] [B1 (k & E' & H')]. split; [by eapply keeps_trans|].
  exists (l ++ k). split; [by rewrite E', E, app_assoc|].
  unfold cfg in *. rewrite (keeps_cfg _ _ A1) in H'. by apply rerun_events_app.
Qed.

(** The environment: contexts can be made, downloads are not atomic, the client's
    variables have values, the inputs are known, and the outputs can be
    digested. *)
Context (new_context : ∀ c o, no_panic (NewContext c o)).
Context (computes : ∀ c l f, is_ok (ComputeOutputsToUpload c l f) = true).

Record can_rerun (a : action) : Prop := {
  cr_atomic : atomicDownloads (a_cfg a) = false;
  cr_env : Forall (λ item, is_Some (SplitN2 item env_separator).2) (cmdEnvironment (a_cfg a));
  cr_inputs : is_Some (cmd_InputSpec (a_cmd a));
  cr_local : is_Some (a_rec_local a)
}.

Lemma can_rerun_keeps a b : keeps a b → can_rerun a → can_rerun b.
Proof. intros [[l ->] _] [A1 A2 A3 A4]. by split. Qed.

Lemma remote_rerun_ok a i d w :
  can_rerun a → keeps a (act w) → copy_of a i d →
  ∃ m w', remote_rerun i d w = Ok (m, w') ∧ Attempt m = (Z.of_nat i + 1)%Z ∧ stepped 1 0 w w'.
Proof.
  intros [Ha _ _ _] Hk [C1 C2 [o C3] _]. unfold remote_rerun. set (d' := set_rOpt _ d).
  assert (runRemote regexp file_digest Hash fmc_Get (with_act d' w) =
    run_in regexp file_digest Hash fmc_Get (ExecRoot (a_cmd d)) (with_act d' w)) as E.
  { unfold runRemote, cfg. simpl. rewrite C1. simpl. by rewrite Ha. }
  destruct (run_in_ran regexp file_digest Hash fmc_Get (ExecRoot (a_cmd d)) (with_act d' w) new_context)
    as (w' & Hw & [(evs & Ee & Hev) [r Hr] (m & Hm & _) _ _]).
  rewrite E, Hw. cbn [mbind res_bind]. rewrite Hr, Hm. eexists _, _. split; [reflexivity|]. split; [done|].
  split; [apply keeps_refl|]. exists evs. split; [exact Ee|].
  rewrite <- E in Hw. apply runRemote_asks in Hw as (evs' & Ee' & Hask). rewrite Ee in Ee'. apply app_inv_head in Ee' as <-.
  destruct Hev as [V1 V2 V3 V4]. split; [| |done|by rewrite V2|done].
  - intros c o' Hin. rewrite (Hask c o' Hin). simpl. by rewrite C3.
  - intros outs dir Hre Hin. apply map_empty. intros p. destruct (outs !! p) as [x|] eqn:Ep; [|done].
    specialize (V1 outs dir p Hin ltac:(by eexists)). unfold wanted in V1. simpl in V1.
    unfold cfg in Hre. rewrite C1, C3 in V1. rewrite (keeps_cfg _ _ Hk) in Hre. rewrite bool_decide_true in V1 by done. done.
Qed.

Lemma remote_reruns_ok a ds order0 w :
  can_rerun a → keeps a (act w) → Forall2 (copy_of a) (seq 0 (length ds)) ds → Forall (λ i, i < length ds) order0 →
  ∃ ms w', remote_reruns ds order0 w = Ok (ms, w') ∧ Attempt <$> ms = (λ i, Z.of_nat i + 1)%Z <$> order0 ∧
    stepped (length order0) 0 w w'.
Proof.
  intros Ha Hk Hds Ho. revert w Hk. induction Ho as [|i order0 Hi _ IH]; intros w Hk; cbn [remote_reruns].
  { exists [], w. split; [done|]. split; [done|by apply stepped_refl]. }
  destruct (lookup_lt_is_Some_2 ds i Hi) as [d Hd]. rewrite Hd. cbn [or_panic mbind res_bind].
  assert (copy_of a i d) as Hc.
  { destruct (Forall2_lookup_r _ _ _ _ _ Hds Hd) as (j & Hj & Hc). apply lookup_seq in Hj as [-> _]. exact Hc. }
  destruct (remote_rerun_ok a i d w Ha Hk Hc) as (m & w1 & -> & Hm & H1). cbn [mbind res_bind].
  destruct (IH w1) as (ms & w2 & -> & Hms & H2); [by eapply keeps_trans; [|apply (st_act _ _ _ _ H1)]|].
  cbn [mbind res_bind]. eexists _, _. split; [reflexivity|]. split; [cbn; by rewrite Hm, Hms|].
  cbn [length]. change (S (length order0)) with (1 + length order0). change 0 with (0 + 0). by eapply stepped_trans.
Qed.

Lemma inOutFiles_ok a : is_Some (cmd_InputSpec (a_cmd a)) → ∃ a', inOutFiles a = Ok (in_outs a, a') ∧ keeps a a'.
Proof.
  intros [sp Hsp]. unfold inOutFiles, in_outs. destruct (a_rawInOutFiles a) as [l|] eqn:E.
  - exists a. split; [done|apply keeps_refl].
  - rewrite Hsp. eexists. split; [reflexivity|]. split; [by eexists|]. unfold in_outs. simpl. by rewrite E, Hsp.
Qed.

Lemma keeps_inputs a b : keeps a b → cmd_InputSpec (a_cmd b) = cmd_InputSpec (a_cmd a).
Proof. by intros [[l ->] _]. Qed.

Lemma stash_ok k a w :
  can_rerun a → keeps a (act w) →
  ∃ w', stashInputOutputFiles (stash_names k) w =
    Ok (map_to_list (Stash.newFiles (Stash.StashFiles (stash_names k) (disk w) (in_outs a))), w') ∧
    stepped 0 0 w w' ∧ disk w' = Stash.st_fs (Stash.StashFiles (stash_names k) (disk w) (in_outs a)).
Proof.
  intros [_ _ Hi _] Hk. unfold stashInputOutputFiles. rewrite <- (keeps_inputs _ _ Hk) in Hi.
  destruct (inOutFiles_ok _ Hi) as (a' & -> & Hk'). cbn [mbind res_bind]. rewrite (proj2 Hk).
  eexists. split; [reflexivity|]. split; [|done]. split; [exact Hk'|]. exists []. simpl.
  rewrite app_nil_r. split; [done|apply rerun_events_nil].
Qed.

Lemma restore_ok copies a w :
  can_rerun a → keeps a (act w) →
  ∃ w', restoreInOutFiles copies w = Ok w' ∧ stepped 0 0 w w' ∧ disk w' = Stash.restoreFn copies (disk w).
Proof.
  intros [_ _ Hi _] Hk. unfold restoreInOutFiles, clearInputOutputFileCache. rewrite <- (keeps_inputs _ _ Hk) in Hi.
  destruct (inOutFiles_ok (act w) Hi) as (a' & E & Hk'). simpl. rewrite E. cbn [mbind res_bind].
  rewrite forget_all_events. eexists. split; [reflexivity|]. split; [|done]. split; [exact Hk'|].
  eexists. split; [reflexivity|apply rerun_events_forget].
Qed.

Lemma refresh_ok k copies a w :
  can_rerun a → keeps a (act w) → ∃ copies' w', refresh_in_outs k copies w = Ok (copies', w') ∧ stepped 0 0 w w'.
Proof.
  intros Ha Hk. unfold refresh_in_outs. destruct (compare (cfg w)).
  - destruct (restore_ok copies a w Ha Hk) as (w1 & -> & H1 & _). cbn [mbind res_bind].
    destruct (stash_ok (S k) a w1 Ha) as (w2 & -> & H2 & _); [by eapply keeps_trans; [|apply (st_act _ _ _ _ H1)]|].
    eexists _, _. split; [reflexivity|]. by apply (stepped_trans 0 0 0 0 _ w1).
  - eexists _, _. split; [reflexivity|by apply stepped_refl].
Qed.

Lemma local_command_ok a i d : can_rerun a → copy_of a i d → ∃ lc, local_command d = Ok lc.
Proof.
  intros [_ He _ _] [C1 C2 _ _]. unfold local_command. destruct (cmd_InputSpec (a_cmd d)); [|by eexists].
  destruct (sliceToMap_cases (cmdEnvironment (a_cfg d)) env_separator) as [[_ [m ->]]|[Hn _]]; [by eexists|].
  destruct Hn. by rewrite C1.
Qed.

Lemma local_rerun_ok a i d w :
  can_rerun a → keeps a (act w) → copy_of a i d →
  ∃ m w', local_rerun i d w = Ok (m, w') ∧ Attempt m = (Z.of_nat i + 1)%Z ∧ stepped 0 1 w w'.
Proof.
  intros Ha Hk Hc. unfold local_rerun, runLocal. destruct (local_command_ok a i d Ha Hc) as [[lc ac] E]. simpl. rewrite E.
  cbn [mbind res_bind]. destruct (pool lc (disk w)) as [[[lock exec] out] disk'].
  destruct (Run lock exec) as [[ec r] x]. cbn [mbind res_bind act a_res set_cmd set_res].
  match goal with |- context [ComputeOutputsToUpload ?c ?l ?f] => pose proof (computes c l f) as Hcomp;
    destruct (ComputeOutputsToUpload c l f) as [[files dirs]|e|]; [|discriminate Hcomp..] end.
  eexists _, _. split; [reflexivity|]. split; [done|]. split; [apply keeps_refl|]. simpl.
  exists (if bool_decide (lock = None) then [EvLocal lc] else []).
  split; [case_bool_decide; [done|by rewrite app_nil_r]|]. case_bool_decide; [|apply rerun_events_nil].
  split; [intros ?? ?%list_elem_of_singleton; done|intros ??? ?%list_elem_of_singleton; done|done..].
Qed.

Lemma clear_outputs_stepped (d : action) (w : world) :
  stepped 0 0 w (with_act (act w) (clearOutputsCache (with_act d w))).
Proof.
  unfold clearOutputsCache. rewrite forget_all_events. split; [apply keeps_refl|].
  eexists. split; [reflexivity|apply rerun_events_forget].
Qed.

Lemma local_reruns_ok a i ds copies w :
  can_rerun a → keeps a (act w) → Forall2 (copy_of a) (seq i (length ds)) ds →
  ∃ ms w', local_reruns i ds copies w = Ok (ms, w') ∧ Attempt <$> ms = (λ i, Z.of_nat i + 1)%Z <$> seq i (length ds) ∧
    stepped 0 (length ds) w w'.
Proof.
  intros Ha. revert i copies w. induction ds as [|d ds IH]; intros i copies w Hk Hds; cbn [local_reruns].
  { exists [], w. split; [done|]. split; [done|by apply stepped_refl]. }
  cbn [length seq] in Hds. apply Forall2_cons in Hds as [Hd Hds].
  pose proof (clear_outputs_stepped d w) as H0. set (w0 := with_act (act w) _) in *.
  assert (keeps a (act w0)) as Hk0 by (by eapply keeps_trans; [|apply (st_act _ _ _ _ H0)]).
  destruct (refresh_ok i copies a w0 Ha Hk0) as (copies' & w1 & -> & H1). cbn [mbind res_bind].
  assert (keeps a (act w1)) as Hk1 by (by eapply keeps_trans; [|apply (st_act _ _ _ _ H1)]).
  destruct (local_rerun_ok a i d w1 Ha Hk1 Hd) as (m & w2 & -> & Hm & H2). cbn [mbind res_bind].
  destruct (IH (S i) copies' w2) as (ms & w3 & -> & Hms & H3); [by eapply keeps_trans; [|apply (st_act _ _ _ _ H2)]|done|].
  cbn [mbind res_bind]. eexists _, _. split; [reflexivity|]. split; [cbn; by rewrite Hm, Hms|].
  eapply (stepped_trans 0 0 0 (S (length ds))); [exact H0|]. eapply (stepped_trans 0 0 0 (S (length ds))); [exact H1|].
  by eapply (stepped_trans 0 0 1 (length ds)).
Qed.

(** The numbers of [n] attempts. *)
Definition attempts (n : nat) : list Z := (λ i, Z.of_nat i + 1)%Z <$> seq 0 n.

Lemma sort_reruns_attempts ms n :
  order ≡ₚ seq 0 n → Attempt <$> ms = (λ i, Z.of_nat i + 1)%Z <$> order → Attempt <$> sort_reruns ms = attempts n.
Proof.
  intros Ho Hms. apply (StronglySorted_unique Z.le).
  - apply (StronglySorted_fmap _ by_attempt); [done|]. apply (StronglySorted_merge_sort by_attempt).
  - clear Ho. unfold attempts. generalize 0. induction n as [|n IH]; intros i; simpl; constructor; [apply IH|].
    apply Forall_fmap, Forall_forall. intros j [Hj _]%elem_of_seq. unfold compose. lia.
  - unfold sort_reruns. rewrite (merge_sort_Permutation by_attempt). rewrite Hms. unfold attempts. by rewrite Ho.
Qed.


(** What a local rerun leaves: the action, and what the executor left on disk if
    it ran. *)
Lemma local_rerun_disk i d w m w' :
  local_rerun i d w = Ok (m, w') → act w' = act w ∧ (disk w' = disk w ∨ ∃ c, disk w' = (pool c (disk w)).2).
Proof.
  unfold local_rerun, runLocal. simpl. destruct (local_command d) as [[lc ac]|e|]; cbn [mbind res_bind]; [|done..].
  destruct (pool lc (disk w)) as [[[lock exec] out] disk'] eqn:E. destruct (Run lock exec) as [[ec r] x]. simpl.
  destruct (ComputeOutputsToUpload _ _ _) as [[files dirs]|e|]; [|done..]. intros [= <- <-]. split; [done|]. simpl.
  case_bool_decide; [right; exists lc; by rewrite E|by left].
Qed.

End Rerun.

(** ** All local reruns start from the same files *)

Section Alike.
Context {ctx : Type} {Rx : Rexec ctx} {Sdk : SDK}.
Variables pool pool' : Command → fs → option error * exec_result * string * fs.
Variable stash_names : nat → nat → string.
Variable ComputeOutputsToUpload : Command → list string → fs → res (gmap string string * gmap string string).

Notation action := (Action.action (ctx := ctx)).
Notation world := (Action.world (ctx := ctx)).

(** The files that are inputs and outputs, and the disk before the first local
    rerun. *)
Variables (L : list string) (d0 : fs).
Hypothesis names_inj : ∀ k i k' i', stash_names k i = stash_names k' i' → k = k' ∧ i = i'.
Hypothesis names_path : ∀ k i, stash_names k i ≠ "/" ∧ stash_names k i ∉ L.
(** The executors do the same where these files are as they were, and leave the
    copies alone. *)
Hypothesis pools_agree : ∀ c f, Stash.as_before L d0 f → pool c f = pool' c f.
Hypothesis pool_tame : ∀ c f, Stash.as_before L d0 f → Stash.tame stash_names L f (pool c f).2.

Notation ready := (Stash.ready stash_names L d0).
Notation running := (Stash.running stash_names L).
Notation copies_of k g := (map_to_list (Stash.newFiles (Stash.stashed stash_names L k g))).

Lemma refresh_alike k g (a : action) (w : world) :
  can_rerun a → keeps a (act w) → in_outs a = L → compare (a_cfg a) = true →
  ready k g → running k g (disk w) →
  ∃ g' w', refresh_in_outs stash_names k (copies_of k g) w = Ok (copies_of (S k) g', w') ∧ keeps a (act w') ∧
    ready (S k) g' ∧ disk w' = Stash.st_fs (Stash.stashed stash_names L (S k) g').
Proof.
  intros Ha Hk HL Hc Hg Hr. unfold refresh_in_outs, cfg. rewrite (keeps_cfg _ _ Hk), Hc.
  destruct (restore_ok (copies_of k g) a w Ha Hk) as (w1 & -> & H1 & D1). cbn [mbind res_bind].
  pose proof (keeps_trans _ _ _ Hk (st_act _ _ _ _ H1)) as Hk1.
  destruct (stash_ok stash_names (S k) a w1 Ha Hk1) as (w2 & -> & H2 & D2). rewrite HL in D2 |- *.
  exists (disk w1), w2. split; [done|]. split; [by eapply keeps_trans; [|apply (st_act _ _ _ _ H2)]|].
  split; [|done]. rewrite D1. by apply Stash.restore_ready.
Qed.

Lemma local_reruns_alike (a : action) ds k g (w : world) :
  can_rerun a → keeps a (act w) → in_outs a = L → compare (a_cfg a) = true →
  ready k g → running k g (disk w) →
  local_reruns pool stash_names ComputeOutputsToUpload k ds (copies_of k g) w =
  local_reruns pool' stash_names ComputeOutputsToUpload k ds (copies_of k g) w.
Proof.
  intros Ha. revert k g w. induction ds as [|d ds IH]; intros k g w Hk HL Hc Hg Hr; [done|]. cbn [local_reruns].
  set (w0 := with_act (act w) (clearOutputsCache (with_act d w))).
  assert (act w0 = act w ∧ disk w0 = disk w) as [A0 D0] by (unfold w0, clearOutputsCache; by rewrite forget_all_events).
  destruct (refresh_alike k g a w0) as (g' & w1 & -> & Hk1 & Hg' & D1); [done|by rewrite A0|done..|by rewrite D0|].
  cbn [mbind res_bind]. destruct (Stash.ready_running _ _ _ names_inj names_path _ _ Hg') as [Hr' Hb]. rewrite <- D1 in Hr', Hb.
  assert (local_rerun pool' ComputeOutputsToUpload k d w1 = local_rerun pool ComputeOutputsToUpload k d w1) as ->.
  { unfold local_rerun, runLocal. simpl. destruct (local_command d) as [[lc ac]|e|]; [|done..]. cbn [mbind res_bind].
    by rewrite <- pools_agree. }
  destruct (local_rerun pool ComputeOutputsToUpload k d w1) as [[m w2]|e|] eqn:E2; [|done..]. cbn [mbind res_bind].
  apply local_rerun_disk in E2 as [A2 D2].
  rewrite (IH (S k) g' w2); [done|by rewrite A2|done..|]. destruct D2 as [->|[c ->]]; [done|].
  eapply Stash.running_tame; [exact Hr'|]. by apply pool_tame.
Qed.


End Alike.

(** ** On a concrete action *)

Module Concrete.

(** Names of copies by their two numbers. *)
Definition names (k i : nat) : string := "/tmp/" +:+ (Stash.unary k +:+ ("-" +:+ Stash.unary i)).

Lemma unary_inj i j : Stash.unary i = Stash.unary j → i = j.
Proof. intros E. apply Stash.copy_name_inj. unfold Stash.copy_name. by rewrite E. Qed.

Lemma names_inj k i k' i' : names k i = names k' i' → k = k' ∧ i = i'.
Proof.
  unfold names. intros H%(inj (String.append _)). revert k' H. induction k as [|k IH]; intros [|k'] H.
  - split; [done|]. change ("u-" +:+ ?x) with ("u-" +:+ x) in H. simpl in H. injection H as H. by apply unary_inj.
  - simpl in H. injection H as H. destruct k'; simpl in H; discriminate H.
  - simpl in H. injection H as H. destruct k; simpl in H; discriminate H.
  - simpl in H. injection H as H. apply IH in H as [-> ->]. done.
Qed.

Lemma names_other k i p : HasPrefix p "/tmp/" = false → p ≠ names k i.
Proof. intros H ->. unfold names in H. simpl in H. discriminate H. Qed.

Lemma names_dir k i : Filepath.Dir (names k i) = "/tmp".
Proof.
  assert (Split (names k i) Filepath.slash = [""; "tmp"; Stash.unary k +:+ ("-" +:+ Stash.unary i)]) as H.
  { change (names k i) with
      (GoStrings.Join [""; "tmp"; Stash.unary k +:+ ("-" +:+ Stash.unary i)] (String Filepath.slash "")).
    apply Split_Join; [done|]. repeat constructor. induction k; simpl; [by induction i|done]. }
  unfold Filepath.Dir. rewrite H. vm_compute. reflexivity.
Qed.

(** An action that appends to a log which is also its input. *)
Definition config (regex : string) (atomic : bool) : action_config := {|
  lbls := ∅; toolchainInputs := []; lOpt := None; execStrategy := REMOTE; compare := true;
  numLocalReruns := 2; numRemoteReruns := 2; cmdEnvironment := ["PATH=/bin"]; windowsCross := false;
  downloadRegex := regex; downloadTmp := ""; atomicDownloads := atomic |}.

Definition command : Command := {|
  Args := ["tool"]; ExecRoot := "/er"; WorkingDir := "out"; RemoteWorkingDir := "";
  cmd_InputSpec := Some {| Inputs := ["out/log"]; VirtualInputs := []; InputExclusions := []; EnvironmentVariables := ∅ |};
  OutputFiles := ["log"]; OutputDirs := []; Platform := ∅;
  cmd_Identifiers := {| CommandID := "c"; InvocationID := "i"; ToolName := "t"; ToolVersion := "v"; ExecutionID := "e" |} |}.

Definition d0 : fs := {[ "/tmp" := NDir; "/er" := NDir; "/er/out" := NDir; "/er/out/log" := NFile "start" 420 ]}.

Definition start (regex : string) (atomic : bool) (d : fs) : world (ctx := ctx_ex) := {|
  act := {|
    a_cfg := config regex atomic; a_cmd := command; a_oe := ""; a_fallbackOE := ""; a_fallbackExitCode := 0;
    a_fallbackResultStatus := None; a_rec_local := Some empty_LocalMetadata;
    a_rec_remote := Some {| rm_Result := None; CacheHit := false; rm_ActionDigest := ""; rm_CommandDigest := "" |};
    a_rOpt := None; a_execContext := None; a_dFile := ""; a_depsFile := ""; a_res := None;
    a_rawInOutFiles := None; a_digest := "" |};
  disk := d; events := [] |}.

(** The executor appends to the log, and the digests are the contents. *)
Definition pool (c : Command) (f : fs) : option error * exec_result * string * fs :=
  match f !! "/er/out/log" with
  | Some (NFile s m) => (None, ExecOk, "", <["/er/out/log" := NFile (s +:+ "+") m]> f)
  | _ => (None, ExitError 1, "", f)
  end.
Definition digests (c : Command) (paths : list string) (f : fs) : res (gmap string string * gmap string string) :=
  match f !! "/er/out/log" with Some (NFile s _) => Ok ({[ "log" := s ]}, ∅) | _ => Ok (∅, ∅) end.
Definition no_digests (c : Command) (paths : list string) (f : fs) : res (gmap string string * gmap string string) :=
  Fail (EMsg "cannot read an output").

Definition rerun (compute : Command → list string → fs → res (gmap string string * gmap string string))
    (order : list nat) (w : world (ctx := ctx_ex)) :=
  rerunAction (Rx := rexec_example) (Sdk := sdk_example) pool (λ e, Some (λ s, Contains s e)) (λ _ _, Ok "") id
    (λ _ _, Fail ENotExist) names (λ _, ({[ "log" := "start+" ]}, ∅)) compute remove_dups order w.

Definition report (r : res (reruns * world (ctx := ctx_ex))) :
    res (list (list (string * string)) * option (list Z) * option (list Compare.Mismatch) * option Z) :=
  match r with
  | Ok (rs, _) => Ok (map (λ r, map_to_list (rr_FileDigests r)) (local_metadata rs), option_map (map Attempt) (remote_metadata rs),
                      option_map Compare.Mismatches (verification rs), option_map Compare.TotalVerified (verification rs))
  | Fail e => Fail e
  | Panic => Panic
  end.

Definition after {A} (f : world (ctx := ctx_ex) → A) (r : res (reruns * world (ctx := ctx_ex))) : res A :=
  match r with Ok (_, w) => Ok (f w) | Fail e => Fail e | Panic => Panic end.

(** Both local reruns see the log as it was, and agree with the remote ones. *)
Example compared_runs :
  report (rerun digests [1; 0] (start "" false d0)) =
  Ok ([[("log", "start+")]; [("log", "start+")]], Some [1; 2]%Z, Some [], Some 1%Z).
Proof. vm_compute. reflexivity. Qed.

(** The copies of the last stash stay in the temporary directory. *)
Example copies_left :
  after (λ w, elements (dom (filter (λ kv : string * node, kv.1 ∉ ["/tmp"; "/er"; "/er/out"; "/er/out/log"]) (disk w))))
    (rerun digests [0; 1] (start "" false d0)) =
  Ok ["/tmp/uuu-u"].
Proof. vm_compute. reflexivity. Qed.

Definition downloads (evs : list event) : list (list string) :=
  omap (λ e, match e with EvDownload outs _ => Some (elements (dom outs)) | _ => None end) evs.

(** Outputs are not to be downloaded by a rerun; with a download filter they are,
    over those of the action. *)
Example filter_downloads :
  after (λ w, downloads (events w)) (rerun digests [0; 1] (start "" false d0)) = Ok [[]; []] ∧
  after (λ w, downloads (events w)) (rerun digests [0; 1] (start "a.o" false d0)) = Ok [["out/a.o"]; ["out/a.o"]].
Proof. split; vm_compute; reflexivity. Qed.

(** A temporary directory that cannot be made, and outputs that cannot be read,
    end the process: what the failed call would have given is used. *)
Example failures_panic :
  rerun digests [0; 1] (start "" true (<["/er/out/.reproxy_tmp" := NFile "" 420]> d0)) = Panic ∧
  rerun no_digests [0; 1] (start "" false d0) = Panic.
Proof. split; vm_compute; reflexivity. Qed.

Lemma start_can_rerun regex : can_rerun (act (start regex false d0)).
Proof. split; [done|repeat constructor; eexists; reflexivity|by eexists|by eexists]. Qed.

Lemma d0_ready : (∀ k i, d0 !! names k i = None) ∧ Stash.names_dirs names d0 ∧ Stash.parents ["/er/out/log"] d0.
Proof.
  split_and!.
  - intros k i. unfold d0. rewrite !lookup_insert_ne by (by apply names_other). apply lookup_singleton_ne. by apply names_other.
  - intros k i. rewrite names_dir. reflexivity.
  - intros p ->%list_elem_of_singleton _. vm_compute. reflexivity.
Qed.

(** An executor that does something else once the log has changed. *)
Definition pool' (c : Command) (f : fs) : option error * exec_result * string * fs :=
  if bool_decide (f !! "/er/out/log" = Some (NFile "start" 420)) then pool c f else (None, ExitError 2, "changed", f).

Lemma log_before f : Stash.as_before ["/er/out/log"] d0 f → f !! "/er/out/log" = Some (NFile "start" 420).
Proof.
  intros H. rewrite (H "/er/out/log"); [vm_compute; reflexivity|by left|].
  split; [done|]. exists "start", 420%Z. vm_compute. reflexivity.
Qed.

Lemma pools_agree c f : Stash.as_before ["/er/out/log"] d0 f → pool c f = pool' c f.
Proof. intros H%log_before. unfold pool'. by rewrite bool_decide_true. Qed.

Lemma pool_tame c f : Stash.as_before ["/er/out/log"] d0 f → Stash.tame names ["/er/out/log"] f (pool c f).2.
Proof.
  intros H%log_before. unfold pool. rewrite H. cbn [snd].
  assert (∀ q, OS.is_dir (<["/er/out/log" := NFile ("start" +:+ "+") 420]> f) q = OS.is_dir f q) as Hdir.
  { intros q. unfold OS.is_dir. f_equal. destruct (decide (q = "/er/out/log")) as [->|Hq].
    - by rewrite lookup_insert_eq, H.
    - by rewrite lookup_insert_ne. }
  split.
  - intros k i. apply lookup_insert_ne. by apply names_other.
  - intros Hd k i. rewrite Hdir. apply Hd.
  - intros Hp p ->%list_elem_of_singleton _. rewrite Hdir. apply Hp; [by left|]. split; [done|]. eauto.
  - intros p _. by rewrite Hdir.
  - intros p _. by rewrite Hdir.
Qed.

End Concrete.



End Rerun.
