(* ===== verification/Race.v ===== *)
(** * Racing: [race], [runRemoteRace] and [runLocalRace] of
    [internal/pkg/reproxy/action.go]

    Three goroutines and two channels: the remote run, the local run, and the
    caller that picks the winner.  The race is a transition system whose labels
    are their atomic steps; what the SDK, the local pool and the disk return is
    part of the label, so that a schedule is an interleaving together with the
    behaviour of the environment. *)
From S2P Require Import Prelude Command LocalResources.
Import LocalResources.

Module Race.

Inductive resultType := remote | local | canceled.

#[export] Instance resultType_eq_dec : EqDecision resultType.
Proof. solve_decision. Defined.

Record raceResult := { rr_res : option Result; rr_t : resultType }.

Section Race.
Context {Sdk : SDK}.

(** Where [runRemoteRace] is; [RDone rr]: its result has been sent. *)
Inductive remote_phase :=
  | RStart
  | RExecuting
  | RExecuted (r : Result)
  | RGot (r : Result)
  | RDownloading (r : Result)
  | RDownloaded (r : Result)
  | RDone (rr : raceResult).

Inductive local_phase :=
  | LWait
  | LQueue
  | LExecuting
  | LDone (rr : raceResult).

(** The caller: before its first receive, before its second one, with the
    results that it received, or returned.  [MReturned None] is a return because
    the context was done. *)
Inductive main_phase :=
  | MFirst
  | MSecond (w : raceResult)
  | MFinal (w1 : raceResult) (w2 : option raceResult)
  | MReturned (rs : option (raceResult * option raceResult)).

Record state := {
  lCh_closed : bool;
  holdoff : bool;
  ctx_done : option error;
  c_cancelled : bool;
  ch : list raceResult;
  remote_p : remote_phase;
  local_p : local_phase;
  main_p : main_phase;
  a_result : option Result;
  moved : bool;
  numFallbacks : nat
}.

(** [race], once the temporary directory exists, when the goroutines start. *)
Definition init : state := {|
  lCh_closed := false; holdoff := false; ctx_done := None; c_cancelled := false; ch := [];
  remote_p := RStart; local_p := LWait; main_p := MFirst; a_result := None; moved := false;
  numFallbacks := 0 |}.

(** [cCtx.Done()] is ready. *)
Definition c_done (s : state) : bool := c_cancelled s || bool_decide (is_Some (ctx_done s)).

Definition set_remote (p : remote_phase) (s : state) : state := {|
  lCh_closed := lCh_closed s; holdoff := holdoff s; ctx_done := ctx_done s; c_cancelled := c_cancelled s;
  ch := ch s; remote_p := p; local_p := local_p s; main_p := main_p s; a_result := a_result s;
  moved := moved s; numFallbacks := numFallbacks s |}.

Definition set_local (p : local_phase) (r : option Result) (s : state) : state := {|
  lCh_closed := lCh_closed s; holdoff := holdoff s; ctx_done := ctx_done s; c_cancelled := c_cancelled s;
  ch := ch s; remote_p := remote_p s; local_p := p; main_p := main_p s; a_result := r;
  moved := moved s; numFallbacks := numFallbacks s |}.

Definition set_main (p : main_phase) (cancel : bool) (c : list raceResult) (r : option Result) (mv : bool)
    (n : nat) (s : state) : state := {|
  lCh_closed := lCh_closed s; holdoff := holdoff s; ctx_done := ctx_done s; c_cancelled := cancel;
  ch := c; remote_p := remote_p s; local_p := local_p s; main_p := p; a_result := r;
  moved := mv; numFallbacks := n |}.

Definition send (rr : raceResult) (s : state) : state := {|
  lCh_closed := lCh_closed s; holdoff := holdoff s; ctx_done := ctx_done s; c_cancelled := c_cancelled s;
  ch := ch s ++ [rr]; remote_p := remote_p s; local_p := local_p s; main_p := main_p s;
  a_result := a_result s; moved := moved s; numFallbacks := numFallbacks s |}.

Definition set_lCh (closed hold : bool) (s : state) : state := {|
  lCh_closed := closed; holdoff := hold; ctx_done := ctx_done s; c_cancelled := c_cancelled s;
  ch := ch s; remote_p := remote_p s; local_p := local_p s; main_p := main_p s;
  a_result := a_result s; moved := moved s; numFallbacks := numFallbacks s |}.

Definition set_ctx (e : error) (s : state) : state := {|
  lCh_closed := lCh_closed s; holdoff := holdoff s; ctx_done := Some e; c_cancelled := c_cancelled s;
  ch := ch s; remote_p := remote_p s; local_p := local_p s; main_p := main_p s;
  a_result := a_result s; moved := moved s; numFallbacks := numFallbacks s |}.

(** [close(lCh)] *)
Definition close_lCh (s : state) : res state :=
  if lCh_closed s then Panic else Ok (set_lCh true (holdoff s) s).

Definition finish_remote (rr : raceResult) (s : state) : state := send rr (set_remote (RDone rr) s).
Definition finish_local (rr : raceResult) (r : option Result) (s : state) : state :=
  send rr (set_local (LDone rr) r s).

Inductive label :=
  | RNewContext (err : option error) (cached : option Result)
  | RExec (r : Result)
  | RDownload (r : Result)
  | RStep
  | Holdoff
  | LStart
  | LStop
  | LGranted
  | LRefused (e : error)
  | LExec (r : exec_result)
  | MReceive
  | MCtx
  | MMove (err : option error)
  | CtxDone (e : error).

(** [runRemoteRace].  With a cache miss or an unexpected result the local run is
    released at once, with a cache hit after the hold-off. *)
Definition remote_step (s : state) (l : label) : option (res state) :=
  match remote_p s, l with
  | RStart, RNewContext (Some e) _ =>
      Some (let? s := close_lCh s in
            Ok (finish_remote {| rr_res := Some (NewLocalErrorResult e); rr_t := canceled |} s))
  | RStart, RNewContext None None => Some (let? s := close_lCh s in Ok (set_remote RExecuting s))
  | RStart, RNewContext None (Some r) =>
      if bool_decide (Status r = CacheHitResultStatus)
      then Some (Ok (set_remote (RGot r) (set_lCh (lCh_closed s) true s)))
      else Some (let? s := close_lCh s in Ok (set_remote (RGot r) s))
  | RExecuting, RExec r => Some (Ok (set_remote (RExecuted r) s))
  | RExecuted r, RStep =>
      Some (Ok (if c_done s then finish_remote {| rr_res := None; rr_t := canceled |} s
                else set_remote (RGot r) s))
  | RGot r, RStep =>
      Some (Ok (if IsOk r then set_remote (RDownloading r) s
                else finish_remote {| rr_res := Some r; rr_t := canceled |} s))
  | RDownloading _, RDownload r => Some (Ok (set_remote (RDownloaded r) s))
  | RDownloaded r, RStep =>
      Some (Ok (if c_done s then finish_remote {| rr_res := None; rr_t := canceled |} s
                else if IsOk r then finish_remote {| rr_res := Some r; rr_t := remote |} s
                else finish_remote {| rr_res := Some r; rr_t := canceled |} s))
  | _, _ => None
  end.

(** The error that a refused lock returns is that of the done context. *)
Definition refusal (s : state) (e : error) : bool :=
  c_cancelled s && bool_decide (e = ECanceled) || bool_decide (ctx_done s = Some e).

Definition pool_error (r : exec_result) : option error :=
  match r with ExecOk => None | ExitError _ => Some (EMsg "exit status") | ExecError e => Some e end.

(** What [runLocalRace] sends for what [pool.Run] returned, and whether it sets
    the result of the action. *)
Definition local_outcome (exitCode : Z) (err : option error) : raceResult * bool :=
  if match err with Some e => errors_Is e ECanceled | None => false end
  then ({| rr_res := None; rr_t := canceled |}, false)
  else match err with
       | Some e => if bool_decide (exitCode = 0%Z)
                   then ({| rr_res := Some (NewLocalErrorResult e); rr_t := canceled |}, false)
                   else ({| rr_res := Some (NewResultFromExitCode exitCode); rr_t := local |}, true)
       | None => ({| rr_res := Some (NewResultFromExitCode exitCode); rr_t := local |}, true)
       end.

Definition finish_pool (lock : option error) (x : exec_result) (s : state) : state :=
  let '(exitCode, r, _) := Run lock x in
  let '(rr, sets) := local_outcome exitCode (pool_error r) in
  finish_local rr (if sets then rr_res rr else a_result s) s.

(** The goroutine of the local run. *)
Definition local_step (s : state) (l : label) : option (res state) :=
  match local_p s, l with
  | LWait, LStart => if lCh_closed s then Some (Ok (set_local LQueue (a_result s) s)) else None
  | LWait, LStop =>
      if c_done s then Some (Ok (finish_local {| rr_res := None; rr_t := canceled |} (a_result s) s)) else None
  | LQueue, LGranted => Some (Ok (set_local LExecuting (a_result s) s))
  | LQueue, LRefused e => if refusal s e then Some (Ok (finish_pool (Some e) ExecOk s)) else None
  | LExecuting, LExec x => Some (Ok (finish_pool None x s))
  | _, _ => None
  end.

(** The winner, from the results in the order of their arrival. *)
Definition winner (w1 : raceResult) (w2 : option raceResult) : raceResult :=
  match w2 with
  | Some rr => if bool_decide (rr_t rr = local) then rr else w1
  | None => w1
  end.

Definition main_step (s : state) (l : label) : option (res state) :=
  match main_p s, l with
  | MFirst, MReceive =>
      match ch s with
      | [] => None
      | w :: c =>
          let cancel := c_cancelled s || negb (bool_decide (rr_t w = canceled)) in
          let p := if bool_decide (rr_t w = local) then MFinal w None else MSecond w in
          Some (Ok (set_main p cancel c (a_result s) (moved s) (numFallbacks s) s))
      end
  | MSecond w, MReceive =>
      match ch s with
      | [] => None
      | rr :: c =>
          let n := if bool_decide (rr_t w = canceled) && bool_decide (rr_t rr = local) then 1 else 0 in
          Some (Ok (set_main (MFinal w (Some rr)) (c_cancelled s) c (a_result s) (moved s) (numFallbacks s + n) s))
      end
  | MFirst, MCtx | MSecond _, MCtx =>
      match ctx_done s with
      | None => None
      | Some e => Some (Ok (set_main (MReturned None) (c_cancelled s) (ch s)
                             (Some (NewLocalErrorResult e)) (moved s) (numFallbacks s) s))
      end
  | MFinal w1 w2, MMove err =>
      let w := winner w1 w2 in
      let ret r mv := Some (Ok (set_main (MReturned (Some (w1, w2))) (c_cancelled s) (ch s) r mv (numFallbacks s) s)) in
      match rr_t w with
      | remote => match err with
                  | Some e => ret (Some (NewLocalErrorResult e)) (moved s)
                  | None => ret (rr_res w) true
                  end
      | local => ret (a_result s) (moved s)
      | canceled => ret (match rr_res w with Some r => Some r | None => a_result s end) (moved s)
      end
  | _, _ => None
  end.

Definition step (s : state) (l : label) : option (res state) :=
  match l with
  | RNewContext _ _ | RExec _ | RDownload _ | RStep => remote_step s l
  | Holdoff => if holdoff s then Some (let? s := close_lCh s in Ok (set_lCh (lCh_closed s) false s)) else None
  | LStart | LStop | LGranted | LRefused _ | LExec _ => local_step s l
  | MReceive | MCtx | MMove _ => main_step s l
  | CtxDone e => match ctx_done s with None => Some (Ok (set_ctx e s)) | Some _ => None end
  end.

Fixpoint run (s : state) (tr : list label) : res state :=
  match tr with
  | [] => Ok s
  | l :: tr' => match step s l with
                | None => run s tr'
                | Some r => let? s' := r in run s' tr'
                end
  end.

(** ** Invariant *)

Definition sent_remote (s : state) : list raceResult := match remote_p s with RDone rr => [rr] | _ => [] end.
Definition sent_local (s : state) : list raceResult := match local_p s with LDone rr => [rr] | _ => [] end.

(** What the caller has received, while it still listens. *)
Definition received (s : state) : option (list raceResult) :=
  match main_p s with
  | MFirst => Some []
  | MSecond w => Some [w]
  | MFinal w1 None | MReturned (Some (w1, None)) => Some [w1]
  | MFinal w1 (Some w2) | MReturned (Some (w1, Some w2)) => Some [w1; w2]
  | MReturned None => None
  end.

Definition released (s : state) : bool := lCh_closed s || holdoff s.

Record inv (s : state) : Prop := {
  inv_once : holdoff s = true → lCh_closed s = false;
  inv_released : released s = match remote_p s with RStart => false | _ => true end;
  inv_ch : match received s with
           | Some l => l ++ ch s ≡ₚ sent_remote s ++ sent_local s
           | None => True end;
  inv_remote : ∀ rr, remote_p s = RDone rr → rr_t rr ≠ local;
  inv_local : ∀ rr, local_p s = LDone rr → rr_t rr ≠ remote;
  inv_second : ∀ w, main_p s = MSecond w → rr_t w ≠ local;
  inv_final : ∀ w1 w2, main_p s = MFinal w1 w2 ∨ main_p s = MReturned (Some (w1, w2)) →
    (w2 = None ↔ rr_t w1 = local);
  inv_kept : ∀ ll, local_p s = LDone ll → rr_t ll = local → (∀ o, main_p s ≠ MReturned o) →
    a_result s = rr_res ll;
  inv_won : ∀ w1 w2, main_p s = MReturned (Some (w1, w2)) → rr_t (winner w1 w2) = local →
    a_result s = rr_res (winner w1 w2) ∧ moved s = false;
  inv_moved : moved s = true → ∃ w1 w2, main_p s = MReturned (Some (w1, w2)) ∧ rr_t (winner w1 w2) = remote
}.

Lemma inv_init : inv init.
Proof. split; simpl; try done. intros w1 w2 [H|H]; discriminate H. Qed.

Ltac inv_simpl := unfold released, received, sent_remote, sent_local, finish_remote, finish_local in *; simpl in *.

(** A step of the remote goroutine that sends nothing. *)
Lemma inv_set_remote s p :
  inv s → remote_p s ≠ RStart → (∀ rr, remote_p s ≠ RDone rr) → p ≠ RStart → (∀ rr, p ≠ RDone rr) →
  inv (set_remote p s).
Proof.
  intros [I1 I2 I3 I4 I5 I6 I7 I8 I9 I10] Hn1 Hn2 Hp1 Hp2.
  assert (sent_remote s = []) as Hs by (unfold sent_remote; destruct (remote_p s) as [| | | | | |q]; try done; by destruct (Hn2 q)).
  assert (sent_remote (set_remote p s) = []) as Hs' by (unfold sent_remote; simpl; destruct p as [| | | | | |q]; try done; by destruct (Hp2 q)).
  split; simpl; try done.
  - unfold released in *. simpl. rewrite I2. destruct (remote_p s), p; try done.
  - change (received (set_remote p s)) with (received s). rewrite Hs'. rewrite Hs in I3. exact I3.
  - intros rr E. by destruct (Hp2 rr).
Qed.

(** The remote goroutine sends its result. *)
Lemma inv_finish_remote s rr :
  inv s → remote_p s ≠ RStart → (∀ rr, remote_p s ≠ RDone rr) → rr_t rr ≠ local →
  inv (finish_remote rr s).
Proof.
  intros [I1 I2 I3 I4 I5 I6 I7 I8 I9 I10] Hn1 Hn2 Hrr.
  assert (sent_remote s = []) as Hs by (unfold sent_remote; destruct (remote_p s) as [| | | | | |q]; try done; by destruct (Hn2 q)).
  split; simpl; try done.
  - unfold released in *. simpl. rewrite I2. by destruct (remote_p s).
  - change (received (finish_remote rr s)) with (received s). destruct (received s) as [l|]; [|done].
    simpl. rewrite app_assoc, I3, Hs. simpl. symmetry. apply Permutation_cons_append.
  - by intros rr' [= <-].
Qed.

(** The winner of a race that returned is no result that is still to come. *)
Lemma winner_sent s w1 w2 :
  inv s → main_p s = MReturned (Some (w1, w2)) → winner w1 w2 ∈ sent_remote s ++ sent_local s.
Proof.
  intros Hi Hm. pose proof (inv_ch _ Hi) as Hch. unfold received in Hch. rewrite Hm in Hch.
  destruct w2 as [w2|]; rewrite <- Hch; unfold winner; [case_bool_decide|]; set_solver.
Qed.

Lemma winner_local_done s w1 w2 :
  inv s → main_p s = MReturned (Some (w1, w2)) → rr_t (winner w1 w2) = local → local_p s = LDone (winner w1 w2).
Proof.
  intros Hi Hm Ht. pose proof (winner_sent _ _ _ Hi Hm) as Hin. apply elem_of_app in Hin as [Hin|Hin].
  - unfold sent_remote in Hin. destruct (remote_p s) as [| | | | | |rr] eqn:E; try by apply elem_of_nil in Hin.
    apply list_elem_of_singleton in Hin. rewrite Hin in Ht. by destruct (inv_remote _ Hi _ E Ht).
  - unfold sent_local in Hin. destruct (local_p s) as [| | |rr] eqn:E; try by apply elem_of_nil in Hin.
    apply list_elem_of_singleton in Hin. by rewrite Hin.
Qed.

Lemma inv_finish_local s rr r :
  inv s → (∀ rr, local_p s ≠ LDone rr) → rr_t rr ≠ remote → (rr_t rr = local → r = rr_res rr) →
  inv (finish_local rr r s).
Proof.
  intros Hi Hn Hrr Hres. pose proof Hi as [I1 I2 I3 I4 I5 I6 I7 I8 I9 I10].
  assert (sent_local s = []) as Hs by (unfold sent_local; destruct (local_p s) as [| | |q]; try done; by destruct (Hn q)).
  split; simpl; try done.
  - change (received (finish_local rr r s)) with (received s). destruct (received s) as [l|]; [|done].
    rewrite Hs, app_nil_r in I3. simpl. rewrite app_assoc, I3. done.
  - by intros rr' [= <-].
  - intros rr' [= <-] Ht _. by apply Hres.
  - intros w1 w2 Hm Ht. pose proof (winner_local_done s w1 w2 Hi Hm Ht) as E. by destruct (Hn _ E).
Qed.

Lemma inv_set_local s p r :
  inv s → (∀ rr, local_p s ≠ LDone rr) → (∀ rr, p ≠ LDone rr) → inv (set_local p r s).
Proof.
  intros Hi Hn Hp. pose proof Hi as [I1 I2 I3 I4 I5 I6 I7 I8 I9 I10].
  assert (sent_local s = []) as Hs by (unfold sent_local; destruct (local_p s) as [| | |q]; try done; by destruct (Hn q)).
  assert (sent_local (set_local p r s) = []) as Hs' by (unfold sent_local; simpl; destruct p as [| | |q]; try done; by destruct (Hp q)).
  split; simpl; try done.
  - change (received (set_local p r s)) with (received s). rewrite Hs'. rewrite Hs in I3. exact I3.
  - intros rr E. by destruct (Hp rr).
  - intros rr E. by destruct (Hp rr).
  - intros w1 w2 Hm Ht. pose proof (winner_local_done s w1 w2 Hi Hm Ht) as E. by destruct (Hn _ E).
Qed.

(** The first decision of the remote goroutine releases the local one, now or
    after the hold-off. *)
Lemma inv_release s p closed hold :
  inv s → remote_p s = RStart → p ≠ RStart → (∀ rr, p ≠ RDone rr) → xorb closed hold = true →
  inv (set_remote p (set_lCh closed hold s)).
Proof.
  intros [I1 I2 I3 I4 I5 I6 I7 I8 I9 I10] Hs Hp1 Hp2 Hx. unfold sent_remote in I3. rewrite Hs in I3.
  split; simpl; try done.
  - intros ->. by destruct closed.
  - unfold released. simpl. destruct closed, hold; simpl in *; try done; by destruct p.
  - change (received (set_remote p (set_lCh closed hold s))) with (received s).
    unfold sent_remote. simpl. destruct p as [| | | | | |q]; try done. by destruct (Hp2 q).
  - intros rr E. by destruct (Hp2 rr).
Qed.

Lemma start_unreleased s : inv s → remote_p s = RStart → lCh_closed s = false ∧ holdoff s = false.
Proof. intros Hi Hs. pose proof (inv_released _ Hi) as H. unfold released in H. rewrite Hs in H. by apply orb_false_iff in H. Qed.

Lemma remote_step_inv s l r : inv s → remote_step s l = Some r → ∃ s', r = Ok s' ∧ inv s'.
Proof.
  intros Hi Hst. unfold remote_step, close_lCh in Hst. destruct (remote_p s) as [| |r0|r0|r0|r0|rr] eqn:Hp.
  - destruct (start_unreleased s Hi Hp) as [Hc Hh]. rewrite Hc, Hh in Hst.
    assert (∀ p closed hold, p ≠ RStart → (∀ rr, p ≠ RDone rr) → xorb closed hold = true →
      inv (set_remote p (set_lCh closed hold s))) as Hgo by (intros; by apply inv_release).
    destruct l as [[e|] [c|]| | | | | | | | | | | | |]; try discriminate Hst; simpl in Hst.
    1, 2: injection Hst as <-; eexists; (split; [reflexivity|]);
      apply (inv_finish_remote (set_remote RExecuting (set_lCh true false s)) _ (Hgo RExecuting true false ltac:(done) ltac:(done) eq_refl)); done.
    + case_bool_decide; injection Hst as <-; eexists; (split; [reflexivity|]); by apply Hgo.
    + injection Hst as <-. eexists. split; [reflexivity|]. by apply Hgo.
  - destruct l; try discriminate Hst. injection Hst as <-. eexists. split; [reflexivity|].
    apply inv_set_remote; rewrite ?Hp; done.
  - destruct l; try discriminate Hst. injection Hst as <-. eexists. split; [reflexivity|].
    destruct (c_done s); [apply inv_finish_remote|apply inv_set_remote]; rewrite ?Hp; done.
  - destruct l; try discriminate Hst. injection Hst as <-. eexists. split; [reflexivity|].
    destruct (IsOk r0); [apply inv_set_remote|apply inv_finish_remote]; rewrite ?Hp; done.
  - destruct l; try discriminate Hst. injection Hst as <-. eexists. split; [reflexivity|].
    apply inv_set_remote; rewrite ?Hp; done.
  - destruct l; try discriminate Hst. injection Hst as <-. eexists. split; [reflexivity|].
    destruct (c_done s); [|destruct (IsOk r0)]; apply inv_finish_remote; rewrite ?Hp; done.
  - destruct l; discriminate Hst.
Qed.

Lemma local_outcome_type code err : rr_t (local_outcome code err).1 ≠ remote ∧
  (rr_t (local_outcome code err).1 = local → (local_outcome code err).2 = true).
Proof. unfold local_outcome. destruct err as [e|]; [|done]. destruct (errors_Is e ECanceled); [done|]. by case_bool_decide. Qed.

Lemma finish_pool_inv s lock x : inv s → (∀ rr, local_p s ≠ LDone rr) → inv (finish_pool lock x s).
Proof.
  intros Hi Hn. unfold finish_pool. destruct (Run lock x) as [[code r] evs].
  pose proof (local_outcome_type code (pool_error r)) as [Ht Hb]. destruct (local_outcome code (pool_error r)) as [rr b].
  apply inv_finish_local; try done. intros E. simpl in Hb. by rewrite (Hb E).
Qed.

Lemma local_step_inv s l r : inv s → local_step s l = Some r → ∃ s', r = Ok s' ∧ inv s'.
Proof.
  intros Hi Hst. unfold local_step in Hst. destruct (local_p s) as [| | |rr] eqn:Hp;
    destruct l; try discriminate Hst.
  - destruct (lCh_closed s); [|done]. injection Hst as <-. eexists. split; [reflexivity|].
    apply inv_set_local; rewrite ?Hp; done.
  - destruct (c_done s); [|done]. injection Hst as <-. eexists. split; [reflexivity|].
    apply inv_finish_local; rewrite ?Hp; done.
  - injection Hst as <-. eexists. split; [reflexivity|]. apply inv_set_local; rewrite ?Hp; done.
  - destruct (refusal s e); [|done]. injection Hst as <-. eexists. split; [reflexivity|].
    apply finish_pool_inv; rewrite ?Hp; done.
  - injection Hst as <-. eexists. split; [reflexivity|]. apply finish_pool_inv; rewrite ?Hp; done.
Qed.

Lemma receive_first s w c cn :
  inv s → main_p s = MFirst → ch s = w :: c →
  inv (set_main (if bool_decide (rr_t w = local) then MFinal w None else MSecond w) cn c
         (a_result s) (moved s) (numFallbacks s) s).
Proof.
  intros [I1 I2 I3 I4 I5 I6 I7 I8 I9 I10] Hm Hc. unfold received in I3. rewrite Hm, Hc in I3.
  split; simpl; try done.
  - unfold received. simpl. by case_bool_decide.
  - intros w'. case_bool_decide; [done|]. by intros [= <-].
  - intros w1 w2. case_bool_decide; [|intros [E|E]; discriminate E]. by intros [[= <- <-]|E].
  - intros ll Hl Ht _. apply I8; try done. rewrite Hm. done.
  - intros w1 w2. by case_bool_decide.
  - intros Hmv. destruct (I10 Hmv) as (w1 & w2 & E & _). congruence.
Qed.

Lemma receive_second s w rr c n :
  inv s → main_p s = MSecond w → ch s = rr :: c →
  inv (set_main (MFinal w (Some rr)) (c_cancelled s) c (a_result s) (moved s) n s).
Proof.
  intros [I1 I2 I3 I4 I5 I6 I7 I8 I9 I10] Hm Hc. unfold received in I3. rewrite Hm, Hc in I3.
  split; simpl; try done.
  - intros w1 w2 [[= <- <-]|E]; [|done]. split; [done|]. intros Ht. by destruct (I6 _ Hm).
  - intros ll Hl Ht _. apply I8; try done. rewrite Hm. done.
  - intros Hmv. destruct (I10 Hmv) as (w1 & w2 & E & _). congruence.
Qed.

Lemma return_ctx s e : inv s → (∀ o, main_p s ≠ MReturned o) →
  inv (set_main (MReturned None) (c_cancelled s) (ch s) (Some (NewLocalErrorResult e)) (moved s) (numFallbacks s) s).
Proof.
  intros [I1 I2 I3 I4 I5 I6 I7 I8 I9 I10] Hn. split; simpl; try done.
  - intros w1 w2 [E|E]; discriminate E.
  - intros ll _ _ Hm. by destruct (Hm None).
  - intros Hmv. destruct (I10 Hmv) as (w1 & w2 & E & _). by destruct (Hn _ E).
Qed.

(** The caller returns with both results, or with the local one. *)
Lemma return_final s w1 w2 r mv :
  inv s → main_p s = MFinal w1 w2 →
  (rr_t (winner w1 w2) = local → r = a_result s ∧ mv = moved s) →
  (mv = true → moved s = true ∨ rr_t (winner w1 w2) = remote) →
  inv (set_main (MReturned (Some (w1, w2))) (c_cancelled s) (ch s) r mv (numFallbacks s) s).
Proof.
  intros Hi Hm Hr Hmv. pose proof Hi as [I1 I2 I3 I4 I5 I6 I7 I8 I9 I10]. unfold received in I3. rewrite Hm in I3.
  assert (moved s = false) as Hmf.
  { destruct (moved s); [|done]. destruct (I10 eq_refl) as (a & b & E & _). congruence. }
  split; simpl; try done.
  - intros a b [E|[= <- <-]]; [discriminate E|]. apply I7. by left.
  - intros ll _ _ Hx. by destruct (Hx (Some (w1, w2))).
  - intros a b [= <- <-] Ht. destruct (Hr Ht) as [-> ->]. split; [|done].
    assert (winner w1 w2 ∈ sent_remote s ++ sent_local s) as Hin.
    { destruct w2 as [w2|]; rewrite <- I3; unfold winner; [case_bool_decide|]; set_solver. }
    apply I8; [|done|by rewrite Hm]. apply elem_of_app in Hin as [Hin|Hin].
    + unfold sent_remote in Hin. destruct (remote_p s) as [| | | | | |rr] eqn:E; try by apply elem_of_nil in Hin.
      apply list_elem_of_singleton in Hin. rewrite Hin in Ht. by destruct (I4 _ eq_refl).
    + unfold sent_local in Hin. destruct (local_p s) as [| | |rr] eqn:E; try by apply elem_of_nil in Hin.
      apply list_elem_of_singleton in Hin. by rewrite Hin.
  - intros Hx. exists w1, w2. split; [done|]. destruct (Hmv Hx) as [Hy|]; [congruence|done].
Qed.

Lemma main_step_inv s l r : inv s → main_step s l = Some r → ∃ s', r = Ok s' ∧ inv s'.
Proof.
  intros Hi Hst. unfold main_step in Hst. destruct (main_p s) as [|w|w1 w2|o] eqn:Hm;
    destruct l; try discriminate Hst.
  - destruct (ch s) as [|w c] eqn:Hc; [done|]. injection Hst as <-. eexists. split; [reflexivity|].
    by apply receive_first.
  - destruct (ctx_done s); [|done]. injection Hst as <-. eexists. split; [reflexivity|].
    apply return_ctx; [done|]. by rewrite Hm.
  - destruct (ch s) as [|rr c] eqn:Hc; [done|]. injection Hst as <-. eexists. split; [reflexivity|].
    by apply receive_second.
  - destruct (ctx_done s); [|done]. injection Hst as <-. eexists. split; [reflexivity|].
    apply return_ctx; [done|]. by rewrite Hm.
  - destruct (rr_t (winner w1 w2)) eqn:Ht; [destruct err| |]; injection Hst as <-; eexists; (split; [reflexivity|]);
      apply return_final; rewrite ?Ht; auto; try done.
Qed.

Lemma race_step_inv s l r : inv s → step s l = Some r → ∃ s', r = Ok s' ∧ inv s'.
Proof.
  intros Hi Hst. destruct l; simpl in Hst;
    try (by apply (remote_step_inv s _ r Hi Hst)); try (by apply (local_step_inv s _ r Hi Hst));
    try (by apply (main_step_inv s _ r Hi Hst)).
  - destruct (holdoff s) eqn:Hh; [|done]. pose proof (inv_once _ Hi Hh) as Hc. unfold close_lCh in Hst. rewrite Hc in Hst.
    injection Hst as <-. eexists. split; [reflexivity|].
    destruct Hi as [I1 I2 I3 I4 I5 I6 I7 I8 I9 I10]. split; simpl; try done.
    unfold released in *. simpl. rewrite Hh, orb_true_r in I2. done.
  - destruct (ctx_done s); [done|]. injection Hst as <-. eexists. split; [reflexivity|].
    destruct Hi as [I1 I2 I3 I4 I5 I6 I7 I8 I9 I10]. split; simpl; try done.
Qed.

Lemma race_run_inv s tr : inv s → ∃ s', run s tr = Ok s' ∧ inv s'.
Proof.
  revert s. induction tr as [|l tr IH]; intros s Hi; simpl; [eauto|].
  destruct (step s l) as [r|] eqn:E; [|by apply IH].
  destruct (race_step_inv _ _ _ Hi E) as (s1 & -> & H1). by apply IH.
Qed.

(** The remote winner was received together with the end of the local run. *)
Lemma moved_local s w1 w2 :
  inv s → main_p s = MReturned (Some (w1, w2)) → rr_t (winner w1 w2) = remote →
  ∃ ll, local_p s = LDone ll ∧ rr_t ll = canceled.
Proof.
  intros [I1 I2 I3 I4 I5 I6 I7 I8 I9 I10] Hm Ht. unfold received in I3. rewrite Hm in I3.
  destruct w2 as [w2|].
  2: { assert (rr_t w1 = local) by (by apply (I7 w1 None); [right|]). simpl in Ht. congruence. }
  simpl in Ht, I3. assert (rr_t w1 = remote ∧ rr_t w2 ≠ local) as [H1 H2] by (case_bool_decide; split; congruence).
  pose proof (Permutation_length I3) as Hlen. unfold sent_remote, sent_local in *.
  destruct (remote_p s) as [| | | | | |r0] eqn:Hr, (local_p s) as [| | |ll] eqn:Hl; simpl in Hlen; try lia.
  exists ll. split; [done|].
  assert (ch s = []) as Hch by (destruct (ch s); simpl in Hlen; [done|lia]). rewrite Hch in I3.
  assert (ll ∈ [w1; w2]) as Hin by (rewrite I3; set_solver).
  pose proof (I5 _ eq_refl) as Hnr. assert (ll = w2) as -> by set_solver.
  by destruct (rr_t w2).
Qed.

(** A local result is the winner. *)
Lemma local_wins s w1 w2 ll :
  inv s → main_p s = MReturned (Some (w1, w2)) → local_p s = LDone ll → rr_t ll = local → winner w1 w2 = ll.
Proof.
  intros [I1 I2 I3 I4 I5 I6 I7 I8 I9 I10] Hm Hl Ht. unfold received in I3. rewrite Hm in I3.
  assert (∀ x, x ∈ sent_remote s ++ sent_local s → rr_t x = local → x = ll) as Hu.
  { intros x. unfold sent_remote, sent_local. rewrite Hl. intros [Hx|Hx]%elem_of_app Hxt.
    - destruct (remote_p s) as [| | | | | |r0] eqn:Hr; try by apply elem_of_nil in Hx.
      apply list_elem_of_singleton in Hx as ->. by destruct (I4 _ eq_refl).
    - by apply list_elem_of_singleton in Hx. }
  destruct w2 as [w2|]; simpl.
  - assert (rr_t w1 ≠ local) as H1 by (intros E; by apply (I7 w1 (Some w2)) in E; [|right]).
    pose proof (Permutation_length I3) as Hlen. unfold sent_remote, sent_local in *. rewrite Hl in *.
    assert (ch s = []) as Hch.
    { destruct (ch s); [done|]. destruct (remote_p s); simpl in Hlen; lia. }
    rewrite Hch in I3.
    assert (ll ∈ [w1; w2]) as Hin by (rewrite I3; set_solver).
    assert (ll = w2) as -> by set_solver. by rewrite bool_decide_true.
  - apply Hu; [|by apply (I7 w1 None); [right|]]. rewrite <- I3. set_solver.
Qed.

(** C2: the outcome of a race.  For every interleaving of the three goroutines
    and every behaviour of the environment: no channel is closed twice; the
    outputs of the remote run are moved into place only when the local run has
    ended without executing to a result; and when the caller returns with the
    results, a local result always wins, becomes the result of the action, and
    keeps the remote outputs out. *)
Theorem race_outcome tr :
  ∃ s, run init tr = Ok s ∧
    (moved s = true → ∃ ll, local_p s = LDone ll ∧ rr_t ll = canceled) ∧
    (∀ w1 w2 ll, main_p s = MReturned (Some (w1, w2)) → local_p s = LDone ll → rr_t ll = local →
       winner w1 w2 = ll ∧ a_result s = rr_res ll ∧ moved s = false).
Proof.
  destruct (race_run_inv init tr inv_init) as (s & Hs & Hi). exists s. split; [done|].
  pose proof Hi as [I1 I2 I3 I4 I5 I6 I7 I8 I9 I10]. split.
  - intros Hm. destruct (I10 Hm) as (w1 & w2 & Hr & Ht). by apply (moved_local s w1 w2).
  - intros w1 w2 ll Hr Hl Ht. assert (winner w1 w2 = ll) as Hw by (by apply (local_wins s)).
    destruct (I9 w1 w2 Hr) as [H1 H2]; [by rewrite Hw|]. by rewrite <- Hw.
Qed.

(** ** Termination *)

Definition remote_left (p : remote_phase) : nat :=
  match p with
  | RStart => 6 | RExecuting => 5 | RExecuted _ => 4 | RGot _ => 3 | RDownloading _ => 2
  | RDownloaded _ => 1 | RDone _ => 0
  end.
Definition local_left (p : local_phase) : nat :=
  match p with LWait => 3 | LQueue => 2 | LExecuting => 1 | LDone _ => 0 end.
Definition main_left (p : main_phase) : nat :=
  match p with MFirst => 3 | MSecond _ => 2 | MFinal _ _ => 1 | MReturned _ => 0 end.
Definition flag (b : bool) : nat := if b then 1 else 0.

(** The steps that are left. *)
Definition steps_left (s : state) : nat :=
  remote_left (remote_p s) + flag (holdoff s) + local_left (local_p s) + main_left (main_p s) +
  flag (negb (bool_decide (is_Some (ctx_done s)))).

Lemma remote_left_step s l s' : remote_step s l = Some (Ok s') → steps_left s' < steps_left s.
Proof.
  unfold remote_step, close_lCh, steps_left. destruct (remote_p s) as [| |r0|r0|r0|r0|rr] eqn:Hp, l; try done; simpl.
  - destruct err as [e|]; [|destruct cached as [r|]; [case_bool_decide|]];
      destruct (lCh_closed s); simpl; intros Hst; simplify_eq/=; try lia; destruct (holdoff s); simpl; lia.
  - intros [= <-]. simpl. lia.
  - intros [= <-]. destruct (c_done s); simpl; lia.
  - intros [= <-]. destruct (IsOk r0); simpl; lia.
  - intros [= <-]. simpl. lia.
  - intros [= <-]. destruct (c_done s); [|destruct (IsOk r0)]; simpl; lia.
Qed.

Lemma finish_pool_left s lock x : local_left (local_p s) > 0 → steps_left (finish_pool lock x s) < steps_left s.
Proof.
  intros H. unfold finish_pool. destruct (Run lock x) as [[code r] evs]. destruct (local_outcome _ _) as [rr b].
  unfold steps_left. simpl. lia.
Qed.

Lemma local_left_step s l s' : local_step s l = Some (Ok s') → steps_left s' < steps_left s.
Proof.
  unfold local_step. destruct (local_p s) as [| | |rr] eqn:Hp, l; try done.
  - destruct (lCh_closed s); [|done]. intros [= <-]. unfold steps_left. simpl. rewrite Hp. simpl. lia.
  - destruct (c_done s); [|done]. intros [= <-]. unfold steps_left. simpl. rewrite Hp. simpl. lia.
  - intros [= <-]. unfold steps_left. simpl. rewrite Hp. simpl. lia.
  - destruct (refusal s e); [|done]. intros [= <-]. apply finish_pool_left. rewrite Hp. simpl. lia.
  - intros [= <-]. apply finish_pool_left. rewrite Hp. simpl. lia.
Qed.

Lemma main_left_step s l s' : main_step s l = Some (Ok s') → steps_left s' < steps_left s.
Proof.
  unfold main_step, steps_left. destruct (main_p s) as [|w|w1 w2|o] eqn:Hm, l; try done.
  - destruct (ch s); [done|]. intros [= <-]. simpl. case_bool_decide; simpl; lia.
  - destruct (ctx_done s) eqn:Hc; [|done]. intros [= <-]. simpl. rewrite Hc. simpl. lia.
  - destruct (ch s); [done|]. intros [= <-]. simpl. lia.
  - destruct (ctx_done s) eqn:Hc; [|done]. intros [= <-]. simpl. rewrite Hc. simpl. lia.
  - destruct (rr_t (winner w1 w2)); [destruct err| |]; intros [= <-]; simpl; lia.
Qed.

Lemma race_step_left s l s' : step s l = Some (Ok s') → steps_left s' < steps_left s.
Proof.
  destruct l; simpl;
    try apply remote_left_step; try apply local_left_step; try apply main_left_step.
  - unfold close_lCh. destruct (holdoff s) eqn:Hh; [|done]. destruct (lCh_closed s); simpl; intros Hst; simplify_eq/=.
    unfold steps_left. simpl. rewrite Hh. simpl. lia.
  - destruct (ctx_done s) eqn:Hc; [done|]. intros [= <-]. unfold steps_left. simpl. rewrite Hc. simpl. lia.
Qed.

(** The labels by which the environment interferes. *)
Definition interferes (l : label) : bool := match l with CtxDone _ => true | _ => false end.

Lemma remote_enabled s : (∀ rr, remote_p s ≠ RDone rr) →
  ∃ l r, interferes l = false ∧ step s l = Some r.
Proof.
  intros Hn. set (r0 := {| Status := SuccessResultStatus; ExitCode := 0; res_Err := None |}).
  destruct (remote_p s) as [| |r|r|r|r|rr] eqn:Hp.
  - exists (RNewContext None None). simpl. unfold remote_step. rewrite Hp. eauto.
  - exists (RExec r0). simpl. unfold remote_step. rewrite Hp. eauto.
  - exists RStep. simpl. unfold remote_step. rewrite Hp. eauto.
  - exists RStep. simpl. unfold remote_step. rewrite Hp. eauto.
  - exists (RDownload r0). simpl. unfold remote_step. rewrite Hp. eauto.
  - exists RStep. simpl. unfold remote_step. rewrite Hp. eauto.
  - by destruct (Hn rr).
Qed.

Lemma local_enabled s : inv s → (∃ rr, remote_p s = RDone rr) → (∀ rr, local_p s ≠ LDone rr) →
  ∃ l r, interferes l = false ∧ step s l = Some r.
Proof.
  intros Hi [rr Hr] Hn. destruct (local_p s) as [| | |ll] eqn:Hl.
  - pose proof (inv_released _ Hi) as Hrel. rewrite Hr in Hrel. unfold released in Hrel.
    destruct (lCh_closed s) eqn:Hc.
    + exists LStart. simpl. unfold local_step. rewrite Hl, Hc. eauto.
    + exists Holdoff. simpl in *. rewrite Hrel. eauto.
  - exists LGranted. simpl. unfold local_step. rewrite Hl. eauto.
  - exists (LExec ExecOk). simpl. unfold local_step. rewrite Hl. eauto.
  - by destruct (Hn ll).
Qed.

Lemma main_enabled s : inv s → (∀ o, main_p s ≠ MReturned o) →
  ∃ l r, interferes l = false ∧ step s l = Some r.
Proof.
  intros Hi Hn.
  destruct (remote_p s) as [| | | | | |rr] eqn:Hr; try (apply remote_enabled; by rewrite Hr).
  destruct (local_p s) as [| | |ll] eqn:Hl; try (apply local_enabled; [done|eauto|by rewrite Hl]).
  pose proof (inv_ch _ Hi) as Hc. unfold received, sent_remote, sent_local in Hc. rewrite Hr, Hl in Hc.
  destruct (main_p s) as [|w|w1 w2|o] eqn:Hm.
  - exists MReceive. simpl. unfold main_step. rewrite Hm. destruct (ch s); [by apply Permutation_nil_l in Hc|eauto].
  - exists MReceive. simpl. unfold main_step. rewrite Hm. destruct (ch s); [|eauto].
    apply Permutation_length in Hc. simpl in Hc. lia.
  - exists (MMove None). simpl. unfold main_step. rewrite Hm. destruct (rr_t (winner w1 w2)); eauto.
  - by destruct (Hn o).
Qed.

(** C27: a race ends.  In every reachable state in which the caller has not
    returned, some goroutine can take a step, without the context being
    cancelled; and a race has no more than fourteen steps in all. *)
Theorem race_progress tr s :
  run init tr = Ok s →
  ((∀ o, main_p s ≠ MReturned o) →
     ∃ l s', interferes l = false ∧ step s l = Some (Ok s') ∧ steps_left s' < steps_left s) ∧
  (∀ l s', step s l = Some (Ok s') → steps_left s' < steps_left s) ∧ steps_left init ≤ 14.
Proof.
  intros Hr. destruct (race_run_inv init tr inv_init) as (s0 & Hs0 & Hi). rewrite Hr in Hs0. injection Hs0 as <-.
  split; [|split; [apply race_step_left|vm_compute; lia]].
  intros Hn. destruct (main_enabled s Hi Hn) as (l & r & Hl & Hst).
  destruct (race_step_inv _ _ _ Hi Hst) as (s' & -> & _). exists l, s'. split_and!; [done..|]. by eapply race_step_left.
Qed.

End Race.

Lemma race_progress_witness :
  ∃ l s', interferes l = false ∧ step (Sdk := sdk_example) init l = Some (Ok s').
Proof.
  destruct (proj1 (race_progress (Sdk := sdk_example) [] init eq_refl)) as (l & s' & H1 & H2 & _).
  - discriminate.
  - exists l, s'. split; assumption.
Defined.

(** ** A lost result *)

Definition ok_result : Result := {| Status := SuccessResultStatus; ExitCode := 0; res_Err := None |}.

(** The local run fails to start while the remote one is executing. *)
Definition lost_trace : list label :=
  [RNewContext None None; LStart; LGranted; LExec (ExecError (EMsg "fork failed")); MReceive;
   RExec ok_result; RStep; RStep; RDownload ok_result; RStep; MReceive; MMove None].

(** The remote run has executed and downloaded its outputs, and the caller waits
    for the real winner; but the second result is looked at only when it is a
    local one: the local error is reported and the outputs stay where they
    are. *)
Lemma race_loses_remote_result :
  ∃ s, run (Sdk := sdk_example) init lost_trace = Ok s ∧
    remote_p s = RDone {| rr_res := Some ok_result; rr_t := remote |} ∧ moved s = false ∧
    a_result s = Some (NewLocalErrorResult (SDK := sdk_example) (EMsg "fork failed")).
Proof. eexists. split; [vm_compute; reflexivity|]. vm_compute. by split_and!. Qed.

End Race.
