(* ===== verification/Stats.v ===== *)
(** * Build metrics: [internal/pkg/stats/stats.go]

    The aggregator walks every log record and adds its numbers, booleans and
    statuses to a tree of statistics, flattens the leaves of the tree by name,
    and computes order statistics of the raw values.

    A node of the tree is addressed by the path of names that leads to it from
    the root: a pointer [*statTree] is such a path, the tree the finite map from
    the paths of its nodes to their values, and a child is created when it is
    first asked for.  The specification lists the writes that a record makes;
    the theorems show that the reported statistics are functions of the multiset
    of writes, hence independent of the order of the records and of the order in
    which Go ranges over the maps. *)
From S2P Require Import Prelude GoStrings GoFloat Labels Forecast.
Import Labels Forecast.

Module Stats.

(** ** The parts of the log messages that are aggregated

    An absent message is [None]; the elements of a repeated field are never
    nil. *)

Record CommandResult := { cr_Status : Z }.

(** The event times are the key-value pairs of a map in the order in which a
    range visits them. *)
Record RerunMetadata {T : Type} := {
  rr_Attempt : Z;
  rr_Result : option CommandResult;
  rr_NumOutputFiles : Z;
  rr_NumOutputDirectories : Z;
  rr_TotalOutputBytes : Z;
  rr_LogicalBytesDownloaded : Z;
  rr_RealBytesDownloaded : Z;
  rr_EventTimes : list (string * option T)
}.
Arguments RerunMetadata T : clear implicits.

Record Mismatch := {
  mm_Path : string;
  mm_NonDeterministic : bool;
  mm_Ignored : bool
}.

Record Verification := {
  vf_Mismatches : list Mismatch;
  vf_TotalMismatches : Z;
  vf_TotalIgnoredMismatches : Z;
  vf_TotalVerified : Z
}.

Record RemoteMetadata {T : Type} := {
  rm_Result : option CommandResult;
  rm_CacheHit : bool;
  rm_NumInputFiles : Z;
  rm_NumInputDirectories : Z;
  rm_TotalInputBytes : Z;
  rm_NumOutputFiles : Z;
  rm_NumOutputDirectories : Z;
  rm_TotalOutputBytes : Z;
  rm_EventTimes : list (string * option T);
  rm_LogicalBytesUploaded : Z;
  rm_RealBytesUploaded : Z;
  rm_LogicalBytesDownloaded : Z;
  rm_RealBytesDownloaded : Z;
  rm_RerunMetadata : list (RerunMetadata T)
}.
Arguments RemoteMetadata T : clear implicits.

Record LocalMetadata {T : Type} := {
  lm_Result : option CommandResult;
  lm_ExecutedLocally : bool;
  lm_ValidCacheHit : bool;
  lm_UpdatedCache : bool;
  lm_Verification : option Verification;
  lm_EventTimes : list (string * option T);
  lm_RerunMetadata : list (RerunMetadata T);
  lm_Labels : gmap string string
}.
Arguments LocalMetadata T : clear implicits.

Record LogRecord {T : Type} := {
  lr_CommandId : string;
  lr_InvocationId : string;
  lr_Result : option CommandResult;
  lr_RemoteMetadata : option (RemoteMetadata T);
  lr_LocalMetadata : option (LocalMetadata T);
  lr_CompletionStatus : Z
}.
Arguments LogRecord T : clear implicits.

(** The two ends of a [command.TimeInterval]: a [time.Time] is the number of
    nanoseconds since the zero time, year 1, for which [IsZero] holds. *)
Record TimeInterval := { From : Z; To : Z }.

Definition IsZero (t : Z) : bool := bool_decide (t = 0%Z).

(** [t.Sub(u)]: a [time.Duration] saturates at 64 bits. *)
Definition Sub (t u : Z) : Z := Z.max (- 2 ^ 63) (Z.min (2 ^ 63 - 1) (t - u)).

Definition Milliseconds (d : Z) : Z := Z.quot d 1000000.

(** [t.Unix()]: the zero time is 62135596800 seconds before 1970. *)
Definition Unix (t : Z) : Z := (t / 1000000000 - 62135596800)%Z.

(** ** Statistics *)

Record Outlier := { o_CommandId : string; o_Value : Z }.

(** [CountByValue] is empty when it is nil in the code. *)
Record Stat := mkStat {
  Count : Z;
  CountByValue : gmap string Z;
  rawValues : list Z;
  isMillis : bool;
  Outlier1 : option Outlier;
  Outlier2 : option Outlier;
  Median : Z;
  Percentile75 : Z;
  Percentile85 : Z;
  Percentile95 : Z;
  Average : float64
}.

Definition float_zero : float64 := S754_zero false.

(** [&Stat{}] *)
Definition newStat : Stat := mkStat 0 ∅ [] false None None 0 0 0 0 float_zero.

Definition is_None {A} (o : option A) : bool := match o with None => true | Some _ => false end.

Definition IsEmpty (st : Stat) : bool :=
  is_None (Outlier1 st) && bool_decide (Count st = 0%Z) && bool_decide (CountByValue st = ∅).

(** ** The tree *)

Notation path := (list string).
Notation statTree := (gmap (list string) Stat).

(** The root, with no name. *)
Definition newStatTree : statTree := {[ [] := newStat ]}.

(** [stt.child(name)]: the node below [stt], created when it does not exist. *)
Definition child (t : statTree) (stt : path) (name : string) : statTree * path :=
  let p := stt ++ [name] in
  (match t !! p with Some _ => t | None => <[p := newStat]> t end, p).

(** [st := node.value; st.... = ...] *)
Definition update (f : Stat → Stat) (t : statTree) (p : path) : statTree := alter f p t.

Definition num_outliers (val : Z) (cmdID : string) (o1 o2 : option Outlier)
    : option Outlier * option Outlier :=
  if bool_decide (val = 0%Z) then (o1, o2)
  else
    let cur := {| o_CommandId := cmdID; o_Value := val |} in
    let above o := match o with None => true | Some x => bool_decide (o_Value x < val)%Z end in
    if above o1 then (Some cur, o1)
    else if above o2 then (o1, Some cur)
    else (o1, o2).

Definition add_num (val : Z) (cmdID : string) (millis : bool) (st : Stat) : Stat :=
  let '(o1, o2) := num_outliers val cmdID (Outlier1 st) (Outlier2 st) in
  mkStat (if millis then int64 (Count st + 1) else int64 (Count st + val))
    (CountByValue st) (rawValues st ++ [val]) (isMillis st || millis) o1 o2
    (Median st) (Percentile75 st) (Percentile85 st) (Percentile95 st) (Average st).

Definition addNum (t : statTree) (stt : path) (val : Z) (name cmdID : string) (millis : bool) : statTree :=
  let '(t, valStt) := child t stt name in
  update (add_num val cmdID millis) t valStt.

Definition with_Count (st : Stat) (c : Z) : Stat :=
  mkStat c (CountByValue st) (rawValues st) (isMillis st) (Outlier1 st) (Outlier2 st)
    (Median st) (Percentile75 st) (Percentile85 st) (Percentile95 st) (Average st).

Definition add_bool (b : bool) (st : Stat) : Stat :=
  if b then with_Count st (int64 (Count st + 1)) else st.

Definition addBool (t : statTree) (stt : path) (b : bool) (name : string) : statTree :=
  let '(t, bStt) := child t stt name in
  update (add_bool b) t bStt.

Definition add_status (v : string) (st : Stat) : Stat :=
  mkStat (Count st) (<[v := int64 (default 0%Z (CountByValue st !! v) + 1)]> (CountByValue st))
    (rawValues st) (isMillis st) (Outlier1 st) (Outlier2 st)
    (Median st) (Percentile75 st) (Percentile85 st) (Percentile95 st) (Average st).

(** The callers never pass a nil [Stringer]. *)
Definition addStatus (t : statTree) (stt : path) (res : string) (name : string) : statTree :=
  let '(t, resStt) := child t stt name in
  update (add_status res) t resStt.

Definition addMismatch (t : statTree) (stt : path) (mm : option Mismatch) (name : string) : statTree :=
  let '(t, mmStt) := child t stt name in
  match mm with
  | None => t
  | Some mm =>
      let t := addBool t mmStt (mm_NonDeterministic mm) "NonDeterministic" in
      addBool t mmStt (mm_Ignored mm) "Ignored"
  end.

Definition addMismatches (t : statTree) (stt : path) (mismatches : list Mismatch) (name : string)
    : statTree :=
  let '(t, mmStt) := child t stt name in
  foldl (λ t mismatch, addMismatch t mmStt (Some mismatch) "Mismatch") t mismatches.

Definition addVerification (t : statTree) (stt : path) (vf : option Verification) (name cmdID : string)
    : statTree :=
  let '(t, vfStt) := child t stt name in
  match vf with
  | None => t
  | Some vf =>
      let t := addMismatches t vfStt (vf_Mismatches vf) "Mismatches" in
      let t := addNum t vfStt (vf_TotalMismatches vf) "TotalMismatches" cmdID false in
      let t := addNum t vfStt (vf_TotalIgnoredMismatches vf) "TotalIgnoredMismatches" cmdID false in
      addNum t vfStt (vf_TotalVerified vf) "TotalVerified" cmdID false
  end.

Record Stats {P : Type} := mkStats {
  NumRecords : Z;
  invIDs : gset string;
  sStats : gmap string (list string);
  tree : gmap (list string) Stat;
  mismatches : list Mismatch;
  ProxyInfos : list P;
  numVerified : Z;
  cacheHits : Z;
  minProxyExecStart : float64;
  maxProxyExecEnd : float64
}.
Arguments Stats P : clear implicits.

(** [math.MaxFloat64] *)
Definition MaxFloat64 : float64 := S754_finite false 9007199254740991 971.

(** [New()].  The map [Stats] holds the nodes whose values the code shares with
    the tree. *)
Definition New {P} : Stats P := mkStats P 0 ∅ ∅ newStatTree [] [] 0 0 MaxFloat64 float_zero.

Definition math_Min (x y : float64) : float64 :=
  match x, y with
  | S754_infinity true, _ => x
  | _, S754_infinity true => y
  | S754_nan, _ | _, S754_nan => S754_nan
  | S754_zero s, S754_zero _ => if s then x else y
  | _, _ => if SFltb x y then x else y
  end.

Definition math_Max (x y : float64) : float64 :=
  match x, y with
  | S754_infinity false, _ => x
  | _, S754_infinity false => y
  | S754_nan, _ | _, S754_nan => S754_nan
  | S754_zero s, S754_zero _ => if s then y else x
  | _, _ => if SFltb y x then x else y
  end.

(** [event.ProxyExecution] *)
Definition ProxyExecution : string := "ProxyExecution".

Section Stats.

(** The generated code and the SDK: protocol values of type [P] are kept as they
    are, [T] is the protocol's time interval. *)
Context {T P : Type}.
Variable TimeIntervalFromProto : T → TimeInterval.
Variable CommandResultStatus_String : Z → string.
Variable CompletionStatus_String : Z → string.
Variable CommandResultStatus_CACHE_HIT : Z.

(** ** Adding a record *)

Definition addTimeInterval (t : statTree) (stt : path) (tPb : option T) (name cmdID : string) : statTree :=
  let '(t, tiStt) := child t stt name in
  match tPb with
  | None => t
  | Some tPb =>
      let ti := TimeIntervalFromProto tPb in
      if negb (IsZero (From ti)) && negb (IsZero (To ti)) then
        let val := int32 (Milliseconds (Sub (To ti) (From ti))) in
        addNum t tiStt val "" cmdID true
      else t
  end.

Definition addEventTimes (t : statTree) (stt : path) (et : list (string * option T)) (name cmdID : string)
    : statTree :=
  let '(t, etStt) := child t stt name in
  foldl (λ t kv, addTimeInterval t etStt kv.2 kv.1 cmdID) t et.

Definition addCommandResult (t : statTree) (stt : path) (res : option CommandResult) (name : string)
    : statTree :=
  let '(t, resStt) := child t stt name in
  match res with
  | None => t
  | Some res => addStatus t resStt (CommandResultStatus_String (cr_Status res)) "Status"
  end.

Definition addRerunMetadata (t : statTree) (stt : path) (rm : option (RerunMetadata T))
    (name cmdID : string) : statTree :=
  let '(t, rmStt) := child t stt name in
  match rm with
  | None => t
  | Some rm =>
      let t := addNum t rmStt (rr_Attempt rm) "Attempt" cmdID false in
      let t := addCommandResult t rmStt (rr_Result rm) "Result" in
      let t := addNum t rmStt (rr_NumOutputFiles rm) "NumOutputFiles" cmdID false in
      let t := addNum t rmStt (rr_NumOutputFiles rm) "NumOutputFiles" cmdID false in
      let t := addNum t rmStt (rr_NumOutputDirectories rm) "NumOutputDirectories" cmdID false in
      let t := addNum t rmStt (rr_TotalOutputBytes rm) "TotalOutputBytes" cmdID false in
      let t := addNum t rmStt (rr_LogicalBytesDownloaded rm) "LogicalBytesDownloaded" cmdID false in
      let t := addNum t rmStt (rr_RealBytesDownloaded rm) "RealBytesDownloaded" cmdID false in
      addEventTimes t rmStt (rr_EventTimes rm) "EventTimes" cmdID
  end.

Definition addRerunMetadatas (t : statTree) (stt : path) (rms : list (RerunMetadata T))
    (name cmdID : string) : statTree :=
  let '(t, rmsStt) := child t stt name in
  foldl (λ t rm, addRerunMetadata t rmsStt (Some rm) "RerunMetadata" cmdID) t rms.

Definition addRemoteMetadata (t : statTree) (stt : path) (rm : option (RemoteMetadata T))
    (name cmdID : string) : statTree :=
  let '(t, rmStt) := child t stt name in
  match rm with
  | None => t
  | Some rm =>
      let t := addCommandResult t rmStt (rm_Result rm) "Result" in
      let t := addBool t rmStt (rm_CacheHit rm) "CacheHit" in
      let t := addNum t rmStt (rm_NumInputFiles rm) "NumInputFiles" cmdID false in
      let t := addNum t rmStt (rm_NumInputDirectories rm) "NumInputDirectories" cmdID false in
      let t := addNum t rmStt (rm_TotalInputBytes rm) "TotalInputBytes" cmdID false in
      let t := addNum t rmStt (rm_NumOutputFiles rm) "NumOutputFiles" cmdID false in
      let t := addNum t rmStt (rm_NumOutputDirectories rm) "NumOutputDirectories" cmdID false in
      let t := addNum t rmStt (rm_TotalOutputBytes rm) "TotalOutputBytes" cmdID false in
      let t := addEventTimes t rmStt (rm_EventTimes rm) "EventTimes" cmdID in
      let t := addNum t rmStt (rm_LogicalBytesUploaded rm) "LogicalBytesUploaded" cmdID false in
      let t := addNum t rmStt (rm_RealBytesUploaded rm) "RealBytesUploaded" cmdID false in
      let t := addNum t rmStt (rm_LogicalBytesDownloaded rm) "LogicalBytesDownloaded" cmdID false in
      let t := addNum t rmStt (rm_RealBytesDownloaded rm) "RealBytesDownloaded" cmdID false in
      addRerunMetadatas t rmStt (rm_RerunMetadata rm) "RerunMetadata" cmdID
  end.

Definition addLocalMetadata (t : statTree) (stt : path) (lm : option (LocalMetadata T))
    (name cmdID : string) : statTree :=
  let '(t, lmStt) := child t stt name in
  match lm with
  | None => t
  | Some lm =>
      let t := addCommandResult t lmStt (lm_Result lm) "Result" in
      let t := addBool t lmStt (lm_ExecutedLocally lm) "ExecutedLocally" in
      let t := addBool t lmStt (lm_ValidCacheHit lm) "ValidCacheHit" in
      let t := addBool t lmStt (lm_UpdatedCache lm) "UpdatedCache" in
      let t := addVerification t lmStt (lm_Verification lm) "Verification" cmdID in
      let t := addEventTimes t lmStt (lm_EventTimes lm) "EventTimes" cmdID in
      addRerunMetadatas t lmStt (lm_RerunMetadata lm) "RerunMetadata" cmdID
  end.

Definition addLogRecord (t : statTree) (stt : path) (rec : LogRecord T) (name cmdID : string) : statTree :=
  let '(t, recStt) := child t stt name in
  let t := addCommandResult t recStt (lr_Result rec) "Result" in
  let t := addRemoteMetadata t recStt (lr_RemoteMetadata rec) "RemoteMetadata" cmdID in
  let t := addLocalMetadata t recStt (lr_LocalMetadata rec) "LocalMetadata" cmdID in
  addStatus t recStt (CompletionStatus_String (lr_CompletionStatus rec)) "CompletionStatus".

(** The record's labels, verification and event times, empty when the record
    has no local metadata or no verification. *)
Definition GetLabels (r : LogRecord T) : gmap string string :=
  match lr_LocalMetadata r with Some lm => lm_Labels lm | None => ∅ end.
Definition GetVerification (r : LogRecord T) : option Verification :=
  lm ← lr_LocalMetadata r; lm_Verification lm.
Definition GetMismatches (r : LogRecord T) : list Mismatch :=
  match GetVerification r with Some v => vf_Mismatches v | None => [] end.
Definition GetTotalVerified (r : LogRecord T) : Z :=
  match GetVerification r with Some v => vf_TotalVerified v | None => 0%Z end.
Definition GetEventTimes (r : LogRecord T) : list (string * option T) :=
  match lr_LocalMetadata r with Some lm => lm_EventTimes lm | None => [] end.

(** [times[event.ProxyExecution]], when its two ends are set; a nil interval
    under this key is not modelled. *)
Definition proxy_execution (r : LogRecord T) : option TimeInterval :=
  kv ← list_find (λ kv, kv.1 = ProxyExecution) (GetEventTimes r);
  tPb ← kv.2.2;
  let ti := TimeIntervalFromProto tPb in
  if negb (IsZero (From ti)) && negb (IsZero (To ti)) then Some ti else None.

Definition is_cache_hit (r : LogRecord T) : bool :=
  match lr_Result r with
  | Some res => bool_decide (cr_Status res = CommandResultStatus_CACHE_HIT)
  | None => bool_decide (0%Z = CommandResultStatus_CACHE_HIT)
  end.

Definition AddRecord (s : Stats P) (r : LogRecord T) : Stats P :=
  let t := addLogRecord (tree s) [] r "" (lr_CommandId r) in
  let l := GetLabels r in
  let t := if bool_decide (l = ∅) then t else addLogRecord t [] r (ToKey l) (lr_CommandId r) in
  {| NumRecords := int64 (NumRecords s + 1);
     invIDs := if (lr_InvocationId r =? "")%string then invIDs s else {[ lr_InvocationId r ]} ∪ invIDs s;
     sStats := sStats s;
     tree := t;
     mismatches := mismatches s ++ GetMismatches r;
     ProxyInfos := ProxyInfos s;
     numVerified := int64 (numVerified s + GetTotalVerified r);
     cacheHits := if is_cache_hit r then int64 (cacheHits s + 1) else cacheHits s;
     minProxyExecStart := match proxy_execution r with
       | Some ti => math_Min (minProxyExecStart s) (float64_of_int (Unix (From ti)))
       | None => minProxyExecStart s end;
     maxProxyExecEnd := match proxy_execution r with
       | Some ti => math_Max (maxProxyExecEnd s) (float64_of_int (Unix (To ti)))
       | None => maxProxyExecEnd s end |}.

(** ** Flattening and finalizing *)

(** [range l] is the order in which a range visits the children [l] of a node,
    and [sort_by_Path] what [sort.Slice], which is not stable, makes of the
    mismatches. *)
Variable range : list (list string) → list (list string).
Variable sort_by_Path : list Mismatch → list Mismatch.

Definition node_name (p : path) : string := default "" (last p).

Definition subfields (t : statTree) (stt : path) : list path :=
  filter (λ p, p ≠ [] ∧ removelast p = stt) (map_to_list t).*1.

Definition extend_prefix (prefix name : string) : string :=
  (if negb (prefix =? "")%string && negb (name =? "")%string then prefix +:+ "." else prefix) +:+ name.

Fixpoint aggregate (fuel : nat) (t : statTree) (S : gmap string (list string)) (stt : path)
    (prefix : string) : gmap string (list string) :=
  match fuel with
  | 0 => S
  | Datatypes.S fuel =>
      let prefix := extend_prefix prefix (node_name stt) in
      let subs := subfields t stt in
      let S := if bool_decide (subs = []) then
          let st := default newStat (t !! stt) in
          <[if isMillis st then prefix +:+ "Millis" else prefix := stt]> S
        else S in
      foldl (λ S sttChild, aggregate fuel t S sttChild prefix) S (range subs)
  end.

(** The number of levels of the tree. *)
Definition height (t : statTree) : nat := Datatypes.S (max_list (length <$> (map_to_list t).*1)).

Definition fadd (x y : float64) : float64 := SFadd 53 1024 x y.

(** [vals[i]]; the indices below are in range. *)
Definition at_index (vals : list Z) (i : nat) : Z := default 0%Z (vals !! i).

Definition summarize (st : Stat) : Stat :=
  let n := length (rawValues st) in
  if bool_decide (0 < n) then
    let vals := sort_Ints (rawValues st) in
    let total := foldl (λ total v, fadd total (float64_of_int v)) float_zero vals in
    mkStat (Count st) (CountByValue st) vals (isMillis st) (Outlier1 st) (Outlier2 st)
      (at_index vals (n / 2)) (at_index vals (n * 3 / 4)) (at_index vals (n * 17 / 20))
      (at_index vals (n * 19 / 20)) (fdiv total (float64_of_int (Z.of_nat n)))
  else st.

Definition with_tree (s : Stats P) (ss : gmap string (list string)) (t : statTree) (mms : list Mismatch)
    (pis : list P) : Stats P :=
  mkStats P (NumRecords s) (invIDs s) ss t mms pis (numVerified s) (cacheHits s)
    (minProxyExecStart s) (maxProxyExecEnd s).

Definition finalize (s : Stats P) : Stats P :=
  with_tree s (sStats s) (map_fold (λ _ st t, update summarize t st) (tree s) (sStats s))
    (sort_by_Path (mismatches s)) (ProxyInfos s).

Definition FinalizeAggregate (s : Stats P) (pInfos : list P) : Stats P :=
  let ss := aggregate (height (tree s)) (tree s) (sStats s) [] "" in
  finalize (with_tree s ss (tree s) (mismatches s) (ProxyInfos s ++ pInfos)).

Definition NewFromRecords (recs : list (LogRecord T)) (pInfos : list P) : Stats P :=
  FinalizeAggregate (foldl AddRecord New recs) pInfos.

(** ** The report *)

Record StatPb := mkStatPb {
  pb_Name : string;
  pb_Count : Z;
  pb_CountsByValue : list (string * Z);
  pb_Outliers : list Outlier;
  pb_Median : Z;
  pb_Percentile75 : Z;
  pb_Percentile85 : Z;
  pb_Percentile95 : Z;
  pb_Average : float64
}.

Definition statToProto (name : string) (s : Stat) : StatPb := {|
  pb_Name := name;
  pb_Count := Count s;
  pb_CountsByValue :=
    (λ n, (n, default 0%Z (CountByValue s !! n))) <$> sort_Strings (map_to_list (CountByValue s)).*1;
  pb_Outliers := option_list (Outlier1 s) ++ option_list (Outlier2 s);
  pb_Median := Median s;
  pb_Percentile75 := Percentile75 s;
  pb_Percentile85 := Percentile85 s;
  pb_Percentile95 := Percentile95 s;
  pb_Average := Average s |}.

Record StatsPb := {
  NumRecordsPb : Z;
  BuildCacheHitRatio : float64;
  BuildLatency : float64;
  InvocationIds : list string;
  StatsOf : list StatPb;
  VerificationOf : option (list Mismatch * Z * Z);
  ProxyInfoOf : list P
}.

Definition fsub (x y : float64) : float64 := SFsub 53 1024 x y.

(** [sPb.Stats]: the statistics with a value, by name. *)
Definition stats_report (s : Stats P) : list StatPb :=
  omap (λ n, p ← sStats s !! n; st ← tree s !! p; if IsEmpty st then None else Some (statToProto n st))
    (sort_Strings (map_to_list (sStats s)).*1).

(** The description of the machine is left out; the invocations are listed in
    some order. *)
Definition ToProto (s : Stats P) : StatsPb := {|
  NumRecordsPb := NumRecords s;
  BuildCacheHitRatio :=
    if bool_decide (NumRecords s = 0%Z) then float_zero
    else fdiv (float64_of_int (cacheHits s)) (float64_of_int (NumRecords s));
  BuildLatency :=
    if bool_decide (NumRecords s = 0%Z) then float_zero
    else fsub (maxProxyExecEnd s) (minProxyExecStart s);
  InvocationIds := elements (invIDs s);
  StatsOf := stats_report s;
  VerificationOf :=
    if bool_decide (mismatches s = []) then None
    else Some (mismatches s, int32 (Z.of_nat (length (mismatches s))), numVerified s);
  ProxyInfoOf := ProxyInfos s |}.

(** [FromSeriesToProto] *)
Definition FromSeriesToProto (name : string) (vals : list Z) : StatPb :=
  statToProto name (summarize (mkStat 0 ∅ vals false None None 0 0 0 0 float_zero)).

End Stats.

(** ** Sizes for people *)

Definition bwUnit : Z := 1000.
Definition bwUnitReps : string := "KMGT".

(** The loop of [humanReadableBytes]: [n] is divided until it is below the
    unit; 64 rounds are more than an [int64] needs. *)
Fixpoint scale (fuel : nat) (n res : Z) (idx : nat) : Z * nat :=
  match fuel with
  | 0 => (res, idx)
  | S fuel =>
      if bool_decide (bwUnit ≤ n)%Z then scale fuel (Z.quot n bwUnit) (int64 (res * bwUnit)) (idx + 1)
      else (res, idx)
  end.

(** [fmt_2f] is the verb [%0.2f]. *)
Definition humanReadableBytes (fmt_2f : float64 → string) (numBytes : Z) : res string :=
  if bool_decide (numBytes < bwUnit)%Z then Ok (pretty numBytes +:+ " B")
  else
    let '(res, idx) := scale 64 (Z.quot numBytes bwUnit) bwUnit 0 in
    let? c := or_panic (String.get idx bwUnitReps) in
    Ok (fmt_2f (fdiv (float64_of_int numBytes) (float64_of_int res)) +:+ " " +:+ String c "B").

Definition bandwidth_count (name : string) (stats : list StatPb) : Z :=
  foldl (λ acc st, if (pb_Name st =? name)%string then pb_Count st else acc) 0%Z stats.

(** The first of the pair is the number of bytes downloaded. *)
Definition BandwidthStats (fmt_2f : float64 → string) (stats : list StatPb) : res (string * string) :=
  let up := bandwidth_count "RemoteMetadata.RealBytesUploaded" stats in
  let down := bandwidth_count "RemoteMetadata.RealBytesDownloaded" stats in
  let? d := humanReadableBytes fmt_2f down in
  let? u := humanReadableBytes fmt_2f up in
  Ok (d, u).

(** ** Specification: the writes of a record *)

Inductive write :=
  | Touch
  | WNum (val : Z) (cmdID : string) (millis : bool)
  | WBool (b : bool)
  | WStatus (v : string).

Definition apply_write (st : Stat) (w : write) : Stat :=
  match w with
  | Touch => st
  | WNum v id m => add_num v id m st
  | WBool b => add_bool b st
  | WStatus v => add_status v st
  end.

Definition put (t : statTree) (w : path * write) : statTree :=
  <[w.1 := apply_write (default newStat (t !! w.1)) w.2]> t.

Definition puts (t : statTree) (ws : list (path * write)) : statTree := foldl put t ws.

(** The writes that reach the node [p], in their order, and the value they make
    of an empty one. *)
Definition writes_at (p : path) (ws : list (path * write)) : list write :=
  omap (λ w, if decide (w.1 = p) then Some w.2 else None) ws.

Definition stat_of (l : list write) : Stat := foldl apply_write newStat l.

Lemma puts_app t ws1 ws2 : puts t (ws1 ++ ws2) = puts (puts t ws1) ws2.
Proof. apply foldl_app. Qed.

Lemma puts_lookup t ws p :
  puts t ws !! p =
    match t !! p, writes_at p ws with
    | None, [] => None
    | o, l => Some (foldl apply_write (default newStat o) l)
    end.
Proof.
  revert t. induction ws as [|[q w] ws IH]; intros t; simpl; [by destruct (t !! p)|].
  rewrite IH. unfold put. simpl. destruct (decide (q = p)) as [->|Hne].
  - rewrite lookup_insert_eq. simpl. by destruct (t !! p).
  - by rewrite lookup_insert_ne.
Qed.

Lemma writes_at_app p ws1 ws2 : writes_at p (ws1 ++ ws2) = writes_at p ws1 ++ writes_at p ws2.
Proof. apply omap_app. Qed.

Lemma child_puts t stt name : child t stt name = (puts t [(stt ++ [name], Touch)], stt ++ [name]).
Proof.
  unfold child, puts, put. simpl. f_equal.
  destruct (t !! (stt ++ [name])) eqn:E; simpl; [by rewrite insert_id|done].
Qed.

Lemma update_puts t stt name (f : Stat → Stat) w :
  (∀ st, apply_write st w = f st) →
  update f (puts t [(stt ++ [name], Touch)]) (stt ++ [name]) = puts t [(stt ++ [name], w)].
Proof.
  intros Hf. unfold update, puts, put. simpl. rewrite Hf.
  apply map_eq. intros q. destruct (decide (stt ++ [name] = q)) as [<-|Hne].
  - by rewrite lookup_alter_eq, !lookup_insert_eq.
  - by rewrite lookup_alter_ne, !lookup_insert_ne by done.
Qed.

Lemma addNum_puts t stt v name id m : addNum t stt v name id m = puts t [(stt ++ [name], WNum v id m)].
Proof. unfold addNum. rewrite child_puts. by apply update_puts. Qed.

Lemma addBool_puts t stt b name : addBool t stt b name = puts t [(stt ++ [name], WBool b)].
Proof. unfold addBool. rewrite child_puts. by apply update_puts. Qed.

Lemma addStatus_puts t stt v name : addStatus t stt v name = puts t [(stt ++ [name], WStatus v)].
Proof. unfold addStatus. rewrite child_puts. by apply update_puts. Qed.

Create HintDb stat_writes.
#[export] Hint Rewrite child_puts addNum_puts addBool_puts addStatus_puts : stat_writes.

Lemma foldl_puts {A} (f : statTree → A → statTree) (ws : A → list (path * write)) l t :
  (∀ t a, f t a = puts t (ws a)) → foldl f t l = puts t (concat (ws <$> l)).
Proof.
  intros Hf. revert t. induction l as [|a l IH]; intros t; simpl; [done|].
  by rewrite Hf, IH, puts_app.
Qed.

Section writes.

Context {T P : Type}.
Variable TimeIntervalFromProto : T → TimeInterval.
Variable CommandResultStatus_String : Z → string.
Variable CompletionStatus_String : Z → string.
Variable CommandResultStatus_CACHE_HIT : Z.

(** The writes of a message that is stored below the node [stt] as [name]: the
    node is created, even when the message is absent. *)
Definition message {A} (stt : path) (name : string) (o : option A)
    (fields : path → A → list (path * write)) : list (path * write) :=
  (stt ++ [name], Touch) :: match o with Some a => fields (stt ++ [name]) a | None => [] end.

Definition result_writes (stt : path) (res : option CommandResult) : list (path * write) :=
  message stt "Result" res (λ p res, [(p ++ ["Status"], WStatus (CommandResultStatus_String (cr_Status res)))]).

Definition num (id : string) (p : path) (name : string) (v : Z) : path * write :=
  (p ++ [name], WNum v id false).

(** An event with both its ends is a sample of its duration in milliseconds. *)
Definition interval_ms (tPb : T) : option Z :=
  let ti := TimeIntervalFromProto tPb in
  if negb (IsZero (From ti)) && negb (IsZero (To ti))
  then Some (int32 (Milliseconds (Sub (To ti) (From ti)))) else None.

Definition event_writes (id : string) (stt : path) (kv : string * option T) : list (path * write) :=
  message stt kv.1 kv.2 (λ p tPb,
    match interval_ms tPb with Some ms => [(p ++ [""], WNum ms id true)] | None => [] end).

Definition events_writes (id : string) (stt : path) (et : list (string * option T)) : list (path * write) :=
  message stt "EventTimes" (Some et) (λ p et, concat (event_writes id p <$> et)).

Definition rerun_writes (id : string) (stt : path) (rm : RerunMetadata T) : list (path * write) :=
  message stt "RerunMetadata" (Some rm) (λ p rm,
    num id p "Attempt" (rr_Attempt rm) :: result_writes p (rr_Result rm) ++
    [num id p "NumOutputFiles" (rr_NumOutputFiles rm); num id p "NumOutputFiles" (rr_NumOutputFiles rm);
     num id p "NumOutputDirectories" (rr_NumOutputDirectories rm);
     num id p "TotalOutputBytes" (rr_TotalOutputBytes rm);
     num id p "LogicalBytesDownloaded" (rr_LogicalBytesDownloaded rm);
     num id p "RealBytesDownloaded" (rr_RealBytesDownloaded rm)] ++
    events_writes id p (rr_EventTimes rm)).

Definition reruns_writes (id : string) (stt : path) (rms : list (RerunMetadata T)) : list (path * write) :=
  message stt "RerunMetadata" (Some rms) (λ p rms, concat (rerun_writes id p <$> rms)).

Definition remote_writes (id : string) (stt : path) (rm : option (RemoteMetadata T)) : list (path * write) :=
  message stt "RemoteMetadata" rm (λ p rm,
    result_writes p (rm_Result rm) ++
    [(p ++ ["CacheHit"], WBool (rm_CacheHit rm));
     num id p "NumInputFiles" (rm_NumInputFiles rm);
     num id p "NumInputDirectories" (rm_NumInputDirectories rm);
     num id p "TotalInputBytes" (rm_TotalInputBytes rm);
     num id p "NumOutputFiles" (rm_NumOutputFiles rm);
     num id p "NumOutputDirectories" (rm_NumOutputDirectories rm);
     num id p "TotalOutputBytes" (rm_TotalOutputBytes rm)] ++
    events_writes id p (rm_EventTimes rm) ++
    [num id p "LogicalBytesUploaded" (rm_LogicalBytesUploaded rm);
     num id p "RealBytesUploaded" (rm_RealBytesUploaded rm);
     num id p "LogicalBytesDownloaded" (rm_LogicalBytesDownloaded rm);
     num id p "RealBytesDownloaded" (rm_RealBytesDownloaded rm)] ++
    reruns_writes id p (rm_RerunMetadata rm)).

Definition mismatch_writes (stt : path) (mm : Mismatch) : list (path * write) :=
  message stt "Mismatch" (Some mm) (λ p mm,
    [(p ++ ["NonDeterministic"], WBool (mm_NonDeterministic mm)); (p ++ ["Ignored"], WBool (mm_Ignored mm))]).

Definition verification_writes (id : string) (stt : path) (vf : option Verification) : list (path * write) :=
  message stt "Verification" vf (λ p vf,
    message p "Mismatches" (Some (vf_Mismatches vf)) (λ p mms, concat (mismatch_writes p <$> mms)) ++
    [num id p "TotalMismatches" (vf_TotalMismatches vf);
     num id p "TotalIgnoredMismatches" (vf_TotalIgnoredMismatches vf);
     num id p "TotalVerified" (vf_TotalVerified vf)]).

Definition local_writes (id : string) (stt : path) (lm : option (LocalMetadata T)) : list (path * write) :=
  message stt "LocalMetadata" lm (λ p lm,
    result_writes p (lm_Result lm) ++
    [(p ++ ["ExecutedLocally"], WBool (lm_ExecutedLocally lm));
     (p ++ ["ValidCacheHit"], WBool (lm_ValidCacheHit lm));
     (p ++ ["UpdatedCache"], WBool (lm_UpdatedCache lm))] ++
    verification_writes id p (lm_Verification lm) ++
    events_writes id p (lm_EventTimes lm) ++
    reruns_writes id p (lm_RerunMetadata lm)).

Definition log_writes (name : string) (r : LogRecord T) : list (path * write) :=
  message [] name (Some r) (λ p r,
    result_writes p (lr_Result r) ++
    remote_writes (lr_CommandId r) p (lr_RemoteMetadata r) ++
    local_writes (lr_CommandId r) p (lr_LocalMetadata r) ++
    [(p ++ ["CompletionStatus"], WStatus (CompletionStatus_String (lr_CompletionStatus r)))]).

(** A record is counted in the totals, and once more under the key of its
    labels. *)
Definition record_writes (r : LogRecord T) : list (path * write) :=
  log_writes "" r ++
  if bool_decide (GetLabels r = ∅) then [] else log_writes (ToKey (GetLabels r)) r.

(** Unfold one operation, turn its parts into writes, and join them. *)
Ltac by_writes := autorewrite with stat_writes; rewrite <- ?puts_app; simpl; rewrite ?app_nil_r; try done.

Lemma addCommandResult_puts t stt res :
  addCommandResult CommandResultStatus_String t stt res "Result" = puts t (result_writes stt res).
Proof. unfold addCommandResult, result_writes, message. by_writes. destruct res; by by_writes. Qed.
#[local] Hint Rewrite addCommandResult_puts : stat_writes.

Lemma addTimeInterval_puts t stt kv id :
  addTimeInterval TimeIntervalFromProto t stt kv.2 kv.1 id = puts t (event_writes id stt kv).
Proof.
  unfold addTimeInterval, event_writes, message, interval_ms. by_writes.
  destruct kv.2; [|done]. case_match_goal; by by_writes.
Qed.

Lemma addEventTimes_puts t stt et id :
  addEventTimes TimeIntervalFromProto t stt et "EventTimes" id = puts t (events_writes id stt et).
Proof.
  unfold addEventTimes, events_writes, message. by_writes.
  rewrite (foldl_puts _ (event_writes id (stt ++ ["EventTimes"]))) by (intros; apply addTimeInterval_puts).
  by by_writes.
Qed.
#[local] Hint Rewrite addEventTimes_puts : stat_writes.

Lemma addRerunMetadata_puts t stt rm id :
  addRerunMetadata TimeIntervalFromProto CommandResultStatus_String t stt (Some rm) "RerunMetadata" id =
  puts t (rerun_writes id stt rm).
Proof. unfold addRerunMetadata, rerun_writes, message, num. by by_writes. Qed.

Lemma addRerunMetadatas_puts t stt rms id :
  addRerunMetadatas TimeIntervalFromProto CommandResultStatus_String t stt rms "RerunMetadata" id =
  puts t (reruns_writes id stt rms).
Proof.
  unfold addRerunMetadatas, reruns_writes, message. by_writes.
  rewrite (foldl_puts _ (rerun_writes id (stt ++ ["RerunMetadata"]))) by (intros; apply addRerunMetadata_puts).
  by by_writes.
Qed.
#[local] Hint Rewrite addRerunMetadatas_puts : stat_writes.

Lemma addRemoteMetadata_puts t stt rm id :
  addRemoteMetadata TimeIntervalFromProto CommandResultStatus_String t stt rm "RemoteMetadata" id =
  puts t (remote_writes id stt rm).
Proof. unfold addRemoteMetadata, remote_writes, message, num. destruct rm; by by_writes. Qed.

Lemma addMismatch_puts t stt mm :
  addMismatch t stt (Some mm) "Mismatch" = puts t (mismatch_writes stt mm).
Proof. unfold addMismatch, mismatch_writes, message. by by_writes. Qed.

Lemma addVerification_puts t stt vf id :
  addVerification t stt vf "Verification" id = puts t (verification_writes id stt vf).
Proof.
  unfold addVerification, verification_writes, addMismatches. destruct vf as [vf|]; [|by by_writes].
  unfold message at 1. by_writes.
  rewrite (foldl_puts _ (mismatch_writes ((stt ++ ["Verification"]) ++ ["Mismatches"])))
    by (intros; apply addMismatch_puts).
  unfold message. by_writes. by rewrite puts_app.
Qed.
#[local] Hint Rewrite addVerification_puts : stat_writes.

Lemma addLocalMetadata_puts t stt lm id :
  addLocalMetadata TimeIntervalFromProto CommandResultStatus_String t stt lm "LocalMetadata" id =
  puts t (local_writes id stt lm).
Proof. unfold addLocalMetadata, local_writes. destruct lm; [unfold message at 1|]; by by_writes. Qed.
#[local] Hint Rewrite addRemoteMetadata_puts addLocalMetadata_puts : stat_writes.

Lemma addLogRecord_puts t r name :
  addLogRecord TimeIntervalFromProto CommandResultStatus_String CompletionStatus_String
    t [] r name (lr_CommandId r) = puts t (log_writes name r).
Proof. unfold addLogRecord, log_writes, message at 1. by by_writes. Qed.

Notation AddRecord := (@AddRecord T P TimeIntervalFromProto CommandResultStatus_String
  CompletionStatus_String CommandResultStatus_CACHE_HIT).

Lemma AddRecord_tree s r : tree (AddRecord s r) = puts (tree s) (record_writes r).
Proof.
  simpl. rewrite addLogRecord_puts. unfold record_writes.
  case_bool_decide; [by rewrite app_nil_r|]. by rewrite addLogRecord_puts, puts_app.
Qed.

Lemma AddRecords_tree s recs :
  tree (foldl AddRecord s recs) = puts (tree s) (concat (record_writes <$> recs)).
Proof.
  revert s. induction recs as [|r recs IH]; intros s; cbn [foldl fmap list_fmap concat]; [done|].
  by rewrite IH, AddRecord_tree, puts_app.
Qed.

End writes.

(** ** The value that a list of writes makes *)

Definition contribution (w : write) : Z :=
  match w with
  | WNum v _ m => if m then 1 else v
  | WBool true => 1
  | _ => 0
  end.
Definition sample (w : write) : option Z := match w with WNum v _ _ => Some v | _ => None end.
Definition samples (l : list write) : list Z := omap sample l.
Definition is_status (v : string) (w : write) : bool :=
  match w with WStatus v' => (v' =? v)%string | _ => false end.
Definition is_millis (w : write) : bool := match w with WNum _ _ m => m | _ => false end.
Definition zsum (l : list Z) : Z := foldr Z.add 0%Z l.
Definition count_status (v : string) (l : list write) : nat := length (filter (λ w, is_status v w = true) l).

Lemma zsum_snoc l x : zsum (l ++ [x]) = (zsum l + x)%Z.
Proof. induction l as [|y l IH]; simpl; [lia|]. unfold zsum in *. simpl. rewrite IH. lia. Qed.

Lemma zsum_perm l l' : l ≡ₚ l' → zsum l = zsum l'.
Proof. induction 1; unfold zsum in *; simpl in *; lia. Qed.

Lemma stat_of_snoc l w : stat_of (l ++ [w]) = apply_write (stat_of l) w.
Proof. unfold stat_of. by rewrite foldl_app. Qed.

Lemma add_num_fields v id m st :
  Count (add_num v id m st) = int64 (Count st + if m then 1 else v) ∧
  CountByValue (add_num v id m st) = CountByValue st ∧
  rawValues (add_num v id m st) = rawValues st ++ [v] ∧
  isMillis (add_num v id m st) = isMillis st || m ∧
  (Outlier1 (add_num v id m st), Outlier2 (add_num v id m st)) = num_outliers v id (Outlier1 st) (Outlier2 st).
Proof. unfold add_num. destruct (num_outliers _ _ _ _). by destruct m. Qed.

Lemma stat_of_count l : Count (stat_of l) = int64 (zsum (contribution <$> l)).
Proof.
  induction l as [|w l IH] using rev_ind; [done|].
  rewrite stat_of_snoc, fmap_app. simpl. rewrite zsum_snoc, <- int64_add, <- IH.
  assert (Count (stat_of l) = int64 (Count (stat_of l) + 0)) as E
    by (rewrite IH; rewrite int64_add; f_equal; lia).
  destruct w as [|v id m|b|v]; simpl; [done| |destruct b; done|done].
  by destruct (add_num_fields v id m (stat_of l)) as [-> _].
Qed.

Lemma stat_of_raw l : rawValues (stat_of l) = samples l.
Proof.
  induction l as [|w l IH] using rev_ind; [done|].
  rewrite stat_of_snoc. unfold samples in *. rewrite omap_app, <- IH.
  destruct w as [|v id m|b|v]; simpl; rewrite ?app_nil_r; [done| |by destruct b|done].
  by destruct (add_num_fields v id m (stat_of l)) as (_ & _ & -> & _).
Qed.

Lemma stat_of_millis l : isMillis (stat_of l) = existsb is_millis l.
Proof.
  induction l as [|w l IH] using rev_ind; [done|].
  rewrite stat_of_snoc, existsb_app, <- IH. simpl. rewrite orb_false_r.
  destruct w as [|v id m|b|v]; simpl; rewrite ?orb_false_r; [done| |by destruct b|done].
  by destruct (add_num_fields v id m (stat_of l)) as (_ & _ & _ & -> & _).
Qed.

Lemma stat_of_status l v :
  CountByValue (stat_of l) !! v =
    match count_status v l with 0 => None | n => Some (int64 (Z.of_nat n)) end.
Proof.
  unfold count_status. induction l as [|w l IH] using rev_ind; [done|].
  rewrite stat_of_snoc, filter_app, length_app.
  destruct w as [|v' id m|b|v']; simpl; rewrite ?Nat.add_0_r; [done| |by destruct b|].
  - by destruct (add_num_fields v' id m (stat_of l)) as (_ & -> & _).
  - rewrite filter_cons, filter_nil. destruct (decide (v' = v)) as [->|Hne].
    + rewrite decide_True by apply String.eqb_refl. rewrite lookup_insert_eq, IH. simpl.
      rewrite Nat.add_1_r. destruct (length _) as [|n]; simpl; [done|].
      rewrite int64_add. do 2 f_equal. lia.
    + rewrite decide_False by (intros E%String.eqb_eq; done). rewrite lookup_insert_ne by done.
      simpl. by rewrite Nat.add_0_r.
Qed.

(** [o] is the largest of [vs], if there is one, and [rest] are the others. *)
Definition largest (vs : list Z) (o : option Z) (rest : list Z) : Prop :=
  match o with
  | None => vs = [] ∧ rest = []
  | Some x => x :: rest ≡ₚ vs ∧ Forall (λ y, (y ≤ x)%Z) vs
  end.

Definition two_largest (vs : list Z) (o1 o2 : option Z) : Prop :=
  ∃ r1 r2, largest vs o1 r1 ∧ largest r1 o2 r2.

Lemma largest_new vs v : Forall (λ y, (y ≤ v)%Z) vs → largest (vs ++ [v]) (Some v) vs.
Proof.
  intros H. split; [by rewrite <- Permutation_cons_append|].
  apply Forall_app. split; [done|]. by repeat constructor.
Qed.

Lemma largest_keep vs x r v : largest vs (Some x) r → (v ≤ x)%Z → largest (vs ++ [v]) (Some x) (r ++ [v]).
Proof.
  intros [Hp Hf] Hv. split; [by rewrite <- Hp|].
  apply Forall_app. split; [done|]. by repeat constructor.
Qed.

Lemma largest_below vs x r v : largest vs (Some x) r → (x < v)%Z → Forall (λ y, (y ≤ v)%Z) vs.
Proof. intros [_ H] Hv. eapply Forall_impl; [done|]. simpl. lia. Qed.

Lemma largest_unique vs vs' o o' r r' :
  vs ≡ₚ vs' → largest vs o r → largest vs' o' r' → o = o' ∧ r ≡ₚ r'.
Proof.
  intros Hvs H H'. destruct o as [x|], o' as [x'|]; simpl in *.
  - destruct H as [Hp Hf], H' as [Hp' Hf']. rewrite Forall_forall in Hf, Hf'.
    assert (x = x') as ->.
    { apply Z.le_antisymm; [apply Hf'; rewrite <- Hvs, <- Hp|apply Hf; rewrite Hvs, <- Hp']; left. }
    split; [done|]. apply (Permutation_cons_inv (a := x')). by rewrite Hp, Hp'.
  - destruct H as [Hp _], H' as [-> _]. rewrite Hvs in Hp. by apply Permutation_nil_r in Hp.
  - destruct H as [-> _], H' as [Hp _]. rewrite <- Hvs in Hp. by apply Permutation_nil_r in Hp.
  - destruct H as [_ ->], H' as [_ ->]. done.
Qed.

Definition nonzero (vs : list Z) : list Z := filter (λ v, v ≠ 0%Z) vs.

Lemma two_largest_step vs v id o1 o2 :
  two_largest (nonzero vs) (o_Value <$> o1) (o_Value <$> o2) →
  let o := num_outliers v id o1 o2 in
  two_largest (nonzero (vs ++ [v])) (o_Value <$> o.1) (o_Value <$> o.2).
Proof.
  intros (r1 & r2 & H1 & H2). unfold num_outliers, nonzero in *.
  rewrite filter_app, filter_cons, filter_nil.
  case_bool_decide as Hv; [rewrite decide_False by (by intros ?); rewrite app_nil_r; by exists r1, r2|].
  rewrite decide_True by done. destruct o1 as [x|]; simpl in *.
  - case_bool_decide as Hx; simpl.
    { exists (filter (λ v, v ≠ 0%Z) vs), r1. split; [|done]. by eapply largest_new, largest_below. }
    apply (largest_keep _ _ _ v) in H1; [|lia]. destruct o2 as [y|]; simpl in *.
    + case_bool_decide as Hy; simpl.
      * exists (r1 ++ [v]), r1. split; [done|]. by eapply largest_new, largest_below.
      * exists (r1 ++ [v]), (r2 ++ [v]). split; [done|]. apply largest_keep; [done|lia].
    + destruct H2 as [-> ->]. exists [v], []. split; [done|]. by apply (largest_new []).
  - destruct H1 as [-> ->]. exists [], []. split; [by apply (largest_new [])|].
    destruct o2; simpl in *; [|done]. destruct H2 as [Hp _]. by apply Permutation_nil_r in Hp.
Qed.

Lemma stat_of_outliers l :
  two_largest (nonzero (samples l)) (o_Value <$> Outlier1 (stat_of l)) (o_Value <$> Outlier2 (stat_of l)).
Proof.
  induction l as [|w l IH] using rev_ind; [by exists [], []|].
  rewrite stat_of_snoc. unfold samples in *. rewrite omap_app.
  destruct w as [|v id m|b|v]; simpl; rewrite ?app_nil_r; [done| |by destruct b|done].
  pose proof (two_largest_step _ v id _ _ IH) as H. simpl in H.
  destruct (add_num_fields v id m (stat_of l)) as (_ & _ & _ & _ & E). by rewrite <- E in H.
Qed.

(** The largest two are determined by the multiset. *)
Lemma two_largest_unique vs vs' o1 o2 o1' o2' :
  vs ≡ₚ vs' → two_largest vs o1 o2 → two_largest vs' o1' o2' → o1 = o1' ∧ o2 = o2'.
Proof.
  intros Hvs (r1 & r2 & H1 & H2) (r1' & r2' & H1' & H2').
  destruct (largest_unique _ _ _ _ _ _ Hvs H1 H1') as [-> Hr].
  by destruct (largest_unique _ _ _ _ _ _ Hr H2 H2') as [-> _].
Qed.

(** ** The shape of the tree *)

(** Every write is to a child of [stt] or of a node that the list writes to. *)
Definition grows (stt : path) (ws : list (path * write)) : Prop :=
  Forall (λ w, ∃ q n, w.1 = q ++ [n] ∧ (q = stt ∨ q ∈ ws.*1)) ws.

Lemma grows_mono stt (ws ws' : list (path * write)) :
  Forall (λ w, ∃ q n, w.1 = q ++ [n] ∧ (q = stt ∨ q ∈ ws.*1)) ws → ws ⊆ ws' →
  Forall (λ w, ∃ q n, w.1 = q ++ [n] ∧ (q = stt ∨ q ∈ ws'.*1)) ws.
Proof.
  intros H Hs. eapply Forall_impl; [done|]. intros w (q & n & E & Hq). exists q, n.
  destruct Hq as [->|Hq]; [by auto|].
  split; [done|]. right. apply list_elem_of_fmap in Hq as (w' & -> & Hw'). apply list_elem_of_fmap_2. by apply Hs.
Qed.

Lemma grows_nil stt : grows stt [].
Proof. constructor. Qed.

Lemma grows_app stt ws1 ws2 : grows stt ws1 → grows stt ws2 → grows stt (ws1 ++ ws2).
Proof. intros H1 H2. apply Forall_app. split; eapply grows_mono; eauto; set_solver. Qed.

Lemma grows_cons stt n w ws : grows stt ws → grows stt ((stt ++ [n], w) :: ws).
Proof.
  intros H. apply (grows_app stt [(stt ++ [n], w)]); [|done]. repeat constructor. exists stt, n. auto.
Qed.

Lemma grows_concat {A} stt (f : A → list (path * write)) l :
  (∀ a, grows stt (f a)) → grows stt (concat (f <$> l)).
Proof. intros H. induction l; simpl; [apply grows_nil|by apply grows_app]. Qed.

Lemma grows_message {A} stt name (o : option A) fields :
  (∀ a, grows (stt ++ [name]) (fields (stt ++ [name]) a)) → grows stt (message stt name o fields).
Proof.
  intros H. unfold message. destruct o as [a|]; [|by apply grows_cons, grows_nil].
  constructor; [by exists stt, name; auto|].
  eapply Forall_impl; [exact (H a)|]. intros w (q & n & E & Hq). exists q, n. split; [done|].
  right. destruct Hq as [->|Hq]; [left|by right].
Qed.

Ltac grow :=
  repeat first
    [ match goal with H : ∀ _, _ |- _ => apply H end
    | apply grows_message; intros | apply grows_nil | apply grows_app
    | apply grows_concat; intros | apply grows_cons | case_match_goal ].

Lemma record_writes_grow {T} TI crs cs (r : LogRecord T) : grows [] (record_writes TI crs cs r).
Proof.
  assert (∀ stt res, grows stt (result_writes crs stt res)) as Hres by (intros; grow).
  assert (∀ id stt et, grows stt (events_writes TI id stt et)) as Hev by (intros; grow).
  assert (∀ id stt rms, grows stt (reruns_writes TI crs id stt rms)) as Hrr by (intros; grow).
  assert (∀ id stt vf, grows stt (verification_writes id stt vf)) as Hvf by (intros; grow).
  assert (∀ name, grows [] (log_writes TI crs cs name r)) as Hlog by (intros; grow).
  unfold record_writes. apply grows_app; [done|]. case_bool_decide; grow.
Qed.

(** A tree is closed when it has the root and the parent of each node. *)
Definition closed (t : statTree) : Prop :=
  is_Some (t !! []) ∧ ∀ p n, is_Some (t !! (p ++ [n])) → is_Some (t !! p).

Lemma puts_is_Some t ws p : is_Some (t !! p) ∨ p ∈ ws.*1 ↔ is_Some (puts t ws !! p).
Proof.
  revert t. induction ws as [|[q w] ws IH]; intros t; simpl; [set_solver|].
  rewrite <- IH. unfold put. simpl. destruct (decide (q = p)) as [->|Hne].
  - rewrite lookup_insert_eq. rewrite elem_of_cons. naive_solver.
  - rewrite lookup_insert_ne by done. set_solver.
Qed.

Lemma puts_closed t ws : closed t → grows [] ws → closed (puts t ws).
Proof.
  intros [H0 Hc] Hg. split; [apply puts_is_Some; by left|].
  intros p n [Hp|Hp]%puts_is_Some; apply puts_is_Some; [left; by eapply Hc|].
  apply list_elem_of_fmap in Hp as (w & E & Hw).
  destruct (proj1 (Forall_forall _ _) Hg w Hw) as (q & m & E' & Hq).
  rewrite E' in E. apply app_inj_tail in E as [-> _]. destruct Hq as [->|Hq]; auto.
Qed.

Lemma newStatTree_closed : closed newStatTree.
Proof.
  split; [by eexists|]. intros p n. unfold newStatTree. rewrite lookup_singleton_ne; [by intros [? ?]|].
  intros E. by destruct p.
Qed.

Lemma closed_down t p k : closed t → is_Some (t !! (p ++ k)) → is_Some (t !! p).
Proof.
  intros Hc. induction k as [|n k IH] using rev_ind; [by rewrite app_nil_r|].
  rewrite app_assoc. intros H. apply IH. by eapply (proj2 Hc).
Qed.

(** ** The leaves and their names *)

Definition leaf (t : statTree) (p : path) : Prop := is_Some (t !! p) ∧ subfields t p = [].

Definition full_prefix (p : path) : string := foldl extend_prefix "" p.

Definition leaf_name (t : statTree) (p : path) : string :=
  if isMillis (default newStat (t !! p)) then full_prefix p +:+ "Millis" else full_prefix p.

(** No two leaves have the same name. *)
Definition distinct_names (t : statTree) : Prop :=
  ∀ p q, leaf t p → leaf t q → leaf_name t p = leaf_name t q → p = q.

Lemma elem_of_subfields t stt p :
  p ∈ subfields t stt ↔ is_Some (t !! p) ∧ ∃ n, p = stt ++ [n].
Proof.
  unfold subfields. rewrite list_elem_of_filter, list_elem_of_fmap. split.
  - intros [[Hp E] ([q st] & -> & Hq%elem_of_map_to_list)]. simpl in *. split; [by eexists|].
    destruct q as [|n q _] using rev_ind; [done|]. exists n. by rewrite removelast_last in E; subst.
  - intros [[st Hst] [n ->]]. rewrite removelast_last. split; [split; [by destruct stt|done]|].
    exists (stt ++ [n], st). by rewrite elem_of_map_to_list.
Qed.

Lemma node_name_snoc p n : node_name (p ++ [n]) = n.
Proof. unfold node_name. by rewrite last_snoc. Qed.

Lemma full_prefix_snoc p n : full_prefix (p ++ [n]) = extend_prefix (full_prefix p) n.
Proof. unfold full_prefix. by rewrite foldl_app. Qed.

Lemma prefix_child (stt p : path) : stt `prefix_of` p → p ≠ stt → ∃ n, stt ++ [n] `prefix_of` p.
Proof.
  intros [k ->] Hne. destruct k as [|n k]; [by rewrite app_nil_r in Hne|].
  exists n, k. by rewrite <- app_assoc.
Qed.

Definition name_all (t : statTree) (S : gmap string (list string)) (ls : list path) : gmap string (list string) :=
  foldl (λ S p, <[leaf_name t p := p]> S) S ls.

Section aggregate.

Variable range : list (list string) → list (list string).
Hypothesis range_perm : ∀ l, range l ≡ₚ l.

Lemma aggregate_children t fuel prefix cs S
    (Hc : ∀ c S, c ∈ cs → ∃ ls, aggregate range fuel t S c prefix = name_all t S ls ∧
            ∀ p, p ∈ ls ↔ leaf t p ∧ c `prefix_of` p) :
  ∃ ls, foldl (λ S c, aggregate range fuel t S c prefix) S cs = name_all t S ls ∧
    ∀ p, p ∈ ls ↔ leaf t p ∧ ∃ c, c ∈ cs ∧ c `prefix_of` p.
Proof.
  revert S. induction cs as [|c cs IH]; intros S; simpl; [exists []; set_solver|].
  destruct (Hc c S ltac:(left)) as (ls1 & -> & H1).
  destruct (IH ltac:(intros; apply Hc; by right) (name_all t S ls1)) as (ls2 & -> & H2).
  exists (ls1 ++ ls2). unfold name_all. split; [by rewrite foldl_app|].
  intros p. rewrite elem_of_app, H1, H2. set_solver.
Qed.

Lemma aggregate_leaves t fuel S stt prefix :
  closed t → is_Some (t !! stt) → extend_prefix prefix (node_name stt) = full_prefix stt →
  (∀ p, is_Some (t !! p) → stt `prefix_of` p → length p < length stt + fuel) →
  ∃ ls, aggregate range fuel t S stt prefix = name_all t S ls ∧
    ∀ p, p ∈ ls ↔ leaf t p ∧ stt `prefix_of` p.
Proof.
  intros Hcl. revert S stt prefix. induction fuel as [|fuel IH]; intros S stt prefix Hs Hpre Hf.
  { specialize (Hf stt Hs (reflexivity _)). lia. }
  cbn [aggregate]. rewrite Hpre.
  assert (subfields t stt ≠ [] → ∀ p, leaf t p → stt `prefix_of` p → p ≠ stt) as Hnl
    by (intros Hn p [_ Hl] _ ->; done).
  destruct (aggregate_children t fuel (full_prefix stt) (range (subfields t stt))
    (if bool_decide (subfields t stt = []) then
       <[leaf_name t stt := stt]> S else S)) as (ls & E & Hls).
  { intros c S' Hc. rewrite range_perm in Hc. apply elem_of_subfields in Hc as [Hsc [n ->]].
    apply IH; [done|by rewrite node_name_snoc, full_prefix_snoc|].
    intros p Hp Hpp. specialize (Hf p Hp). rewrite length_app. simpl.
    apply Nat.lt_le_trans with (length stt + Datatypes.S fuel); [|lia]. apply Hf.
    etrans; [|done]. by eexists. }
  case_bool_decide as Hsub.
  - exists [stt]. rewrite Hsub in E |- *. rewrite (proj1 (Permutation_nil_r _) (range_perm [])) in *. split; [done|].
    intros p. rewrite list_elem_of_singleton. split; [by intros ->|]. intros [[Hp _] Hpp].
    destruct (decide (p = stt)) as [|Hne]; [done|]. apply prefix_child in Hpp as [n [k ->]]; [|done].
    apply closed_down in Hp; [|done]. assert (stt ++ [n] ∈ subfields t stt) as Hin
      by (apply elem_of_subfields; eauto). rewrite Hsub in Hin. by apply not_elem_of_nil in Hin.
  - exists ls. split; [exact E|]. intros p. rewrite Hls. split; intros [Hp H]; (split; [done|]).
    + destruct H as (c & Hc & Hcp). rewrite range_perm in Hc. apply elem_of_subfields in Hc as [_ [n ->]].
      etrans; [|done]. by eexists.
    + pose proof H as H'. apply prefix_child in H as [n H]; [|by apply Hnl].
      exists (stt ++ [n]). rewrite range_perm. split; [|done]. apply elem_of_subfields. split; [|by eexists].
      destruct Hp as [Hp _], H as [k ->]. by eapply closed_down.
Qed.

End aggregate.

Lemma name_all_sound t ls n p : name_all t ∅ ls !! n = Some p → p ∈ ls ∧ leaf_name t p = n.
Proof.
  induction ls as [|q ls IH] using rev_ind; [done|].
  unfold name_all in *. rewrite foldl_app. simpl. rewrite elem_of_app, list_elem_of_singleton.
  intros [[<- <-]|[_ H]]%lookup_insert_Some; naive_solver.
Qed.

Lemma name_all_complete t ls p :
  distinct_names t → (∀ q, q ∈ ls → leaf t q) → p ∈ ls → name_all t ∅ ls !! leaf_name t p = Some p.
Proof.
  intros Hd. induction ls as [|q ls IH] using rev_ind; intros Hl Hp; [set_solver|].
  unfold name_all in *. rewrite foldl_app. simpl.
  destruct (decide (leaf_name t q = leaf_name t p)) as [E|Hne].
  - rewrite E, lookup_insert_eq. f_equal. apply Hd; [apply Hl; set_solver..|done].
  - rewrite lookup_insert_ne by done. apply IH; [intros; apply Hl; set_solver|].
    apply elem_of_app in Hp as [Hp|Hp%list_elem_of_singleton]; [done|by subst].
Qed.

Lemma height_bound t p : is_Some (t !! p) → length p < height t.
Proof.
  intros [st Hp]. unfold height. apply Nat.lt_succ_r, max_list_elem_of_le.
  apply list_elem_of_fmap_2, list_elem_of_fmap. exists (p, st). by rewrite elem_of_map_to_list.
Qed.

(** Flattening a closed tree. *)
Lemma aggregate_lookup range t n p :
  (∀ l, range l ≡ₚ l) → closed t →
  (aggregate range (height t) t ∅ [] "" !! n = Some p → leaf t p ∧ leaf_name t p = n) ∧
  (distinct_names t → leaf t p → leaf_name t p = n → aggregate range (height t) t ∅ [] "" !! n = Some p).
Proof.
  intros Hr Hcl.
  destruct (aggregate_leaves range Hr t (height t) ∅ [] "") as (ls & -> & Hls).
  - done.
  - apply Hcl.
  - done.
  - intros q Hq _. simpl. by apply height_bound.
  - pose proof (prefix_nil p). split.
    + intros [Hp ?]%name_all_sound. apply Hls in Hp. naive_solver.
    + intros Hd Hp <-. apply name_all_complete; [done| |by apply Hls]. intros q Hq. by apply Hls in Hq as [? _].
Qed.

Lemma summarize_fields st :
  Count (summarize st) = Count st ∧ CountByValue (summarize st) = CountByValue st ∧
  rawValues (summarize st) = sort_Ints (rawValues st) ∧ isMillis (summarize st) = isMillis st ∧
  Outlier1 (summarize st) = Outlier1 st ∧ Outlier2 (summarize st) = Outlier2 st.
Proof.
  unfold summarize. case_bool_decide as H; [done|]. split_and!; try done.
  destruct (rawValues st); [done|]. simpl in H. lia.
Qed.

Lemma length_sort_Ints l : length (sort_Ints l) = length l.
Proof. by rewrite sort_Ints_perm. Qed.

Lemma summarize_idem st : summarize (summarize st) = summarize st.
Proof.
  unfold summarize at 1. destruct (summarize_fields st) as (-> & -> & -> & -> & -> & ->).
  rewrite length_sort_Ints.
  rewrite (sort_Ints_unique _ _ (sort_Ints_perm (rawValues st))).
  unfold summarize. by case_bool_decide.
Qed.

(** After [finalize] every statistic that has a name is summarized. *)
Lemma finalize_tree {P} sort (s : Stats P) n p :
  sStats s !! n = Some p → tree (finalize sort s) !! p = summarize <$> tree s !! p.
Proof.
  intros Hn. simpl.
  assert (map_fold (λ _ st t, update summarize t st) (tree s) (sStats s) !! p = summarize <$> tree s !! p ∨
    map_fold (λ _ st t, update summarize t st) (tree s) (sStats s) !! p = tree s !! p ∧
    ∀ k, sStats s !! k ≠ Some p) as [H|[_ H]]; [|done|by apply H in Hn].
  apply (map_fold_weak_ind (λ r m, r !! p = summarize <$> tree s !! p ∨
    r !! p = tree s !! p ∧ ∀ k, m !! k ≠ Some p)); [by right|].
  intros k q m r Hk IH. unfold update. destruct (decide (q = p)) as [->|Hne].
  - left. rewrite lookup_alter_eq. destruct IH as [->|[-> _]]; [|done].
    destruct (tree s !! p); simpl; [by rewrite summarize_idem|done].
  - rewrite lookup_alter_ne by done. destruct IH as [IH|[IH Hm]]; [by left|right].
    split; [done|]. intros k'. rewrite lookup_insert_Some. naive_solver.
Qed.

(** The statistics that the specification computes from the writes [l]. *)
Definition stat_spec (l : list write) (st : Stat) : Prop :=
  let vs := sort_Ints (samples l) in
  let k := length (samples l) in
  Count st = int64 (zsum (contribution <$> l)) ∧
  (∀ v, CountByValue st !! v = match count_status v l with 0 => None | n => Some (int64 (Z.of_nat n)) end) ∧
  two_largest (nonzero (samples l)) (o_Value <$> Outlier1 st) (o_Value <$> Outlier2 st) ∧
  (samples l ≠ [] →
   vs !! (k / 2) = Some (Median st) ∧ vs !! (k * 3 / 4) = Some (Percentile75 st) ∧
   vs !! (k * 17 / 20) = Some (Percentile85 st) ∧ vs !! (k * 19 / 20) = Some (Percentile95 st) ∧
   Average st = fdiv (foldl (λ total v, fadd total (float64_of_int v)) float_zero vs)
     (float64_of_int (Z.of_nat k))) ∧
  (samples l = [] →
   Median st = 0%Z ∧ Percentile75 st = 0%Z ∧ Percentile85 st = 0%Z ∧ Percentile95 st = 0%Z ∧
   Average st = float_zero).

Lemma at_index_lookup vs i : i < length vs → vs !! i = Some (at_index vs i).
Proof. intros Hi. unfold at_index. by destruct (lookup_lt_is_Some_2 vs i Hi) as [x ->]. Qed.

Lemma stat_of_percentiles l :
  Median (stat_of l) = 0%Z ∧ Percentile75 (stat_of l) = 0%Z ∧ Percentile85 (stat_of l) = 0%Z ∧
  Percentile95 (stat_of l) = 0%Z ∧ Average (stat_of l) = float_zero.
Proof.
  induction l as [|w l IH] using rev_ind; [done|]. rewrite stat_of_snoc.
  destruct w as [|v id m|b|v]; simpl; [done| |by destruct b|done].
  unfold add_num. by destruct (num_outliers _ _ _ _).
Qed.

Lemma summarize_spec l : stat_spec l (summarize (stat_of l)).
Proof.
  unfold stat_spec. destruct (summarize_fields (stat_of l)) as (-> & -> & _ & _ & -> & ->).
  split; [apply stat_of_count|]. split; [intros; apply stat_of_status|]. split; [apply stat_of_outliers|].
  unfold summarize. rewrite stat_of_raw. split; intros Hl.
  - rewrite bool_decide_true by (destruct (samples l); [done|simpl; lia]).
    cbn [Median Percentile75 Percentile85 Percentile95 Average].
    assert (0 < length (samples l)) as Hk by (destruct (samples l); [done|simpl; lia]).
    split_and!; [apply at_index_lookup..|done];
      rewrite length_sort_Ints; apply Nat.div_lt_upper_bound; lia.
  - rewrite Hl. cbn -[stat_of]. apply stat_of_percentiles.
Qed.

(** ** Reports that agree *)

Lemma foldl_comm_perm {A B} (step : A → B → A) a l l' :
  (∀ a x y, step (step a x) y = step (step a y) x) → l ≡ₚ l' → foldl step a l = foldl step a l'.
Proof.
  intros Hc H. revert a. induction H as [| |x y l|l1 l2 l3 _ IH1 _ IH2]; intros a; simpl; [done|auto|by rewrite Hc|].
  by rewrite IH1, IH2.
Qed.

Lemma Permutation_concat {A} (l l' : list (list A)) : l ≡ₚ l' → concat l ≡ₚ concat l'.
Proof. induction 1; simpl; [done|by f_equiv|by rewrite !app_assoc, (Permutation_app_comm x)|by etrans]. Qed.

Lemma Permutation_omap {A B} (f : A → option B) l l' : l ≡ₚ l' → omap f l ≡ₚ omap f l'.
Proof. induction 1; simpl; repeat case_match; eauto using perm_skip, perm_swap, Permutation_trans. Qed.

(** Everything but the commands that are named as outliers. *)
Definition same_stat (st st' : Stat) : Prop :=
  Count st = Count st' ∧ CountByValue st = CountByValue st' ∧
  o_Value <$> Outlier1 st = o_Value <$> Outlier1 st' ∧ o_Value <$> Outlier2 st = o_Value <$> Outlier2 st' ∧
  Median st = Median st' ∧ Percentile75 st = Percentile75 st' ∧ Percentile85 st = Percentile85 st' ∧
  Percentile95 st = Percentile95 st' ∧ Average st = Average st'.

Definition same_statPb (a b : StatPb) : Prop :=
  pb_Name a = pb_Name b ∧ pb_Count a = pb_Count b ∧ pb_CountsByValue a = pb_CountsByValue b ∧
  o_Value <$> pb_Outliers a = o_Value <$> pb_Outliers b ∧ pb_Median a = pb_Median b ∧
  pb_Percentile75 a = pb_Percentile75 b ∧ pb_Percentile85 a = pb_Percentile85 b ∧
  pb_Percentile95 a = pb_Percentile95 b ∧ pb_Average a = pb_Average b.

Lemma stat_spec_same l l' st st' : l ≡ₚ l' → stat_spec l st → stat_spec l' st' → same_stat st st'.
Proof.
  intros Hl (Hc & Hv & Ho & Hm & He) (Hc' & Hv' & Ho' & Hm' & He').
  assert (samples l ≡ₚ samples l') as Hs by (by apply Permutation_omap).
  assert (nonzero (samples l) ≡ₚ nonzero (samples l')) as Hn by (unfold nonzero; by rewrite Hs).
  assert (samples l = [] ↔ samples l' = []) as Hnil by (by rewrite <- !Permutation_nil_r, Hs).
  destruct (two_largest_unique _ _ _ _ _ _ Hn Ho Ho') as [E1 E2].
  rewrite <- (sort_Ints_unique _ _ Hs), <- (Permutation_length Hs) in Hm'.
  assert (Count st = Count st') as Ec by (rewrite Hc, Hc'; f_equal; apply zsum_perm; by rewrite Hl).
  assert (CountByValue st = CountByValue st') as Ev
    by (apply map_eq; intros v; rewrite Hv, Hv'; unfold count_status; by rewrite Hl).
  unfold same_stat. destruct (decide (samples l = [])) as [E|E].
  - destruct (He E) as (?&?&?&?&?), (He' (proj1 Hnil E)) as (?&?&?&?&?). split_and!; congruence.
  - destruct (Hm E) as (?&?&?&?&?), Hm' as (?&?&?&?&?); [by rewrite <- Hnil|]. split_and!; congruence.
Qed.

Lemma statToProto_same n st st' : same_stat st st' → same_statPb (statToProto n st) (statToProto n st').
Proof.
  intros (? & Hv & H1 & H2 & ?). unfold same_statPb, statToProto. simpl. rewrite Hv, !fmap_app.
  split_and!; try tauto. f_equal; [destruct (Outlier1 st), (Outlier1 st')|destruct (Outlier2 st), (Outlier2 st')];
    simpl in *; congruence.
Qed.

Lemma same_stat_empty st st' : same_stat st st' → IsEmpty st = IsEmpty st'.
Proof.
  intros (Hc & Hv & H1 & _). unfold IsEmpty. rewrite Hc, Hv. do 2 f_equal.
  destruct (Outlier1 st), (Outlier1 st'); simpl in *; congruence.
Qed.

Lemma stats_report_same {P} (s s' : Stats P) :
  sStats s = sStats s' →
  (∀ n p, sStats s !! n = Some p → ∃ st st', tree s !! p = Some st ∧ tree s' !! p = Some st' ∧ same_stat st st') →
  Forall2 same_statPb (stats_report s) (stats_report s').
Proof.
  intros E H. unfold stats_report. rewrite <- E. set (keys := sort_Strings _). clearbody keys.
  induction keys as [|n keys IH]; simpl; [constructor|].
  destruct (sStats s !! n) as [p|] eqn:Hn; simpl; [|done].
  destruct (H n p Hn) as (st & st' & -> & -> & Hst). simpl. rewrite (same_stat_empty _ _ Hst).
  destruct (IsEmpty st'); [done|]. constructor; [by apply statToProto_same|done].
Qed.

(** Trees that the same multiset of writes makes. *)
Lemma subfields_nil t p : subfields t p = [] ↔ ∀ n, ¬ is_Some (t !! (p ++ [n])).
Proof.
  split.
  - intros E n Hn. apply (not_elem_of_nil (p ++ [n])). rewrite <- E. apply elem_of_subfields. eauto.
  - intros H. apply elem_of_nil_inv. intros q [Hq [n ->]]%elem_of_subfields. by eapply H.
Qed.

Lemma puts_perm_leaf t ws ws' p : ws ≡ₚ ws' → leaf (puts t ws) p ↔ leaf (puts t ws') p.
Proof.
  intros Hw. unfold leaf. rewrite !subfields_nil, <- !puts_is_Some. setoid_rewrite <- puts_is_Some.
  by setoid_rewrite Hw.
Qed.

(** ** Properties *)

Section properties.

Context {T P : Type}.
Variable TimeIntervalFromProto : T → TimeInterval.
Variable CommandResultStatus_String : Z → string.
Variable CompletionStatus_String : Z → string.
Variable CommandResultStatus_CACHE_HIT : Z.
Variable range : list (list string) → list (list string).
Variable sort_by_Path : list Mismatch → list Mismatch.

Notation AddRecord := (@AddRecord T P TimeIntervalFromProto CommandResultStatus_String
  CompletionStatus_String CommandResultStatus_CACHE_HIT).
Notation NewFromRecords := (@NewFromRecords T P TimeIntervalFromProto CommandResultStatus_String
  CompletionStatus_String CommandResultStatus_CACHE_HIT range sort_by_Path).

(** The writes of all the records. *)
Definition all_writes (recs : list (LogRecord T)) : list (path * write) :=
  concat (record_writes TimeIntervalFromProto CommandResultStatus_String CompletionStatus_String <$> recs).

Definition records_tree (recs : list (LogRecord T)) : statTree := puts newStatTree (all_writes recs).

Lemma records_tree_closed recs : closed (records_tree recs).
Proof.
  apply puts_closed; [apply newStatTree_closed|]. apply grows_concat. intros. apply record_writes_grow.
Qed.

Lemma records_tree_value recs p :
  is_Some (records_tree recs !! p) →
  records_tree recs !! p = Some (stat_of (writes_at p (all_writes recs))).
Proof.
  unfold records_tree. rewrite puts_lookup. unfold newStatTree. destruct (decide ([] = p)) as [<-|Hp].
  - by rewrite lookup_singleton_eq.
  - rewrite lookup_singleton_ne by done. destruct (writes_at _ _); [by intros [? ?]|done].
Qed.

Lemma NewFromRecords_named recs pInfos n p :
  (∀ l, range l ≡ₚ l) →
  (sStats (NewFromRecords recs pInfos) !! n = Some p →
   leaf (records_tree recs) p ∧ leaf_name (records_tree recs) p = n) ∧
  (distinct_names (records_tree recs) → leaf (records_tree recs) p → leaf_name (records_tree recs) p = n →
   sStats (NewFromRecords recs pInfos) !! n = Some p).
Proof.
  intros Hr. unfold Stats.NewFromRecords, FinalizeAggregate. cbn [sStats finalize with_tree].
  rewrite AddRecords_tree.
  assert (sStats (foldl AddRecord New recs) = ∅) as ->.
  { apply foldl_invariant; [done|]. intros s r _ Hs. exact Hs. }
  apply aggregate_lookup; [done|apply records_tree_closed].
Qed.

Lemma NewFromRecords_value recs pInfos n p :
  sStats (NewFromRecords recs pInfos) !! n = Some p →
  tree (NewFromRecords recs pInfos) !! p = summarize <$> records_tree recs !! p.
Proof.
  intros H. unfold Stats.NewFromRecords, FinalizeAggregate in *.
  rewrite (finalize_tree _ _ n) by exact H. cbn [tree with_tree]. by rewrite AddRecords_tree.
Qed.

(** C12: every statistic that is reported belongs to one leaf of the tree, has its
    name, and is the function of the writes to it that the specification
    gives: 64-bit sums and counts, the two largest samples, the order statistics
    at the ranks 1/2, 3/4, 17/20 and 19/20, and the average; and when no two
    leaves share a name every leaf is reported. *)
Theorem reported_stats recs pInfos :
  (∀ l, range l ≡ₚ l) →
  let s := NewFromRecords recs pInfos in
  let t := records_tree recs in
  (∀ n p, sStats s !! n = Some p →
    leaf t p ∧ leaf_name t p = n ∧
    ∃ st, tree s !! p = Some st ∧ stat_spec (writes_at p (all_writes recs)) st) ∧
  (distinct_names t → ∀ p, leaf t p → sStats s !! leaf_name t p = Some p).
Proof.
  intros Hr s t. split.
  - intros n p Hn. pose proof (proj1 (NewFromRecords_named recs pInfos n p Hr) Hn) as [Hl E].
    split; [done|]. split; [done|].
    exists (summarize (stat_of (writes_at p (all_writes recs)))). split; [|apply summarize_spec].
    unfold s. by rewrite (NewFromRecords_value _ _ _ _ Hn), (records_tree_value _ _ (proj1 Hl)).
  - intros Hd p Hp. by apply (proj2 (NewFromRecords_named recs pInfos _ p Hr)).
Qed.

Lemma all_writes_perm recs recs' : recs ≡ₚ recs' → all_writes recs ≡ₚ all_writes recs'.
Proof. intros H. apply Permutation_concat. by rewrite H. Qed.

Lemma leaf_name_perm recs recs' p :
  recs ≡ₚ recs' → leaf (records_tree recs) p →
  leaf (records_tree recs') p ∧ leaf_name (records_tree recs) p = leaf_name (records_tree recs') p.
Proof.
  intros Hr Hl. pose proof (all_writes_perm _ _ Hr) as Hw.
  assert (leaf (records_tree recs') p) as Hl' by (by eapply puts_perm_leaf).
  split; [done|]. unfold leaf_name.
  rewrite (records_tree_value recs), (records_tree_value recs') by (apply Hl || apply Hl').
  simpl. rewrite !stat_of_millis.
  assert (writes_at p (all_writes recs) ≡ₚ writes_at p (all_writes recs')) as E by (by apply Permutation_omap).
  assert (existsb is_millis (writes_at p (all_writes recs)) = existsb is_millis (writes_at p (all_writes recs'))) as ->;
    [|done].
  apply Bool.eq_iff_eq_true. rewrite !existsb_exists. setoid_rewrite <- list_elem_of_In. by setoid_rewrite E.
Qed.

Lemma AddRecords_field {A} (field : Stats P → A) (step : A → LogRecord T → A) recs recs' :
  (∀ s r, field (AddRecord s r) = step (field s) r) →
  (∀ a x y, step (step a x) y = step (step a y) x) →
  recs ≡ₚ recs' → field (foldl AddRecord New recs) = field (foldl AddRecord New recs').
Proof.
  intros Hf Hc Hp. assert (∀ l s, field (foldl AddRecord s l) = foldl step (field s) l) as E.
  { induction l as [|r l IH]; intros s; simpl; [done|]. by rewrite IH, Hf. }
  rewrite !E. by apply foldl_comm_perm.
Qed.

Lemma AddRecords_mismatches recs :
  mismatches (foldl AddRecord New recs) = concat (GetMismatches <$> recs).
Proof.
  assert (∀ s, mismatches (foldl AddRecord s recs) = mismatches s ++ concat (GetMismatches <$> recs)) as E.
  { induction recs as [|r l IH]; intros s; simpl; [by rewrite app_nil_r|]. rewrite IH. simpl. by rewrite app_assoc. }
  apply E.
Qed.

End properties.

Section order.

Context {T P : Type}.
Variable TI : T → TimeInterval.
Variable crs cs : Z → string.
Variable hit : Z.

Notation AddRecord := (@AddRecord T P TI crs cs hit).
Notation NewFromRecords := (@NewFromRecords T P TI crs cs hit).

Lemma named_perm range range' sort sort' recs recs' pInfos :
  (∀ l, range l ≡ₚ l) → (∀ l, range' l ≡ₚ l) → distinct_names (records_tree TI crs cs recs) → recs ≡ₚ recs' →
  sStats (NewFromRecords range sort recs pInfos) = sStats (NewFromRecords range' sort' recs' pInfos).
Proof.
  intros Hr Hr' Hd Hp. apply map_eq. intros n. apply option_eq. intros p.
  destruct (NewFromRecords_named TI crs cs hit range sort recs pInfos n p Hr) as [S1 C1].
  destruct (NewFromRecords_named TI crs cs hit range' sort' recs' pInfos n p Hr') as [S2 C2].
  assert (distinct_names (records_tree TI crs cs recs')) as Hd'.
  { intros q q' Hq Hq' E. symmetry in Hp.
    destruct (leaf_name_perm TI crs cs _ _ q Hp Hq) as [? E1], (leaf_name_perm TI crs cs _ _ q' Hp Hq') as [? E2].
    apply Hd; [done..|congruence]. }
  split; intros H.
  - apply S1 in H as [Hl <-]. destruct (leaf_name_perm TI crs cs _ _ p Hp Hl) as [? E]. apply C2; [done..|congruence].
  - apply S2 in H as [Hl <-]. symmetry in Hp.
    destruct (leaf_name_perm TI crs cs _ _ p Hp Hl) as [? E]. apply C1; [done..|congruence].
Qed.

Lemma value_perm range range' sort sort' recs recs' pInfos n p :
  (∀ l, range l ≡ₚ l) → recs ≡ₚ recs' →
  sStats (NewFromRecords range sort recs pInfos) = sStats (NewFromRecords range' sort' recs' pInfos) →
  sStats (NewFromRecords range sort recs pInfos) !! n = Some p →
  ∃ st st', tree (NewFromRecords range sort recs pInfos) !! p = Some st ∧
    tree (NewFromRecords range' sort' recs' pInfos) !! p = Some st' ∧ same_stat st st'.
Proof.
  intros Hr Hp E Hn.
  destruct (proj1 (NewFromRecords_named TI crs cs hit range sort recs pInfos n p Hr) Hn) as [Hl _].
  destruct (leaf_name_perm TI crs cs _ _ p Hp Hl) as [Hl' _].
  rewrite (NewFromRecords_value TI crs cs hit range sort recs pInfos n p Hn).
  rewrite E in Hn. rewrite (NewFromRecords_value TI crs cs hit range' sort' recs' pInfos n p Hn).
  rewrite (records_tree_value TI crs cs recs _ (proj1 Hl)), (records_tree_value TI crs cs recs' _ (proj1 Hl')).
  simpl. eexists _, _. split; [done|]. split; [done|].
  eapply stat_spec_same; [|apply summarize_spec..]. by apply Permutation_omap, all_writes_perm.
Qed.

Lemma totals_perm recs recs' :
  recs ≡ₚ recs' →
  let s := foldl AddRecord New recs in let s' := foldl AddRecord New recs' in
  NumRecords s = NumRecords s' ∧ cacheHits s = cacheHits s' ∧ invIDs s = invIDs s' ∧
  numVerified s = numVerified s' ∧ mismatches s ≡ₚ mismatches s' ∧ ProxyInfos s = ProxyInfos s'.
Proof.
  intros Hp. cbv zeta. split_and!.
  - apply (AddRecords_field TI crs cs hit NumRecords (λ a _, int64 (a + 1))); done.
  - apply (AddRecords_field TI crs cs hit cacheHits (λ a r, if is_cache_hit hit r then int64 (a + 1) else a));
      [done| |done]. intros a x y. by repeat case_if.
  - apply (AddRecords_field TI crs cs hit invIDs
      (λ a r, if (lr_InvocationId r =? "")%string then a else {[lr_InvocationId r]} ∪ a)); [done| |done].
    intros a x y. repeat case_if; set_solver.
  - apply (AddRecords_field TI crs cs hit numVerified (λ a r, int64 (a + GetTotalVerified r))); [done| |done].
    intros a x y. rewrite !int64_add. f_equal. lia.
  - rewrite !AddRecords_mismatches. apply Permutation_concat. by rewrite Hp.
  - by apply (AddRecords_field TI crs cs hit ProxyInfos (λ a _, a)).
Qed.

(** The report does not depend on the order of the records, on the order in
    which Go ranges over the tree, nor on how the unstable sort orders
    mismatches of one path: the counters and the cache-hit ratio are equal, the
    statistics are equal one by one up to the commands named as outliers among
    equal values, and the mismatches are the same up to their order.  (The build
    latency, a difference of floating-point extremes, is left out.) *)
Theorem report_order_independent range range' sort sort' recs recs' pInfos :
  (∀ l, range l ≡ₚ l) → (∀ l, range' l ≡ₚ l) → (∀ l, sort l ≡ₚ l) → (∀ l, sort' l ≡ₚ l) →
  distinct_names (records_tree TI crs cs recs) → recs ≡ₚ recs' →
  let r := ToProto (NewFromRecords range sort recs pInfos) in
  let r' := ToProto (NewFromRecords range' sort' recs' pInfos) in
  NumRecordsPb r = NumRecordsPb r' ∧ BuildCacheHitRatio r = BuildCacheHitRatio r' ∧
  InvocationIds r = InvocationIds r' ∧ ProxyInfoOf r = ProxyInfoOf r' ∧
  Forall2 same_statPb (StatsOf r) (StatsOf r') ∧
  option_relation (λ v v', v.1.1 ≡ₚ v'.1.1 ∧ v.1.2 = v'.1.2 ∧ v.2 = v'.2) (λ _, False) (λ _, False)
    (VerificationOf r) (VerificationOf r').
Proof.
  intros Hr Hr' Hs Hs' Hd Hp.
  pose proof (named_perm range range' sort sort' recs recs' pInfos Hr Hr' Hd Hp) as E.
  pose proof (stats_report_same _ _ E (λ n p, value_perm range range' sort sort' recs recs' pInfos n p Hr Hp E)) as HF.
  destruct (totals_perm _ _ Hp) as (E1 & E2 & E3 & E4 & E5 & E6).
  cbv zeta. split_and!; try exact HF; unfold ToProto; cbn [NumRecordsPb BuildCacheHitRatio InvocationIds
    ProxyInfoOf VerificationOf Stats.NewFromRecords FinalizeAggregate finalize with_tree NumRecords cacheHits
    invIDs ProxyInfos mismatches numVerified].
  1-4: rewrite ?E1, ?E2, ?E3, ?E6; done.
  rewrite <- E4. revert E5. generalize (mismatches (foldl AddRecord New recs')) as ms'.
  generalize (mismatches (foldl AddRecord New recs)) as ms. intros ms ms' Hms.
  assert (sort ms ≡ₚ sort' ms') as Em by (by rewrite Hs, Hs').
  assert (sort ms = [] ↔ sort' ms' = []) as En by (by rewrite <- !Permutation_nil_r, Em).
  rewrite (bool_decide_ext _ _ En). case_bool_decide; simpl; [done|]. rewrite Em. split_and!; done.
Qed.

End order.

(** ** Sizes *)

Lemma scale_spec fuel j i n :
  j < fuel → i + j < 6 → (1000 ^ Z.of_nat j ≤ n < 1000 ^ Z.of_nat (S j))%Z →
  scale fuel n (1000 ^ Z.of_nat (S i)) i = ((1000 ^ Z.of_nat (S (i + j)))%Z, i + j).
Proof.
  revert fuel i n. induction j as [|j IH]; intros [|fuel] i n Hf Hi Hn; [lia| |lia|]; simpl scale; unfold bwUnit.
  - rewrite bool_decide_false by (change (1000 ^ Z.of_nat 1)%Z with 1000%Z in Hn; lia).
    by rewrite Nat.add_0_r.
  - rewrite !Nat2Z.inj_succ in Hn. rewrite !Z.pow_succ_r in Hn by lia.
    rewrite bool_decide_true by (pose proof (Z.pow_pos_nonneg 1000 (Z.of_nat j)); nia).
    assert (1000 ^ Z.of_nat (S i) * 1000 = 1000 ^ Z.of_nat (S (S i)))%Z as E
      by (rewrite (Nat2Z.inj_succ (S i)), Z.pow_succ_r by lia; lia).
    rewrite E. unfold int64. rewrite wrap_small.
    + rewrite Nat.add_1_r, IH; [f_equal; [do 2 f_equal|]; lia|lia|lia|].
      rewrite Z.quot_div_nonneg by lia. rewrite Nat2Z.inj_succ, Z.pow_succ_r by lia. split.
      * apply Z.div_le_lower_bound; lia.
      * apply Z.div_lt_upper_bound; lia.
    + lia.
    + assert (1000 ^ Z.of_nat (S (S i)) ≤ 1000 ^ 6)%Z as Hb by (apply Z.pow_le_mono_r; lia).
      pose proof (Z.pow_pos_nonneg 1000 (Z.of_nat (S (S i)))). split; [lia|].
      eapply Z.le_lt_trans; [exact Hb|]. done.
Qed.

Lemma humanReadableBytes_scaled fmt_2f k n :
  k < 6 → (1000 ^ Z.of_nat (S k) ≤ n < 1000 ^ Z.of_nat (S (S k)))%Z →
  humanReadableBytes fmt_2f n =
    (let? c := or_panic (String.get k bwUnitReps) in
     Ok (fmt_2f (fdiv (float64_of_int n) (float64_of_int (1000 ^ Z.of_nat (S k)))) +:+ " " +:+ String c "B")).
Proof.
  intros Hk Hn. unfold humanReadableBytes, bwUnit.
  pose proof (Z.pow_pos_nonneg 1000 (Z.of_nat k)) as Hpos.
  rewrite !Nat2Z.inj_succ in Hn. rewrite !Z.pow_succ_r in Hn by lia.
  rewrite bool_decide_false by nia.
  assert (scale 64 (Z.quot n 1000) 1000 0 = ((1000 ^ Z.of_nat (S k))%Z, k)) as ->; [|done].
  apply (scale_spec 64 k 0); [lia|lia|]. rewrite Z.quot_div_nonneg by nia.
  rewrite Nat2Z.inj_succ, Z.pow_succ_r by lia. split.
  - apply Z.div_le_lower_bound; lia.
  - apply Z.div_lt_upper_bound; lia.
Qed.

(** A number of bytes is printed as it is below a thousand, and otherwise in
    the largest of the units K, M, G and T that it reaches; from 10^15 bytes on
    no unit is left and the index is out of range: the call panics. *)
Theorem humanReadableBytes_spec fmt_2f n :
  (n < 2 ^ 63)%Z →
  ((n < 1000)%Z → humanReadableBytes fmt_2f n = Ok (pretty n +:+ " B")) ∧
  (∀ k c, String.get k "KMGT" = Some c → (1000 ^ Z.of_nat (S k) ≤ n < 1000 ^ Z.of_nat (S (S k)))%Z →
    humanReadableBytes fmt_2f n =
    Ok (fmt_2f (fdiv (float64_of_int n) (float64_of_int (1000 ^ Z.of_nat (S k)))) +:+ " " +:+ String c "B")) ∧
  ((10 ^ 15 ≤ n)%Z → humanReadableBytes fmt_2f n = Panic).
Proof.
  intros H63. split_and!.
  - intros H. unfold humanReadableBytes, bwUnit. by rewrite bool_decide_true.
  - intros k c Hc Hn. rewrite (humanReadableBytes_scaled _ k).
    + unfold bwUnitReps. by rewrite Hc.
    + do 4 (destruct k as [|k]; [lia|]). done.
    + done.
  - intros H. destruct (decide (n < 10 ^ 18)%Z).
    + by rewrite (humanReadableBytes_scaled _ 4) by (lia || (split; [exact H|done])).
    + rewrite (humanReadableBytes_scaled _ 5); [done|lia|]. split; [lia|].
      eapply Z.lt_trans; [exact H63|done].
Qed.

(** ** A concrete build *)

Definition leaves (t : statTree) : list path := filter (λ p, subfields t p = []) (map_to_list t).*1.

Lemma distinct_names_check t : NoDup (leaf_name t <$> leaves t) → distinct_names t.
Proof.
  intros Hnd p q Hp Hq E.
  assert (∀ p, leaf t p → p ∈ leaves t) as Hin.
  { intros r [[st Hr] Hs]. apply list_elem_of_filter. split; [done|].
    apply list_elem_of_fmap. exists (r, st). by rewrite elem_of_map_to_list. }
  apply Hin, list_elem_of_lookup in Hp as [i Hi]. apply Hin, list_elem_of_lookup in Hq as [j Hj].
  assert (i = j) as ->; [|by simplify_eq].
  apply (NoDup_lookup _ i j (leaf_name t p) Hnd); rewrite list_lookup_fmap; [by rewrite Hi|by rewrite Hj, E].
Qed.

Definition rec_example (id : string) (ms : Z) (bytes : Z) : LogRecord TimeInterval := {|
  lr_CommandId := id; lr_InvocationId := "inv"; lr_Result := Some {| cr_Status := 1 |};
  lr_RemoteMetadata := None;
  lr_LocalMetadata := Some {|
    lm_Result := None; lm_ExecutedLocally := true; lm_ValidCacheHit := false; lm_UpdatedCache := false;
    lm_Verification := Some {| vf_Mismatches := [{| mm_Path := id; mm_NonDeterministic := true; mm_Ignored := false |}];
      vf_TotalMismatches := 1; vf_TotalIgnoredMismatches := 0; vf_TotalVerified := bytes |};
    lm_EventTimes := [(ProxyExecution, Some {| From := 1000000; To := 1000000 + ms * 1000000 |})];
    lm_RerunMetadata := []; lm_Labels := {[ "type" := "tool" ]} |};
  lr_CompletionStatus := 2 |}.

Definition recs_example : list (LogRecord TimeInterval) :=
  [rec_example "a" 30 7; rec_example "b" 10 7; rec_example "c" 20 9].

Definition crs_example (z : Z) : string := pretty z.

Definition proxy_path : path := [""; "LocalMetadata"; "EventTimes"; ProxyExecution; ""].

Lemma reported_stats_witness :
  ∃ st, tree (NewFromRecords id crs_example crs_example 1 id id recs_example ([] : list unit)) !! proxy_path = Some st ∧
    stat_spec (writes_at proxy_path (all_writes id crs_example crs_example recs_example)) st.
Proof.
  apply (reported_stats id crs_example crs_example 1 id id recs_example [] (λ l, Permutation_refl l))
    with (n := "LocalMetadata.EventTimes.ProxyExecutionMillis").
  vm_compute. reflexivity.
Defined.

Example median_example :
  Median <$> tree (NewFromRecords id crs_example crs_example 1 id id recs_example ([] : list unit)) !! proxy_path
  = Some 20%Z.
Proof. vm_compute. reflexivity. Qed.

Lemma recs_example_distinct : distinct_names (records_tree id crs_example crs_example recs_example).
Proof. apply distinct_names_check. apply (bool_decide_eq_true_1 (NoDup _)). vm_compute. reflexivity. Qed.

Lemma report_order_independent_witness :
  Forall2 same_statPb
    (StatsOf (ToProto (NewFromRecords id crs_example crs_example 1 id id recs_example ([] : list unit))))
    (StatsOf (ToProto (NewFromRecords id crs_example crs_example 1 reverse id (reverse recs_example) ([] : list unit)))).
Proof.
  apply (report_order_independent id crs_example crs_example 1 id reverse id id recs_example (reverse recs_example) []
    (λ l, Permutation_refl l) (λ l, reverse_Permutation l) (λ l, Permutation_refl l) (λ l, Permutation_refl l)
    recs_example_distinct (symmetry (reverse_Permutation _))).
Defined.

Lemma humanReadableBytes_spec_witness :
  humanReadableBytes (λ _, "1.50") 1500 = Ok "1.50 KB" ∧ humanReadableBytes (λ _, "1.50") (10 ^ 15) = Panic.
Proof.
  split.
  - refine (proj1 (proj2 (humanReadableBytes_spec (λ _, "1.50") 1500 _)) 0 (Ascii.ascii_of_nat 75) _ _); done.
  - refine (proj2 (proj2 (humanReadableBytes_spec (λ _, "1.50") (10 ^ 15) _)) _); done.
Defined.

End Stats.
