(* ===== verification/InputProcessor.v ===== *)
(** * Input processing: [internal/pkg/inputprocessor] with its packages
    [flags], [flagsparser] and [toolchain]

    A preprocessor computes the inputs and outputs of an action in steps: it
    parses the flags of the command, adds the inputs of the toolchains, computes
    what else the kind of action needs, and cleans up the result.  [Compute]
    drives any preprocessor through its interface, the class [Preprocessor];
    [BasePreprocessor] is the implementation that the others embed. *)
From S2P Require Import Prelude GoStrings GoPath PathTranslator ArgsScanner GoFS Command.
From Stdlib Require Import Ascii.
Import Filepath PathTranslator.

Module InputProcessor.

(** ** Flags *)

Record Flag := {
  Key : string;
  Value : string;
  Joined : bool;
  originalKey : string
}.

(** [&flags.Flag{Value: v}] *)
Definition value_flag (v : string) : Flag :=
  {| Key := ""; Value := v; Joined := false; originalKey := "" |}.

Definition OriginalKey (f : Flag) : string :=
  if (originalKey f =? "")%string then Key f else originalKey f.

Definition NewFlag (key originalKey value : string) (joined : bool) : Flag :=
  {| Key := key; originalKey := originalKey; Value := value; Joined := joined |}.

Record CommandFlags := {
  ExecutablePath : string;
  TargetFilePaths : list string;
  Dependencies : list string;
  cf_EmittedDependencyFile : string;
  OutputFilePaths : list string;
  OutputDirPaths : list string;
  IncludeDirPaths : list string;
  VirtualDirectories : list string;
  WorkingDirectory : string;
  cf_ExecRoot : string;
  Flags : list Flag
}.

(** The flags of a command whose executable alone is known. *)
Definition command_flags (executable workingDir execRoot : string) (fl : list Flag) : CommandFlags := {|
  ExecutablePath := executable; TargetFilePaths := []; Dependencies := []; cf_EmittedDependencyFile := "";
  OutputFilePaths := []; OutputDirPaths := []; IncludeDirPaths := []; VirtualDirectories := [];
  WorkingDirectory := workingDir; cf_ExecRoot := execRoot; Flags := fl |}.

(** [Copy] leaves out the dependencies and the virtual directories. *)
Definition Copy (c : CommandFlags) : CommandFlags := {|
  ExecutablePath := ExecutablePath c; TargetFilePaths := TargetFilePaths c; Dependencies := [];
  cf_EmittedDependencyFile := cf_EmittedDependencyFile c; OutputFilePaths := OutputFilePaths c;
  OutputDirPaths := OutputDirPaths c; IncludeDirPaths := IncludeDirPaths c; VirtualDirectories := [];
  WorkingDirectory := WorkingDirectory c; cf_ExecRoot := cf_ExecRoot c; Flags := Flags c |}.

(** [flagsparser.CommandFlags]: every flag and its values, in order. *)
Definition scan_flag (sc : Scanner) : ST (list Flag) unit :=
  st_modify (λ fl, fl ++ value_flag (NormalizedKey (CurResult sc)) :: (value_flag <$> Values (CurResult sc))).

Definition flagsparser_CommandFlags (command : list string) (workingDir execRoot : string) : res CommandFlags :=
  match command with
  | [] => Fail (EMsg "no command passed")
  | executable :: rest =>
      let '(r, fl) := scan_loop (length rest) (new_Scanner rest ∅ [] ∅) scan_flag [] in
      let? _ := r in Ok (command_flags executable workingDir execRoot fl)
  end.

(** [tool.parseFlags] *)
Definition tool_parseFlags (command : list string) (workingDir execRoot : string) : res CommandFlags :=
  match command with
  | [] => Fail (EMsg "insufficient number of arguments in command")
  | executable :: rest => Ok (command_flags executable workingDir execRoot (value_flag <$> rest))
  end.

(** ** Action specifications *)

Record Options := {
  opt_Cmd : list string;
  opt_WorkingDir : string;
  opt_ExecRoot : string;
  opt_Inputs : option InputSpec;
  opt_Labels : gmap string string;
  opt_ToolchainInputs : list string;
  ShallowFallback : bool;
  WindowsCross : bool
}.

Record ActionSpec := {
  as_InputSpec : option InputSpec;
  as_OutputFiles : list string;
  as_OutputDirectories : list string;
  as_EmittedDependencyFile : string;
  as_UsedShallowMode : bool
}.

Definition empty_InputSpec : InputSpec :=
  {| Inputs := []; VirtualInputs := []; InputExclusions := []; EnvironmentVariables := ∅ |}.

(** [&ActionSpec{InputSpec: i}] *)
Definition new_ActionSpec (i : option InputSpec) : ActionSpec :=
  {| as_InputSpec := i; as_OutputFiles := []; as_OutputDirectories := []; as_EmittedDependencyFile := "";
     as_UsedShallowMode := false |}.

Definition set_InputSpec (s : ActionSpec) (i : InputSpec) : ActionSpec :=
  {| as_InputSpec := Some i; as_OutputFiles := as_OutputFiles s; as_OutputDirectories := as_OutputDirectories s;
     as_EmittedDependencyFile := as_EmittedDependencyFile s; as_UsedShallowMode := as_UsedShallowMode s |}.

Definition set_shallow (s : ActionSpec) (b : bool) : ActionSpec :=
  {| as_InputSpec := as_InputSpec s; as_OutputFiles := as_OutputFiles s;
     as_OutputDirectories := as_OutputDirectories s;
     as_EmittedDependencyFile := as_EmittedDependencyFile s; as_UsedShallowMode := b |}.

Definition set_Inputs (i : InputSpec) (l : list string) : InputSpec :=
  {| Inputs := l; VirtualInputs := VirtualInputs i; InputExclusions := InputExclusions i;
     EnvironmentVariables := EnvironmentVariables i |}.

Definition set_VirtualInputs (i : InputSpec) (l : list VirtualInput) : InputSpec :=
  {| Inputs := Inputs i; VirtualInputs := l; InputExclusions := InputExclusions i;
     EnvironmentVariables := EnvironmentVariables i |}.

(** The state of the base preprocessor.  The specification starts as the input
    specification of the request, which the code updates in place: what the
    caller finds there afterwards is the one in [actionSpec].  [nfc] and [fsc]
    are the caches of normalized names and of [os.Stat] results, when they are
    set, [toolchainFilesCache] the cache of the toolchains' input lists. *)
Record BasePreprocessor := mkBP {
  bp_Options : Options;
  bp_Flags : option CommandFlags;
  Err : option error;
  actionSpec : option ActionSpec;
  nfc : option (gmap string string);
  fsc : option (gmap string bool);
  toolchainFilesCache : gmap string (option (list string))
}.

Definition with_spec (c : BasePreprocessor) (s : ActionSpec) : BasePreprocessor :=
  mkBP (bp_Options c) (bp_Flags c) (Err c) (Some s) (nfc c) (fsc c) (toolchainFilesCache c).
Definition with_Flags (c : BasePreprocessor) (f : CommandFlags) : BasePreprocessor :=
  mkBP (bp_Options c) (Some f) (Err c) (actionSpec c) (nfc c) (fsc c) (toolchainFilesCache c).
Definition with_Err (c : BasePreprocessor) (e : error) : BasePreprocessor :=
  mkBP (bp_Options c) (bp_Flags c) (Some e) (actionSpec c) (nfc c) (fsc c) (toolchainFilesCache c).
Definition with_nfc (c : BasePreprocessor) (m : option (gmap string string)) : BasePreprocessor :=
  mkBP (bp_Options c) (bp_Flags c) (Err c) (actionSpec c) m (fsc c) (toolchainFilesCache c).
Definition with_fsc (c : BasePreprocessor) (m : option (gmap string bool)) : BasePreprocessor :=
  mkBP (bp_Options c) (bp_Flags c) (Err c) (actionSpec c) (nfc c) m (toolchainFilesCache c).
Definition with_tfc (c : BasePreprocessor) (m : gmap string (option (list string))) : BasePreprocessor :=
  mkBP (bp_Options c) (bp_Flags c) (Err c) (actionSpec c) (nfc c) (fsc c) m.

(** The [InputSpec] of the current specification, when both are set. *)
Definition current (c : BasePreprocessor) : option (ActionSpec * InputSpec) :=
  s ← actionSpec c; i ← as_InputSpec s; Some (s, i).

Definition shallowLabel : string := "shallow".

Definition Init (options : Options) (c : BasePreprocessor) : BasePreprocessor :=
  let s := new_ActionSpec (Some (default empty_InputSpec (opt_Inputs options))) in
  let s := match opt_Labels options !! shallowLabel with
           | None => s
           | Some v => set_shallow s (match ParseBool v with Ok b => b | _ => false end)
           end in
  mkBP options (bp_Flags c) (Err c) (Some s) (nfc c) (fsc c) (toolchainFilesCache c).

Definition append_InputSpec (i j : InputSpec) : InputSpec := {|
  Inputs := Inputs i ++ Inputs j;
  VirtualInputs := VirtualInputs i ++ VirtualInputs j;
  InputExclusions := InputExclusions i ++ InputExclusions j;
  EnvironmentVariables := EnvironmentVariables j ∪ EnvironmentVariables i |}.

Definition AppendSpec (s : ActionSpec) (c : BasePreprocessor) : BasePreprocessor :=
  let '(a, i) := default (new_ActionSpec (Some empty_InputSpec), empty_InputSpec) (current c) in
  let j := default empty_InputSpec (as_InputSpec s) in
  with_spec c {|
    as_InputSpec := Some (append_InputSpec i j);
    as_OutputFiles := as_OutputFiles a ++ as_OutputFiles s;
    as_OutputDirectories := as_OutputDirectories a ++ as_OutputDirectories s;
    as_EmittedDependencyFile :=
      if (as_EmittedDependencyFile s =? "")%string then as_EmittedDependencyFile a
      else as_EmittedDependencyFile s;
    as_UsedShallowMode := if as_UsedShallowMode a then true else as_UsedShallowMode s |}.

(** [&command.VirtualInput{Path: od, IsEmptyDirectory: true}] *)
Definition empty_directory (od : string) : VirtualInput :=
  {| vi_Path := od; vi_Contents := ""; vi_IsEmptyDirectory := true; vi_Digest := ""; vi_Mtime := 0%Z;
     vi_FileMode := 0%Z |}.

Definition flags_spec (o : Options) (f : CommandFlags) : ActionSpec :=
  let rel := ListRelToExecRoot (opt_ExecRoot o) (opt_WorkingDir o) in
  let allInputs := TargetFilePaths f ++ Dependencies f ++
    (if (ExecutablePath f =? "")%string then [] else [ExecutablePath f]) in
  {| as_InputSpec := Some {|
       Inputs := rel allInputs;
       VirtualInputs := empty_directory <$> rel (VirtualDirectories f);
       InputExclusions := []; EnvironmentVariables := ∅ |};
     as_OutputFiles := rel (OutputFilePaths f);
     as_OutputDirectories := rel (OutputDirPaths f);
     as_EmittedDependencyFile := RelToExecRoot (opt_ExecRoot o) (opt_WorkingDir o) (cf_EmittedDependencyFile f);
     as_UsedShallowMode := false |}.

(** The flags are set when this is called; it panics otherwise. *)
Definition FlagsToActionSpec : ST BasePreprocessor unit := λ c,
  match bp_Flags c with
  | None => (Panic, c)
  | Some f =>
      let c := match current c with
               | None => with_spec c (new_ActionSpec (opt_Inputs (bp_Options c)))
               | Some _ => c
               end in
      (Ok tt, AppendSpec (flags_spec (bp_Options c) f) c)
  end.

(** [ParseFlags] of the base and of the preprocessors that differ from it in the
    parser alone. *)
Definition ParseFlags_with (parse : list string → string → string → res CommandFlags)
    : ST BasePreprocessor unit := λ c,
  let o := bp_Options c in
  match parse (opt_Cmd o) (opt_WorkingDir o) (opt_ExecRoot o) with
  | Ok f => FlagsToActionSpec (with_Flags c f)
  | Fail e => let e := EMsg "flag parsing failed" in (Fail e, with_Err c e)
  | Panic => (Panic, c)
  end.

Definition ParseFlags : ST BasePreprocessor unit := ParseFlags_with flagsparser_CommandFlags.

Definition ComputeSpec : ST BasePreprocessor unit := st_ret tt.

Definition Spec (c : BasePreprocessor) : res (option ActionSpec) :=
  match Err c with Some e => Fail e | None => Ok (actionSpec c) end.

Definition Error (c : BasePreprocessor) : option error := Err c.

(** ** Toolchains and clean-up

    The file system [w] does not change during input processing.  [fmc] is the
    cache of file metadata, when it is set: whether the path exists, and
    whether it is a directory. *)
Section env.

Variable w : fs.
Variable fmc : option (string → res bool).

Definition doesExist (fp : string) : bool :=
  match fmc with
  | Some Get => is_ok (Get fp)
  | None => is_ok (OS.Stat w fp)
  end.

(** The lines of a file, as [bufio.Scanner] splits them. *)
Definition drop_cr (l : string) : string := TrimSuffix l (String "013" "").

Definition text_lines (content : string) : list string :=
  let ls := Split content "010" in
  drop_cr <$> (if (default "" (last ls) =? "")%string then removelast ls else ls).

Definition remoteToolchainInputs : string := "remote_toolchain_inputs".

Definition toolchain_line (baseDir execRoot : string) (line : string) : option string :=
  let line := TrimLeft line (" " +:+ String "009" "") in
  if HasPrefix line "#" || HasPrefix line "//" then None
  else
    let fp := Join [baseDir; line] in
    if doesExist fp then Some (RelToExecRoot execRoot "" fp) else None.

(** [None] when the file cannot be opened; a directory opens but has no
    lines. *)
Definition loadOrStoreToolchainCache (rp baseDir execRoot : string) : option (list string) :=
  match OS.Stat w rp with
  | Ok (NFile content _) => Some (omap (toolchain_line baseDir execRoot) (text_lines content))
  | Ok NDir => Some []
  | _ => None
  end.

(** [toolchainFilesCache.LoadOrStore] *)
Definition LoadOrStore (m : gmap string (option (list string))) (key : string) (v : option (list string))
    : option (list string) * gmap string (option (list string)) :=
  match m !! key with
  | Some x => (x, m)
  | None => (v, <[key := v]> m)
  end.

(** One round of the loop of [processToolchainInputFiles]: the collected files,
    the files seen, and the cache. *)
Definition toolchain_step (execRoot : string)
    (acc : list string * gset string * gmap string (option (list string))) (tc : string)
    : list string * gset string * gmap string (option (list string)) :=
  let '(files, seen, tfc) := acc in
  if (tc =? "")%string then acc else
  let tcRel := RelToExecRoot execRoot "" tc in
  let files := files ++ [tcRel] in
  let baseDir := Join [execRoot; Dir tcRel] in
  let rp := Join [baseDir; Base tc +:+ "_" +:+ remoteToolchainInputs] in
  if bool_decide (rp ∈ seen) then (files, seen, tfc) else
  let '(cache, tfc) := LoadOrStore tfc rp (loadOrStoreToolchainCache rp baseDir execRoot) in
  let '(rp, cache, tfc) :=
    match cache with
    | Some _ => (rp, cache, tfc)
    | None =>
        let rp := Join [baseDir; remoteToolchainInputs] in
        if bool_decide (rp ∈ seen) then (rp, cache, tfc)
        else let '(cache, tfc) := LoadOrStore tfc rp (loadOrStoreToolchainCache rp baseDir execRoot) in
             (rp, cache, tfc)
    end in
  (files ++ default [] cache, {[rp]} ∪ seen, tfc).

Definition processToolchainInputFiles (execRoot : string) (toolchains : list string)
    (tfc : gmap string (option (list string))) : InputSpec * gmap string (option (list string)) :=
  let '(files, _, tfc) := foldl (toolchain_step execRoot) ([], ∅, tfc) toolchains in
  (set_Inputs empty_InputSpec files, tfc).

Definition defaultPath : list string :=
  ["/usr/local/sbin"; "/usr/local/bin"; "/usr/sbin"; "/usr/bin"; "/sbin"; "/bin"].

(** The directories of the toolchains, without repetitions. *)
Definition toolchain_dir (execRoot workingDir : string) (dirs : res (list string)) (tc : string)
    : res (list string) :=
  let? dirs := dirs in
  let tcDir := RelToWorkingDir execRoot workingDir (Dir tc) in
  if (tcDir =? "")%string then Fail (EMsg "failed to make toolchain directory relative to the working directory")
  else Ok (if mem tcDir dirs then dirs else dirs ++ [tcDir]).

(** Marking the tools as executable has an effect on Windows alone. *)
Definition ProcessToolchainInputs (execRoot workingDir execPath : string) (toolchains : list string)
    (tfc : gmap string (option (list string))) : res InputSpec * gmap string (option (list string)) :=
  let execPath := RelToExecRoot execRoot workingDir execPath in
  let '(inp, tfc) := processToolchainInputFiles execRoot (toolchains ++ [execPath]) tfc in
  (let? dirs := foldl (toolchain_dir execRoot workingDir) (Ok []) toolchains in
   Ok (match dirs with
       | [] => inp
       | _ => {| Inputs := Inputs inp; VirtualInputs := VirtualInputs inp; InputExclusions := InputExclusions inp;
                 EnvironmentVariables := {[ "PATH" := GoStrings.Join (dirs ++ defaultPath) ":" ]} |}
       end), tfc).

Definition ProcessToolchains : ST BasePreprocessor unit := λ c,
  match bp_Flags c with
  | None => let e := EMsg "no flags set" in (Fail e, with_Err c e)
  | Some f =>
      let o := bp_Options c in
      let '(r, tfc) := ProcessToolchainInputs (opt_ExecRoot o) (opt_WorkingDir o) (ExecutablePath f)
        (opt_ToolchainInputs o) (toolchainFilesCache c) in
      let c := with_tfc c tfc in
      match r with
      | Ok tci => (Ok tt, AppendSpec (new_ActionSpec (Some tci)) c)
      | Panic => (Panic, c)
      | Fail _ =>
          match actionSpec c with
          | None => (Panic, c)
          | Some s => (Fail (EMsg "toolchain processing failed"), with_spec c (set_shallow s true))
          end
      end
  end.

(** [pathNormalizer.normalize] of [fs_unix.go] *)
Definition normalize (execRoot pathname : string) : string * option error :=
  let f := TrimLeft (Clean pathname) "/" in
  (f, match OS.Stat w (Join [execRoot; f]) with Ok _ => None | Fail e => Some e | Panic => None end).

(** The name of one input, through the cache when there is one. *)
Definition normalized_name (execRoot : string) (cache : option (gmap string string)) (f : string)
    : option string * option (gmap string string) :=
  match cache with
  | Some m =>
      match m !! f with
      | Some n => (Some n, cache)
      | None =>
          match normalize execRoot f with
          | (n, None) => (Some n, Some (<[f := n]> m))
          | (_, Some _) => (None, cache)
          end
      end
  | None => match normalize execRoot f with (n, None) => (Some n, None) | (_, Some _) => (None, None) end
  end.

Definition filter_input (execRoot : string)
    (acc : list string * gset string * option (gmap string string)) (f : string)
    : list string * gset string * option (gmap string string) :=
  let '(filtered, m, cache) := acc in
  if (f =? "")%string then acc else
  let '(n, cache) := normalized_name execRoot cache f in
  match n with
  | None => (filtered, m, cache)
  | Some n => if bool_decide (n ∈ m) then (filtered, m, cache) else (filtered ++ [n], {[n]} ∪ m, cache)
  end.

Definition FilterInputsUnderExecRoot (c : BasePreprocessor) : BasePreprocessor :=
  match current c with
  | None => c
  | Some (s, i) =>
      let '(filtered, _, cache) := foldl (filter_input (opt_ExecRoot (bp_Options c))) ([], ∅, nfc c) (Inputs i) in
      with_nfc (with_spec c (set_InputSpec s (set_Inputs i filtered))) cache
  end.

(** Whether the path is a directory; with the cache of stat results a failing
    [os.Stat] gives a nil interface, and the type assertion on it panics. *)
Definition virtual_isDir (cache : option (gmap string bool)) (p : string)
    : res (bool * option (gmap string bool)) :=
  match fmc with
  | Some Get => Ok (match Get p with Ok d => d | _ => false end, cache)
  | None =>
      match cache with
      | Some m =>
          match m !! p with
          | Some d => Ok (d, cache)
          | None =>
              match OS.Stat w p with
              | Ok n => let d := bool_decide (n = NDir) in Ok (d, Some (<[p := d]> m))
              | _ => Panic
              end
          end
      | None => Ok (match OS.Stat w p with Ok n => bool_decide (n = NDir) | _ => false end, None)
      end
  end.

Definition filter_virtual (execRoot : string) (acc : res (list VirtualInput * option (gmap string bool)))
    (vi : VirtualInput) : res (list VirtualInput * option (gmap string bool)) :=
  let? (filtered, cache) := acc in
  let? (isDir, cache) := virtual_isDir cache (Join [execRoot; vi_Path vi]) in
  Ok (if (isDir && vi_IsEmptyDirectory vi) || negb (vi_IsEmptyDirectory vi) then filtered ++ [vi] else filtered,
      cache).

Definition FilterVirtualInputs (c : BasePreprocessor) : res BasePreprocessor :=
  match current c with
  | None => Ok c
  | Some (s, i) =>
      let? (filtered, cache) :=
        foldl (filter_virtual (opt_ExecRoot (bp_Options c))) (Ok ([], fsc c)) (VirtualInputs i) in
      Ok (with_fsc (with_spec c (set_InputSpec s (set_VirtualInputs i filtered))) cache)
  end.

Definition rewrite_path (execRoot workingDir val : string) : string :=
  if negb (IsAbs val) then val
  else if (RelToExecRoot execRoot workingDir val =? "")%string then val
  else RelToWorkingDir execRoot workingDir val.

Definition rewrite_variable (execRoot workingDir v : string) : string :=
  GoStrings.Join (rewrite_path execRoot workingDir <$> Split v ":") ":".

Definition RewriteEnvironmentVariables (c : BasePreprocessor) : BasePreprocessor :=
  match current c with
  | None => c
  | Some (s, i) =>
      let o := bp_Options c in
      with_spec c (set_InputSpec s
        (with_env i (rewrite_variable (opt_ExecRoot o) (opt_WorkingDir o) <$> EnvironmentVariables i)))
  end.

Definition Sanitize : ST BasePreprocessor unit := λ c,
  match FilterVirtualInputs (RewriteEnvironmentVariables (FilterInputsUnderExecRoot c)) with
  | Ok c' => (Ok tt, c')
  | Fail e => (Fail e, c)
  | Panic => (Panic, c)
  end.

End env.

(** ** The interface and its driver *)

Class Preprocessor (S : Type) := {
  pp_Init : Options → S → S;
  pp_ParseFlags : ST S unit;
  pp_ProcessToolchains : ST S unit;
  pp_ComputeSpec : ST S unit;
  pp_Sanitize : ST S unit;
  pp_Spec : S → res (option ActionSpec)
}.

(** [p.Sanitize(); return p.Spec()] *)
Definition sanitized_spec {S} `{Preprocessor S} : ST S (option ActionSpec) :=
  let! _ := pp_Sanitize in λ s, (pp_Spec s, s).

(** A step that may fall back to the specification computed so far. *)
Definition or_fallback {S} `{Preprocessor S} (fallback : bool) (step : ST S unit)
    (k : ST S (option ActionSpec)) : ST S (option ActionSpec) := λ s,
  match step s with
  | (Ok _, s) => k s
  | (Fail e, s) => if fallback then sanitized_spec s else (Fail e, s)
  | (Panic, s) => (Panic, s)
  end.

Definition Compute {S} `{Preprocessor S} (options : Options) : ST S (option ActionSpec) := λ s,
  let fb := ShallowFallback options in
  (or_fallback fb pp_ParseFlags (or_fallback fb pp_ProcessToolchains (λ s,
    match pp_Spec s with
    | Ok (Some a) =>
        if as_UsedShallowMode a then sanitized_spec s
        else or_fallback fb pp_ComputeSpec sanitized_spec s
    | _ => (Panic, s)
    end))) (pp_Init options s).

(** The base preprocessor with its flag parser and its last step overridden. *)
Definition base_Preprocessor (w : fs) (fmc : option (string → res bool))
    (parse : list string → string → string → res CommandFlags)
    (compute : ST BasePreprocessor unit) : Preprocessor BasePreprocessor := {|
  pp_Init := Init;
  pp_ParseFlags := ParseFlags_with parse;
  pp_ProcessToolchains := ProcessToolchains w fmc;
  pp_ComputeSpec := compute;
  pp_Sanitize := Sanitize w fmc;
  pp_Spec := Spec |}.

(** [tool.Preprocessor] *)
Definition tool_Preprocessor (w : fs) (fmc : option (string → res bool)) : Preprocessor BasePreprocessor :=
  base_Preprocessor w fmc tool_parseFlags ComputeSpec.

(** ** The clean-up of the inputs *)

Section filter.

Variable w : fs.
Variable er : string.

(** The name under which an input is kept. *)
Definition kept_name (f : string) : option string :=
  if (f =? "")%string then None
  else match normalize w er f with (n, None) => Some n | _ => None end.

(** What the cache of names holds is what normalizing gives. *)
Definition coherent (cache : option (gmap string string)) : Prop :=
  ∀ m f n, cache = Some m → m !! f = Some n → normalize w er f = (n, None).

Lemma normalized_name_spec cache f :
  coherent cache → f ≠ "" →
  (normalized_name w er cache f).1 = kept_name f ∧ coherent (normalized_name w er cache f).2.
Proof.
  intros Hc Hf. unfold normalized_name, kept_name. apply String.eqb_neq in Hf as ->.
  destruct cache as [m|]; [|by destruct (normalize w er f) as [n [e|]]].
  destruct (m !! f) as [n|] eqn:Hm; [by rewrite (Hc m f n)|].
  destruct (normalize w er f) as [n [e|]] eqn:Hn; [done|]. split; [done|].
  intros m' f' n' [= <-]. rewrite lookup_insert_Some. intros [[<- <-]|[_ H]]; [done|]. by apply (Hc m).
Qed.

(** The first occurrences of the elements of a list, given those already seen. *)
Fixpoint first_occurrences (seen : gset string) (l : list string) : list string :=
  match l with
  | [] => []
  | x :: l => if bool_decide (x ∈ seen) then first_occurrences seen l
              else x :: first_occurrences ({[x]} ∪ seen) l
  end.

Lemma filter_inputs fs0 seen cache l :
  coherent cache →
  let r := foldl (filter_input w er) (fs0, seen, cache) l in
  r.1.1 = fs0 ++ first_occurrences seen (omap kept_name l) ∧ coherent r.2.
Proof.
  revert fs0 seen cache. induction l as [|f l IH]; intros fs0 seen cache Hc; simpl; [by rewrite app_nil_r|].
  destruct (decide (f = "")) as [->|Hf]; [by apply IH|].
  destruct (normalized_name_spec cache f Hc Hf) as [E Hc'].
  pose proof Hf as Hf'. apply String.eqb_neq in Hf as ->.
  destruct (normalized_name w er cache f) as [n cache']. simpl in *. rewrite <- E.
  destruct n as [n|]; [|by apply IH]. simpl. case_bool_decide.
  - by apply IH.
  - destruct (IH (fs0 ++ [n]) ({[n]} ∪ seen) cache' Hc') as [-> H']. by rewrite <- app_assoc.
Qed.

Lemma elem_of_first_occurrences seen l x : x ∈ first_occurrences seen l ↔ x ∈ l ∧ x ∉ seen.
Proof.
  revert seen. induction l as [|y l IH]; intros seen; simpl; [set_solver|].
  case_bool_decide; [rewrite IH; set_solver|]. rewrite elem_of_cons, IH, elem_of_cons.
  destruct (decide (x = y)) as [->|]; set_solver.
Qed.

Lemma NoDup_first_occurrences seen l : NoDup (first_occurrences seen l).
Proof.
  revert seen. induction l as [|y l IH]; intros seen; simpl; [constructor|].
  case_bool_decide; [done|]. constructor; [|done]. rewrite elem_of_first_occurrences. set_solver.
Qed.

Lemma first_occurrences_sublist seen l : first_occurrences seen l `sublist_of` l.
Proof.
  revert seen. induction l as [|y l IH]; intros seen; simpl; [done|].
  case_bool_decide; [by apply sublist_cons|by apply sublist_skip].
Qed.

End filter.

(** ** The steps on a specification that is set *)

Lemma current_with_spec c s i : current (with_spec c (set_InputSpec s i)) = Some (set_InputSpec s i, i).
Proof. done. Qed.

Lemma current_Some c s i : current c = Some (s, i) → actionSpec c = Some s ∧ as_InputSpec s = Some i.
Proof.
  unfold current. destruct (actionSpec c) as [a|]; simpl; [|done].
  destruct (as_InputSpec a) as [j|] eqn:E; simpl; [|done]. by intros [= <- <-].
Qed.

(** The specification after [AppendSpec]. *)
Definition appended (a : ActionSpec) (i : InputSpec) (s : ActionSpec) : ActionSpec := {|
  as_InputSpec := Some (append_InputSpec i (default empty_InputSpec (as_InputSpec s)));
  as_OutputFiles := as_OutputFiles a ++ as_OutputFiles s;
  as_OutputDirectories := as_OutputDirectories a ++ as_OutputDirectories s;
  as_EmittedDependencyFile :=
    if (as_EmittedDependencyFile s =? "")%string then as_EmittedDependencyFile a
    else as_EmittedDependencyFile s;
  as_UsedShallowMode := if as_UsedShallowMode a then true else as_UsedShallowMode s |}.

Lemma AppendSpec_current c a i s :
  current c = Some (a, i) → AppendSpec s c = with_spec c (appended a i s).
Proof. unfold AppendSpec. by intros ->. Qed.

Lemma FilterInputs_current w c s i :
  current c = Some (s, i) → coherent w (opt_ExecRoot (bp_Options c)) (nfc c) →
  ∃ cache, coherent w (opt_ExecRoot (bp_Options c)) cache ∧
    FilterInputsUnderExecRoot w c =
    with_nfc (with_spec c (set_InputSpec s (set_Inputs i
      (first_occurrences ∅ (omap (kept_name w (opt_ExecRoot (bp_Options c))) (Inputs i)))))) cache.
Proof.
  intros Hcur Hc. unfold FilterInputsUnderExecRoot. rewrite Hcur.
  destruct (filter_inputs w (opt_ExecRoot (bp_Options c)) [] ∅ (nfc c) (Inputs i) Hc) as [E Hc'].
  destruct (foldl _ _ _) as [[filtered m] cache]. simpl in *. subst filtered. by exists cache.
Qed.

(** The virtual inputs that stay when the metadata cache is set. *)
Definition keep_virtual (Get : string → res bool) (er : string) (vi : VirtualInput) : bool :=
  if vi_IsEmptyDirectory vi then match Get (Join [er; vi_Path vi]) with Ok d => d | _ => false end else true.

Definition kept_virtuals (Get : string → res bool) (er : string) (l : list VirtualInput) : list VirtualInput :=
  filter (λ vi, keep_virtual Get er vi = true) l.

Lemma filter_virtual_fmc w Get er acc cache vi :
  filter_virtual w (Some Get) er (Ok (acc, cache)) vi =
  Ok (if keep_virtual Get er vi then acc ++ [vi] else acc, cache).
Proof.
  unfold filter_virtual, keep_virtual. rewrite !bind_Ok. unfold virtual_isDir. rewrite bind_Ok.
  destruct (vi_IsEmptyDirectory vi); [|by rewrite andb_false_r].
  rewrite andb_true_r, orb_false_r. by destruct (Get _).
Qed.

Lemma filter_virtuals_fmc w Get er l acc cache :
  foldl (filter_virtual w (Some Get) er) (Ok (acc, cache)) l = Ok (acc ++ kept_virtuals Get er l, cache).
Proof.
  revert acc. unfold kept_virtuals. induction l as [|vi l IH]; intros acc; [by rewrite filter_nil, app_nil_r|].
  rewrite filter_cons. cbn [foldl]. rewrite filter_virtual_fmc, IH.
  destruct (keep_virtual Get er vi); simpl; [|done]. by rewrite <- app_assoc.
Qed.

Lemma FilterVirtualInputs_fmc w Get c s i :
  current c = Some (s, i) →
  FilterVirtualInputs w (Some Get) c =
  Ok (with_fsc (with_spec c (set_InputSpec s (set_VirtualInputs i
    (kept_virtuals Get (opt_ExecRoot (bp_Options c)) (VirtualInputs i))))) (fsc c)).
Proof. intros Hcur. unfold FilterVirtualInputs. by rewrite Hcur, filter_virtuals_fmc. Qed.

(** What cleaning up makes of an input specification. *)
Definition sanitized (w : fs) (Get : string → res bool) (er wd : string) (i : InputSpec) : InputSpec := {|
  Inputs := first_occurrences ∅ (omap (kept_name w er) (Inputs i));
  VirtualInputs := kept_virtuals Get er (VirtualInputs i);
  InputExclusions := InputExclusions i;
  EnvironmentVariables := rewrite_variable er wd <$> EnvironmentVariables i |}.

Lemma Sanitize_current w Get c s i :
  current c = Some (s, i) → coherent w (opt_ExecRoot (bp_Options c)) (nfc c) →
  let o := bp_Options c in
  ∃ c', Sanitize w (Some Get) c = (Ok tt, c') ∧ Err c' = Err c ∧
    actionSpec c' = Some (set_InputSpec s (sanitized w Get (opt_ExecRoot o) (opt_WorkingDir o) i)).
Proof.
  intros Hcur Hc. destruct (FilterInputs_current w c s i Hcur Hc) as (cache & _ & E).
  unfold Sanitize. rewrite E. unfold RewriteEnvironmentVariables. cbn -[FilterVirtualInputs].
  erewrite FilterVirtualInputs_fmc by reflexivity. eexists. split; [reflexivity|]. done.
Qed.

(** With an absolute exec root the directory of a toolchain is never empty. *)
Lemma toolchain_dirs_Ok er wd l dirs :
  IsAbs er = true → ∃ dirs', foldl (toolchain_dir er wd) (Ok dirs) l = Ok dirs'.
Proof.
  intros He. revert dirs. induction l as [|tc l IH]; intros dirs; simpl; [eauto|].
  unfold toolchain_dir at 1. destruct (RelToWorkingDir_Ok er wd (Dir tc) He) as (r & -> & Hr & _).
  apply String.eqb_neq in Hr as ->. apply IH.
Qed.

Lemma ProcessToolchainInputs_Ok w fmc er wd ep tcs tfc :
  IsAbs er = true → ∃ tci tfc', ProcessToolchainInputs w fmc er wd ep tcs tfc = (Ok tci, tfc').
Proof.
  intros He. unfold ProcessToolchainInputs. destruct (processToolchainInputFiles _ _ _ _ _) as [inp tfc'].
  destruct (toolchain_dirs_Ok er wd tcs [] He) as [dirs ->]. simpl. eauto.
Qed.

(** ** Properties *)

(** The inputs that are asked for: those of the request, those of the flags and
    those of the toolchains. *)
Definition requested (o : Options) (f : CommandFlags) (tci : InputSpec) : InputSpec :=
  append_InputSpec
    (append_InputSpec (default empty_InputSpec (opt_Inputs o)) (default empty_InputSpec (as_InputSpec (flags_spec o f))))
    tci.

Definition shallow_option (o : Options) : bool :=
  match opt_Labels o !! shallowLabel with
  | Some v => match ParseBool v with Ok b => b | _ => false end
  | None => false
  end.

Lemma Init_current o c :
  let s := set_shallow (new_ActionSpec (Some (default empty_InputSpec (opt_Inputs o)))) (shallow_option o) in
  current (Init o c) = Some (s, default empty_InputSpec (opt_Inputs o)) ∧
  Init o c = mkBP o (bp_Flags c) (Err c) (Some s) (nfc c) (fsc c) (toolchainFilesCache c).
Proof. unfold Init, shallow_option. destruct (opt_Labels o !! shallowLabel); done. Qed.

Section fallback.

Context {S : Type} {H : Preprocessor S}.

Lemma or_fallback_Ok fb (step : ST S unit) k s s' :
  step s = (Ok tt, s') → or_fallback fb step k s = k s'.
Proof. unfold or_fallback. by intros ->. Qed.

Lemma or_fallback_Fail fb (step : ST S unit) k s e s' :
  step s = (Fail e, s') → or_fallback fb step k s = if fb then sanitized_spec s' else (Fail e, s').
Proof. unfold or_fallback. by intros ->. Qed.

Lemma or_fallback_Panic fb (step : ST S unit) k s s' :
  step s = (Panic, s') → or_fallback fb step k s = (Panic, s').
Proof. unfold or_fallback. by intros ->. Qed.

End fallback.

Lemma ParseFlags_Ok parse c s i f :
  let o := bp_Options c in
  current c = Some (s, i) → parse (opt_Cmd o) (opt_WorkingDir o) (opt_ExecRoot o) = Ok f →
  ParseFlags_with parse c = (Ok tt, with_spec (with_Flags c f) (appended s i (flags_spec o f))).
Proof.
  cbv zeta. intros Hc Hp. unfold ParseFlags_with. rewrite Hp. unfold FlagsToActionSpec. cbn [bp_Flags with_Flags].
  assert (current (with_Flags c f) = Some (s, i)) as E by exact Hc. rewrite E. cbn [bp_Options with_Flags].
  by rewrite (AppendSpec_current _ _ _ _ E).
Qed.

Lemma ProcessToolchains_Ok w fmc c s i f tci tfc :
  let o := bp_Options c in
  current c = Some (s, i) → bp_Flags c = Some f →
  ProcessToolchainInputs w fmc (opt_ExecRoot o) (opt_WorkingDir o) (ExecutablePath f) (opt_ToolchainInputs o)
    (toolchainFilesCache c) = (Ok tci, tfc) →
  ProcessToolchains w fmc c = (Ok tt, with_spec (with_tfc c tfc) (appended s i (new_ActionSpec (Some tci)))).
Proof.
  cbv zeta. intros Hc Hf Ht. unfold ProcessToolchains. rewrite Hf, Ht.
  assert (current (with_tfc c tfc) = Some (s, i)) as E by exact Hc. by rewrite (AppendSpec_current _ _ _ _ E).
Qed.

(** The specification is read after it is cleaned up. *)
Lemma sanitized_spec_base w Get parse compute c s i :
  let o := bp_Options c in
  current c = Some (s, i) → coherent w (opt_ExecRoot o) (nfc c) →
  (sanitized_spec (H := base_Preprocessor w (Some Get) parse compute) c).1 =
  match Err c with
  | Some e => Fail e
  | None => Ok (Some (set_InputSpec s (sanitized w Get (opt_ExecRoot o) (opt_WorkingDir o) i)))
  end.
Proof.
  cbv zeta. intros Hc Hn. destruct (Sanitize_current w Get c s i Hc Hn) as (c' & E & He & Hs).
  unfold sanitized_spec, st_bind. cbn [pp_Sanitize pp_Spec base_Preprocessor]. rewrite E. simpl.
  unfold Spec. rewrite He, Hs. by destruct (Err c).
Qed.

(** The last part of [Compute], with nothing left to compute. *)
Lemma finish_base w Get parse fb c s i :
  let o := bp_Options c in
  let P := base_Preprocessor w (Some Get) parse ComputeSpec in
  Err c = None → current c = Some (s, i) → coherent w (opt_ExecRoot o) (nfc c) →
  (match pp_Spec (Preprocessor := P) c with
   | Ok (Some a) =>
       if as_UsedShallowMode a then sanitized_spec (H := P) c
       else or_fallback (H := P) fb (pp_ComputeSpec (Preprocessor := P)) (sanitized_spec (H := P)) c
   | _ => (Panic, c)
   end).1 = Ok (Some (set_InputSpec s (sanitized w Get (opt_ExecRoot o) (opt_WorkingDir o) i))).
Proof.
  cbv zeta. intros He Hc Hn. destruct (current_Some _ _ _ Hc) as [Hs _].
  cbn [pp_Spec base_Preprocessor]. unfold Spec. rewrite He, Hs.
  pose proof (sanitized_spec_base w Get parse ComputeSpec c s i Hc Hn) as E. rewrite He in E.
  destruct (as_UsedShallowMode s); [exact E|]. by erewrite or_fallback_Ok.
Qed.

(** C9: [Compute] on the base preprocessor, whatever the parser of its flags.  A
    failure to parse the flags is reported even when falling back is allowed;
    otherwise, under an absolute exec root, there is always a specification:
    its outputs are those of the flags, and its inputs are those of the
    request, of the flags and of the toolchains, cleaned up. *)
Theorem Compute_base w Get parse o c :
  let er := opt_ExecRoot o in
  let wd := opt_WorkingDir o in
  let rel := ListRelToExecRoot er wd in
  let P := base_Preprocessor w (Some Get) parse ComputeSpec in
  IsAbs er = true → Err c = None → coherent w er (nfc c) →
  match parse (opt_Cmd o) wd er with
  | Fail _ => (Compute (H := P) o c).1 = Fail (EMsg "flag parsing failed")
  | Panic => (Compute (H := P) o c).1 = Panic
  | Ok f => ∃ tci tfc,
      ProcessToolchainInputs w (Some Get) er wd (ExecutablePath f) (opt_ToolchainInputs o)
        (toolchainFilesCache c) = (Ok tci, tfc) ∧
      (Compute (H := P) o c).1 = Ok (Some {|
        as_InputSpec := Some (sanitized w Get er wd (requested o f tci));
        as_OutputFiles := rel (OutputFilePaths f);
        as_OutputDirectories := rel (OutputDirPaths f);
        as_EmittedDependencyFile := RelToExecRoot er wd (cf_EmittedDependencyFile f);
        as_UsedShallowMode := shallow_option o |})
  end.
Proof.
  cbv zeta. intros He Hc Hn. destruct (Init_current o c) as [Hcur Hi].
  unfold Compute. cbn [pp_Init pp_ParseFlags base_Preprocessor].
  destruct (parse (opt_Cmd o) (opt_WorkingDir o) (opt_ExecRoot o)) as [f|e|] eqn:Hp.
  - destruct (ProcessToolchainInputs_Ok w (Some Get) (opt_ExecRoot o) (opt_WorkingDir o) (ExecutablePath f)
      (opt_ToolchainInputs o) (toolchainFilesCache c) He) as (tci & tfc & Ht).
    exists tci, tfc. split; [done|].
    erewrite or_fallback_Ok; [|apply ParseFlags_Ok; [exact Hcur|rewrite Hi; exact Hp]].
    erewrite or_fallback_Ok; [|eapply ProcessToolchains_Ok; [reflexivity|reflexivity|rewrite Hi; exact Ht]].
    rewrite Hi. erewrite finish_base; [|exact Hc|reflexivity|exact Hn]. do 2 f_equal.
    unfold set_InputSpec, appended, shallow_option. cbn. rewrite !app_nil_r.
    f_equal; [by destruct (_ =? "")%string eqn:E; [apply String.eqb_eq in E|]|].
    repeat case_match; done.
  - erewrite or_fallback_Fail; [|unfold ParseFlags_with; rewrite Hi; cbn [bp_Options]; rewrite Hp; done].
    destruct (ShallowFallback o); [|done].
    by erewrite sanitized_spec_base; [|reflexivity|exact Hn].
  - erewrite or_fallback_Panic; [done|]. unfold ParseFlags_with. rewrite Hi. cbn [bp_Options]. by rewrite Hp.
Qed.

(** Cleaning up the inputs keeps exactly the names of those that exist under
    the exec root, normalized, each once and in the order of their first
    occurrence; the rest of the specification stays as it is. *)
Theorem FilterInputs_spec w c s i :
  let er := opt_ExecRoot (bp_Options c) in
  current c = Some (s, i) → coherent w er (nfc c) →
  ∃ l, current (FilterInputsUnderExecRoot w c) = Some (set_InputSpec s (set_Inputs i l), set_Inputs i l) ∧
    NoDup l ∧ l `sublist_of` omap (kept_name w er) (Inputs i) ∧
    (∀ n, n ∈ l ↔ ∃ f, f ∈ Inputs i ∧ f ≠ "" ∧ n = TrimLeft (Clean f) "/" ∧
                       is_ok (OS.Stat w (Join [er; n])) = true).
Proof.
  cbv zeta. intros Hc Hn. destruct (FilterInputs_current w c s i Hc Hn) as (cache & _ & ->).
  eexists. split; [reflexivity|]. split; [apply NoDup_first_occurrences|].
  split; [apply first_occurrences_sublist|]. intros n. rewrite elem_of_first_occurrences, list_elem_of_omap.
  assert (∀ f, kept_name w (opt_ExecRoot (bp_Options c)) f = Some n ↔
    f ≠ "" ∧ n = TrimLeft (Clean f) "/" ∧ is_ok (OS.Stat w (Join [opt_ExecRoot (bp_Options c); n])) = true) as E;
    [|set_solver].
  intros f. unfold kept_name, normalize. destruct (String.eqb_spec f "") as [->|Hf]; [naive_solver|].
  destruct (OS.Stat w _) eqn:Es; split.
  - intros [= <-]. by rewrite Es.
  - by intros (_ & -> & _).
  - done.
  - intros (_ & -> & H). by rewrite Es in H.
  - intros [= <-]. exfalso. unfold OS.Stat in Es. case_match; [done|]. by destruct (w !! _).
  - by intros (_ & -> & _).
Qed.

Lemma filter_virtual_panics w er l acc m :
  foldl (filter_virtual w None er) (Ok (acc, Some m)) l = Panic ↔
  ∃ vi, vi ∈ l ∧ m !! Join [er; vi_Path vi] = None ∧ is_ok (OS.Stat w (Join [er; vi_Path vi])) = false.
Proof.
  assert (∀ l, foldl (filter_virtual w None er) Panic l = Panic) as Hp by (intros l'; by induction l').
  revert acc m. induction l as [|vi l IH]; intros acc m; [simpl; split; [done|set_solver]|].
  cbn [foldl]. unfold filter_virtual at 2, virtual_isDir. rewrite bind_Ok.
  destruct (m !! Join [er; vi_Path vi]) as [d|] eqn:Em.
  - rewrite bind_Ok, IH. setoid_rewrite elem_of_cons. naive_solver congruence.
  - destruct (OS.Stat w (Join [er; vi_Path vi])) as [n|e|] eqn:Es.
    + rewrite bind_Ok, IH. setoid_rewrite elem_of_cons. setoid_rewrite lookup_insert_None. split.
      * intros (v & Hv & [H1 H2] & H3). eauto.
      * intros (v & [->|Hv] & H1 & H2); [by rewrite Es in H2|]. exists v. split_and!; try done.
        intros E. rewrite <- E, Es in H2. done.
    + cbn [mbind res_bind]. rewrite Hp. split; [|done]. intros _. exists vi. rewrite Es. split_and!; [left|done..].
    + cbn [mbind res_bind]. rewrite Hp. split; [|done]. intros _. exists vi. rewrite Es. split_and!; [left|done..].
Qed.

(** Cleaning up the virtual inputs.  With the metadata cache it never panics,
    and keeps the files and those empty directories that exist.  Without it and
    with the cache of stat results it panics exactly when some virtual input is
    neither in the cache nor in the file system. *)
Theorem FilterVirtualInputs_spec w c s i :
  let er := opt_ExecRoot (bp_Options c) in
  current c = Some (s, i) →
  (∀ Get, ∃ c', FilterVirtualInputs w (Some Get) c = Ok c' ∧
    actionSpec c' = Some (set_InputSpec s (set_VirtualInputs i
      (filter (λ vi, vi_IsEmptyDirectory vi = true → Get (Join [er; vi_Path vi]) = Ok true) (VirtualInputs i))))) ∧
  (∀ m, fsc c = Some m →
    FilterVirtualInputs w None c = Panic ↔
    ∃ vi, vi ∈ VirtualInputs i ∧ m !! Join [er; vi_Path vi] = None ∧
          is_ok (OS.Stat w (Join [er; vi_Path vi])) = false).
Proof.
  cbv zeta. intros Hc. split.
  - intros Get. rewrite (FilterVirtualInputs_fmc w Get c s i Hc). eexists. split; [reflexivity|]. cbn.
    do 3 f_equal. apply list_filter_iff. intros vi. unfold keep_virtual.
    destruct (vi_IsEmptyDirectory vi), (Get _) as [[]| |]; naive_solver.
  - intros m Hm. rewrite <- (filter_virtual_panics w _ _ [] m). unfold FilterVirtualInputs. rewrite Hc, Hm.
    destruct (foldl _ _ _) as [[l cache]|e|]; naive_solver.
Qed.

(** The elements of an environment variable.  Those that are not absolute
    paths under the exec root stay; the others become paths that denote the
    same file from the working directory. *)
Theorem rewrite_variable_spec er wd v :
  IsAbs er = true →
  ∃ vals, rewrite_variable er wd v = GoStrings.Join vals ":" ∧
    Forall2 (λ val val',
      if IsAbs val && negb (RelToExecRoot er wd val =? "")%string
      then Join [Join [er; wd]; val'] = Clean val
      else val' = val) (Split v ":") vals.
Proof.
  intros He. exists (rewrite_path er wd <$> Split v ":"). split; [done|].
  apply Forall2_fmap_r, Forall_Forall2_diag, Forall_forall. intros val _.
  unfold compose, rewrite_path. destruct (IsAbs val) eqn:Ha; cbn [negb andb]; [|done].
  destruct (RelToExecRoot er wd val =? "")%string; cbn [negb]; [done|].
  destruct (RelToWorkingDir_Ok er wd val He) as (r & -> & _ & ->). by rewrite Ha.
Qed.

(** ** A concrete action *)

Definition fs_ip : fs :=
  {[ "/er" := NDir; "/er/a.c" := NFile "int a;" 420; "/er/tool" := NFile "" 493; "/er/out" := NDir;
     "/er/lib" := NDir; "/er/lib/cc" := NFile "" 493; "/er/lib/l.so" := NFile "" 420;
     "/er/lib/cc_remote_toolchain_inputs" := NFile (String.concat (String "010" "") ["# files"; "l.so"; "missing"]) 420 ]}.

Definition Get_ip (p : string) : res bool :=
  match OS.Stat fs_ip p with Ok n => Ok (bool_decide (n = NDir)) | Fail e => Fail e | Panic => Panic end.

Definition options_ip : Options := {|
  opt_Cmd := ["../tool"; "-x"; "a"]; opt_WorkingDir := "out"; opt_ExecRoot := "/er";
  opt_Inputs := Some {| Inputs := ["a.c"; ""; "./a.c"; "gone.c"]; VirtualInputs := [empty_directory "out"; empty_directory "no"];
    InputExclusions := []; EnvironmentVariables := {[ "LIBS" := "/er/lib:rel:/usr/lib" ]} |};
  opt_Labels := ∅; opt_ToolchainInputs := ["lib/cc"]; ShallowFallback := true; WindowsCross := false |}.

Definition bp_ip : BasePreprocessor := mkBP options_ip None None None None None ∅.

Lemma coherent_None w er : coherent w er None.
Proof. by intros m f n [=]. Qed.

(** The value that the theorem gives for this action. *)
Example Compute_example :
  (λ o, match o with Ok (Some a) => Some (Inputs (default empty_InputSpec (as_InputSpec a)),
     map_to_list (EnvironmentVariables (default empty_InputSpec (as_InputSpec a)))) | _ => None end)
    (Compute (H := tool_Preprocessor fs_ip (Some Get_ip)) options_ip bp_ip).1 =
  Some (["a.c"; "tool"; "lib/cc"; "lib/l.so"],
        [("LIBS", "../lib:rel:/usr/lib"); ("PATH", "../lib:/usr/local/sbin:/usr/local/bin:/usr/sbin:/usr/bin:/sbin:/bin")]).
Proof. vm_compute. reflexivity. Qed.

Lemma Compute_base_witness :
  (∃ f, tool_parseFlags (opt_Cmd options_ip) "out" "/er" = Ok f) ∧
  ∃ a, (Compute (H := tool_Preprocessor fs_ip (Some Get_ip)) options_ip bp_ip).1 = Ok (Some a) ∧
       as_UsedShallowMode a = false.
Proof.
  split; [eexists; reflexivity|].
  destruct (Compute_base fs_ip Get_ip tool_parseFlags options_ip bp_ip eq_refl eq_refl (coherent_None _ _))
    as (tci & tfc & _ & E).
  eexists. split; [exact E|reflexivity].
Defined.

Definition bp_ready : BasePreprocessor := Eval vm_compute in Init options_ip bp_ip.

Lemma FilterInputs_spec_witness :
  ∃ l, current (FilterInputsUnderExecRoot fs_ip bp_ready) =
       Some (set_InputSpec (default (new_ActionSpec None) (actionSpec bp_ready))
               (set_Inputs (default empty_InputSpec (opt_Inputs options_ip)) l),
             set_Inputs (default empty_InputSpec (opt_Inputs options_ip)) l) ∧ NoDup l.
Proof.
  destruct (FilterInputs_spec fs_ip bp_ready _ _ eq_refl (coherent_None _ _)) as (l & E & Hn & _).
  exists l. split; [exact E|exact Hn].
Defined.

Definition bp_stat_cache : BasePreprocessor := with_fsc bp_ready (Some ∅).

Lemma FilterVirtualInputs_spec_witness : FilterVirtualInputs fs_ip None bp_stat_cache = Panic.
Proof.
  apply (proj2 (FilterVirtualInputs_spec fs_ip bp_stat_cache _ _ eq_refl) ∅ eq_refl).
  exists (empty_directory "no"). split; [right; left|]. split; reflexivity.
Defined.

Lemma rewrite_variable_spec_witness :
  IsAbs "/er" = true ∧ ∃ vals, rewrite_variable "/er" "out" "/er/lib:rel" = GoStrings.Join vals ":".
Proof.
  split; [reflexivity|].
  destruct (rewrite_variable_spec "/er" "out" "/er/lib:rel" eq_refl) as (vals & E & _).
  exists vals. exact E.
Defined.

End InputProcessor.
