(* ===== verification/RbeFlags.v ===== *)
(** * Flags from the environment and from files: [internal/pkg/rbeflag]

    Every program of the repository parses its flags here.  Package [flag] of the
    standard library is modelled as far as the code uses it; how a flag takes a
    text is a parameter, since every type of flag has a way of its own. *)
From S2P Require Import Prelude GoStrings GoPath InputProcessor.
From Stdlib Require Import Ascii.

Module RbeFlags.

(** ** Package [flag]

    The flags that are defined, with the texts of their values, and the names of
    those that were set. *)
Record flagset := {
  values : gmap string string;
  actual : gset string;
  parsed : bool;
  fs_args : list string
}.

Definition with_value (n v : string) (st : flagset) : flagset :=
  {| values := <[n := v]> (values st); actual := actual st; parsed := parsed st; fs_args := fs_args st |}.
Definition with_actual (n : string) (st : flagset) : flagset :=
  {| values := values st; actual := {[n]} ∪ actual st; parsed := parsed st; fs_args := fs_args st |}.
Definition with_args (args : list string) (st : flagset) : flagset :=
  {| values := values st; actual := actual st; parsed := parsed st; fs_args := args |}.
Definition with_parsed (st : flagset) : flagset :=
  {| values := values st; actual := actual st; parsed := true; fs_args := fs_args st |}.

(** What an argument is: [-name], [--name], either with [=value], the end of the
    flags, or no flag. *)
Inductive word := WStop (dropped : bool) | WBad | WFlag (name : string) (value : option string).

Definition minus : ascii := "-".

Definition read_word (s : string) : word :=
  match s with
  | String a t =>
      if negb (Ascii.eqb a minus) || (t =? "")%string then WStop false
      else if (t =? "-")%string then WStop true
      else
        let name := TrimPrefix t "-" in
        if (name =? "")%string || HasPrefix name "-" || HasPrefix name "=" then WBad
        else let '(n, v) := SplitN2 name "=" in WFlag n v
  | "" => WStop false
  end.

Section flags.

(** What the flag of a name makes of a text: its value from then on, which also
    a text that it refuses may change, and whether it accepts it. *)
Variable set_value : string → string → string → string * bool.
Variable isBool : string → bool.

(** [flag.Set]. *)
Definition Set_flag (n v : string) (st : flagset) : bool * flagset :=
  match values st !! n with
  | None => (false, st)
  | Some old =>
      let '(new, ok) := set_value n v old in
      let st := with_value n new st in (ok, if ok then with_actual n st else st)
  end.

(** [flag.String] panics when the name is taken. *)
Definition define (n v : string) (st : flagset) : res flagset :=
  match values st !! n with Some _ => Panic | None => Ok (with_value n v st) end.

(** [flag.Parse]: every error ends the program. *)
Fixpoint parse_args (args : list string) (st : flagset) : res flagset :=
  match args with
  | [] => Ok (with_args [] st)
  | s :: rest =>
      match read_word s with
      | WStop dropped => Ok (with_args (if dropped then rest else args) st)
      | WBad => Fail (EMsg "bad flag syntax")
      | WFlag n v =>
          match values st !! n with
          | None => Fail (EMsg "flag provided but not defined")
          | Some _ =>
              let set v := match Set_flag n v st with (true, st) => Ok st | _ => Fail (EMsg "invalid value") end in
              if isBool n then let? st := set (default "true" v) in parse_args rest st
              else match v, rest with
                   | Some v, _ => let? st := set v in parse_args rest st
                   | None, v :: rest => let? st := set v in parse_args rest st
                   | None, [] => Fail (EMsg "flag needs an argument")
                   end
          end
      end
  end.

(** ** The package *)

(** [rgx.Split(line, 2)]. *)
Fixpoint split_first (f : ascii → bool) (s : string) : string * option string :=
  match s with
  | "" => ("", None)
  | String a s' => if f a then ("", Some s') else let '(w, r) := split_first f s' in (String a w, r)
  end.

(** [[\s=]]. *)
Definition rgx (a : ascii) : bool :=
  mem (String a "") [" "; String "009" ""; String "010" ""; String "012" ""; String "013" ""; "="].

Definition config_line (cfgFlags : gmap string string) (text : string) : gmap string string :=
  let line := TrimSpace text in
  if (line =? "")%string || HasPrefix line "#" then cfgFlags else
  let '(k, v) := split_first rgx line in
  <[TrimPrefix (TrimPrefix k "-") "-" := default "true" v]> cfgFlags.

Definition parseFromFile (readFile : string → res string) (cfg : string) : res (gmap string string) :=
  let? content := readFile cfg in
  Ok (foldl config_line ∅ (InputProcessor.text_lines content)).

Definition env_value (env : gmap string string) (n : string) : option string :=
  match env !! ("RBE_" +:+ n) with Some v => Some v | None => env !! ("FLAG_" +:+ n) end.

Definition env_set (env : gmap string string) (st : flagset) (n : string) : flagset :=
  match env_value env n with Some v => (Set_flag n v st).2 | None => st end.

(** [flag.VisitAll] goes by the names. *)
Definition names (st : flagset) : list string := sort_Strings ((map_to_list (values st)).*1).

Definition ParseFromEnv (env : gmap string string) (st : flagset) : flagset :=
  foldl (env_set env) st (names st).

Definition set_config (st : flagset) (kv : string * string) : flagset := (Set_flag kv.1 kv.2 st).2.

(** [order] is the order in which the loop over a map takes it. *)
Definition Parse (order : gmap string string → list (string * string)) (env : gmap string string)
    (readFile : string → res string) (args : list string) (st : flagset) : res flagset :=
  if parsed st then Ok st else
  let? st := define "cfg" "" st in
  let st := ParseFromEnv env st in
  let? st := parse_args args (with_parsed st) in
  let cfgFile := default "" (values st !! "cfg") in
  if (cfgFile =? "")%string then Ok st else
  match parseFromFile readFile cfgFile with
  | Ok cfgMap => Ok (foldl set_config st (order (filter (λ kv, kv.1 ∉ actual st) cfgMap)))
  | Fail e => Fail (EWrap "failed reading config file" e)
  | Panic => Panic
  end.

(** The text of [LogAllFlags]. *)
Definition LogAllFlags (st : flagset) : string :=
  "Command line flags:" +:+ String "010" "" +:+
  Join ((λ n, "--" +:+ n +:+ "=" +:+ default "" (values st !! n)) <$> names st) (" \" +:+ String "010" "").

(** ** What the sources of a flag say *)

(** The settings of a command line, in their order. *)
Fixpoint assigned (args : list string) : list (string * string) :=
  match args with
  | [] => []
  | s :: rest =>
      match read_word s with
      | WFlag n v =>
          if isBool n then (n, default "true" v) :: assigned rest
          else match v, rest with
               | Some v, _ => (n, v) :: assigned rest
               | None, v :: rest => (n, v) :: assigned rest
               | None, [] => []
               end
      | _ => []
      end
  end.

(** The first source that has a value counts. *)
Definition first_of (l : list (option string)) (d : string) : string :=
  match omap id l with v :: _ => v | [] => d end.

(** A flag that takes every text as it is. *)
Definition plain (n : string) : Prop := ∀ v old, set_value n v old = (v, true).

End flags.

(** ** One flag among the others *)

Section plain_flags.

Context (set_value : string → string → string → string * bool).
Notation Set_flag := (Set_flag set_value).

(** The flag [n] has the value [v]; [b] tells whether it was set. *)
Definition reads (n v : string) (b : bool) (st : flagset) : Prop :=
  values st !! n = Some v ∧ (n ∈ actual st ↔ b = true).

Lemma Set_flag_other k v n u b st : k ≠ n → reads n u b st → reads n u b (Set_flag k v st).2.
Proof.
  intros Hne [Hv Hb]. unfold RbeFlags.Set_flag. destruct (values st !! k); [|done].
  destruct (set_value k v s) as [new []]; split; simpl; rewrite ?lookup_insert_ne by done; try done. set_solver.
Qed.

Lemma Set_flag_plain n v u b st : plain set_value n → reads n u b st → reads n v true (Set_flag n v st).2.
Proof.
  intros Hp [Hv Hb]. unfold RbeFlags.Set_flag. rewrite Hv, Hp. split; simpl; [apply lookup_insert_eq|set_solver].
Qed.

Lemma Set_flag_values k v n st : is_Some (values (Set_flag k v st).2 !! n) ↔ is_Some (values st !! n).
Proof.
  unfold RbeFlags.Set_flag. destruct (values st !! k) eqn:E; [|done]. destruct (set_value k v s) as [new []]; simpl;
    rewrite lookup_insert_is_Some'; (split; [intros [->|]; [by eexists|done]|by right]).
Qed.

(** A loop that sets some flags, this one at most once. *)
Lemma foldl_set {A} (f : flagset → A → flagset) (g : A → option (string * string)) l n u b st :
  (∀ st a, f st a = match g a with Some kv => (Set_flag kv.1 kv.2 st).2 | None => st end) →
  plain set_value n → reads n u b st →
  let found := last (omap (λ a, kv ← g a; if (kv.1 =? n)%string then Some kv.2 else None) l) in
  reads n (default u found) (match found with Some _ => true | None => b end) (foldl f st l).
Proof.
  intros Hf Hp. induction l as [|a l IH] using rev_ind; intros Hr; [done|].
  rewrite foldl_snoc, Hf. cbv zeta. rewrite omap_app, last_app. simpl. specialize (IH Hr).
  destruct (g a) as [[k v]|]; simpl; [|done].
  destruct (String.eqb_spec k n) as [->|Hne]; simpl; [by eapply Set_flag_plain|by apply Set_flag_other].
Qed.

Lemma last_unique {A} (P : A → option string) l x v :
  NoDup l → x ∈ l → P x = Some v → (∀ y, y ∈ l → y ≠ x → P y = None) → last (omap P l) = Some v.
Proof.
  induction l as [|y l IH]; intros Hnd Hx Hv Hy; [by apply not_elem_of_nil in Hx|]. apply NoDup_cons in Hnd as [Hn Hnd].
  apply elem_of_cons in Hx as [->|Hx].
  - assert (omap P l = []) as E.
    { clear IH. induction l as [|z l IHl]; [done|]. csimpl. rewrite Hy; [|set_solver..].
      apply IHl; [set_solver|by apply NoDup_cons in Hnd as []|]. intros w Hw. apply Hy. set_solver. }
    csimpl. by rewrite Hv, E.
  - csimpl. rewrite (Hy y); [|set_solver..]. apply IH; [done..|]. intros z Hz. apply Hy. set_solver.
Qed.

Lemma last_none {A} (P : A → option string) l : (∀ y, y ∈ l → P y = None) → last (omap P l) = None.
Proof. induction l as [|y l IH]; [done|]. intros H. csimpl. rewrite H by set_solver. apply IH. set_solver. Qed.

(** The environment. *)
Lemma ParseFromEnv_reads env n u b st :
  plain set_value n → reads n u b st →
  reads n (default u (env_value env n)) (match env_value env n with Some _ => true | None => b end)
    (ParseFromEnv set_value env st).
Proof.
  intros Hp Hr. unfold ParseFromEnv.
  pose proof (foldl_set (env_set set_value env) (λ k, v ← env_value env k; Some (k, v)) (names st) n u b st) as H.
  cbv beta zeta in H.
  assert (last (omap (λ a, kv ← (v ← env_value env a; Some (a, v)); if (kv.1 =? n)%string then Some kv.2 else None)
    (names st)) = env_value env n) as E.
  { destruct (env_value env n) as [v|] eqn:Ev.
    - apply (last_unique _ _ n); [| |rewrite Ev; simpl; by rewrite String.eqb_refl|].
      + unfold names. rewrite sort_Strings_perm. apply NoDup_fst_map_to_list.
      + unfold names. rewrite sort_Strings_perm. apply list_elem_of_fmap. exists (n, u). split; [done|].
        apply elem_of_map_to_list, Hr.
      + intros y _ Hne. destruct (env_value env y); simpl; [|done]. by apply String.eqb_neq in Hne as ->.
    - apply last_none. intros y _. destruct (String.eqb_spec y n) as [->|Hne]; [by rewrite Ev|].
      destruct (env_value env y); simpl; [|done]. by apply String.eqb_neq in Hne as ->. }
  rewrite E in H. apply H; [|done..]. intros st0 k. unfold env_set. by destruct (env_value env k).
Qed.

(** The command line. *)
Definition setting (n k v : string) : option string := if (k =? n)%string then Some v else None.

Lemma Set_flag_reads k v n u b st st' :
  plain set_value n → reads n u b st → Set_flag k v st = (true, st') →
  reads n (default u (setting n k v)) (match setting n k v with Some _ => true | None => b end) st'.
Proof.
  intros Hp Hr E. assert (st' = (Set_flag k v st).2) as -> by (by rewrite E). unfold setting.
  destruct (String.eqb_spec k n) as [->|Hne]; [by eapply Set_flag_plain|by apply Set_flag_other].
Qed.

Definition found_in (n : string) (l : list (string * string)) : option string :=
  last (omap (λ kv, setting n kv.1 kv.2) l).

Lemma found_cons n k v l u b :
  let x := setting n k v in let y := found_in n l in
  found_in n ((k, v) :: l) = (match y with Some _ => y | None => x end) ∧
  default (default u x) y = default u (found_in n ((k, v) :: l)) ∧
  match y with Some _ => true | None => match x with Some _ => true | None => b end end =
  match found_in n ((k, v) :: l) with Some _ => true | None => b end.
Proof.
  intros x y. assert (found_in n ((k, v) :: l) = match y with Some _ => y | None => x end) as ->.
  { unfold x, y. clear x y. unfold found_in. change ((k, v) :: l) with ([(k, v)] ++ l). rewrite omap_app, last_app. simpl.
    by destruct (setting n k v), (last _). }
  by destruct y, x.
Qed.

Lemma parse_args_reads isBool n : plain set_value n → ∀ len args u b st st',
  length args ≤ len → reads n u b st → parse_args set_value isBool args st = Ok st' →
  reads n (default u (found_in n (assigned isBool args)))
    (match found_in n (assigned isBool args) with Some _ => true | None => b end) st'.
Proof.
  intros Hp. induction len as [|len IH]; intros [|s rest] u b st st' Hl Hr E; simpl in Hl; try lia; simpl in *;
    try by injection E as <-.
  destruct (read_word s) as [d| |k v]; simpl; [injection E as <-; by destruct d|done|].
  destruct (values st !! k); [|done].
  assert (∀ w rest', length rest' ≤ len →
    (let? st1 := match Set_flag k w st with (true, st1) => Ok st1 | _ => Fail (EMsg "invalid value") end in
     parse_args set_value isBool rest' st1) = Ok st' →
    reads n (default u (found_in n ((k, w) :: assigned isBool rest')))
      (match found_in n ((k, w) :: assigned isBool rest') with Some _ => true | None => b end) st') as Hstep.
  { intros w rest' Hl' E'. destruct (Set_flag k w st) as [[] st1] eqn:Es; [|done]. simpl in E'.
    destruct (found_cons n k w (assigned isBool rest') u b) as (_ & <- & <-).
    eapply IH; [done| |done]. by eapply Set_flag_reads. }
  destruct (isBool k); [apply Hstep; [lia|done]|]. destruct v as [v|]; [apply Hstep; [lia|done]|].
  destruct rest as [|v rest]; [done|]. simpl in Hl. apply Hstep; [lia|done].
Qed.

(** The file. *)
Lemma set_config_reads order cfg n u b st :
  (∀ m, order m ≡ₚ map_to_list m) → plain set_value n → reads n u b st →
  reads n (if b then u else default u (cfg !! n)) (b || match cfg !! n with Some _ => true | None => false end)
    (foldl (set_config set_value) st (order (filter (λ kv, kv.1 ∉ actual st) cfg))).
Proof.
  intros Ho Hp Hr. set (l := order _).
  pose proof (foldl_set (set_config set_value) Some l n u b st (λ _ _, eq_refl) Hp Hr) as H. cbv beta zeta in H. simpl in H.
  assert (last (omap (λ a, if (a.1 =? n)%string then Some a.2 else None) l) = if b then None else cfg !! n) as E.
  { assert (NoDup l.*1) as Hnd by (unfold l; rewrite Ho; apply NoDup_fst_map_to_list).
    assert (∀ k v, (k, v) ∈ l ↔ cfg !! k = Some v ∧ k ∉ actual st) as Hin.
    { intros k v. unfold l. by rewrite Ho, elem_of_map_to_list, map_lookup_filter_Some. }
    destruct (if b then None else cfg !! n) as [v|] eqn:Ev.
    - apply (last_unique _ _ (n, v)); [by eapply NoDup_fmap_1| | |].
      + apply Hin. destruct b; [done|]. split; [done|]. destruct Hr as [_ Hr]. by intros ?%Hr.
      + simpl. by rewrite String.eqb_refl.
      + intros [k w] [Hk _]%Hin Hne. simpl. destruct (String.eqb_spec k n) as [->|]; [|done]. destruct b; [done|]. congruence.
    - apply last_none. intros [k w] [Hk Ha]%Hin. simpl. destruct (String.eqb_spec k n) as [->|]; [|done].
      destruct b; [|congruence]. destruct Ha. by apply Hr. }
  rewrite E in H. destruct b; simpl in H |- *; [done|]. by destruct (cfg !! n).
Qed.

End plain_flags.

(** The value that the sources give a flag. *)
Definition flag_value (isBool : string → bool) (args : list string) (env cfg : gmap string string) (n d : string) : string :=
  first_of [found_in n (assigned isBool args); env !! ("RBE_" +:+ n); env !! ("FLAG_" +:+ n); cfg !! n] d.

(** ** Properties *)

(** C39: when the flags have been parsed, a flag that takes every text has the value
    of the first source that has one: the command line, where the last setting
    counts, the environment with the prefix RBE_, then with FLAG_, the configuration
    file, and its default.  The file is the one that the same rule gives the flag
    cfg, and none when that is empty. *)
Theorem Parse_precedence set_value isBool order env readFile args st st' :
  (∀ m, order m ≡ₚ map_to_list m) → plain set_value "cfg" → parsed st = false → actual st = ∅ →
  Parse set_value isBool order env readFile args st = Ok st' →
  let value := flag_value isBool args env in
  ∃ cfg, (if (value ∅ "cfg" "" =? "")%string then cfg = ∅ else parseFromFile readFile (value ∅ "cfg" "") = Ok cfg) ∧
    ∀ n d, plain set_value n → values st !! n = Some d → values st' !! n = Some (value cfg n d).
Proof.
  intros Ho Hc Hnp Ha. unfold Parse. rewrite Hnp. unfold define. destruct (values st !! "cfg") eqn:Ed; [done|].
  rewrite bind_Ok. intros (st2 & E2 & E)%bind_Ok_inv. set (value := flag_value isBool args env). set (st0 := with_value "cfg" "" st) in *.
  assert (∀ n d, plain set_value n → values st0 !! n = Some d →
    let e := found_in n (assigned isBool args) in
    reads n (value ∅ n d) (match e with Some _ => true | None => match env_value env n with Some _ => true | None => false end end) st2) as H.
  { intros n d Hp Hd e.
    pose proof (ParseFromEnv_reads set_value env n d false st0 Hp) as He.
    eapply parse_args_reads in E2; [|done|done|apply He; split; [done|simpl; by rewrite Ha]].
    unfold value, flag_value, first_of, env_value in *. subst e. simpl.
    destruct (found_in n _), (env !! ("RBE_" +:+ n)), (env !! ("FLAG_" +:+ n)); exact E2. }
  assert (values st2 !! "cfg" = Some (value ∅ "cfg" "")) as Ec by (apply H; [done|]; apply lookup_insert_eq).
  rewrite Ec in E. simpl in E.
  assert (∀ n d, values st !! n = Some d → values st0 !! n = Some d) as Hd0.
  { intros n d Hn. simpl. rewrite lookup_insert_ne; [done|]. intros <-. congruence. }
  destruct (_ =? "")%string eqn:Ee.
  { injection E as <-. exists ∅. split; [done|]. intros n d Hp Hn. by apply H; [|apply Hd0]. }
  destruct (parseFromFile _ _) as [cfg|e|] eqn:Ep; [|done..]. injection E as <-. exists cfg. split; [done|].
  intros n d Hp Hn. destruct (set_config_reads set_value order cfg n _ _ st2 Ho Hp (H n d Hp (Hd0 n d Hn))) as [Hv _].
  rewrite Hv. f_equal. unfold value, flag_value, first_of, env_value. simpl. 
  destruct (found_in n _), (env !! ("RBE_" +:+ n)), (env !! ("FLAG_" +:+ n)), (cfg !! n); done.
Qed.

(** *** Written files *)

(** A name and a value that a line of a file can hold. *)
Definition writable (kv : string * string) : Prop :=
  str_forallb (λ a, negb (rgx a)) kv.1 = true ∧ HasPrefix kv.1 "-" = false ∧ HasPrefix kv.1 "#" = false ∧
  contains_char "010" (kv.1 +:+ "=" +:+ kv.2) = false ∧ HasSuffix (kv.1 +:+ "=" +:+ kv.2) (String "013" "") = false ∧
  TrimSpace (kv.1 +:+ "=" +:+ kv.2) = kv.1 +:+ "=" +:+ kv.2.

Definition config_text (l : list (string * string)) : string :=
  Join ((λ kv, kv.1 +:+ "=" +:+ kv.2) <$> l) (String "010" "") +:+ String "010" "".

Lemma split_first_app f s a t :
  str_forallb (λ a, negb (f a)) s = true → f a = true → split_first f (s +:+ String a t) = (s, Some t).
Proof.
  induction s as [|b s IH]; [change ("" +:+ String a t) with (String a t); simpl; by intros _ ->|].
  rewrite str_app_cons. simpl. intros [Hb Hs]%andb_true_iff Ha. apply negb_true_iff in Hb as ->. by rewrite IH.
Qed.

Lemma config_line_written m kv :
  writable kv → config_line m (kv.1 +:+ "=" +:+ kv.2) = <[kv.1 := kv.2]> m.
Proof.
  destruct kv as [k v]. intros (Hk & Hd & Hh & _ & _ & Ht). cbn [fst snd] in *. unfold config_line. rewrite Ht.
  assert ((k +:+ "=" +:+ v =? "")%string = false) as -> by (by destruct k).
  assert (HasPrefix (k +:+ "=" +:+ v) "#" = false) as -> by (destruct k; [done|]; by rewrite str_app_cons in *).
  cbn [orb]. change ("=" +:+ v) with (String "=" v). rewrite split_first_app; [|done|by vm_compute].
  unfold TrimPrefix. rewrite Hd. cbn [default]. by rewrite Hd.
Qed.

Lemma text_lines_written ls :
  ls ≠ [] → Forall (λ l, contains_char "010" l = false ∧ HasSuffix l (String "013" "") = false) ls →
  InputProcessor.text_lines (Join ls (String "010" "") +:+ String "010" "") = ls.
Proof.
  intros Hne Hl. unfold InputProcessor.text_lines. rewrite Split_app.
  rewrite Split_Join; [|done|eapply Forall_impl; [done|by intros ? []]].
  cbn [Split]. rewrite last_snoc. cbn [default]. rewrite String.eqb_refl, removelast_last.
  clear Hne. induction Hl as [|l ls [_ H] _ IH]; [done|]. csimpl. rewrite IH. f_equal.
  unfold InputProcessor.drop_cr, TrimSuffix. by rewrite H.
Qed.

(** A file of settings is read back as they were written, the last setting of a
    name counts. *)
Theorem parseFromFile_written readFile cfg l :
  l ≠ [] → Forall writable l → readFile cfg = Ok (config_text l) →
  parseFromFile readFile cfg = Ok (foldl (λ m kv, <[kv.1 := kv.2]> m) ∅ l).
Proof.
  intros Hne Hl Hr. unfold parseFromFile. rewrite Hr, bind_Ok. f_equal. unfold config_text.
  rewrite text_lines_written; [|by destruct l|].
  - clear Hr Hne. generalize (∅ : gmap string string) as m. induction Hl as [|kv l H _ IH]; intros m; [done|].
    csimpl. rewrite config_line_written by done. apply IH.
  - rewrite Forall_fmap. eapply Forall_impl; [done|]. by intros kv (_ & _ & _ & H1 & H2 & _).
Qed.

(** ** Examples *)

Module Concrete.

(** Three kinds of flags: a refused text leaves [false] and zero behind. *)
Definition set_value (n v old : string) : string * bool :=
  if (n =? "verbose")%string then
    match ParseBool v with Ok true => ("true", true) | Ok false => ("false", true) | _ => ("false", false) end
  else if (n =? "jobs")%string then match ParseInt v 10 64 with Ok z => (Itoa z, true) | _ => ("0", false) end
  else (v, true).

Definition isBool (n : string) : bool := (n =? "verbose")%string.

Definition defaults : flagset :=
  {| values := {["verbose" := "true"; "jobs" := "8"; "service" := ""; "labels" := ""]}; actual := ∅;
     parsed := false; fs_args := [] |}.

Definition file : string := config_text
  [("# comment", ""); ("--service", "file:443"); ("-jobs", "4"); ("labels", "type=tool"); ("nosuch", "1")].

Definition readFile (p : string) : res string := if (p =? "rbe.cfg")%string then Ok file else Fail ENotExist.

Definition parse (env : list (string * string)) (args : list string) : res (list (string * string) * list string) :=
  let? st := Parse set_value isBool map_to_list (list_to_map env) readFile args defaults in
  Ok ((λ n, (n, default "" (values st !! n))) <$> ["verbose"; "jobs"; "service"; "labels"], fs_args st).

Example sources :
  parse [("RBE_cfg", "rbe.cfg"); ("FLAG_jobs", "2"); ("RBE_jobs", "3"); ("FLAG_labels", "type=env")]
    ["--service=line"; "-verbose"; "--"; "-x"] =
  Ok ([("verbose", "true"); ("jobs", "3"); ("service", "line"); ("labels", "type=env")], ["-x"]).
Proof. vm_compute. reflexivity. Qed.

Example from_file :
  parse [] ["-cfg"; "rbe.cfg"; "-verbose=0"; "arg"; "-jobs=9"] =
  Ok ([("verbose", "false"); ("jobs", "4"); ("service", "file:443"); ("labels", "type=tool")], ["arg"; "-jobs=9"]).
Proof. vm_compute. reflexivity. Qed.

(** A text in the environment that a flag refuses is not reported and takes the
    default away. *)
Example refused_in_environment :
  parse [("RBE_jobs", "many"); ("FLAG_jobs", "2"); ("RBE_verbose", "maybe")] [] =
  Ok ([("verbose", "false"); ("jobs", "0"); ("service", ""); ("labels", "")], []).
Proof. vm_compute. reflexivity. Qed.

(** With spaces around the sign, the sign is part of the value. *)
Example spaces_around :
  (λ m : gmap string string, m !! "service") <$> parseFromFile (λ _, Ok ("service = host" +:+ String "010" "verbose")) "f" =
  Ok (Some "= host").
Proof. vm_compute. reflexivity. Qed.

Example no_file : parse [] ["--cfg=other"] = Fail (EWrap "failed reading config file" ENotExist).
Proof. vm_compute. reflexivity. Qed.

Definition run : res flagset :=
  Parse set_value isBool map_to_list {["RBE_cfg" := "rbe.cfg"]} readFile ["-service=a"] defaults.

Definition result : flagset := Eval vm_compute in match run with Ok st => st | _ => defaults end.

Example run_Ok : run = Ok result.
Proof. vm_compute. reflexivity. Qed.

End Concrete.

Lemma Parse_precedence_witness : values Concrete.result !! "service" = Some "a".
Proof.
  destruct (Parse_precedence Concrete.set_value Concrete.isBool map_to_list {["RBE_cfg" := "rbe.cfg"]} Concrete.readFile
    ["-service=a"] Concrete.defaults Concrete.result) as (cfg & _ & H);
    [done|done|reflexivity|reflexivity|exact Concrete.run_Ok|].
  rewrite (H "service" ""); [reflexivity|done|vm_compute; reflexivity].
Defined.

End RbeFlags.
