(* ===== verification/PathNormalizer.v ===== *)
(** * Paths on a case-insensitive file system:
      [internal/pkg/inputprocessor/fs_case_insensitive.go]

    On such a file system one file has many names; the inputs are given the
    names that the disk keeps. *)
From S2P Require Import Prelude GoStrings GoPath.
From Stdlib Require Import Ascii.
Import Filepath.

Module PathNormalizer.

(** ** The disk

    The paths below the exec root as they are kept, each as the names of its
    elements; names that differ in case only are the same. *)
Definition disk : Type := list (list string).

Definition fold (p : list string) : list string := ToLower <$> p.

(** The kept path of the file that [p] names. *)
Definition stat (d : disk) (p : list string) : option (list string) :=
  match p with [] => Some [] | _ => List.find (λ c, bool_decide (fold c = fold p)) d end.

(** The elements of a relative path. *)
Definition elements (p : string) : list string := if (p =? "")%string then [] else Split p slash.

(** An entry of a directory: its name and the file it is. *)
Definition entry : Type := string * list string.

Definition entry_of (c p : list string) : option entry :=
  match last p with
  | Some n => if bool_decide (p = c ++ [n]) then Some (n, p) else None
  | None => None
  end.

(** What the global cache gives for a directory: its entries, none if it cannot
    be read. *)
Definition dirCache_get (d : disk) (dir : string) : list entry :=
  match stat d (elements dir) with
  | Some c => omap (entry_of c) d
  | None => []
  end.

(** ** The normalizer of a native build *)

Record pathNormalizerNative := { m : gmap string string; dirs : gmap string (list entry) }.

Definition new_native : pathNormalizerNative := {| m := ∅; dirs := ∅ |}.

(** The names of a directory are known by the path that leads to them. *)
Definition populate (dir : string) (de : list entry) (mm : gmap string string) : gmap string string :=
  foldl (λ mm (ent : entry), <[Join [dir; ent.1] := ent.1]> mm) mm de.

Definition not_there : error := EMsg "stat: no such file or directory".

(** One element of a path: [dir] is what comes before it, [pathname] what it
    leads to.  A directory is stored under [pathname], while it is looked for
    under its absolute path. *)
Definition normalize_seg (d : disk) (execRoot : string) (dir seg pathname : string) (p : pathNormalizerNative) :
    res string * pathNormalizerNative :=
  match m p !! pathname with
  | Some s => (Ok s, p)
  | None =>
      let absDir := Join [execRoot; dir] in
      let '(de, p) :=
        match dirs p !! absDir with
        | Some de => (de, p)
        | None =>
            let de := dirCache_get d dir in
            (de, {| m := populate dir de (m p); dirs := <[pathname := de]> (dirs p) |})
        end in
      match m p !! pathname with
      | Some s => (Ok s, p)
      | None =>
          match stat d (elements pathname) with
          | None => (Fail not_there, p)
          | Some fi =>
              match List.find (λ ent : entry, bool_decide (ent.2 = fi)) de with
              | Some ent => (Ok ent.1, {| m := <[pathname := ent.1]> (m p); dirs := dirs p |})
              | None => (Ok seg, p)
              end
          end
      end
  end.

(** The elements that are left, after [dir], with those found before. *)
Fixpoint normalize_segs (d : disk) (execRoot : string) (dir : string) (segs nsegs : list string) (p : pathNormalizerNative) :
    res string * pathNormalizerNative :=
  match segs with
  | [] => (Ok (Join nsegs), p)
  | seg :: segs =>
      if (seg =? "")%string then normalize_segs d execRoot dir segs nsegs p
      else
        let pathname := (if (dir =? "")%string then "" else dir +:+ "/") +:+ seg in
        match normalize_seg d execRoot dir seg pathname p with
        | (Ok s, p) => normalize_segs d execRoot pathname segs (nsegs ++ [s]) p
        | (Fail e, p) => (Fail e, p)
        | (Panic, p) => (Panic, p)
        end
  end.

Definition normalize (d : disk) (execRoot pathname : string) (p : pathNormalizerNative) : res string * pathNormalizerNative :=
  normalize_segs d execRoot "" (Split (Clean pathname) slash) [] p.

(** ** The normalizer of a cross build *)

(** The first spelling of a directory is used for all others. *)
Definition normalize_cross (d : disk) (pathname : string) (dirs : gmap string string) : (string * option error) * gmap string string :=
  let f := TrimLeft (Clean pathname) "/" in
  match stat d (elements f) with
  | None => ((f, Some not_there), dirs)
  | Some _ =>
      let s := Split f slash in
      let dir := GoStrings.Join (removelast s) "/" +:+ (if (length s <=? 1)%nat then "" else "/") in
      let base := List.last s "" in
      let key := ToLower dir in
      match dirs !! key with
      | Some dir => ((Join [dir; base], None), dirs)
      | None => ((Join [dir; base], None), <[key := dir]> dirs)
      end
  end.

(** ** The names of the disk *)

(** Paths as they are written. *)
Definition J (ws : list string) : string := GoStrings.Join ws "/".

(** A disk: proper names, one for each file, and the directories of all. *)
Record wf (d : disk) : Prop := {
  wf_proper : ∀ c, c ∈ d → c ≠ [] ∧ Forall proper c;
  wf_one : ∀ c1 c2, c1 ∈ d → c2 ∈ d → fold c1 = fold c2 → c1 = c2;
  wf_dirs : ∀ c n, c ++ [n] ∈ d → c = [] ∨ c ∈ d
}.

Lemma J_inj ws1 ws2 : ws1 ≠ [] → ws2 ≠ [] → Forall proper ws1 → Forall proper ws2 → J ws1 = J ws2 → ws1 = ws2.
Proof.
  intros H1 H2 P1 P2 E. apply (f_equal (λ s, Split s slash)) in E. unfold J in E.
  by rewrite !Split_Join in E by (done || by apply proper_no_slash).
Qed.

Lemma elements_J ws : Forall proper ws → elements (J ws) = ws.
Proof.
  intros H. destruct ws as [|w ws]; [done|]. unfold elements.
  assert (J (w :: ws) ≠ "") as Hne.
  { unfold J. apply Forall_cons in H as [(Hw & _) _]. destruct ws; [done|]. rewrite Join_cons by done.
    destruct w; [done|]. by rewrite str_app_cons. }
  apply String.eqb_neq in Hne as ->. apply Split_Join; [done|by apply proper_no_slash].
Qed.

Lemma J_snoc ws x : Forall proper ws → (if (J ws =? "")%string then "" else J ws +:+ "/") +:+ x = J (ws ++ [x]).
Proof.
  intros H. destruct ws as [|w ws]; [done|]. assert (J (w :: ws) ≠ "") as Hne.
  { intros E. pose proof (elements_J _ H) as H2. by rewrite E in H2. }
  apply String.eqb_neq in Hne as ->. unfold J. by rewrite Join_app, str_app_assoc.
Qed.

Lemma Join_J ws x : Forall proper (ws ++ [x]) → Join [J ws; x] = J (ws ++ [x]).
Proof.
  intros H. destruct ws as [|w ws].
  - change (J []) with "". apply (Join_proper [x]); [done|exact H].
  - pose proof H as [Hws _]%Forall_app. assert (J (w :: ws) ≠ "") as Hne.
    { intros E. pose proof (elements_J _ Hws) as H2. by rewrite E in H2. }
    rewrite Join2 by done. rewrite <- str_app_assoc. pose proof (J_snoc (w :: ws) x Hws) as E.
    apply String.eqb_neq in Hne. rewrite Hne in E. rewrite E. unfold Clean, J. rewrite parse_Join_proper; [done|by destruct ws|done].
Qed.

Section kept.

Context (d : disk) (Hd : wf d).

Lemma stat_Some p c : stat d p = Some c → fold c = fold p ∧ (p = [] ∨ c ∈ d).
Proof using Type.
  destruct p as [|x p]; [intros [= <-]; split; [done|by left]|]. simpl. intros [Hin E]%List.find_some.
  apply bool_decide_eq_true in E. split; [done|right; by apply list_elem_of_In].
Qed.

Lemma stat_kept p c : (c = [] ∨ c ∈ d) → fold c = fold p → stat d p = Some c.
Proof.
  intros Hc E. destruct p as [|x p]; [by destruct c|]. simpl. destruct (List.find _ d) as [c'|] eqn:Ef.
  - apply List.find_some in Ef as [Hin E']. apply bool_decide_eq_true in E'. apply list_elem_of_In in Hin.
    destruct Hc as [->|Hc]; [done|]. f_equal. apply (wf_one d Hd); [done..|by rewrite E', E].
  - destruct Hc as [->|Hc]; [done|]. apply list_elem_of_In in Hc. apply (List.find_none _ _ Ef) in Hc. by apply bool_decide_eq_false in Hc.
Qed.

Lemma stat_snoc p x c : stat d (p ++ [x]) = Some c → ∃ c' n, c = c' ++ [n] ∧ c ∈ d ∧ stat d p = Some c' ∧ proper n.
Proof.
  intros H. destruct (stat_Some _ _ H) as [E [E0|Hc]]; [by destruct p|].
  unfold fold in E. rewrite fmap_app in E. destruct (exists_last (l := c)) as (c' & n & ->); [intros ->; by destruct p|].
  exists c', n. rewrite fmap_app in E. apply app_inj_2 in E as [E1 E2]; [|done]. destruct (wf_proper d Hd _ Hc) as [_ Hp].
  apply Forall_app in Hp as [_ Hp]. apply Forall_cons in Hp as [Hp _]. split_and!; try done.
  apply stat_kept; [|done]. by apply (wf_dirs d Hd c' n).
Qed.

Lemma stat_prefix p q c : stat d (p ++ q) = Some c → ∃ c', stat d p = Some c'.
Proof.
  revert c. induction q as [|x q IH] using rev_ind; intros c; [rewrite app_nil_r; by exists c|].
  rewrite app_assoc. intros (c' & n & _ & _ & H & _)%stat_snoc. by eapply IH.
Qed.

(** What is known of names is true. *)
Definition known (mm : gmap string string) : Prop :=
  ∀ k n, mm !! k = Some n → ∃ ws c, ws ≠ [] ∧ Forall proper ws ∧ k = J ws ∧ stat d ws = Some (c ++ [n]).

Lemma known_at mm ws s c n :
  known mm → ws ≠ [] → Forall proper ws → mm !! J ws = Some s → stat d ws = Some (c ++ [n]) → s = n.
Proof using Type.
  intros Hk Hne Hp Hs Hc. destruct (Hk _ _ Hs) as (ws' & c' & Hne' & Hp' & E & Hc'). apply J_inj in E as ->; [|done..].
  rewrite Hc in Hc'. injection Hc' as E. by apply app_inj_2 in E as [_ [= ->]].
Qed.

Lemma known_insert mm ws c n : known mm → ws ≠ [] → Forall proper ws → stat d ws = Some (c ++ [n]) → known (<[J ws := n]> mm).
Proof using Type.
  intros Hk Hne Hp Hc k n' [[<- <-]|[_ H]]%lookup_insert_Some; [by exists ws, c|by apply Hk].
Qed.

Lemma entry_of_Some c p n q : entry_of c p = Some (n, q) ↔ q = p ∧ p = c ++ [n].
Proof using Type.
  unfold entry_of. split.
  - destruct (last p) as [n0|] eqn:El; [|done]. case_bool_decide as E; [|done]. by intros [= <- <-].
  - intros [-> ->]. rewrite last_snoc. by rewrite bool_decide_true.
Qed.

Lemma dirCache_entries ws c ent :
  Forall proper ws → stat d ws = Some c → ent ∈ dirCache_get d (J ws) ↔ ent.2 = c ++ [ent.1] ∧ ent.2 ∈ d.
Proof using Type.
  intros Hws Hc. unfold dirCache_get. rewrite elements_J, Hc by done. destruct ent as [n q]. rewrite list_elem_of_omap. split.
  - intros (p & Hp & [-> ->]%entry_of_Some). done.
  - cbn [fst snd]. intros [-> Hin]. exists (c ++ [n]). split; [done|by apply entry_of_Some].
Qed.

Lemma populate_known ws mm : Forall proper ws → known mm → known (populate (J ws) (dirCache_get d (J ws)) mm).
Proof.
  intros Hws Hk. destruct (stat d ws) as [c|] eqn:Hc; [|unfold dirCache_get; by rewrite elements_J, Hc].
  assert (∀ ent, ent ∈ dirCache_get d (J ws) → ent.2 = c ++ [ent.1] ∧ ent.2 ∈ d) as He by (intros ent; by apply dirCache_entries).
  revert He mm Hk. generalize (dirCache_get d (J ws)) as de. induction de as [|[n q] de IH]; intros He mm Hk; [done|].
  cbn [populate foldl]. apply IH; [intros ent H; apply He; by right|]. destruct (He (n, q) ltac:(by left)) as [E Hin]. simpl in E, Hin.
  subst q. destruct (wf_proper d Hd _ Hin) as [_ Hp]. apply Forall_app in Hp as [_ Hp].
  cbn [fst]. assert (Forall proper (ws ++ [n])) as Hn by (by apply Forall_app). rewrite Join_J by done.
  apply known_insert with c; [done|by destruct ws|done|]. apply stat_kept; [by right|].
  unfold fold. rewrite !fmap_app. f_equal. by apply stat_Some in Hc as [? _].
Qed.

Definition good (p : pathNormalizerNative) : Prop := known (m p) ∧ ∀ k v, dirs p !! k = Some v → IsAbs k = false.

Context (execRoot : string) (Hroot : IsAbs execRoot = true).

Lemma IsAbs_J ws : Forall proper ws → IsAbs (J ws) = false.
Proof using Type. intros H. apply IsAbs_Join_words. eapply Forall_impl; [exact H|]. by intros c (? & _ & _ & ?). Qed.

(** One element of a path gets the name that the disk keeps. *)
Lemma normalize_seg_kept ws x c n p :
  Forall proper (ws ++ [x]) → good p → stat d ws = Some c → stat d (ws ++ [x]) = Some (c ++ [n]) →
  ∃ p', normalize_seg d execRoot (J ws) x (J (ws ++ [x])) p = (Ok n, p') ∧ good p'.
Proof.
  intros Hp [Hk Hdirs] Hc Hcn. assert (ws ++ [x] ≠ []) as Hne by (by destruct ws). pose proof Hp as [Hws _]%Forall_app.
  unfold normalize_seg. destruct (m p !! J (ws ++ [x])) as [s|] eqn:E1.
  { exists p. split; [|done]. by rewrite (known_at _ _ _ _ _ Hk Hne Hp E1 Hcn). }
  destruct (dirs p !! Join [execRoot; J ws]) as [v|] eqn:E2.
  { apply Hdirs in E2. by rewrite IsAbs_Join2 in E2. }
  assert (known (populate (J ws) (dirCache_get d (J ws)) (m p))) as Hk' by (by apply populate_known).
  assert (∀ k v, <[J (ws ++ [x]) := dirCache_get d (J ws)]> (dirs p) !! k = Some v → IsAbs k = false) as Hdirs'.
  { intros k v [[<- _]|[_ H]]%lookup_insert_Some; [by apply IsAbs_J|by eapply Hdirs]. }
  cbn [m dirs]. destruct (populate _ _ _ !! J (ws ++ [x])) as [s|] eqn:E3.
  { assert (s = n) as -> by (by eapply known_at). eexists. split; [reflexivity|]. by split. }
  rewrite elements_J, Hcn by done. destruct (stat_Some _ _ Hcn) as [_ [H0|Hin]]; [done|].
  destruct (List.find _ _) as [ent|] eqn:E4.
  - apply List.find_some in E4 as [H4 E4%bool_decide_eq_true]. apply list_elem_of_In, (dirCache_entries ws c) in H4 as [H4 _]; [|done..].
    rewrite H4 in E4. apply app_inj_2 in E4 as [_ [= E4]]; [|done]. rewrite E4.
    eexists. split; [reflexivity|]. split; [by apply known_insert with c|exact Hdirs'].
  - assert (In (n, c ++ [n]) (dirCache_get d (J ws))) as H by (apply list_elem_of_In, (dirCache_entries ws c); done).
    apply (List.find_none _ _ E4) in H. by apply bool_decide_eq_false in H.
Qed.

Lemma normalize_segs_kept rest ws c cs p :
  Forall proper (ws ++ rest) → good p → stat d ws = Some c → stat d (ws ++ rest) = Some cs →
  ∃ p', normalize_segs d execRoot (J ws) rest c p = (Ok (Join cs), p') ∧ good p'.
Proof.
  revert ws c p. induction rest as [|x rest IH]; intros ws c p Hp Hg Hc Hcs.
  - rewrite app_nil_r in Hcs. rewrite Hc in Hcs. injection Hcs as ->. by exists p.
  - cbn [normalize_segs]. pose proof Hp as [Hws Hxr]%Forall_app. pose proof Hxr as [Hx _]%Forall_cons.
    assert ((x =? "")%string = false) as -> by (apply String.eqb_neq, Hx). rewrite J_snoc by done.
    replace (ws ++ x :: rest) with ((ws ++ [x]) ++ rest) in Hp, Hcs by (by rewrite <- app_assoc).
    pose proof Hp as [Hwx _]%Forall_app. destruct (stat_prefix _ _ _ Hcs) as (c1 & Hc1). destruct (stat_snoc _ _ _ Hc1) as (c' & n & -> & _ & Hc' & _).
    rewrite Hc in Hc'. injection Hc' as <-. destruct (normalize_seg_kept ws x c n p) as (p1 & -> & Hg1); [done..|].
    by apply IH.
Qed.

End kept.

(** The paths of an action, one after the other. *)
Fixpoint normalize_all (d : disk) (execRoot : string) (paths : list string) (p : pathNormalizerNative) : list (res string) :=
  match paths with
  | [] => []
  | path :: paths => let '(r, p) := normalize d execRoot path p in r :: normalize_all d execRoot paths p
  end.

(** C34: below an absolute exec root, every path of a file that exists gets the
    name that the disk keeps, whatever was asked before: all spellings of a file
    become one. *)
Theorem normalize_all_kept d execRoot inputs :
  wf d → IsAbs execRoot = true → Forall (λ ws, ws ≠ [] ∧ Forall proper ws ∧ is_Some (stat d ws)) inputs →
  normalize_all d execRoot (J <$> inputs) new_native = (λ ws, Ok (J (default [] (stat d ws)))) <$> inputs.
Proof.
  intros Hd Hr Hi. assert (good d new_native) as Hg by (split; intros ? ? H; unfold new_native in H; cbn [m dirs] in H; by rewrite lookup_empty in H).
  revert Hg. generalize new_native as p. induction Hi as [|ws inputs (Hne & Hws & [c Hc]) _ IH]; intros p Hg; [done|].
  rewrite !fmap_cons. cbn [normalize_all]. unfold normalize.
  assert (Split (Clean (J ws)) slash = ws) as ->.
  { unfold Clean, J. rewrite parse_Join_proper by done. destruct ws as [|w ws]; [done|]; change (render (LPath false (w :: ws))) with (GoStrings.Join (w :: ws) "/"); apply Split_Join; [done|by apply proper_no_slash]. }
  destruct (normalize_segs_kept d Hd execRoot Hr ws [] [] c p) as (p' & E & Hg'); [done..|].
  change "" with (J []). rewrite E, Hc. cbn [default]. f_equal; [|by apply IH]. f_equal.
  destruct (stat_Some d _ _ Hc) as [_ [->|Hin]]; [done|]. destruct (wf_proper d Hd _ Hin). by apply Join_proper.
Qed.

(** ** On a concrete disk *)

Module Concrete.

Definition d : disk := [["Inc"]; ["Inc"; "Foo.h"]; ["Inc"; "bar.h"]; ["src"]; ["src"; "a.cc"]].
Definition on (execRoot : string) (paths : list string) : list (res string) := normalize_all d execRoot paths new_native.

Example spellings :
  on "/r" ["inc/foo.H"; "INC/FOO.H"; "inc//foo.h"; "src/A.cc"; "inc/none.h"] =
  [Ok "Inc/Foo.h"; Ok "Inc/Foo.h"; Ok "Inc/Foo.h"; Ok "src/a.cc"; Fail not_there].
Proof. vm_compute. reflexivity. Qed.

(** A directory is kept under the path of the element and looked for under that
    of the directory: with an empty exec root the entries of the wrong directory
    are used, and the names stay as they were given. *)
Example empty_root : on "" ["inc/foo.h"] = [Ok "Inc/foo.h"].
Proof. vm_compute. reflexivity. Qed.

Example cross :
  let '(r1, dirs) := normalize_cross d "inc/foo.h" ∅ in
  let '(r2, dirs) := normalize_cross d "Inc/bar.h" dirs in
  r1.1 = "inc/foo.h" ∧ r2.1 = "inc/bar.h" ∧ (normalize_cross d "INC/FOO.h" dirs).1.1 = "inc/FOO.h".
Proof. vm_compute. split_and!; reflexivity. Qed.

Lemma d_wf : wf d.
Proof.
  split.
  - intros c Hc. unfold d in Hc. repeat (apply elem_of_cons in Hc as [->|Hc]; [split; [done|by apply (bool_decide_unpack _); vm_compute]|]).
    by apply elem_of_nil in Hc.
  - intros c1 c2 H1 H2. unfold d in H1, H2.
    repeat (apply elem_of_cons in H1 as [->|H1]); [..|by apply elem_of_nil in H1];
      (repeat (apply elem_of_cons in H2 as [->|H2]); [..|by apply elem_of_nil in H2]); vm_compute; congruence.
  - intros c n H. unfold d in *. repeat (apply elem_of_cons in H as [H|H]; [|]); [..|by apply elem_of_nil in H];
      destruct c as [|x [|y [|z c]]]; simplify_eq/=; try (by left); right; set_solver.
Qed.

End Concrete.

Lemma normalize_all_kept_witness :
  normalize_all Concrete.d "/r" ["inc/foo.H"; "SRC/A.cc"; "INC/FOO.H"] new_native = [Ok "Inc/Foo.h"; Ok "src/a.cc"; Ok "Inc/Foo.h"].
Proof.
  etransitivity; [apply (normalize_all_kept Concrete.d "/r" [["inc"; "foo.H"]; ["SRC"; "A.cc"]; ["INC"; "FOO.H"]])|].
  - exact Concrete.d_wf.
  - reflexivity.
  - repeat constructor; try done; vm_compute; by eexists.
  - vm_compute. reflexivity.
Defined.

End PathNormalizer.
