(* ===== verification/ArReader.v ===== *)
(** * The archive reader of [internal/pkg/inputprocessor/action/clanglink]
    ([ar_reader.go])

    The reader is an offset into the content of the archive file.  A read past
    the end, a header that does not parse, a slice out of range and a loop that
    never ends are all results of the model. *)
From S2P Require Import Prelude GoStrings GoPath GoFS.
From Stdlib Require Import Ascii.

Module ArReader.

Definition newline : string := String "010" "".
Definition arFileSignature : string := "!<arch>" +:+ newline.
Definition thinFileSignature : string := "!<thin>" +:+ newline.
Definition bsdFilenamePrefix : string := "#1/".
Definition gnuExtendedFilename : string := "//".
Definition fileSignatureLen : Z := Z.of_nat (String.length arFileSignature).
Definition headerSize : Z := 60.

Record header := { Name : string; FileSize : Z }.

Record arReader := {
  thinFilePrefix : string;
  thin : bool;
  path : string;
  content : string
}.

(** ** The reader

    The state is the offset of the open file. *)

Definition slice (s : string) (i n : nat) : string := str_take n (str_drop i s).

(** [make([]byte, length)] panics for a negative length; [io.ReadFull] tells an
    empty read from a short one. *)
Definition readFullBytes (ar : arReader) (length : Z) : ST Z string := λ pos,
  if (length <? 0)%Z then (Panic, pos)
  else if (length =? 0)%Z then (Ok "", pos)
  else
    let len := Z.of_nat (String.length (content ar)) in
    if (len <=? pos)%Z then (Fail EEOF, pos)
    else if (len <? pos + length)%Z then (Fail EUnexpectedEOF, len)
    else (Ok (slice (content ar) (Z.to_nat pos) (Z.to_nat length)), (pos + length)%Z).

(** Seeking past the end of a file is allowed, before its start is not. *)
Definition skipBytes (length : Z) : ST Z unit := λ pos,
  if (pos + length <? 0)%Z then (Fail (EMsg "invalid argument"), pos) else (Ok tt, (pos + length)%Z).

Definition resetOffsetToContentStart : ST Z unit := λ _, (Ok tt, fileSignatureLen).

Definition readHeader (ar : arReader) : ST Z header :=
  let! headerBuf := readFullBytes ar headerSize in
  let! fs := st_lift (ParseInt (TrimSpace (slice headerBuf 48 10)) 10 64) in
  st_ret {| Name := TrimSpace (slice headerBuf 0 16); FileSize := fs |}.

Definition newArReader (w : fs) (arPath prefix : string) : res (arReader * Z) :=
  let? content := OS.ReadFile w arPath in
  let ar b := {| thinFilePrefix := prefix; thin := b; path := arPath; content := content |} in
  let? (sig, pos) :=
    match readFullBytes (ar false) fileSignatureLen 0%Z with
    | (Ok sig, pos) => Ok (sig, pos)
    | (Fail e, _) => Fail e
    | (Panic, _) => Panic
    end in
  if negb (sig =? arFileSignature)%string && negb (sig =? thinFileSignature)%string
  then Fail (EMsg "file format not recognized")
  else Ok (ar (sig =? thinFileSignature)%string, pos).

(** [fmt.Errorf("%v: malformed archive: %w", ar.path, err)] *)
Definition or_malformed {A} (m : ST Z A) : ST Z A := λ pos,
  match m pos with
  | (Fail e, pos) => (Fail (EWrap "malformed archive" e), pos)
  | r => r
  end.

(** ** The names of the members *)

(** The name that starts at [offset] of the table and ends before a slash; the
    index runs off the table when there is none. *)
Fixpoint until_slash (s : string) : option string :=
  match s with
  | EmptyString => None
  | String a s' => if Ascii.eqb a "/" then Some "" else String a <$> until_slash s'
  end.

Definition gnu_name (gnuFilenames : string) (offset : Z) : res string :=
  if (offset <? 0)%Z then Panic
  else or_panic (until_slash (str_drop (Z.to_nat offset) gnuFilenames)).

(** [d[:size]] *)
Definition bsd_name (d : string) (size : Z) : res string :=
  if ((size <? 0) || (Z.of_nat (String.length d) <? size))%Z then Panic
  else Ok (str_take (Z.to_nat size) d).

(** The variables of the loop of [ReadFileNames]. *)
Record names := {
  files : list string;
  gnuFilenames : string;
  thinFiles : list string;
  next : nat
}.

Definition no_names : names := {| files := []; gnuFilenames := ""; thinFiles := []; next := 0 |}.

Definition add_file (n : names) (f : string) : names :=
  {| files := files n ++ [f]; gnuFilenames := gnuFilenames n; thinFiles := thinFiles n; next := next n |}.

(** One round of the loop, after the header [h] was read. *)
Definition read_member (ar : arReader) (n : names) (h : header) : ST Z names :=
  if (Name h =? gnuExtendedFilename)%string then
    let! d := or_malformed (readFullBytes ar (FileSize h)) in
    st_ret {| files := files n; gnuFilenames := d; thinFiles := Split d "010"; next := 0 |}
  else if (Name h =? "/")%string then
    let! _ := or_malformed (skipBytes (FileSize h)) in st_ret n
  else if HasPrefix (Name h) "/" then
    if thin ar then
      let! t := st_lift (index (thinFiles n) (next n)) in
      st_ret {| files := files n ++ [Filepath.Join [thinFilePrefix ar; t]]; gnuFilenames := gnuFilenames n;
                thinFiles := thinFiles n; next := next n + 1 |}
    else
      let! offset := st_lift (ParseInt (TrimLeft (Name h) "/") 10 64) in
      let! fn := st_lift (gnu_name (gnuFilenames n) offset) in
      let! _ := or_malformed (skipBytes (FileSize h)) in
      st_ret (add_file n fn)
  else if HasPrefix (Name h) bsdFilenamePrefix then
    let! d := or_malformed (readFullBytes ar (FileSize h)) in
    let! size := st_lift (ParseInt (TrimLeft (Name h) bsdFilenamePrefix) 10 64) in
    let! fn := st_lift (bsd_name d size) in
    st_ret (add_file n fn)
  else
    let! _ := or_malformed (skipBytes (FileSize h)) in
    st_ret (add_file n (Name h)).

(** The loop ends at an [io.EOF] of [readHeader]. *)
Fixpoint read_loop (fuel : nat) (ar : arReader) (n : names) : ST Z names := λ pos,
  match fuel with
  | 0 => (Fail EFuel, pos)
  | S fuel =>
      match readHeader ar pos with
      | (Fail EEOF, pos) => (Ok n, pos)
      | (Fail e, pos) => (Fail e, pos)
      | (Panic, pos) => (Panic, pos)
      | (Ok h, pos) => (let! n := read_member ar n h in read_loop fuel ar n) pos
      end
  end.

Definition ReadFileNames (fuel : nat) (ar : arReader) : ST Z (list string) :=
  let! n := read_loop fuel ar no_names in
  let! _ := resetOffsetToContentStart in
  st_ret (files n).

(** A header consumes sixty bytes and no member of a file that the reader can
    finish gives any back: this many rounds are enough. *)
Definition archive_fuel (ar : arReader) : nat := S (String.length (content ar)).

(** [readArchive] of [flagsparser.go]; closing the file cannot be observed. *)
Definition readArchive (fuel : arReader → nat) (w : fs) (arPath archive : string) : res (list string) :=
  let? (ar, pos) := newArReader w arPath (Filepath.Dir archive) in
  (ReadFileNames (fuel ar) ar pos).1.

(** ** Archives as [ar] writes them

    A GNU archive is a symbol table, a table of long names and the members; the
    names of the BSD members come before their contents. *)

Fixpoint spaces (n : nat) : string :=
  match n with O => "" | S n => String " " (spaces n) end.

Definition pad (n : nat) (s : string) : string := s +:+ spaces (n - String.length s).

(** Name, then modification time, owner, group and mode, then size. *)
Definition encode_header (name : string) (size : nat) : string :=
  pad 16 name +:+ (pad 32 "0           0     0     644" +:+ (pad 10 (Itoa (Z.of_nat size)) +:+ ("`" +:+ newline))).

Definition encode_member (name data : string) : string :=
  encode_header name (String.length data) +:+ data.

(** A member of the archive, by the way its name is stored. *)
Inductive entry :=
  | Short (name data : string)
  | Long (name data : string)
  | Bsd (name data : string).

Definition entry_name (e : entry) : string :=
  match e with Short n _ | Long n _ | Bsd n _ => n end.

(** The table of the long names, and the offset of each of them. *)
Fixpoint long_names (es : list entry) : string :=
  match es with
  | [] => ""
  | Long n _ :: es => n +:+ ("/" +:+ (newline +:+ long_names es))
  | _ :: es => long_names es
  end.

Fixpoint encode_entries (offset : nat) (es : list entry) : string :=
  match es with
  | [] => ""
  | Short n d :: es => encode_member n d +:+ encode_entries offset es
  | Long n d :: es =>
      encode_member ("/" +:+ Itoa (Z.of_nat offset)) d +:+ encode_entries (offset + String.length n + 2) es
  | Bsd n d :: es =>
      encode_member ("#1/" +:+ Itoa (Z.of_nat (String.length n))) (n +:+ d) +:+ encode_entries offset es
  end.

Definition encode_archive (symtab : string) (es : list entry) : string :=
  arFileSignature +:+ (encode_member "/" symtab +:+ (encode_member "//" (long_names es) +:+ encode_entries 0 es)).

(** ** What the reader is right about

    Sizes fit their ten digits, names their sixteen characters, and contents
    have an even size: the padding byte of an odd one is not skipped.  The
    length of a BSD name does not start with a one. *)
Definition even_size (d : string) : bool :=
  Nat.even (String.length d) && (Z.of_nat (String.length d) <? 10 ^ 10)%Z.

Definition first_digit (n : nat) : string := str_take 1 (Itoa (Z.of_nat n)).

Definition entry_ok (e : entry) : bool :=
  match e with
  | Short n d =>
      (TrimSpace n =? n)%string && negb (n =? "")%string && (String.length n <=? 16)%nat &&
      negb (HasPrefix n "/") && negb (HasPrefix n "#1/") && even_size d
  | Long n d => negb (contains_char "/" n) && even_size d
  | Bsd n d =>
      negb (first_digit (String.length n) =? "1")%string && negb (n =? "")%string && even_size (n +:+ d)
  end.

Definition archive_ok (symtab : string) (es : list entry) : bool :=
  even_size symtab && even_size (long_names es) && forallb entry_ok es.

(** ** Lemmas *)

Lemma slice_mid p m q : slice (p +:+ (m +:+ q)) (String.length p) (String.length m) = m.
Proof. unfold slice. by rewrite str_drop_app, str_take_app. Qed.

Lemma slice_after p m q i n :
  String.length p = i → String.length m = n → slice (p +:+ (m +:+ q)) i n = m.
Proof. intros <- <-. apply slice_mid. Qed.

Lemma spaces_length n : String.length (spaces n) = n.
Proof. induction n; simpl; auto. Qed.

Lemma spaces_space n : str_forallb is_space (spaces n) = true.
Proof. by induction n. Qed.

Lemma pad_length n s : String.length s ≤ n → String.length (pad n s) = n.
Proof. intros H. unfold pad. rewrite str_app_length, spaces_length. lia. Qed.

Lemma TrimSpace_padded n s : TrimSpace s = s → s ≠ "" → TrimSpace (pad n s) = s.
Proof. intros. apply TrimSpace_pad; [done..|apply spaces_space]. Qed.

Lemma TrimSpace_none s : str_forallb (λ a, negb (is_space a)) s = true → TrimSpace s = s.
Proof.
  intros H. unfold TrimSpace, TrimFunc. destruct s as [|a s]; [done|].
  rewrite TrimLeftFunc_head; [by apply TrimRightFunc_none|].
  simpl in H. apply andb_true_iff in H as [H _]. by apply negb_true_iff.
Qed.

Lemma digit_not_space a : is_digit a = true → negb (is_space a) = true.
Proof.
  unfold is_digit, digit_value, is_space. intros H%bool_decide_eq_true.
  destruct ((48 <=? nat_of_ascii a)%nat) eqn:E; [|by destruct H]. apply Nat.leb_le in E.
  rewrite (proj2 (Nat.eqb_neq _ _)) by lia. rewrite (proj2 (Nat.leb_gt (nat_of_ascii a) 13)) by lia.
  by rewrite andb_false_r.
Qed.

Lemma Itoa_digits n : (0 ≤ n)%Z → str_forallb is_digit (Itoa n) = true.
Proof. apply dec_digits_digits. Qed.

Lemma Itoa_nonempty n : Itoa n ≠ "".
Proof. apply dec_digits_nonempty. Qed.

Lemma Itoa_trimmed n : (0 ≤ n)%Z → TrimSpace (Itoa n) = Itoa n.
Proof.
  intros H. apply TrimSpace_none.
  eapply str_forallb_impl; [apply digit_not_space|by apply Itoa_digits].
Qed.

Lemma dec_digits_length fuel k n :
  (0 ≤ n < 10 ^ Z.of_nat (S k))%Z → String.length (dec_digits fuel n) ≤ S k.
Proof.
  revert k n. induction fuel as [|fuel IH]; intros k n H; cbn [dec_digits]; [simpl; lia|].
  destruct (Z.ltb_spec n 10); [simpl; lia|]. rewrite str_app_length. simpl.
  destruct k as [|k]; [simpl in H; lia|].
  assert (String.length (dec_digits fuel (n / 10)) ≤ S k); [|lia].
  apply IH. split; [apply Z.div_pos; lia|]. apply Z.div_lt_upper_bound; [lia|].
  rewrite Nat2Z.inj_succ, Z.pow_succ_r in H by lia. lia.
Qed.

Lemma Itoa_length n : (0 ≤ n < 10 ^ 10)%Z → String.length (Itoa n) ≤ 10.
Proof. intros H. by apply (dec_digits_length 19 9). Qed.

(** ** The reader at a known offset *)

Section at_offset.

Context (ar : arReader).

Lemma readFullBytes_at p m q :
  content ar = p +:+ (m +:+ q) →
  readFullBytes ar (Z.of_nat (String.length m)) (Z.of_nat (String.length p)) =
  (Ok m, Z.of_nat (String.length (p +:+ m))).
Proof.
  intros E. unfold readFullBytes. rewrite E, !str_app_length.
  destruct (Z.ltb_spec (Z.of_nat (String.length m)) 0); [lia|].
  destruct (Z.eqb_spec (Z.of_nat (String.length m)) 0) as [Hz|Hz].
  { destruct m; [|simpl in Hz; lia]. simpl. by rewrite Nat.add_0_r. }
  rewrite (proj2 (Z.leb_gt _ _)) by lia. rewrite (proj2 (Z.ltb_ge _ _)) by lia.
  rewrite !Nat2Z.id, slice_mid. f_equal. lia.
Qed.

Lemma skipBytes_at p m :
  skipBytes (Z.of_nat (String.length m)) (Z.of_nat (String.length p)) =
  (Ok tt, Z.of_nat (String.length (p +:+ m))).
Proof.
  unfold skipBytes. rewrite (proj2 (Z.ltb_ge _ _)) by lia. rewrite str_app_length. f_equal. lia.
Qed.

Lemma encode_header_length name size :
  String.length name ≤ 16 → (Z.of_nat size < 10 ^ 10)%Z → String.length (encode_header name size) = 60.
Proof.
  intros Hn Hs. unfold encode_header. rewrite !str_app_length, !pad_length; [done| |vm_compute; lia|done].
  apply Itoa_length. lia.
Qed.

Lemma readHeader_at p name size q :
  content ar = p +:+ (encode_header name size +:+ q) →
  TrimSpace name = name → name ≠ "" → String.length name ≤ 16 → (Z.of_nat size < 10 ^ 10)%Z →
  readHeader ar (Z.of_nat (String.length p)) =
  (Ok {| Name := name; FileSize := Z.of_nat size |}, Z.of_nat (String.length (p +:+ encode_header name size))).
Proof.
  intros E Ht Hne Hn Hs. unfold readHeader, st_bind.
  pose proof (encode_header_length name size Hn Hs) as Hl.
  change headerSize with (Z.of_nat 60). rewrite <- Hl, (readFullBytes_at p _ q E).
  assert (slice (encode_header name size) 48 10 = pad 10 (Itoa (Z.of_nat size))) as ->.
  { unfold encode_header. rewrite <- str_app_assoc. apply slice_after.
    - rewrite str_app_length, !pad_length; [done|vm_compute; lia|done].
    - apply pad_length, Itoa_length. lia. }
  assert (slice (encode_header name size) 0 16 = pad 16 name) as ->.
  { unfold encode_header. apply (slice_after ""); [done|by apply pad_length]. }
  rewrite TrimSpace_padded by (auto using Itoa_nonempty; apply Itoa_trimmed; lia).
  unfold st_lift. rewrite ParseInt_Itoa by lia. by rewrite TrimSpace_padded.
Qed.

Lemma Itoa_head n : (0 ≤ n)%Z → ∃ c s, Itoa n = String c s ∧ is_digit c = true.
Proof.
  intros H. pose proof (Itoa_digits n H) as Hd. pose proof (Itoa_nonempty n).
  destruct (Itoa n) as [|c s]; [done|]. exists c, s. split; [done|].
  simpl in Hd. by apply andb_true_iff in Hd as [? _].
Qed.

Lemma until_slash_app s r : contains_char "/" s = false → until_slash (s +:+ ("/" +:+ r)) = Some s.
Proof.
  induction s as [|a s IH]; [done|]. simpl contains_char. intros [Ha Hs]%orb_false_iff.
  rewrite str_app_cons. simpl until_slash. rewrite Ha. by rewrite IH.
Qed.

Lemma read_symtab p n d :
  read_member ar n {| Name := "/"; FileSize := Z.of_nat (String.length d) |} (Z.of_nat (String.length p)) =
  (Ok n, Z.of_nat (String.length (p +:+ d))).
Proof.
  unfold read_member. cbn [Name FileSize]. change (("/" =? gnuExtendedFilename)%string) with false.
  change (("/" =? "/")%string) with true. unfold st_bind, or_malformed. by rewrite skipBytes_at.
Qed.

Lemma read_table p n d q :
  content ar = p +:+ (d +:+ q) →
  read_member ar n {| Name := "//"; FileSize := Z.of_nat (String.length d) |} (Z.of_nat (String.length p)) =
  (Ok {| files := files n; gnuFilenames := d; thinFiles := Split d "010"; next := 0 |},
   Z.of_nat (String.length (p +:+ d))).
Proof.
  intros E. unfold read_member. cbn [Name FileSize]. change (("//" =? gnuExtendedFilename)%string) with true.
  unfold st_bind, or_malformed. by rewrite (readFullBytes_at p d q E).
Qed.

Lemma read_short p n name d :
  HasPrefix name "/" = false → HasPrefix name "#1/" = false →
  read_member ar n {| Name := name; FileSize := Z.of_nat (String.length d) |} (Z.of_nat (String.length p)) =
  (Ok (add_file n name), Z.of_nat (String.length (p +:+ d))).
Proof.
  intros H1 H2. unfold read_member, bsdFilenamePrefix. cbn [Name FileSize]. rewrite H1, H2.
  assert ((name =? gnuExtendedFilename)%string = false) as ->.
  { apply String.eqb_neq. intros ->. by vm_compute in H1. }
  assert ((name =? "/")%string = false) as ->.
  { apply String.eqb_neq. intros ->. by vm_compute in H1. }
  unfold st_bind, or_malformed. by rewrite skipBytes_at.
Qed.

Lemma read_long p n t name r d :
  thin ar = false → gnuFilenames n = t +:+ (name +:+ ("/" +:+ r)) → contains_char "/" name = false →
  (Z.of_nat (String.length t) < 10 ^ 10)%Z →
  read_member ar n {| Name := "/" +:+ Itoa (Z.of_nat (String.length t)); FileSize := Z.of_nat (String.length d) |}
    (Z.of_nat (String.length p)) =
  (Ok (add_file n name), Z.of_nat (String.length (p +:+ d))).
Proof.
  intros Hthin Hgnu Hname Ht. unfold read_member. cbn [Name FileSize]. rewrite Hthin.
  pose proof (ParseInt_Itoa (Z.of_nat (String.length t)) ltac:(lia)) as Hp.
  destruct (Itoa_head (Z.of_nat (String.length t)) ltac:(lia)) as (c & s & Ec & Hc). rewrite Ec in *.
  assert (Ascii.eqb c "/" = false) as Hcs.
  { apply Ascii.eqb_neq. intros ->. by vm_compute in Hc. }
  assert (TrimLeft ("/" +:+ String c s) "/" = String c s) as ->.
  { unfold TrimLeft. simpl. by rewrite Ascii.eqb_sym, Hcs. }
  assert (("/" +:+ String c s =? gnuExtendedFilename)%string = false) as ->.
  { apply String.eqb_neq. intros [= -> _]. by vm_compute in Hc. }
  simpl (_ =? "/")%string. simpl HasPrefix. cbn [andb].
  unfold st_bind, st_lift, or_malformed. rewrite Hp. unfold gnu_name. rewrite (proj2 (Z.ltb_ge _ _)) by lia.
  rewrite Nat2Z.id, Hgnu, str_drop_app, until_slash_app by done. simpl. by rewrite skipBytes_at.
Qed.

Lemma read_bsd p n name d q :
  content ar = p +:+ ((name +:+ d) +:+ q) → (first_digit (String.length name) =? "1")%string = false →
  (Z.of_nat (String.length name) < 10 ^ 10)%Z →
  read_member ar n {| Name := "#1/" +:+ Itoa (Z.of_nat (String.length name));
                      FileSize := Z.of_nat (String.length (name +:+ d)) |} (Z.of_nat (String.length p)) =
  (Ok (add_file n name), Z.of_nat (String.length (p +:+ (name +:+ d)))).
Proof.
  intros E H1 Hl. unfold read_member. cbn [Name FileSize]. unfold first_digit in H1.
  pose proof (ParseInt_Itoa (Z.of_nat (String.length name)) ltac:(lia)) as Hp.
  destruct (Itoa_head (Z.of_nat (String.length name)) ltac:(lia)) as (c & s & Ec & Hc). rewrite Ec in *.
  assert (TrimLeft ("#1/" +:+ String c s) bsdFilenamePrefix = String c s) as ->.
  { unfold TrimLeft. simpl in H1. simpl.
    assert (Ascii.eqb "#" c = false) as -> by (apply Ascii.eqb_neq; intros <-; by vm_compute in Hc).
    assert (Ascii.eqb "1" c = false) as -> by (apply Ascii.eqb_neq; intros <-; simpl in H1; by destruct s).
    assert (Ascii.eqb "/" c = false) as -> by (apply Ascii.eqb_neq; intros <-; by vm_compute in Hc).
    done. }
  change (("#1/" +:+ String c s =? gnuExtendedFilename)%string) with false.
  change (("#1/" +:+ String c s =? "/")%string) with false.
  change (HasPrefix ("#1/" +:+ String c s) "/") with false.
  change (HasPrefix ("#1/" +:+ String c s) bsdFilenamePrefix) with (HasPrefix (String c s) ""). cbn [HasPrefix].
  unfold st_bind, st_lift, or_malformed. rewrite (readFullBytes_at p _ q E), Hp.
  unfold bsd_name. rewrite str_app_length.
  rewrite (proj2 (Z.ltb_ge (Z.of_nat (String.length name)) 0)) by lia.
  rewrite (proj2 (Z.ltb_ge (Z.of_nat _) (Z.of_nat _))) by lia. simpl.
  by rewrite Nat2Z.id, str_take_app.
Qed.

Lemma readHeader_end p : content ar = p → readHeader ar (Z.of_nat (String.length p)) = (Fail EEOF, Z.of_nat (String.length p)).
Proof.
  intros <-. unfold readHeader, st_bind, readFullBytes. simpl. by rewrite Z.leb_refl.
Qed.

(** One round of the loop, on a member that the reader gets right. *)
Lemma read_round fuel p n n' name data q :
  content ar = p +:+ (encode_member name data +:+ q) →
  TrimSpace name = name → name ≠ "" → String.length name ≤ 16 → (Z.of_nat (String.length data) < 10 ^ 10)%Z →
  (∀ p', content ar = p' +:+ (data +:+ q) →
     read_member ar n {| Name := name; FileSize := Z.of_nat (String.length data) |} (Z.of_nat (String.length p')) =
     (Ok n', Z.of_nat (String.length (p' +:+ data)))) →
  read_loop (S fuel) ar n (Z.of_nat (String.length p)) =
  read_loop fuel ar n' (Z.of_nat (String.length (p +:+ encode_member name data))).
Proof.
  intros E Ht Hne Hn Hs Hm. unfold encode_member in *. rewrite str_app_assoc in E. simpl read_loop.
  rewrite (readHeader_at p name (String.length data) (data +:+ q)) by done.
  unfold st_bind. rewrite Hm by (by rewrite str_app_assoc). by rewrite !str_app_assoc.
Qed.

Lemma encode_member_length name data :
  String.length name ≤ 16 → (Z.of_nat (String.length data) < 10 ^ 10)%Z →
  String.length (encode_member name data) = 60 + String.length data.
Proof. intros. unfold encode_member. by rewrite str_app_length, encode_header_length. Qed.

Lemma tagged_trimmed tag n : str_forallb (λ a, negb (is_space a)) tag = true → (0 ≤ n)%Z →
  TrimSpace (tag +:+ Itoa n) = tag +:+ Itoa n.
Proof.
  intros Ht Hn. apply TrimSpace_none. rewrite str_forallb_app, Ht.
  eapply str_forallb_impl; [apply digit_not_space|by apply Itoa_digits].
Qed.

Lemma tagged_length tag n :
  String.length tag ≤ 3 → (0 ≤ n < 10 ^ 10)%Z → String.length (tag +:+ Itoa n) ≤ 16.
Proof. intros Ht Hn. rewrite str_app_length. pose proof (Itoa_length n Hn). lia. Qed.

Lemma app_nonempty s t : t ≠ "" → s +:+ t ≠ "".
Proof. by destruct s. Qed.

Lemma even_size_lt d : even_size d = true → (Z.of_nat (String.length d) < 10 ^ 10)%Z.
Proof. unfold even_size. rewrite andb_true_iff. by intros [_ H%Z.ltb_lt]. Qed.

Lemma read_entries es fuel n t p :
  thin ar = false → content ar = p +:+ encode_entries (String.length t) es →
  gnuFilenames n = t +:+ long_names es → forallb entry_ok es = true →
  (Z.of_nat (String.length t + String.length (long_names es)) < 10 ^ 10)%Z → length es < fuel →
  ∃ n', read_loop fuel ar n (Z.of_nat (String.length p)) = (Ok n', Z.of_nat (String.length (content ar))) ∧
        files n' = files n ++ (entry_name <$> es).
Proof.
  intros Hthin. revert fuel n t p.
  induction es as [|e es IH]; intros fuel n t p E Hg Hok Ht Hf; (destruct fuel as [|fuel]; [simpl in Hf; lia|]).
  { simpl in *. rewrite str_app_nil_r in E. exists n. rewrite (readHeader_end p E), E. by rewrite app_nil_r. }
  simpl in Hok. apply andb_true_iff in Hok as [He Hok]. simpl in Hf.
  assert (∀ name, (entry_name <$> e :: es) = name :: (entry_name <$> es) →
    files n ++ (entry_name <$> e :: es) = files (add_file n name) ++ (entry_name <$> es)) as Hfiles.
  { intros name ->. simpl. by rewrite <- app_assoc. }
  destruct e as [name d|name d|name d]; simpl in E, Hg, He, Ht; rewrite (Hfiles name) by done; clear Hfiles.
  - rewrite !andb_true_iff, !negb_true_iff in He. destruct He as [[[[[Htr Hne] Hl] H1] H2] Hd].
    apply String.eqb_eq in Htr. apply String.eqb_neq in Hne. apply Nat.leb_le in Hl. apply even_size_lt in Hd.
    rewrite (read_round fuel p n (add_file n name) name d _ E) by (auto using read_short).
    apply (IH fuel _ t); [by rewrite str_app_assoc|done|done|done|lia].
  - rewrite andb_true_iff, negb_true_iff in He. destruct He as [Hc Hd%even_size_lt]. rewrite !str_app_length in Ht.
    assert (0 ≤ Z.of_nat (String.length t) < 10 ^ 10)%Z as Hlt by lia.
    rewrite (read_round fuel p n (add_file n name) _ d _ E);
      [|apply tagged_trimmed; [done|lia]|apply app_nonempty, Itoa_nonempty|apply tagged_length; [simpl; lia|done]|done
       |intros p' _; apply (read_long p' n t name (newline +:+ long_names es)); [done..|lia]].
    replace (String.length t + String.length name + 2) with (String.length (t +:+ (name +:+ ("/" +:+ newline)))) in *
      by (rewrite !str_app_length; simpl; lia).
    eapply IH; [by rewrite str_app_assoc|rewrite !str_app_assoc; done|done| |lia].
    rewrite !str_app_length in *. simpl in *. lia.
  - rewrite !andb_true_iff, !negb_true_iff in He. destruct He as [[H1 Hne] Hd%even_size_lt].
    assert (0 ≤ Z.of_nat (String.length name) < 10 ^ 10)%Z as Hlt by (rewrite str_app_length in Hd; lia).
    rewrite (read_round fuel p n (add_file n name) _ (name +:+ d) _ E);
      [|apply tagged_trimmed; [done|lia]|apply app_nonempty, Itoa_nonempty|apply tagged_length; [simpl; lia|done]|done
       |intros p' E'; apply (read_bsd p' n name d _ E' H1); lia].
    apply (IH fuel _ t); [by rewrite str_app_assoc|done|done|done|lia].
Qed.

End at_offset.

Lemma encode_entries_length off es :
  forallb entry_ok es = true → (Z.of_nat (off + String.length (long_names es)) < 10 ^ 10)%Z →
  length es ≤ String.length (encode_entries off es).
Proof.
  revert off. induction es as [|e es IH]; intros off Hok Hl; simpl; [lia|].
  simpl in Hok. apply andb_true_iff in Hok as [_ Hok].
  assert (∀ name data, 1 ≤ String.length (encode_member name data)) as Hm.
  { intros name data. unfold encode_member, encode_header. rewrite !str_app_length. simpl. lia. }
  destruct e as [n d|n d|n d]; simpl in Hl |- *; rewrite str_app_length.
  - pose proof (IH off Hok Hl). pose proof (Hm n d). lia.
  - rewrite !str_app_length in Hl. simpl in Hl. pose proof (IH (off + String.length n + 2) Hok ltac:(lia)).
    pose proof (Hm ("/" +:+ Itoa (Z.of_nat off)) d). simpl in *. lia.
  - pose proof (IH off Hok Hl). pose proof (Hm ("#1/" +:+ Itoa (Z.of_nat (String.length n))) (n +:+ d)). simpl in *. lia.
Qed.

(** The members of a well-formed archive are listed in order, with their
    names, whether short, in the table of long names or in front of the
    contents; the reader is left at the start of the contents. *)
Theorem ReadFileNames_encode prefix p symtab es :
  archive_ok symtab es = true →
  let ar := {| thinFilePrefix := prefix; thin := false; path := p; content := encode_archive symtab es |} in
  ReadFileNames (archive_fuel ar) ar fileSignatureLen = (Ok (entry_name <$> es), fileSignatureLen).
Proof.
  intros H ar. unfold archive_ok in H. rewrite !andb_true_iff in H. destruct H as [[Hs Hl] Hes].
  apply even_size_lt in Hs, Hl. pose proof (encode_entries_length 0 es Hes ltac:(simpl; lia)) as Hlen.
  unfold archive_fuel. set (fuel := String.length (content ar)).
  assert (S (S (length es)) ≤ fuel) as Hf.
  { subst fuel ar. simpl content. unfold encode_archive. rewrite !str_app_length, !encode_member_length by (simpl; lia).
    simpl. lia. }
  destruct fuel as [|[|fuel]]; [lia..|]. unfold ReadFileNames, st_bind.
  change fileSignatureLen with (Z.of_nat (String.length arFileSignature)) at 1.
  rewrite (read_round ar (S (S fuel)) arFileSignature no_names no_names "/" symtab
    (encode_member "//" (long_names es) +:+ encode_entries 0 es));
    [|done..|simpl; lia|done|intros p' _; apply read_symtab].
  set (n1 := {| files := []; gnuFilenames := long_names es; thinFiles := Split (long_names es) "010"; next := 0 |}).
  rewrite (read_round ar (S fuel) _ no_names n1 "//" (long_names es) (encode_entries 0 es));
    [|subst ar; simpl content; unfold encode_archive; by rewrite !str_app_assoc|done..|simpl; lia|done|intros p' E'; by rewrite (read_table ar p' no_names _ _ E')].
  destruct (read_entries ar es (S fuel) n1 ""
    ((arFileSignature +:+ encode_member "/" symtab) +:+ encode_member "//" (long_names es)) eq_refl) as (n' & -> & Hn).
  - subst ar. simpl content. unfold encode_archive. by rewrite !str_app_assoc.
  - done.
  - done.
  - simpl. lia.
  - lia.
  - unfold resetOffsetToContentStart, st_ret. by rewrite Hn.
Qed.

(** ** Termination *)

Section termination.

Context (ar : arReader).

(** No header of the file announces a negative size. *)
Definition sizes_ok : Prop :=
  ∀ pos h pos', (0 ≤ pos)%Z → readHeader ar pos = (Ok h, pos') → (0 ≤ FileSize h)%Z.

Lemma readFullBytes_Ok length pos d pos' :
  readFullBytes ar length pos = (Ok d, pos') → (0 ≤ length)%Z ∧ pos' = (pos + length)%Z ∧
  (length ≠ 0 → pos < Z.of_nat (String.length (content ar)))%Z.
Proof.
  unfold readFullBytes. destruct (Z.ltb_spec length 0); [done|].
  destruct (Z.eqb_spec length 0) as [->|]; [intros [= <- <-]; split_and!; lia|].
  destruct (Z.leb_spec (Z.of_nat (String.length (content ar))) pos); [done|].
  case_if; [done|]. intros [= <- <-]. split_and!; lia.
Qed.

Lemma readHeader_Ok pos h pos' :
  readHeader ar pos = (Ok h, pos') →
  pos' = (pos + headerSize)%Z ∧ (pos < Z.of_nat (String.length (content ar)))%Z.
Proof.
  unfold readHeader. intros H. apply st_bind_Ok in H as (d & pos1 & H1 & H).
  apply st_bind_Ok in H as (fs & pos2 & H2 & H). unfold st_lift, st_ret in *.
  injection H2 as H2 <-. injection H as H <-. apply readFullBytes_Ok in H1 as (_ & -> & H1).
  split; [done|]. by apply H1.
Qed.

Lemma parse_digits_no_fuel base m acc s : parse_digits base m acc s ≠ Fail EFuel.
Proof.
  revert acc. induction s as [|a s IH]; intros acc; simpl; [done|].
  destruct (digit_value a); [|done]. by repeat case_if.
Qed.

Lemma ParseInt_no_fuel s base bits : ParseInt s base bits ≠ Fail EFuel.
Proof.
  unfold ParseInt. destruct (match s with String "-" s' => _ | String "+" s' => _ | _ => _ end) as [neg ds].
  case_if; [done|]. pose proof (parse_digits_no_fuel base (2 ^ bits - 1) 0 ds).
  destruct (parse_digits _ _ _ _); [repeat case_if; done|congruence|done].
Qed.

Lemma read_member_fuel n h pos : (read_member ar n h pos).1 ≠ Fail EFuel.
Proof.
  assert (∀ A B (m : ST Z A) (k : A → ST Z B), (m pos).1 ≠ Fail EFuel →
    (∀ a p, (k a p).1 ≠ Fail EFuel) → (st_bind m k pos).1 ≠ Fail EFuel) as Hb.
  { intros A B m k Hm Hk. unfold st_bind. destruct (m pos) as [[a|e|] p]; simpl in *; [apply Hk|congruence|done]. }
  assert (∀ A (m : ST Z A) p, (or_malformed m p).1 ≠ Fail EFuel) as Hm.
  { intros A m p. unfold or_malformed. by destruct (m p) as [[a|e|] p']. }
  assert (∀ A B (m : res A) (k : A → ST Z B) p, m ≠ Fail EFuel →
    (∀ a p, (k a p).1 ≠ Fail EFuel) → (st_bind (st_lift m) k p).1 ≠ Fail EFuel) as Hl.
  { intros A B m k p H Hk. unfold st_bind, st_lift. destruct m; simpl in *; [apply Hk|congruence|done]. }
  assert (∀ A (m : ST Z A) (k : A → names) p,
    (st_bind (or_malformed m) (λ a, st_ret (k a)) p).1 ≠ Fail EFuel) as Hr.
  { intros A m k p. unfold st_bind. pose proof (Hm A m p). destruct (or_malformed m p) as [[a|e|] p']; simpl in *; congruence. }
  unfold read_member. repeat case_if; try (apply Hr).
  - apply Hl; [|done]. unfold index. by destruct (_ !! _).
  - apply Hl; [apply ParseInt_no_fuel|]. intros a p. apply Hl.
    { unfold gnu_name. case_if; [done|]. by destruct (until_slash _). }
    intros fn q. apply Hr.
  - apply Hb; [apply Hm|]. intros d p. apply Hl; [apply ParseInt_no_fuel|]. intros size q.
    apply Hl; [|done]. unfold bsd_name. by case_if.
Qed.

(** A member of non-negative size never moves the reader back. *)
Lemma read_member_forward n h pos n' pos' :
  (0 ≤ FileSize h)%Z → read_member ar n h pos = (Ok n', pos') → (pos ≤ pos')%Z.
Proof.
  intros Hs. unfold read_member.
  assert (∀ A (m : ST Z A) p a p', or_malformed m p = (Ok a, p') → m p = (Ok a, p')) as Hm.
  { intros A m p a p'. unfold or_malformed. by destruct (m p) as [[?|?|] ?]. }
  assert (∀ p p', skipBytes (FileSize h) p = (Ok tt, p') → (p ≤ p')%Z) as Hskip.
  { intros p p'. unfold skipBytes. case_if; [done|]. intros [= <-]. lia. }
  repeat case_if; intros H;
    repeat match goal with
    | H : st_bind _ _ _ = (Ok _, _) |- _ => apply st_bind_Ok in H as (? & ? & ? & H)
    | H : or_malformed _ _ = (Ok _, _) |- _ => apply Hm in H
    | H : st_lift _ _ = _ |- _ => injection H as ? ?
    | H : st_ret _ _ = _ |- _ => injection H as ? ?
    | H : readFullBytes _ _ _ = _ |- _ => apply readFullBytes_Ok in H as (? & ? & ?)
    | x : unit |- _ => destruct x
    | H : skipBytes _ _ = _ |- _ => apply Hskip in H
    end; subst; lia.
Qed.

Lemma read_loop_fuel fuel n pos :
  sizes_ok → (0 ≤ pos)%Z → (Z.of_nat (String.length (content ar)) - pos < Z.of_nat fuel)%Z → 0 < fuel →
  (read_loop fuel ar n pos).1 ≠ Fail EFuel.
Proof.
  intros Hok. revert n pos. induction fuel as [|fuel IH]; intros n pos Hpos Hf H0; [lia|]. simpl.
  destruct (readHeader ar pos) as [[h|e|] pos1] eqn:Eh.
  - pose proof (Hok _ _ _ Hpos Eh) as Hs. apply readHeader_Ok in Eh as [-> Hlt]. unfold headerSize in *.
    unfold st_bind. pose proof (read_member_fuel n h (pos + 60)) as Hm.
    destruct (read_member ar n h (pos + 60)%Z) as [[n'|e|] pos2] eqn:E; simpl in Hm |- *; [|congruence|done].
    apply read_member_forward in E; [|done]. apply IH; lia.
  - unfold readHeader, st_bind, readFullBytes in Eh. unfold headerSize in Eh. simpl in Eh. revert Eh.
    case_if; [intros [= <- <-]; done|]. case_if; [intros [= <- <-]; done|].
    unfold st_lift. pose proof (ParseInt_no_fuel (TrimSpace (slice (slice (content ar) (Z.to_nat pos) (Z.to_nat 60)) 48 10)) 10 64).
    destruct (ParseInt _ _ _); [done| |done]. intros [= <- <-]. destruct e0; simpl; congruence.
  - done.
Qed.

(** Unless a header announces a negative size, the reader ends on every
    file, whether with a list of names, an error or a panic. *)
Theorem ReadFileNames_terminates pos :
  sizes_ok → (0 ≤ pos)%Z → (ReadFileNames (archive_fuel ar) ar pos).1 ≠ Fail EFuel.
Proof.
  intros Hok Hpos. unfold ReadFileNames, st_bind.
  pose proof (read_loop_fuel (archive_fuel ar) no_names pos Hok Hpos) as H. unfold archive_fuel in *.
  specialize (H ltac:(lia) ltac:(lia)).
  destruct (read_loop _ ar no_names pos) as [[n|e|] pos']; simpl in *; [done|congruence|done].
Qed.

End termination.

End ArReader.

(** ** Witnesses and examples *)

Import ArReader.

Definition entries_example : list entry :=
  [Short "foo.o/" "abcd"; Long "a_rather_long_objectname.o" "0123456789"; Bsd "x y.o" "z"].

Definition reader_example (c : string) : arReader :=
  {| thinFilePrefix := "out"; thin := false; path := "/r/lib.a"; content := c |}.

Lemma ReadFileNames_encode_witness :
  archive_ok "ix" entries_example = true ∧
  ReadFileNames (archive_fuel (reader_example (encode_archive "ix" entries_example)))
    (reader_example (encode_archive "ix" entries_example)) fileSignatureLen
  = (Ok ["foo.o/"; "a_rather_long_objectname.o"; "x y.o"], fileSignatureLen).
Proof.
  split; [by vm_compute|].
  apply (ReadFileNames_encode "out" "/r/lib.a" "ix" entries_example). by vm_compute.
Defined.

Lemma ReadFileNames_terminates_witness :
  sizes_ok (reader_example arFileSignature) ∧
  (ReadFileNames (archive_fuel (reader_example arFileSignature)) (reader_example arFileSignature) 8%Z).1 ≠ Fail EFuel.
Proof.
  assert (sizes_ok (reader_example arFileSignature)) as H.
  { intros pos h pos' Hp H. destruct (readHeader_Ok _ _ _ _ H) as [_ Hl].
    change (Z.of_nat (String.length (content (reader_example arFileSignature)))) with 8%Z in Hl. exfalso. revert H.
    unfold readHeader, st_bind, readFullBytes, headerSize. cbn [Z.ltb Z.eqb Z.compare].
    change (Z.of_nat (String.length (content (reader_example arFileSignature)))) with 8%Z.
    rewrite (proj2 (Z.leb_gt 8 pos)) by lia. by rewrite (proj2 (Z.ltb_lt _ _)) by lia. }
  split; [exact H|]. apply (ReadFileNames_terminates (reader_example arFileSignature) 8%Z H). lia.
Defined.

(** A header that announces minus sixty bytes is read again and again. *)
Definition runaway_archive : string :=
  arFileSignature +:+ (pad 16 "x" +:+ (pad 32 "0" +:+ (pad 10 "-60" +:+ ("`" +:+ newline)))).

Lemma runaway fuel n : (read_loop fuel (reader_example runaway_archive) n 8%Z).1 = Fail EFuel.
Proof.
  revert n. induction fuel as [|fuel IH]; intros n; [done|]. cbn [read_loop].
  assert (readHeader (reader_example runaway_archive) 8%Z = (Ok {| Name := "x"; FileSize := -60 |}, 68%Z)) as ->
    by (vm_compute; reflexivity).
  unfold read_member. cbn [Name FileSize].
  change (("x" =? gnuExtendedFilename)%string) with false. change (("x" =? "/")%string) with false.
  change (HasPrefix "x" "/") with false. change (HasPrefix "x" bsdFilenamePrefix) with false.
  unfold st_bind, or_malformed. change (skipBytes (-60)%Z 68%Z) with (@Ok unit tt, 8%Z). apply IH.
Qed.

(** The length of a BSD name loses its leading ones: [#1/15] asks for five
    bytes. *)
Example bsd_name_truncated :
  (ReadFileNames 10 (reader_example (arFileSignature +:+ encode_member "#1/15" "long_member.obj")) 8%Z).1
  = Ok ["long_"].
Proof. vm_compute. reflexivity. Qed.

(** The padding byte after contents of an odd size is not skipped: what follows
    is read off by one, and the byte that is left at the end is an error. *)
Example odd_member_misread :
  (ReadFileNames 10 (reader_example
     (arFileSignature +:+ (encode_member "a.o/" "AAA" +:+ (newline +:+
       (encode_member "b.o/" "BBBB" +:+ encode_member "c.o/" "CCCC"))))) 8%Z).1
  = Fail EUnexpectedEOF.
Proof. vm_compute. reflexivity. Qed.

Example thin_archive_panics :
  (ReadFileNames 10 {| thinFilePrefix := "out"; thin := true; path := "t.a";
     content := thinFileSignature +:+ encode_member "/0" "" |} 8%Z).1 = Panic.
Proof. vm_compute. reflexivity. Qed.
