(* ===== verification/FlagParsers.v ===== *)
(** * The flag parsers and preprocessors of the actions that are not C++
    compilations: [internal/pkg/inputprocessor/action/]{javac, r8, d8, metalava,
    archive}

    The parsers fill the flags of a command from its arguments and from the
    response files it names.  The preprocessors embed the base preprocessor and
    override its parser and its last step; the caches that they share across
    actions are part of their state. *)
From S2P Require Import Prelude GoStrings GoPath GoRegexp PathTranslator ArgsScanner GoFS Command InputProcessor.
From Stdlib Require Import Ascii.
Import Filepath Regexp InputProcessor.

Module FlagParsers.

(** ** Updates of the flags of a command *)

Definition map_flags (ft fd fo fdir finc fvirt : list string → list string) (fe : string → string)
    (ff : list Flag → list Flag) (c : CommandFlags) : CommandFlags := {|
  ExecutablePath := ExecutablePath c; TargetFilePaths := ft (TargetFilePaths c);
  Dependencies := fd (Dependencies c); cf_EmittedDependencyFile := fe (cf_EmittedDependencyFile c);
  OutputFilePaths := fo (OutputFilePaths c); OutputDirPaths := fdir (OutputDirPaths c);
  IncludeDirPaths := finc (IncludeDirPaths c); VirtualDirectories := fvirt (VirtualDirectories c);
  WorkingDirectory := WorkingDirectory c; cf_ExecRoot := cf_ExecRoot c; Flags := ff (Flags c) |}.

Definition add_targets (l : list string) := map_flags (λ x, x ++ l) id id id id id id id.
Definition add_deps (l : list string) := map_flags id (λ x, x ++ l) id id id id id id.
Definition add_outputs (l : list string) := map_flags id id (λ x, x ++ l) id id id id id.
Definition add_output_dirs (l : list string) := map_flags id id id (λ x, x ++ l) id id id id.
Definition add_includes (l : list string) := map_flags id id id id (λ x, x ++ l) id id id.
Definition add_virtual_dirs (l : list string) := map_flags id id id id id (λ x, x ++ l) id id.
Definition set_emitted (e : string) := map_flags id id id id id id (λ _, e) id.
Definition add_flags (l : list Flag) := map_flags id id id id id id id (λ x, x ++ l).
Definition set_flags (l : list Flag) := map_flags id id id id id id id (λ _, l).

(** [&flags.CommandFlags{ExecRoot: .., WorkingDirectory: ..}] *)
Definition temp_flags (c : CommandFlags) : CommandFlags :=
  command_flags "" (WorkingDirectory c) (cf_ExecRoot c) [].

(** ** Flags and response files

    A handler sees the flags of the command, a temporary structure that collects
    what one argument or one response file adds, and the state of its own. *)

Definition arg_handler (X : Type) : Type := Scanner → ST (CommandFlags * CommandFlags * X) unit.

Definition rsp_path (c : CommandFlags) (rspFile : string) : string :=
  if IsAbs rspFile then rspFile else Join [cf_ExecRoot c; WorkingDirectory c; rspFile].

Section env.

Variable w : fs.

(** What [handleJavacFlags], [handleClangLinkFlags] and [handleClangCLFlags] do
    after they read a flag: [rsp_dest] records the response file and [merge]
    what was collected.  The flags found in a response file are dropped. *)
Definition handle_flags {X} (rsp_dest : string → CommandFlags → CommandFlags)
    (merge : CommandFlags → CommandFlags → CommandFlags) (h : arg_handler X) (sc : Scanner) : ST (CommandFlags * X) unit := λ '(c, x),
  match index (fr_Args (CurResult sc)) 0 with
  | Ok a =>
      if HasPrefix a "@" then
        let rspFile := str_drop 1 a in
        let p := rsp_path c rspFile in
        let f := temp_flags c in
        let c := add_flags [value_flag a] (rsp_dest rspFile c) in
        match ParseWithFunc (OS.ReadFile w) p sc h (c, f, x) with
        | (Ok _, (c, f, x)) => (Ok tt, (merge f c, x))
        | (Fail e, (c, _, x)) => (Fail e, (c, x))
        | (Panic, (c, _, x)) => (Panic, (c, x))
        end
      else
        match h sc (c, temp_flags c, x) with
        | (Ok _, (c, f, x)) => (Ok tt, (merge f (add_flags (Flags f) c), x))
        | (Fail e, (c, _, x)) => (Fail e, (c, x))
        | (Panic, (c, _, x)) => (Panic, (c, x))
        end
  | Fail e => (Fail e, (c, x))
  | Panic => (Panic, (c, x))
  end.

(** [for s.HasNext() { handle(res, s) }] *)
Definition parse_loop {X} (step : Scanner → ST (CommandFlags * X) unit) (sc : Scanner) (c : CommandFlags) (x : X)
    : res (CommandFlags * X) :=
  match scan_loop (length (sc_Args sc)) sc step (c, x) with
  | (Ok _, s) => Ok s
  | (Fail e, _) => Fail e
  | (Panic, _) => Panic
  end.

(** Commands of fewer than two arguments are refused. *)
Definition with_command {A} (command : list string) (k : string → list string → res A) : res A :=
  match command with
  | executable :: ((_ :: _) as rest) => k executable rest
  | _ => Fail (EMsg "insufficient number of arguments in command")
  end.

(** Paths without the empty string and the dot. *)
Definition real_deps (l : list string) : list string :=
  filter (λ d, d ≠ "" ∧ d ≠ ".") l.

(** ** [javac] *)

Definition javac_Flags : gmap string Z :=
  {["-bootclasspath" := 1%Z; "-classpath" := 1%Z; "-processorpath" := 1%Z; "-d" := 1%Z; "-s" := 1%Z]}.

Definition javac_Joined : list PrefixOption :=
  [{| Prefix := "--system="; NumArgs := 0 |}; {| Prefix := "-Aroom.schemaLocation="; NumArgs := 0 |}].

Definition javac_flag (r : FlagResult) (f : CommandFlags) : res CommandFlags :=
  let flag := NormalizedKey r in
  if mem flag ["-bootclasspath"; "-classpath"; "-processorpath"] then
    let? v := index (Values r) 0 in Ok (add_deps (real_deps (Split v ":")) f)
  else if mem flag ["--system="; "-Aroom.schemaLocation="] then
    let? v := index (Values r) 0 in Ok (add_deps [v] f)
  else if mem flag ["-d"; "-s"] then
    let? v := index (Values r) 0 in Ok (add_output_dirs [v] f)
  else if (flag =? "")%string then
    let? a := index (fr_Args r) 0 in Ok (add_deps [a] f)
  else Ok f.

(** The closure [handleArgFunc] of [handleJavacFlags]. *)
Definition javac_arg : arg_handler unit := λ sc '(c, f, x),
  match javac_flag (CurResult sc) f with
  | Ok f => (Ok tt, (c, add_flags (value_flag <$> fr_Args (CurResult sc)) f, x))
  | Fail e => (Fail e, (c, f, x))
  | Panic => (Panic, (c, f, x))
  end.

Definition merge_outputs (f c : CommandFlags) : CommandFlags :=
  add_outputs (OutputFilePaths f) (add_output_dirs (OutputDirPaths f) (add_deps (Dependencies f) c)).

(** The response file itself is a target. *)
Definition handleJavacFlags : Scanner → ST (CommandFlags * unit) unit :=
  handle_flags (λ rspFile, add_targets [rspFile]) merge_outputs javac_arg.

Definition javac_parseFlags (command : list string) (workingDir execRoot : string) : res CommandFlags :=
  with_command command (λ executable rest,
    let? (c, _) := parse_loop handleJavacFlags (new_Scanner rest javac_Flags javac_Joined ∅)
      (command_flags executable workingDir execRoot []) tt in Ok c).

(** ** [r8] and [d8] *)

Definition r8_Flags : gmap string Z :=
  {["-libraryjars" := 1%Z; "-include" := 1%Z; "--output" := 1%Z; "--main-dex-list" := 1%Z;
    "-printmapping" := 1%Z; "-printconfiguration" := 1%Z; "-injars" := 1%Z]}.

Definition main_dex_Joined : list PrefixOption := [{| Prefix := "--main-dex-list="; NumArgs := 0 |}].

Definition r8_flag (r : FlagResult) (c : CommandFlags) : res CommandFlags :=
  let flag := NormalizedKey r in
  if mem flag ["-libraryjars"; "-include"] then
    let? v := index (Values r) 0 in Ok (add_deps (Split v ":") c)
  else if (flag =? "--output")%string then
    let? v := index (Values r) 0 in Ok (add_output_dirs [v] c)
  else if mem flag ["--main-dex-list="; "--main-dex-list"] then
    let? v := index (Values r) 0 in Ok (add_deps [v] c)
  else if mem flag ["-printmapping"; "-printconfiguration"] then
    let? v := index (Values r) 0 in Ok (add_outputs [v] c)
  else if (flag =? "-injars")%string then
    let? v := index (Values r) 0 in Ok (add_targets [v] c)
  else let? a := index (fr_Args r) 0 in Ok (add_flags [value_flag a] c).

(** A loop whose body updates the flags from the result that was just read. *)
Definition pure_step (upd : FlagResult → CommandFlags → res CommandFlags) (sc : Scanner)
    : ST (CommandFlags * unit) unit := λ '(c, x),
  match upd (CurResult sc) c with
  | Ok c => (Ok tt, (c, x))
  | Fail e => (Fail e, (c, x))
  | Panic => (Panic, (c, x))
  end.

Definition r8_parseFlags (command : list string) (workingDir execRoot : string) : res CommandFlags :=
  with_command command (λ executable rest,
    let? (c, _) := parse_loop (pure_step r8_flag) (new_Scanner rest r8_Flags main_dex_Joined ∅)
      (command_flags executable workingDir execRoot []) tt in Ok c).

Definition d8_Flags : gmap string Z :=
  {["--lib" := 1%Z; "--main-dex-list" := 1%Z; "--output" := 1%Z]}.

Definition d8_flag (r : FlagResult) (c : CommandFlags) : res CommandFlags :=
  let flag := NormalizedKey r in
  if mem flag ["--lib"; "--main-dex-list"; "--main-dex-list="] then
    let? v := index (Values r) 0 in Ok (add_deps [v] c)
  else if (flag =? "--output")%string then
    let? v := index (Values r) 0 in Ok (add_output_dirs [v] c)
  else let? a := index (fr_Args r) 0 in Ok (add_flags [value_flag a] c).

(** The last argument is the target. *)
Definition d8_parseFlags (command : list string) (workingDir execRoot : string) : res CommandFlags :=
  with_command command (λ executable rest,
    let c := add_targets [default "" (last rest)] (command_flags executable workingDir execRoot []) in
    let? (c, _) := parse_loop (pure_step d8_flag) (new_Scanner (removelast rest) d8_Flags main_dex_Joined ∅) c tt in
    Ok c).

(** ** [metalava] *)

Definition depFlags : list string :=
  ["--source-files"; "--source-path"; "-sourcepath"; "-classpath"; "-bootclasspath";
   "--merge-qualifier-annotations"; "--merge-inclusion-annotations"; "--validate-nullability-from-list";
   "--input-api-jar"; "--manifest"; "--subtract-api"; "--register-artifact";
   "--check-compatibility:api:current"; "--check-compatibility:removed:current";
   "--check-compatibility:api:released"; "--check-compatibility:removed:released"; "--api-lint";
   "--migrate-nullness"; "--annotation-coverage-of"; "--include-annotation-classes"; "--rewrite-annotations";
   "--apply-api-levels"; "--baseline:api-lint"; "--baseline:compatibility:released"].

Definition outFileFlags : list string :=
  ["--api"; "--private-api"; "--dex-api"; "--private-dex-api"; "--dex-api-mapping"; "--removed-api";
   "--removed-dex-api"; "--proguard"; "--write-doc-stubs-source-list"; "--report-even-if-suppressed"; "--api-xml";
   "--write-class-coverage-to"; "--write-member-coverage-to"; "--extract-annotations"; "--generate-api-levels";
   "--nullability-warnings-txt"; "--update-baseline:compatibility:released"; "--update-baseline:api-lint"].

Definition outDirFlags : list string := ["--sdk-values"; "--stubs"; "--doc-stubs"; "--rewrite-annotations"].
Definition inOutFlags : list string := ["--baseline"; "--update-baseline"; "--merge-baseline"].
Definition srcDestFlags : list string :=
  ["--convert-to-jdiff"; "--convert-to-v1"; "--convert-to-v2"; "--copy-annotations"].
Definition srcSrcDestFlags : list string := ["--convert-new-to-jdiff"; "--convert-new-to-v2"].

(** The numbers of values, as [init] fills them in; the flags that are listed
    twice get the same number each time. *)
Definition metavalaFlags : gmap string Z := list_to_map (
  ((λ f, (f, 2%Z)) <$> srcDestFlags) ++ ((λ f, (f, 3%Z)) <$> srcSrcDestFlags) ++
  ((λ f, (f, 1%Z)) <$> inOutFlags ++ outFileFlags ++ outDirFlags ++
     ["--android-jar-pattern"; "--strict-input-files"; "--strict-input-files:warn"])).

(** The dependencies that the value of a flag of [depFlags] names. *)
Definition metalava_deps (workingDir execRoot value : string) : res (list string) :=
  if Contains value ":" then Ok (Split value ":")
  else if Contains value "," then Ok (Split value ",")
  else if HasPrefix value "@" then
    let dep := str_drop 1 value in
    let? rspDeps := Parse (OS.ReadFile w) (Join [execRoot; workingDir; dep]) in
    Ok (dep :: rspDeps)
  else Ok [value].

(** [depFlags[flag] && s.HasNext() && s.LookAhead() == ""], with the scanner
    after it. *)
Definition wants_value (flag : string) (s : Scanner) : res (bool * Scanner) :=
  if mem flag depFlags && HasNext s then
    let? (next, s) := LookAhead s in Ok ((next =? "")%string, s)
  else Ok (false, s).

Definition metalava_other (workingDir execRoot flag : string) (args values : list string) (c : CommandFlags)
    : res CommandFlags :=
  if mem flag inOutFlags then
    let? v := index values 0 in Ok (add_outputs [v] (add_deps [v] c))
  else if mem flag outFileFlags then
    let? v := index values 0 in Ok (add_outputs [v] c)
  else if mem flag outDirFlags then
    let? v := index values 0 in Ok (add_output_dirs [v] c)
  else if mem flag srcDestFlags then
    let? v := index values 0 in let? o := index values 1 in Ok (add_outputs [o] (add_deps [v] c))
  else if mem flag srcSrcDestFlags then
    let? v := index values 0 in let? v' := index values 1 in let? o := index values 2 in
    Ok (add_outputs [o] (add_deps [v; v'] c))
  else if (flag =? "--android-jar-pattern")%string then
    let? v := index values 0 in Ok (add_deps [(SplitN2 v "%").1] c)
  else if mem flag ["--strict-input-files"; "--strict-input-files:warn"] then
    let? v := index values 0 in Ok (add_outputs [v] (set_emitted v c))
  else
    let? a := index args 0 in
    if (flag =? "")%string && HasPrefix a "@" then
      let rspFile := str_drop 1 a in
      let? rspDeps := Parse (OS.ReadFile w) (Join [execRoot; workingDir; rspFile]) in
      Ok (add_deps rspDeps (add_targets [rspFile] c))
    else Ok (add_flags [value_flag a] c).

Fixpoint metalava_loop (fuel : nat) (workingDir execRoot : string) (s : Scanner) (c : CommandFlags)
    : res CommandFlags :=
  if HasNext s then
    match fuel with
    | 0 => Fail EFuel
    | S fuel =>
        let? (flag, args, values, _, s) := Next s in
        let? (b, s) := wants_value flag s in
        if (b : bool) then
          let? (_, args, _, _, s) := Next s in
          if (flag =? "-sourcepath")%string then metalava_loop fuel workingDir execRoot s (add_virtual_dirs args c)
          else
            let? value := index args 0 in
            let? deps := metalava_deps workingDir execRoot value in
            metalava_loop fuel workingDir execRoot s (add_deps (real_deps deps) c)
        else
          let? c := metalava_other workingDir execRoot flag args values c in
          metalava_loop fuel workingDir execRoot s c
    end
  else Ok c.

Definition metalava_parseFlags (command : list string) (workingDir execRoot : string) : res CommandFlags :=
  with_command command (λ executable rest,
    metalava_loop (length rest) workingDir execRoot (new_Scanner rest metavalaFlags [] ∅)
      (command_flags executable workingDir execRoot [])).

(** ** [archive] *)

Inductive operation := opArchive | opPrint | opDelete.

(** The variables of the loop of [ParseFlags]. *)
Record ar_state := { ar_Flags : CommandFlags; ar_operation : operation; ar_archive : string; ar_objects : list string }.

(** One round of the loop: the arguments that it adds at the end of the queue. *)
Definition archive_arg (arg : string) (s : ar_state) : res (list string) * ar_state :=
  let c := ar_Flags s in
  if HasPrefix arg "-" then
    (Ok [], {| ar_Flags := add_flags [value_flag arg] c;
               ar_operation := if (arg =? "-t")%string then opPrint else if (arg =? "-d")%string then opDelete
                               else ar_operation s;
               ar_archive := ar_archive s; ar_objects := ar_objects s |})
  else if HasSuffix arg ".a" then
    (Ok [], {| ar_Flags := c; ar_operation := ar_operation s; ar_archive := arg; ar_objects := ar_objects s |})
  else if HasPrefix arg "@" then
    let arg := str_drop 1 arg in
    (Parse (OS.ReadFile w) (rsp_path c arg),
     {| ar_Flags := c; ar_operation := ar_operation s; ar_archive := ar_archive s; ar_objects := ar_objects s ++ [arg] |})
  else
    (Ok [], {| ar_Flags := c; ar_operation := ar_operation s; ar_archive := ar_archive s;
               ar_objects := ar_objects s ++ [arg] |}).

Fixpoint archive_loop (fuel : nat) (nextArgs : list string) (s : ar_state) : res unit * ar_state :=
  match nextArgs with
  | [] => (Ok tt, s)
  | arg :: nextArgs =>
      match fuel with
      | 0 => (Fail EFuel, s)
      | S fuel =>
          match archive_arg arg s with
          | (Ok rspFlags, s) => archive_loop fuel (nextArgs ++ rspFlags) s
          | (Fail e, s) => (Fail e, s)
          | (Panic, s) => (Panic, s)
          end
      end
  end.

Definition set_deps (l : list string) := map_flags id (λ _, l) id id id id id id.
Definition set_outputs (l : list string) := map_flags id id (λ _, l) id id id id id.

Definition archive_flags (s : ar_state) : CommandFlags :=
  match ar_operation s with
  | opArchive => set_outputs [ar_archive s] (set_deps (ar_objects s) (ar_Flags s))
  | opDelete => set_outputs [ar_archive s] (set_deps [ar_archive s] (ar_Flags s))
  | opPrint => set_deps [ar_archive s] (ar_Flags s)
  end.

(** [ParseFlags] of the archive preprocessor; an error is not stored in [Err]. *)
Definition archive_ParseFlags (fuel : nat) : ST BasePreprocessor unit := λ b,
  match opt_Cmd (bp_Options b) with
  | [] => (Fail (EMsg "insufficient number of arguments in command"), b)
  | executable :: nextArgs =>
      let o := bp_Options b in
      let c := command_flags executable (opt_WorkingDir o) (opt_ExecRoot o) [] in
      match archive_loop fuel nextArgs {| ar_Flags := c; ar_operation := opArchive; ar_archive := ""; ar_objects := [] |} with
      | (Ok _, s) => FlagsToActionSpec (with_Flags b (archive_flags s))
      | (Fail e, s) => (Fail e, with_Flags b (ar_Flags s))
      | (Panic, s) => (Panic, with_Flags b (ar_Flags s))
      end
  end.

End env.

(** ** Preprocessors

    A preprocessor that embeds the base one has its state, and next to it the
    caches [X] that outlive the action. *)

Definition lift {X A} (m : ST BasePreprocessor A) : ST (BasePreprocessor * X) A := λ '(b, x),
  let '(r, b) := m b in (r, (b, x)).

(** [cache.SingleFlight.LoadOrStore]: a value is computed once and kept. *)
Definition load_or_store {V} (key : string) (compute : res V) : ST (gmap string V) V := λ m,
  match m !! key with
  | Some v => (Ok v, m)
  | None => match compute with
            | Ok v => (Ok v, <[key := v]> m)
            | Fail e => (Fail e, m)
            | Panic => (Panic, m)
            end
  end.

Section preprocessors.

Variable w : fs.
Variable fmc : option (string → res bool).

(** The base preprocessor with its parser and its last step overridden. *)
Definition embedding_Preprocessor {X} (parse : ST BasePreprocessor unit)
    (compute : ST (BasePreprocessor * X) unit) : Preprocessor (BasePreprocessor * X) := {|
  pp_Init := λ o s, (Init o s.1, s.2);
  pp_ParseFlags := lift parse;
  pp_ProcessToolchains := lift (ProcessToolchains w fmc);
  pp_ComputeSpec := compute;
  pp_Sanitize := lift (Sanitize w fmc);
  pp_Spec := λ s, Spec s.1 |}.

Definition javac_Preprocessor : Preprocessor (BasePreprocessor * unit) :=
  embedding_Preprocessor (ParseFlags_with (javac_parseFlags w)) (lift ComputeSpec).

(** An archive never looks for more than it found in its arguments. *)
Definition archive_Preprocessor (fuel : nat) : Preprocessor (BasePreprocessor * unit) :=
  embedding_Preprocessor (archive_ParseFlags w fuel) (lift ComputeSpec).

(** The output directories become virtual inputs too. *)
Definition append_output_dirs : ST BasePreprocessor unit := λ b,
  match Spec b with
  | Ok (Some s) =>
      (Ok tt, AppendSpec (new_ActionSpec (Some (set_VirtualInputs empty_InputSpec
                            (empty_directory <$> as_OutputDirectories s)))) b)
  | Ok None => (Panic, b)
  | Fail e => (Fail e, b)
  | Panic => (Panic, b)
  end.

Definition d8_Preprocessor : Preprocessor (BasePreprocessor * unit) :=
  embedding_Preprocessor (ParseFlags_with d8_parseFlags) (lift append_output_dirs).

(** *** [r8] *)

Definition includePrefix : string := "-include ".

Definition include_line (f line : string) : option string :=
  if HasPrefix line includePrefix
  then Some (Join [Dir f; str_drop (String.length includePrefix) line]) else None.

(** The closure [compute] of [includesInFlagsFile]. *)
Definition file_includes (execRoot workingDir f : string) : res (list string) :=
  let? content := OS.ReadFile w (Join [execRoot; workingDir; f]) in
  Ok (omap (include_line f) (text_lines content)).

(** The loop over the includes of one file: each is followed by its own. *)
Definition with_includes {S} (rec : string → ST S (list string)) : list string → ST S (list string) :=
  fix go l := match l with
  | [] => st_ret []
  | inc :: l =>
      let! subIncludes := rec inc in
      let! includes := go l in
      st_ret (inc :: subIncludes ++ includes)
  end.

Fixpoint includesInFlagsFile (fuel : nat) (execRoot workingDir f : string)
    : ST (gmap string (list string)) (list string) :=
  match fuel with
  | 0 => st_lift (Fail EFuel)
  | S fuel =>
      let! v := load_or_store f (file_includes execRoot workingDir f) in
      with_includes (includesInFlagsFile fuel execRoot workingDir) v
  end.

Definition is_flags_file (dep : string) : bool := mem (Ext dep) [".txt"; ".flags"].

Fixpoint dep_includes (fuel : nat) (execRoot workingDir : string) (deps : list string)
    : ST (gmap string (list string)) (list string) :=
  match deps with
  | [] => st_ret []
  | dep :: deps =>
      let! inc := if is_flags_file dep then includesInFlagsFile fuel execRoot workingDir dep else st_ret [] in
      let! incs := dep_includes fuel execRoot workingDir deps in
      st_ret (inc ++ incs)
  end.

Definition r8_ComputeSpec (fuel : nat) : ST (BasePreprocessor * gmap string (list string)) unit := λ '(b, m),
  match bp_Flags b with
  | None => (Panic, (b, m))
  | Some f =>
      let o := bp_Options b in
      match dep_includes fuel (opt_ExecRoot o) (opt_WorkingDir o) (Dependencies f) m with
      | (Ok incs, m) =>
          lift append_output_dirs (AppendSpec (new_ActionSpec (Some (set_Inputs empty_InputSpec incs))) b, m)
      | (Fail e, m) => (Fail e, (b, m))
      | (Panic, m) => (Panic, (b, m))
      end
  end.

Definition r8_Preprocessor (fuel : nat) : Preprocessor (BasePreprocessor * gmap string (list string)) :=
  embedding_Preprocessor (ParseFlags_with r8_parseFlags) (r8_ComputeSpec fuel).

(** *** [metalava]

    [Execute] is the executor of the preprocessor, when it is set: the standard
    output of a command, given its arguments, directory and environment. *)

Variable Execute : option (list string → string → gmap string string → res string).

(** [strings.FieldsFunc] *)
Fixpoint FieldsFunc (f : ascii → bool) (cur s : string) : list string :=
  match s with
  | EmptyString => if (cur =? "")%string then [] else [cur]
  | String a s =>
      if f a then if (cur =? "")%string then FieldsFunc f "" s else cur :: FieldsFunc f "" s
      else FieldsFunc f (cur +:+ String a "") s
  end.

Definition is_newline (a : ascii) : bool := contains_char a (String "010" (String "013" "")).

Fixpoint last_char (s : string) : option string :=
  match s with
  | EmptyString => None
  | String a "" => Some (String a "")
  | String _ s => last_char s
  end.

(** The group of [^[\w\s]+:\s*(.+)] on a line: what follows the colon and
    the white space, or one character of it when nothing else does. *)
Definition metalavaRE (l : string) : option string :=
  let rest := TrimLeftFunc (λ a, re_word a || re_space a) l in
  if (String.length rest <? String.length l)%nat then
    match rest with
    | String ":" r =>
        let g := TrimLeftFunc re_space r in
        if (g =? "")%string then last_char r else Some g
    | _ => None
    end
  else None.

(** The closure [compute] of [verifyMetalavaVersion]. *)
Definition metalava_version (b : BasePreprocessor) (executable : string) : res string :=
  match Execute with
  | None => Fail (EMsg "No executor passed to the toolchain input processor")
  | Some run =>
      let? s := Spec b in
      let? s := or_panic s in
      let? i := or_panic (as_InputSpec s) in
      let o := bp_Options b in
      let? stdout := run [executable; "--version"] (Join [opt_ExecRoot o; opt_WorkingDir o]) (EnvironmentVariables i) in
      or_fail (EMsg "Version check produced unexpected std out")
        (head (omap metalavaRE (FieldsFunc is_newline "" stdout)))
  end.

Definition verifyMetalavaVersion (want : string) : ST (BasePreprocessor * gmap string string) unit := λ '(b, m),
  match bp_Flags b with
  | None => (Panic, (b, m))
  | Some f =>
      match load_or_store (ExecutablePath f) (metalava_version b (ExecutablePath f)) m with
      | (Ok v, m) =>
          (if (v =? want)%string then Ok tt else Fail (EMsg "unexpected metalava version"), (b, m))
      | (Fail e, m) => (Fail e, (b, m))
      | (Panic, m) => (Panic, (b, m))
      end
  end.

Definition metalava_ComputeSpec : ST (BasePreprocessor * gmap string string) unit := λ s,
  match verifyMetalavaVersion "1.3.0" s with
  | (Fail e, (b, m)) => (Fail e, (with_Err b e, m))
  | r => r
  end.

Definition metalava_Preprocessor : Preprocessor (BasePreprocessor * gmap string string) :=
  embedding_Preprocessor (ParseFlags_with (metalava_parseFlags w)) metalava_ComputeSpec.

End preprocessors.

(** ** Response files of [javac] are transparent *)

Section javac.

Variable w : fs.

Definition javac_cfg : Scanner := new_Scanner [] javac_Flags javac_Joined ∅.

Lemma javac_Flags_lookup flag n :
  javac_Flags !! flag = Some n → n = 1%Z ∧ flag ∈ ["-bootclasspath"; "-classpath"; "-processorpath"; "-d"; "-s"].
Proof.
  unfold javac_Flags. rewrite !lookup_insert_Some, lookup_singleton_Some. set_solver.
Qed.

Lemma javac_requested flag : (0 ≤ ArgsScanner.requested javac_cfg flag)%Z.
Proof.
  unfold ArgsScanner.requested. change (sc_Flags javac_cfg) with javac_Flags.
  destruct (javac_Flags !! _) as [n|] eqn:E; [by apply javac_Flags_lookup in E as [-> _]|].
  cbn. repeat case_if; simpl; lia.
Qed.

(** The dependencies and the output directories that one result adds. *)
Definition no_flags : CommandFlags := command_flags "" "" "" [].
Definition javac_deps (r : FlagResult) : list string :=
  match javac_flag r no_flags with Ok f => Dependencies f | _ => [] end.
Definition javac_dirs (r : FlagResult) : list string :=
  match javac_flag r no_flags with Ok f => OutputDirPaths f | _ => [] end.

(** [c'] is [c] with these targets, dependencies, output directories and flags
    added. *)
Definition grows (c c' : CommandFlags) (ts ds os : list string) (fl : list Flag) : Prop :=
  TargetFilePaths c' = TargetFilePaths c ++ ts ∧ Dependencies c' = Dependencies c ++ ds ∧
  OutputDirPaths c' = OutputDirPaths c ++ os ∧ Flags c' = Flags c ++ fl ∧
  WorkingDirectory c' = WorkingDirectory c ∧ cf_ExecRoot c' = cf_ExecRoot c.

Lemma grows_trans c1 c2 c3 t1 t2 d1 d2 o1 o2 f1 f2 :
  grows c1 c2 t1 d1 o1 f1 → grows c2 c3 t2 d2 o2 f2 → grows c1 c3 (t1 ++ t2) (d1 ++ d2) (o1 ++ o2) (f1 ++ f2).
Proof.
  unfold grows. intros (T1 & D1 & O1 & F1 & W1 & E1) (T2 & D2 & O2 & F2 & W2 & E2).
  rewrite T2, D2, O2, F2, W2, E2, T1, D1, O1, F1, W1, E1, <- !app_assoc. done.
Qed.

Lemma grows_refl c : grows c c [] [] [] [].
Proof. unfold grows. by rewrite !app_nil_r. Qed.

Lemma javac_flag_grows r f :
  is_ok (javac_flag r no_flags) = true →
  ∃ f', javac_flag r f = Ok f' ∧ grows f f' [] (javac_deps r) (javac_dirs r) [].
Proof.
  unfold javac_deps, javac_dirs, javac_flag.
  destruct (index (Values r) 0) as [v|e|], (index (fr_Args r) 0) as [a|e'|];
    repeat case_if; simpl; intros H; try discriminate H;
    (eexists; split; [reflexivity|]; unfold grows; simpl; by rewrite ?app_nil_r).
Qed.

(** The parser never looks past the values that the scanner gave it. *)
Lemma javac_read_ok sc r sc' :
  same_config javac_cfg sc → ReadNextFlag sc = Ok (r, sc') → is_ok (javac_flag r no_flags) = true.
Proof.
  intros (HF & HJ & HN) H. pose proof (ReadNextFlag_Ok _ _ _ H) as (Ha & Hne & _ & _ & _).
  destruct (fr_Args r) as [|a rest] eqn:Er; [done|].
  revert H. unfold ReadNextFlag, normalizedFlag. rewrite HF, HJ, HN, Ha.
  change (index ((a :: rest) ++ sc_Args sc') 0) with (Ok a). rewrite bind_Ok.
  change (default a (sc_Normalized javac_cfg !! a)) with a. change (sc_Flags javac_cfg) with javac_Flags.
  destruct (javac_Flags !! a) as [n|] eqn:En.
  - apply javac_Flags_lookup in En as [-> _].
    change ((a :: rest) ++ sc_Args sc') with (a :: (rest ++ sc_Args sc')). destruct (rest ++ sc_Args sc') as [|v l]; [done|].
    change (take_args (a :: v :: l) 1) with (Ok ([a; v], l)). intros [= <- _].
    unfold javac_flag. cbn [NormalizedKey Values fr_Args]. by repeat case_if.
  - destruct (List.find _ _) as [p|] eqn:Ef.
    + intros H. apply bind_Ok_inv in H as ([args rest'] & _ & H). injection H as <- _.
      unfold javac_flag. cbn [NormalizedKey Values fr_Args] in *. rewrite Er.
      change (index (TrimPrefix a (Prefix p) :: drop 1 args) 0) with (Ok (TrimPrefix a (Prefix p))).
      change (index (a :: rest) 0) with (Ok a). by repeat case_if.
    + intros H. apply bind_Ok_inv in H as ([args rest'] & _ & H). revert H.
      assert (∀ l, mem a l = true → Forall (λ x, is_Some (javac_Flags !! x)) l → False) as Hmem.
      { intros l Hl%mem_spec Hf. rewrite Forall_forall in Hf. apply Hf in Hl. rewrite En in Hl. by destruct Hl. }
      destruct (HasPrefix a "-") eqn:Ed; intros [= <- _]; cbn [fr_Args] in Er; subst args;
        unfold javac_flag; cbn [NormalizedKey Values fr_Args]; [|done].
      destruct (mem a ["-bootclasspath"; _; _]) eqn:E1.
      { exfalso. apply (Hmem _ E1), (bool_decide_unpack _). by vm_compute. }
      destruct (mem a ["--system="; _]) eqn:E2.
      { exfalso. apply mem_spec in E2. repeat apply elem_of_cons in E2 as [->|E2]; [by vm_compute in Ef..|set_solver]. }
      destruct (mem a ["-d"; _]) eqn:E3; [exfalso; apply (Hmem _ E3), (bool_decide_unpack _); by vm_compute|].
      change (index (a :: rest) 0) with (Ok a). by case_if.
Qed.

Lemma read_all_Forall (P : FlagResult → Prop) cfg args rs :
  (∀ sc r sc', same_config cfg sc → ReadNextFlag sc = Ok (r, sc') → P r) →
  read_all cfg args = Ok rs → Forall P rs.
Proof.
  intros HP. remember (length args) as n eqn:Hn. revert args Hn rs.
  induction n as [n IH] using lt_wf_ind; intros args -> rs H.
  destruct (decide (args = [])) as [->|Hne]; [unfold read_all in H; simpl in H; injection H as <-; constructor|].
  apply read_all_inv in H as (r & s & rs' & -> & Hr & Hrs); [|done].
  constructor; [by eapply HP, Hr|]. apply (IH (length (sc_Args s))) with (sc_Args s); [|done..].
  apply ReadNextFlag_shorter in Hr. by simpl in Hr.
Qed.

Definition current_scanner (r : FlagResult) : Scanner :=
  {| sc_Args := []; sc_Flags := javac_Flags; sc_Joined := javac_Joined; sc_Normalized := ∅;
     PrevResult := zero_FlagResult; CurResult := r |}.

Lemma handleJavacFlags_current sc st :
  same_config javac_cfg sc → handleJavacFlags w sc st = handleJavacFlags w (current_scanner (CurResult sc)) st.
Proof.
  intros (HF & HJ & HN). unfold handleJavacFlags, handle_flags, ParseWithFunc. destruct st as [c x].
  rewrite HF, HJ, HN. done.
Qed.

(** The flags of one argument that is not a response file. *)
Definition plain (r : FlagResult) : Prop :=
  ∃ a l, fr_Args r = a :: l ∧ HasPrefix a "@" = false ∧ is_ok (javac_flag r no_flags) = true.

Definition arg_flags (rs : list FlagResult) : list Flag := value_flag <$> concat (fr_Args <$> rs).

Lemma javac_arg_grows r sc c f x :
  CurResult sc = r → is_ok (javac_flag r no_flags) = true →
  ∃ f', javac_arg sc (c, f, x) = (Ok tt, (c, f', x)) ∧
        grows f f' [] (javac_deps r) (javac_dirs r) (value_flag <$> fr_Args r) ∧ OutputFilePaths f' = OutputFilePaths f.
Proof.
  intros <- Hok. destruct (javac_flag_grows _ f Hok) as (f' & E & Hg). unfold javac_arg. rewrite E.
  eexists. split; [done|]. split.
  - destruct Hg as (H1 & H2 & H3 & H4 & H5 & H6). unfold grows. simpl. by rewrite H1, H2, H3, H4, H5, H6, !app_nil_r.
  - simpl. revert E. unfold javac_flag.
    destruct (index (Values (CurResult sc)) 0), (index (fr_Args (CurResult sc)) 0); repeat case_if; simpl; by intros [= <-].
Qed.

Lemma handle_plain r c :
  plain r →
  ∃ c', handleJavacFlags w (current_scanner r) (c, tt) = (Ok tt, (c', tt)) ∧
        grows c c' [] (javac_deps r) (javac_dirs r) (value_flag <$> fr_Args r).
Proof.
  intros (a & l & Ha & Hat & Hok). unfold handleJavacFlags, handle_flags. simpl CurResult. rewrite Ha.
  change (index (a :: l) 0) with (Ok a). cbv beta iota. rewrite Hat.
  destruct (javac_arg_grows r (current_scanner r) c (temp_flags c) tt eq_refl Hok) as (f' & -> & Hg & Ho).
  eexists. split; [done|]. destruct Hg as (H1 & H2 & H3 & H4 & _). rewrite <- Ha.
  unfold grows, merge_outputs. simpl in *. rewrite H2, H3, H4, !app_nil_r. done.
Qed.

Lemma fold_plain rs c :
  Forall plain rs →
  ∃ c', fold_results (λ r, handleJavacFlags w (current_scanner r)) rs (c, tt) = (Ok tt, (c', tt)) ∧
        grows c c' [] (rs ≫= javac_deps) (rs ≫= javac_dirs) (arg_flags rs).
Proof.
  revert c. induction rs as [|r rs IH]; intros c Hrs; simpl; [exists c; split; [done|apply grows_refl]|].
  apply Forall_cons in Hrs as [Hr Hrs]. destruct (handle_plain r c Hr) as (c1 & E1 & G1).
  destruct (IH c1 Hrs) as (c2 & E2 & G2). exists c2. unfold st_bind. rewrite E1. split; [done|].
  unfold arg_flags in *. simpl. rewrite fmap_app. by apply (grows_trans _ _ _ [] [] _ _ _ _ _ _ G1 G2).
Qed.

Lemma fold_arg rs c f :
  Forall plain rs →
  ∃ f', fold_results (λ r, javac_arg (current_scanner r)) rs (c, f, tt) = (Ok tt, (c, f', tt)) ∧
        grows f f' [] (rs ≫= javac_deps) (rs ≫= javac_dirs) (arg_flags rs) ∧ OutputFilePaths f' = OutputFilePaths f.
Proof.
  revert f. induction rs as [|r rs IH]; intros f Hrs; simpl; [exists f; split_and!; [done|apply grows_refl|done]|].
  apply Forall_cons in Hrs as [(a & l & _ & _ & Hok) Hrs].
  destruct (javac_arg_grows r (current_scanner r) c f tt eq_refl Hok) as (f1 & E1 & G1 & O1).
  destruct (IH f1 Hrs) as (f2 & E2 & G2 & O2). exists f2. unfold st_bind. rewrite E1, O2. split_and!; [done| |done].
  unfold arg_flags in *. simpl. rewrite fmap_app. by apply (grows_trans _ _ _ [] [] _ _ _ _ _ _ G1 G2).
Qed.

(** The result of reading a response file. *)
Definition rsp_result (file : string) : FlagResult :=
  {| fr_Args := ["@" +:+ file]; NormalizedKey := ""; ArgsScanner.OriginalKey := ""; Values := ["@" +:+ file]; fr_Joined := false |}.

Lemma read_rsp file : read_all javac_cfg ["@" +:+ file] = Ok [rsp_result file].
Proof.
  apply (read_all_cons _ _ _ {| sc_Args := []; sc_Flags := javac_Flags; sc_Joined := javac_Joined;
    sc_Normalized := ∅; PrevResult := zero_FlagResult; CurResult := rsp_result file |}); [|done].
  assert (javac_Flags !! ("@" +:+ file) = None) as E.
  { destruct (javac_Flags !! ("@" +:+ file)) as [n|] eqn:E; [|done].
    apply javac_Flags_lookup in E as [_ E]. repeat (apply elem_of_cons in E as [E|E]; [done|]). by apply elem_of_nil in E. }
  unfold ReadNextFlag. change (index _ 0) with (Ok ("@" +:+ file)). rewrite bind_Ok. cbv zeta.
  change (normalizedFlag _ ("@" +:+ file)) with ("@" +:+ file).
  change (sc_Flags _) with javac_Flags. by rewrite E.
Qed.

Lemma handle_rsp file args rs c :
  Parse (OS.ReadFile w) (rsp_path c file) = Ok args → read_all javac_cfg args = Ok rs → Forall plain rs →
  ∃ c', handleJavacFlags w (current_scanner (rsp_result file)) (c, tt) = (Ok tt, (c', tt)) ∧
        grows c c' [file] (rs ≫= javac_deps) (rs ≫= javac_dirs) [value_flag ("@" +:+ file)].
Proof.
  intros Hp Hr Hrs. unfold handleJavacFlags, handle_flags, ParseWithFunc, st_bind, st_lift.
  change (index _ 0) with (Ok ("@" +:+ file)). cbv beta iota zeta.
  change (HasPrefix ("@" +:+ file) "@") with true. change (str_drop 1 ("@" +:+ file)) with file. cbv iota. rewrite Hp.
  set (c1 := add_flags _ _).
  rewrite (scan_loop_fold javac_cfg javac_arg (λ r, javac_arg (current_scanner r)) args rs) by done.
  destruct (fold_arg rs c1 (temp_flags c) Hrs) as (f' & -> & Hg & Ho).
  eexists. split; [done|]. destruct Hg as (H1 & H2 & H3 & _). subst c1.
  unfold grows, merge_outputs. simpl in *. by rewrite H2, H3.
Qed.

Lemma fold_results_app {S} (g : FlagResult → ST S unit) rs1 rs2 st :
  fold_results g (rs1 ++ rs2) st = st_bind (fold_results g rs1) (λ _, fold_results g rs2) st.
Proof.
  revert st. induction rs1 as [|r rs1 IH]; intros st; [done|]. simpl. unfold st_bind in *.
  destruct (g r st) as [[[]|e|] st']; [apply IH|done..].
Qed.

Lemma read_plain args rs :
  read_all javac_cfg args = Ok rs → Forall (λ a, HasPrefix a "@" = false) args → Forall plain rs.
Proof.
  intros Hr Ha. pose proof (read_all_args _ _ _ Hr) as E. subst args.
  pose proof (read_all_Forall (λ r, fr_Args r ≠ [] ∧ is_ok (javac_flag r no_flags) = true) _ _ _
    (λ sc r sc' Hc H, conj (proj1 (proj2 (ReadNextFlag_Ok _ _ _ H))) (javac_read_ok sc r sc' Hc H)) Hr) as Hok.
  clear Hr. induction rs as [|r rs IH]; [done|]. simpl in Ha. apply Forall_app in Ha as [Ha Hrest].
  apply Forall_cons in Hok as [[Hne Hok] Hoks]. constructor; [|by apply IH].
  destruct (fr_Args r) as [|a l] eqn:E; [done|]. apply Forall_cons in Ha as [Ha _]. by exists a, l.
Qed.

Lemma javac_parse executable wd er args c :
  args ≠ [] → is_ok (read_all javac_cfg args) = true →
  (∀ rs, read_all javac_cfg args = Ok rs →
    fold_results (λ r, handleJavacFlags w (current_scanner r)) rs (command_flags executable wd er [], tt) = (Ok tt, (c, tt))) →
  javac_parseFlags w (executable :: args) wd er = Ok c.
Proof.
  intros Hne Hok Hf. unfold javac_parseFlags, with_command. destruct args as [|a args]; [done|].
  destruct (read_all javac_cfg (a :: args)) as [rs|e|] eqn:Hr; [|done..]. unfold parse_loop.
  rewrite (scan_loop_fold javac_cfg _ (λ r, handleJavacFlags w (current_scanner r)) (a :: args) rs);
    [|intros; by apply handleJavacFlags_current|done..]. by rewrite Hf.
Qed.

(** A response file of [javac] is transparent.  Naming the file yields the
    dependencies and the output directories that its arguments would yield in
    its place; the file is the target, and the flags of the command stay as
    they were typed. *)
Theorem javac_rsp_transparent executable wd er l1 file args l2 :
  Parse (OS.ReadFile w) (rsp_path (command_flags executable wd er []) file) = Ok args → args ≠ [] →
  is_ok (read_all javac_cfg l1) = true → is_ok (read_all javac_cfg args) = true →
  is_ok (read_all javac_cfg l2) = true → Forall (λ a, HasPrefix a "@" = false) (l1 ++ args ++ l2) →
  ∃ c1 c2,
    javac_parseFlags w (executable :: l1 ++ ("@" +:+ file) :: l2) wd er = Ok c1 ∧
    javac_parseFlags w (executable :: l1 ++ args ++ l2) wd er = Ok c2 ∧
    Dependencies c1 = Dependencies c2 ∧ OutputDirPaths c1 = OutputDirPaths c2 ∧
    TargetFilePaths c1 = [file] ∧ Flags c1 = value_flag <$> l1 ++ ("@" +:+ file) :: l2.
Proof.
  intros Hp Hne H1 Ha H2 Hat. apply Forall_app in Hat as [At1 [Ata At2]%Forall_app].
  destruct (read_all javac_cfg l1) as [rs1|e|] eqn:R1; [|done..].
  destruct (read_all javac_cfg args) as [rsa|e|] eqn:Ra; [|done..].
  destruct (read_all javac_cfg l2) as [rs2|e|] eqn:R2; [|done..]. clear H1 Ha H2.
  pose proof (read_plain _ _ R1 At1) as P1. pose proof (read_plain _ _ Ra Ata) as Pa. pose proof (read_plain _ _ R2 At2) as P2.
  pose proof (read_all_app _ _ _ _ _ javac_requested R1
    (read_all_app _ _ _ _ _ javac_requested (read_rsp file) R2)) as Rr. simpl in Rr.
  pose proof (read_all_app _ _ _ _ _ javac_requested R1 (read_all_app _ _ _ _ _ javac_requested Ra R2)) as Rl.
  set (c0 := command_flags executable wd er []) in *.
  destruct (fold_plain rs1 c0 P1) as (c1 & E1 & G1).
  destruct (handle_rsp file args rsa c1) as (c2 & E2 & G2); [|done..|].
  { destruct G1 as (_ & _ & _ & _ & HW & HE). unfold rsp_path in *. by rewrite HW, HE. }
  destruct (fold_plain rs2 c2 P2) as (c3 & E3 & G3).
  destruct (fold_plain (rs1 ++ rsa ++ rs2) c0) as (c4 & E4 & G4); [by repeat apply Forall_app_2|].
  exists c3, c4. split; [|split].
  - apply javac_parse; [by destruct l1|by rewrite Rr|]. intros rs. rewrite Rr. intros [= <-].
    fold c0. rewrite fold_results_app. unfold st_bind. rewrite E1. simpl. unfold st_bind. by rewrite E2, E3.
  - apply javac_parse; [by destruct l1, args|by rewrite Rl|]. intros rs. rewrite Rl. by intros [= <-].
  - pose proof (grows_trans _ _ _ _ _ _ _ _ _ _ _ G1 (grows_trans _ _ _ _ _ _ _ _ _ _ _ G2 G3)) as G.
    destruct G as (T & D & O & F & _), G4 as (_ & D4 & O4 & _). rewrite T, D, O, F, D4, O4, !bind_app. simpl.
    split_and!; [done..|]. rewrite fmap_app. simpl.
    unfold arg_flags. by rewrite <- (read_all_args _ _ _ R1), <- (read_all_args _ _ _ R2).
Qed.

End javac.

(** ** The includes of [r8] flag files *)

Section r8.

Variable w : fs.
Variables er wd : string.

(** What the cache holds is what the files say. *)
Definition fresh (m : gmap string (list string)) : Prop :=
  ∀ f v, m !! f = Some v → file_includes w er wd f = Ok v.

(** The includes of a file, those of each include after it: no cache. *)
Definition include_list (rec : string → res (list string)) : list string → res (list string) :=
  fix go l := match l with
  | [] => Ok []
  | inc :: l => let? sub := rec inc in let? rest := go l in Ok (inc :: sub ++ rest)
  end.

Fixpoint include_tree (fuel : nat) (f : string) : res (list string) :=
  match fuel with
  | 0 => Fail EFuel
  | S fuel => let? v := file_includes w er wd f in include_list (include_tree fuel) v
  end.

Lemma load_fresh f m :
  fresh m → (load_or_store f (file_includes w er wd f) m).1 = file_includes w er wd f ∧
            fresh (load_or_store f (file_includes w er wd f) m).2.
Proof.
  intros Hm. unfold load_or_store. destruct (m !! f) as [v|] eqn:E; [by rewrite (Hm f v E)|].
  destruct (file_includes w er wd f) as [v|e|] eqn:Ev; simpl; split; try done.
  intros g v'. rewrite lookup_insert_Some. intros [[<- <-]|[_ H]]; [done|]. by apply Hm.
Qed.

Lemma includes_tree fuel f m :
  fresh m → (includesInFlagsFile w fuel er wd f m).1 = include_tree fuel f ∧
            fresh (includesInFlagsFile w fuel er wd f m).2.
Proof.
  revert f m. induction fuel as [|fuel IH]; intros f m Hm; simpl; [done|]. unfold st_bind.
  destruct (load_fresh f m Hm) as [E Hm1].
  destruct (load_or_store f (file_includes w er wd f) m) as [r m1]. simpl in E, Hm1. rewrite <- E.
  destruct r as [v|e|]; simpl; [|done..]. clear E Hm m f. rename m1 into m.
  revert m Hm1. induction v as [|inc v IHv]; intros m Hm; simpl; [done|]. unfold st_bind.
  destruct (IH inc m Hm) as [E Hm1]. rewrite <- E.
  destruct (includesInFlagsFile _ _ _ _ inc m) as [[sub|e|] m1]; simpl in *; [|done..].
  destruct (IHv m1 Hm1) as [E2 Hm2]. rewrite <- E2.
  by destruct (with_includes _ v m1) as [[rest|e|] m2].
Qed.

Context (reached : string → Prop) (rank : string → nat).

(** Going to an include of a reached file goes down in [rank]: there is no
    cycle. *)
Hypothesis acyclic : ∀ f v g,
  reached f → file_includes w er wd f = Ok v → g ∈ v → reached g ∧ rank g < rank f.

Lemma file_includes_no_fuel f : file_includes w er wd f ≠ Fail EFuel.
Proof.
  unfold file_includes, OS.ReadFile, OS.Stat. case_if; simpl; [done|].
  by destruct (w !! _) as [[]|].
Qed.

Lemma include_tree_fuel fuel f :
  reached f → rank f < fuel →
  include_tree fuel f = include_tree (S (rank f)) f ∧ include_tree fuel f ≠ Fail EFuel.
Proof.
  remember (rank f) as n eqn:Hn. revert f Hn fuel.
  induction n as [n IH] using lt_wf_ind; intros f -> fuel Hr Hf. destruct fuel as [|fuel]; [lia|]. simpl.
  pose proof (file_includes_no_fuel f) as Hne. pose proof (acyclic f) as Hac.
  destruct (file_includes w er wd f) as [v|e|]; simpl; [|split; congruence|done]. clear Hne.
  assert (∀ g, g ∈ v → reached g ∧ rank g < rank f) as Hlt by eauto. clear Hac.
  induction v as [|inc v IHv]; [done|]. simpl.
  destruct (Hlt inc) as [Hri Hi]; [left|].
  destruct (IH (rank inc) Hi inc eq_refl fuel Hri ltac:(lia)) as [E1 N1].
  destruct (IH (rank inc) Hi inc eq_refl (rank f) Hri Hi) as [E2 N2].
  destruct IHv as [E N]; [intros g Hg; apply Hlt; by right|].
  rewrite E2, <- E1. destruct (include_tree fuel inc) as [sub|e|]; simpl; [|split; congruence|done].
  rewrite <- E. destruct (include_list _ v) as [rest|e|]; simpl; [done|split; congruence|done].
Qed.

(** When no flags file includes itself, directly or not, collecting the
    includes ends, and yields the tree of includes whatever the cache holds
    already. *)
Theorem includes_acyclic fuel f m :
  fresh m → reached f → rank f < fuel →
  (includesInFlagsFile w fuel er wd f m).1 = include_tree (S (rank f)) f ∧
  include_tree (S (rank f)) f ≠ Fail EFuel.
Proof.
  intros Hm Hr Hf. destruct (includes_tree fuel f m Hm) as [-> _].
  destruct (include_tree_fuel fuel f Hr Hf) as [E N]. by rewrite <- E.
Qed.

End r8.

(** A file that includes itself is read for ever. *)
Lemma includes_cycle w er wd fuel f m :
  fresh w er wd m → file_includes w er wd f = Ok [f] → (includesInFlagsFile w fuel er wd f m).1 = Fail EFuel.
Proof.
  intros Hm Hf. destruct (includes_tree w er wd fuel f m Hm) as [-> _]. clear m Hm.
  induction fuel as [|fuel IH]; [done|]. simpl. rewrite Hf. simpl. by rewrite IH.
Qed.

(** ** The loops of the parsers end *)

Lemma parse_loop_no_fuel upd sc c x :
  (∀ r c, upd r c ≠ Fail EFuel) → parse_loop (pure_step upd) sc c x ≠ Fail EFuel.
Proof.
  intros Hu. unfold parse_loop. destruct (scan_loop _ _ _ _) as [m s] eqn:E.
  apply scan_loop_outcome in E as [->|[->|(e & sc1 & [c1 x1] & -> & H)]]; [done..| |lia].
  unfold pure_step in H. pose proof (Hu (CurResult sc1) c1). destruct (upd _ _); [done|congruence|done].
Qed.

Lemma ReadFile_no_fuel w p : OS.ReadFile w p ≠ Fail EFuel.
Proof. unfold OS.ReadFile, OS.Stat. case_if; simpl; [done|]. by destruct (w !! _) as [[]|]. Qed.

Lemma Parse_no_fuel w p : Parse (OS.ReadFile w) p ≠ Fail EFuel.
Proof. unfold Parse. pose proof (ReadFile_no_fuel w p). destruct (OS.ReadFile w p); simpl; congruence. Qed.

Lemma index_no_fuel {A B} (l : list A) i (k : A → res B) :
  (∀ a, k a ≠ Fail EFuel) → index l i ≫= k ≠ Fail EFuel.
Proof. intros H. unfold index. destruct (l !! i); simpl; [apply H|done]. Qed.

(** Closes a goal that says a computation made of reads, index expressions and
    updates does not run out of fuel. *)
Ltac no_fuel :=
  repeat match goal with
  | |- (index _ _ ≫= _) ≠ _ => apply index_no_fuel; intros ?
  | |- (if ?b then _ else _) ≠ _ => destruct b
  | |- Ok _ ≠ _ => done
  | |- context [Parse (OS.ReadFile ?w) ?p] =>
      let H := fresh in pose proof (Parse_no_fuel w p) as H; destruct (Parse (OS.ReadFile w) p); simpl; try congruence
  end.

Lemma r8_flag_no_fuel r c : r8_flag r c ≠ Fail EFuel.
Proof. unfold r8_flag. no_fuel. Qed.

Lemma d8_flag_no_fuel r c : d8_flag r c ≠ Fail EFuel.
Proof. unfold d8_flag. no_fuel. Qed.

Lemma javac_flag_no_fuel r c : javac_flag r c ≠ Fail EFuel.
Proof. unfold javac_flag. no_fuel. Qed.

Lemma metalava_other_no_fuel w wd er flag args values c : metalava_other w wd er flag args values c ≠ Fail EFuel.
Proof. unfold metalava_other. no_fuel. Qed.

Lemma metalava_deps_no_fuel w wd er v : metalava_deps w wd er v ≠ Fail EFuel.
Proof. unfold metalava_deps. no_fuel. Qed.

Lemma javac_arg_no_fuel sc st : (javac_arg sc st).1 ≠ Fail EFuel.
Proof.
  destruct st as [[c f] x]. unfold javac_arg. pose proof (javac_flag_no_fuel (CurResult sc) f).
  destruct (javac_flag _ f); simpl; congruence.
Qed.

Lemma handleJavacFlags_no_fuel w sc st : (handleJavacFlags w sc st).1 ≠ Fail EFuel.
Proof.
  destruct st as [c x]. unfold handleJavacFlags, handle_flags, index.
  destruct (fr_Args (CurResult sc) !! 0) as [a|]; cbn [or_panic]; [|done]. destruct (HasPrefix a "@").
  - unfold ParseWithFunc, st_bind, st_lift.
    pose proof (Parse_no_fuel w (rsp_path c (str_drop 1 a))). destruct (Parse _ _) as [args|e|]; simpl; [|congruence|done].
    destruct (scan_loop _ _ _ _) as [m [[c2 f2] x2]] eqn:E.
    apply scan_loop_outcome in E as [->|[->|(e & sc1 & st1 & -> & H1)]]; [done..| |done].
    pose proof (javac_arg_no_fuel sc1 st1) as Hn. rewrite H1 in Hn. simpl in *. congruence.
  - pose proof (javac_arg_no_fuel sc (c, temp_flags c, x)) as Hn.
    destruct (javac_arg sc (c, temp_flags c, x)) as [[[]|e|] [[c1 f1] x1]]; simpl in *; [done|congruence|done].
Qed.

Lemma Next_shorter s r s' : Next s = Ok (r, s') → length (sc_Args s') < length (sc_Args s).
Proof.
  unfold Next. destruct (ReadNextFlag s) as [[fr s1]|e|] eqn:E; simpl; [|done..]. intros [= _ <-].
  by eapply ReadNextFlag_shorter.
Qed.

Lemma Next_no_fail s e : Next s ≠ Fail e.
Proof. unfold Next. pose proof (ReadNextFlag_no_fail s e). destruct (ReadNextFlag s) as [[fr s1]|e'|]; simpl; congruence. Qed.

Lemma wants_value_spec flag s :
  (∀ e, wants_value flag s ≠ Fail e) ∧
  ∀ b s', wants_value flag s = Ok (b, s') → length (sc_Args s') = length (sc_Args s).
Proof.
  unfold wants_value. case_if; [|split; [done|by intros b s' [= <- <-]]]. unfold LookAhead, Next.
  pose proof (ReadNextFlag_no_fail s) as Hn. destruct (ReadNextFlag s) as [[r s1]|e|] eqn:E; simpl; [|congruence|done].
  split; [done|]. intros b s' [= _ <-]. simpl. apply ReadNextFlag_Ok in E as (-> & _). done.
Qed.

Lemma metalava_loop_no_fuel w wd er fuel s c :
  length (sc_Args s) ≤ fuel → metalava_loop w fuel wd er s c ≠ Fail EFuel.
Proof.
  revert s c. induction fuel as [|fuel IH]; intros s c Hf; simpl; unfold HasNext.
  { by rewrite bool_decide_false by lia. }
  case_bool_decide; [|done]. destruct (Next s) as [[[[[flag args] values] j] s1]|e|] eqn:E1; simpl;
    [|by apply Next_no_fail in E1|done].
  apply Next_shorter in E1. destruct (wants_value_spec flag s1) as [Hn Hl].
  destruct (wants_value flag s1) as [[b s2]|e|]; simpl; [|by destruct (Hn e)|done].
  specialize (Hl b s2 eq_refl). destruct b.
  - destruct (Next s2) as [[[[[flag2 args2] values2] j2] s3]|e|] eqn:E2; simpl; [|by apply Next_no_fail in E2|done].
    apply Next_shorter in E2. destruct (flag =? "-sourcepath")%string; [apply IH; lia|].
    unfold index. destruct (args2 !! 0) as [v|]; simpl; [|done].
    pose proof (metalava_deps_no_fuel w wd er v). destruct (metalava_deps w wd er v); simpl; [|congruence|done].
    apply IH. lia.
  - pose proof (metalava_other_no_fuel w wd er flag args values c).
    destruct (metalava_other _ _ _ _ _ _ _); simpl; [|congruence|done]. apply IH. lia.
Qed.

(** The parsers of Java tools end on every command. *)
Theorem parsers_end w command wd er :
  javac_parseFlags w command wd er ≠ Fail EFuel ∧ r8_parseFlags command wd er ≠ Fail EFuel ∧
  d8_parseFlags command wd er ≠ Fail EFuel ∧ metalava_parseFlags w command wd er ≠ Fail EFuel.
Proof.
  assert (∀ c upd sc, (∀ r c, upd r c ≠ Fail EFuel) →
    (let? (c, _) := parse_loop (pure_step upd) sc c tt in Ok c) ≠ Fail EFuel) as Hp.
  { intros c upd sc Hu. pose proof (parse_loop_no_fuel upd sc c tt Hu).
    destruct (parse_loop _ _ _ _) as [[c' []]|e|]; simpl; congruence. }
  unfold javac_parseFlags, r8_parseFlags, d8_parseFlags, metalava_parseFlags, with_command.
  destruct command as [|exe [|a rest]]; [done..|]. split_and!.
  - unfold parse_loop. destruct (scan_loop _ _ _ _) as [m [c' []]] eqn:E.
    apply scan_loop_outcome in E as [->|[->|(e & sc1 & st1 & -> & H)]]; [done..| |done].
    pose proof (handleJavacFlags_no_fuel w sc1 st1) as Hn. rewrite H in Hn. simpl in *. congruence.
  - apply Hp, r8_flag_no_fuel.
  - apply Hp, d8_flag_no_fuel.
  - by apply metalava_loop_no_fuel.
Qed.

End FlagParsers.

(** ** Witnesses and examples *)

Import FlagParsers.

Definition rsp_fs : fs :=
  {["/r/out/srcs.rsp" := NFile "A.java B.java -d gen/classes" 420%Z; "/r/out/self.rsp" := NFile "@self.rsp" 420%Z;
    "/r/a.flags" := NFile ("-include b.flags" +:+ String "010" "-keep x") 420%Z; "/r/b.flags" := NFile "-keep y" 420%Z;
    "/r/loop.flags" := NFile "-include loop.flags" 420%Z]}.

Lemma javac_rsp_transparent_witness :
  Parse (OS.ReadFile rsp_fs) (rsp_path (command_flags "javac" "out" "/r" []) "srcs.rsp")
    = Ok ["A.java"; "B.java"; "-d"; "gen/classes"] ∧
  ∃ c1 c2,
    javac_parseFlags rsp_fs ("javac" :: ["-classpath"; "a.jar:b.jar"] ++ ("@" +:+ "srcs.rsp") :: ["-g"]) "out" "/r" = Ok c1 ∧
    javac_parseFlags rsp_fs ("javac" :: ["-classpath"; "a.jar:b.jar"] ++ ["A.java"; "B.java"; "-d"; "gen/classes"] ++ ["-g"])
      "out" "/r" = Ok c2 ∧
    Dependencies c1 = Dependencies c2 ∧ OutputDirPaths c1 = OutputDirPaths c2 ∧
    TargetFilePaths c1 = ["srcs.rsp"] ∧
    Flags c1 = value_flag <$> ["-classpath"; "a.jar:b.jar"] ++ ("@" +:+ "srcs.rsp") :: ["-g"].
Proof.
  assert (Parse (OS.ReadFile rsp_fs) (rsp_path (command_flags "javac" "out" "/r" []) "srcs.rsp")
    = Ok ["A.java"; "B.java"; "-d"; "gen/classes"]) as Hp by (vm_compute; reflexivity).
  split; [exact Hp|].
  apply (javac_rsp_transparent rsp_fs "javac" "out" "/r" ["-classpath"; "a.jar:b.jar"] "srcs.rsp"
    ["A.java"; "B.java"; "-d"; "gen/classes"] ["-g"] Hp); [done|vm_compute; reflexivity..|].
  apply (bool_decide_unpack _). vm_compute. done.
Defined.

Definition rank_example (f : string) : nat := if (f =? "a.flags")%string then 1 else 0.

Lemma includes_acyclic_witness :
  (includesInFlagsFile rsp_fs 5 "/r" "" "a.flags" ∅).1 = include_tree rsp_fs "/r" "" 2 "a.flags" ∧
  include_tree rsp_fs "/r" "" 2 "a.flags" ≠ Fail EFuel.
Proof.
  apply (includes_acyclic rsp_fs "/r" "" (λ f, f = "a.flags" ∨ f = "b.flags") rank_example).
  - intros f v g [-> | ->] H Hg.
    + assert (file_includes rsp_fs "/r" "" "a.flags" = Ok ["b.flags"]) as E by (vm_compute; reflexivity).
      rewrite E in H. injection H as <-. apply list_elem_of_singleton in Hg as ->. split; [by right|]. vm_compute. lia.
    + assert (file_includes rsp_fs "/r" "" "b.flags" = Ok []) as E by (vm_compute; reflexivity).
      rewrite E in H. injection H as <-. by apply elem_of_nil in Hg.
  - done.
  - by left.
  - vm_compute. lia.
Defined.

(** A flags file that includes itself, and a response file that names itself. *)
Example self_include fuel : (includesInFlagsFile rsp_fs fuel "/r" "" "loop.flags" ∅).1 = Fail EFuel.
Proof. apply includes_cycle; [done|vm_compute; reflexivity]. Qed.

Definition archive_state (objs : list string) : ar_state :=
  {| ar_Flags := command_flags "ar" "out" "/r" []; ar_operation := opArchive; ar_archive := "x.a"; ar_objects := objs |}.

Lemma archive_runaway fuel objs :
  (archive_loop rsp_fs fuel ["@self.rsp"] (archive_state objs)).1 = Fail EFuel.
Proof.
  revert objs. induction fuel as [|fuel IH]; intros objs; [done|]. cbn [archive_loop].
  change (archive_arg rsp_fs "@self.rsp" (archive_state objs)) with
    (Parse (OS.ReadFile rsp_fs) "/r/out/self.rsp", archive_state (objs ++ ["self.rsp"])).
  assert (Parse (OS.ReadFile rsp_fs) "/r/out/self.rsp" = Ok ["@self.rsp"]) as -> by (vm_compute; reflexivity).
  apply IH.
Qed.

(** [--rewrite-annotations] is listed both as an input and as an output: the
    directory that it writes is lost when another argument follows. *)
Example rewrite_annotations_lost :
  (λ c, (OutputDirPaths c, Dependencies c)) <$>
    metalava_parseFlags rsp_fs ["metalava"; "--rewrite-annotations"; "gen"; "A.java"] "out" "/r"
  = Ok ([], ["A.java"]).
Proof. vm_compute. reflexivity. Qed.

(** Caches are keyed by relative names: a second action that runs elsewhere gets
    the includes of the first. *)
Example include_cache_is_global :
  let fs2 := <["/q/a.flags" := NFile "-include c.flags" 420%Z]> rsp_fs in
  let m := (includesInFlagsFile fs2 5 "/r" "" "a.flags" ∅).2 in
  (includesInFlagsFile fs2 5 "/q" "" "a.flags" m).1 = Ok ["b.flags"] ∧
  (includesInFlagsFile fs2 5 "/q" "" "a.flags" ∅).1 = Fail ENotExist.
Proof. vm_compute. done. Qed.
