(* ===== verification/ClangParser.v ===== *)
(** * Command lines of the clang family:
    [internal/pkg/inputprocessor/clangparser] and the flag parsers of
    [action/]{cppcompile, headerabi, clanglink, clangcl}

    The tables of options ([ClangOptions] and the like) are generated by the
    build from those of clang: they are the parameter [tables], which ClangTables.v
    makes.  What the package initializers change in them is modelled. *)
From S2P Require Import Prelude GoStrings GoPath ArgsScanner GoFS Command InputProcessor ArReader FlagParsers.
From Stdlib Require Import Ascii.
Import Filepath InputProcessor FlagParsers.

Module ClangParser.

Record tables := {
  ClangOptions : gmap string Z;
  ClangPrefixes : list PrefixOption;
  ClangNormalizedFlags : gmap string string;
  ClangCLOptions : gmap string Z;
  ClangCLPrefixes : list PrefixOption;
  ClangCLNormalizedFlags : gmap string string
}.

#[export] Instance prefix_ge_dec : RelDecision prefix_ge.
Proof. intros f g. unfold prefix_ge. apply _. Defined.

(** [sort.Slice] by decreasing prefix; prefixes that are equal stay in their
    order. *)
Definition sort_prefixes (l : list PrefixOption) : list PrefixOption := merge_sort prefix_ge l.

(** [init] of [clangparser]. *)
Definition init (t : tables) : tables := {|
  ClangOptions := <["--" := 0%Z]> (<["-fmax-tokens" := 1%Z]> (ClangOptions t));
  ClangPrefixes := sort_prefixes (ClangPrefixes t ++ [{| Prefix := "--coverage-data-file="; NumArgs := 0 |}]);
  ClangNormalizedFlags := ClangNormalizedFlags t;
  ClangCLOptions :=
    <["--" := 0%Z]> (<["-fprofile_use" := 0%Z]> (<["/showIncludes:user" := 0%Z]> (ClangCLOptions t)));
  ClangCLPrefixes := sort_prefixes (ClangCLPrefixes t ++ [{| Prefix := "-fprofile-use="; NumArgs := 0 |}]);
  ClangCLNormalizedFlags := ClangCLNormalizedFlags t |}.

(** [init] of [headerabi]: its map is that of clang, not a copy. *)
Definition abi_init (t : tables) : tables := {|
  ClangOptions := <["--root-dir" := 1%Z]> (ClangOptions t); ClangPrefixes := ClangPrefixes t;
  ClangNormalizedFlags := ClangNormalizedFlags t; ClangCLOptions := ClangCLOptions t;
  ClangCLPrefixes := ClangCLPrefixes t; ClangCLNormalizedFlags := ClangCLNormalizedFlags t |}.

Definition New (t : tables) (executable : string) (rest : list string) : Scanner :=
  let basename := Base executable in
  if (TrimSuffix basename (Ext basename) =? "clang-cl")%string
  then new_Scanner rest (ClangCLOptions t) (ClangCLPrefixes t) (ClangCLNormalizedFlags t)
  else new_Scanner rest (ClangOptions t) (ClangPrefixes t) (ClangNormalizedFlags t).

Record State := { objFile : string; hasCoverage : bool; hasSplit : bool; saveTemps : string }.

Definition zero_State : State := {| objFile := ""; hasCoverage := false; hasSplit := false; saveTemps := "" |}.

Definition set_objFile (s : State) (o : string) : State :=
  {| objFile := o; hasCoverage := hasCoverage s; hasSplit := hasSplit s; saveTemps := saveTemps s |}.
Definition set_hasCoverage (s : State) : State :=
  {| objFile := objFile s; hasCoverage := true; hasSplit := hasSplit s; saveTemps := saveTemps s |}.
Definition set_hasSplit (s : State) : State :=
  {| objFile := objFile s; hasCoverage := hasCoverage s; hasSplit := true; saveTemps := saveTemps s |}.
Definition set_saveTemps (s : State) (v : string) : State :=
  {| objFile := objFile s; hasCoverage := hasCoverage s; hasSplit := hasSplit s; saveTemps := v |}.

Section env.

Variable w : fs.
(** [runtime.GOOS == "darwin"] *)
Variable darwin : bool.

Definition thinltoBcExt : string := ".thinlto.bc".
Definition thinltoImportsExt : string := ".imports".

Definition collectThinLTODeps (execRoot workingDir bcFile : string) : res (list string) :=
  if negb (HasSuffix bcFile thinltoBcExt) then Fail (EMsg "thinlto bitcode file extension") else
  let importsFilepath := Replace1 bcFile thinltoBcExt thinltoImportsExt in
  match Parse (OS.ReadFile w) (Join [execRoot; workingDir; importsFilepath]) with
  | Ok importedFiles => Ok (bcFile :: importedFiles)
  | Fail e => if errors_Is e ENotExist then Ok [bcFile] else Fail (EWrap "failed to read thinlto import file" e)
  | Panic => Panic
  end.

(** The keys whose value is an input of the command. *)
Definition inputFlags : list string :=
  ["-B"; "-fprofile-use="; "-fsanitize-blacklist="; "-fsanitize-ignorelist="; "-fsanitize-coverage-allowlist=";
   "-fprofile-sample-use="; "--prefix="; "-fprofile-list="].

(** The switch of [HandleClangFlags]: true when the function returns there. *)
Definition clang_switch (key : string) (values : list string) (s : State) (f : CommandFlags)
    : res (bool * State * CommandFlags) :=
  if (key =? "-MD")%string then Ok (true, s, f)
  else if (key =? "-o")%string then
    let? v := index values 0 in Ok (true, set_objFile s v, add_outputs [v] f)
  else if (key =? "-MF")%string then
    let? v := index values 0 in Ok (true, s, set_emitted v (add_outputs [v] f))
  else if (key =? "-I")%string then
    let? v := index values 0 in Ok (false, s, add_includes [v] f)
  else if mem key inputFlags then
    let? v := index values 0 in Ok (false, s, add_deps [v] f)
  else if mem key ["--coverage"; "-ftest-coverage"] then Ok (false, set_hasCoverage s, f)
  else if (key =? "-isysroot")%string then
    if darwin then let? v := index values 0 in Ok (false, s, add_deps [Join [v; "SDKSettings.json"]] f)
    else Ok (false, s, f)
  else if (key =? "--coverage-data-file=")%string then
    let? v := index values 0 in Ok (false, s, add_outputs [v] f)
  else if (key =? "-gsplit-dwarf")%string then Ok (false, set_hasSplit s, f)
  else if (key =? "-fthinlto-index=")%string then
    let? v := index values 0 in
    let? deps := collectThinLTODeps (cf_ExecRoot f) (WorkingDirectory f) v in Ok (false, s, add_deps deps f)
  else if (key =? "--save-temps=")%string then
    let? v := index values 0 in Ok (false, set_saveTemps s (if (v =? "obj")%string then "obj" else "cwd"), f)
  else if (key =? "--save-temps")%string then Ok (false, set_saveTemps s "cwd", f)
  else if (key =? "")%string then
    Ok (true, s, match values with
                 | v :: _ => if HasPrefix v "@" then add_deps [str_drop 1 v] f else add_targets values f
                 | [] => add_targets values f
                 end)
  else Ok (false, s, f).

(** The flags that stand for a result that is not handled specially. *)
Definition kept_flags (r : FlagResult) (legacyBehavior : bool) : list Flag :=
  match Values r with
  | [] => if legacyBehavior then value_flag <$> fr_Args r
          else [NewFlag (NormalizedKey r) (ArgsScanner.OriginalKey r) "" (fr_Joined r)]
  | [v] => if legacyBehavior then value_flag <$> fr_Args r
           else [NewFlag (NormalizedKey r) (ArgsScanner.OriginalKey r) v (fr_Joined r)]
  | _ => value_flag <$> fr_Args r
  end.

Definition HandleClangFlags (r : FlagResult) (legacyBehavior : bool) : ST (State * CommandFlags) unit := λ '(s, f),
  match clang_switch (NormalizedKey r) (Values r) s f with
  | Ok (true, s, f) => (Ok tt, (s, f))
  | Ok (false, s, f) => (Ok tt, (s, add_flags (kept_flags r legacyBehavior) f))
  | Fail e => (Fail e, (s, f))
  | Panic => (Panic, (s, f))
  end.

(** The scanner has read the next flag. *)
Definition HandleClangFlagsFromScanner (legacyBehavior : bool) (sc : Scanner) : ST (State * CommandFlags) unit := λ '(s, c),
  match index (fr_Args (CurResult sc)) 0 with
  | Ok a =>
      let handleArgFunc sc := HandleClangFlags (CurResult sc) legacyBehavior in
      if HasPrefix a "@" then
        let rspFile := str_drop 1 a in
        let c' := add_flags [value_flag a] (add_deps [rspFile] c) in
        ParseWithFunc (OS.ReadFile w) (rsp_path c rspFile) sc handleArgFunc (s, c')
      else handleArgFunc sc (s, c)
  | Fail e => (Fail e, (s, c))
  | Panic => (Panic, (s, c))
  end.

(** The names of the files that [--save-temps] leaves for one source. *)
Definition temps (s : State) (f : CommandFlags) (srcFile : string) : list string :=
  let srcBase := Base srcFile in
  let srcName := TrimSuffix srcBase (Ext srcBase) in
  let savetempsBase :=
    if (saveTemps s =? "obj")%string && negb (objFile s =? "")%string
    then Join [Dir (objFile s); srcName] else Join [WorkingDirectory f; srcName] in
  (λ ext, savetempsBase +:+ ext) <$> [".i"; ".ii"; ".bc"; ".s"].

Definition Finalize (s : State) (f : CommandFlags) : CommandFlags :=
  let f := if (saveTemps s =? "")%string then f else add_outputs (TargetFilePaths f ≫= temps s f) f in
  if (objFile s =? "")%string then f else
  let base := TrimSuffix (objFile s) (Ext (objFile s)) in
  let f := if hasCoverage s then add_outputs [base +:+ ".gcno"] f else f in
  if hasSplit s then add_outputs [base +:+ ".dwo"] f else f.

(** A loop over the flags of a clang command, and [Finalize] after it. *)
Definition clang_parse (step : Scanner → ST (State * CommandFlags) unit) (sc : Scanner) (c : CommandFlags)
    : res CommandFlags :=
  match scan_loop (length (sc_Args sc)) sc step (zero_State, c) with
  | (Ok _, (s, c)) => Ok (Finalize s c)
  | (Fail e, _) => Fail e
  | (Panic, _) => Panic
  end.

Variable T : tables.

(** *** [cppcompile] and [headerabi] *)

Definition cpp_ParseFlags (command : list string) (workingDir execRoot : string) : res CommandFlags :=
  with_command command (λ executable rest,
    clang_parse (HandleClangFlagsFromScanner false) (New T executable rest)
      (command_flags executable workingDir execRoot [])).

Definition abi_step (sc : Scanner) : ST (State * CommandFlags) unit :=
  let nr := CurResult sc in
  if (NormalizedKey nr =? "root-dir")%string || (ArgsScanner.OriginalKey nr =? "--")%string then st_ret tt
  else HandleClangFlags nr false.

Definition abi_ParseFlags (command : list string) (workingDir execRoot : string) : res CommandFlags :=
  with_command command (λ executable rest,
    clang_parse abi_step (new_Scanner rest (ClangOptions T) (ClangPrefixes T) (ClangNormalizedFlags T))
      (command_flags executable workingDir execRoot [])).

(** *** [clanglink] *)

Variable sysrootDoNotUpload : bool.
Variable arDeepScan : bool.

Definition linkerFlags : list string :=
  ["--version-script"; "--symbol-ordering-file"; "--dynamic-list"; "-T"; "--retain-symbols-file"; "--script,"].

(** [arCache] is shared by all actions, its keys are absolute. *)
Notation arCache := (gmap string (list string)).

Definition processArchive (archive : string) (f : CommandFlags) : ST arCache (list string) :=
  let arAbsName := Join [cf_ExecRoot f; WorkingDirectory f; archive] in
  load_or_store arAbsName
    (if arDeepScan then
       let? archdeps := ArReader.readArchive ArReader.archive_fuel w arAbsName archive in Ok (archdeps ++ [archive])
     else Ok [archive]).

(** The effect of [-Wl,value]. *)
Definition linker_flag (v : string) (f : CommandFlags) : CommandFlags :=
  match List.find (HasPrefix v) linkerFlags with
  | Some prefix => add_deps [TrimPrefix (TrimPrefix (TrimPrefix v prefix) "=") ","] f
  | None => if HasPrefix v "--out-implib=" then add_outputs [TrimPrefix v "--out-implib="] f else f
  end.

(** The outcome of the switch of [handleArgFunc]: go on to the flags, return, or
    let [HandleClangFlags] decide. *)
Inductive link_outcome := LContinue (f : CommandFlags) | LReturn | LDefault.

Definition link_switch (r : FlagResult) (f : CommandFlags) (ar : arCache) : res link_outcome * arCache :=
  let flag := NormalizedKey r in
  if mem flag ["--sysroot"; "--sysroot="] then
    (if sysrootDoNotUpload then Ok (LContinue f)
     else let? v := index (Values r) 0 in Ok (LContinue (add_deps [v] f)), ar)
  else if (flag =? "-Wl,")%string then
    (let? v := index (Values r) 0 in Ok (LContinue (linker_flag v f)), ar)
  else if (flag =? "-L")%string then
    (let? v := index (Values r) 0 in Ok (LContinue (add_deps [v] f)), ar)
  else if (flag =? "")%string then
    match index (fr_Args r) 0 with
    | Ok a =>
        if HasSuffix a ".a" then
          match processArchive a f ar with
          | (Ok archdeps, ar) => (Ok (LContinue (add_deps archdeps f)), ar)
          | (Fail _, ar) => (Ok LReturn, ar)
          | (Panic, ar) => (Panic, ar)
          end
        else (Ok (LContinue (if HasPrefix a "-l" then f else add_deps [a] f)), ar)
    | Fail e => (Fail e, ar)
    | Panic => (Panic, ar)
    end
  else (Ok LDefault, ar).

(** [outer] is the result that [handleClangLinkFlags] read, also for the flags of
    a response file: the closure passes it to [HandleClangFlags]. *)
Definition link_arg (outer : FlagResult) : arg_handler (State * arCache) := λ sc '(c, f, (s, ar)),
  match link_switch (CurResult sc) f ar with
  | (Ok (LContinue f), ar) => (Ok tt, (c, add_flags (value_flag <$> fr_Args (CurResult sc)) f, (s, ar)))
  | (Ok LReturn, ar) => (Ok tt, (c, f, (s, ar)))
  | (Ok LDefault, ar) => let '(r, (s, f)) := HandleClangFlags outer true (s, f) in (r, (c, f, (s, ar)))
  | (Fail e, ar) => (Fail e, (c, f, (s, ar)))
  | (Panic, ar) => (Panic, (c, f, (s, ar)))
  end.

Definition handleClangLinkFlags (sc : Scanner) : ST (CommandFlags * (State * arCache)) unit :=
  handle_flags w (λ rspFile, add_deps [rspFile]) merge_outputs (link_arg (CurResult sc)) sc.

Definition link_parseFlags (command : list string) (workingDir execRoot : string) : ST arCache CommandFlags := λ ar,
  match with_command command (λ executable rest,
    Ok (New T executable rest, command_flags executable workingDir execRoot [])) with
  | Ok (sc, c) =>
      match scan_loop (length (sc_Args sc)) sc handleClangLinkFlags (c, (zero_State, ar)) with
      | (Ok _, (c, (s, ar))) => (Ok (Finalize s c), ar)
      | (Fail e, (_, (_, ar))) => (Fail e, ar)
      | (Panic, (_, (_, ar))) => (Panic, ar)
      end
  | Fail e => (Fail e, ar)
  | Panic => (Panic, ar)
  end.

(** *** [clangcl] *)

Definition clangOption : string := "-clang:".

Definition shouldPopLastFlag (f : Flag) : bool :=
  (Key f =? clangOption)%string && (Value f =? "-MF")%string && Joined f && (OriginalKey f =? "/clang:")%string.

(** Whether the previous result announces a dependency file. *)
Definition after_MF (prev cur : FlagResult) : res bool :=
  if (NormalizedKey prev =? clangOption)%string then
    let? v := index (Values prev) 0 in
    Ok ((v =? "-MF")%string && (NormalizedKey cur =? clangOption)%string)
  else Ok false.

Definition pop_flag (c : CommandFlags) : res CommandFlags :=
  match last (Flags c) with
  | None => Panic
  | Some l => Ok (if shouldPopLastFlag l then set_flags (removelast (Flags c)) c else c)
  end.

(** The closure [handleArgFunc] of [handleClangCLFlags]. *)
Definition cl_arg : arg_handler State := λ sc '(c, f, s),
  let cur := CurResult sc in
  match after_MF (PrevResult sc) cur with
  | Ok true =>
      match (let? c := pop_flag c in let? v := index (Values cur) 0 in Ok (set_emitted v c, v)) with
      | Ok (c, v) => (Ok tt, (c, add_outputs [v] f, s))
      | Fail e => (Fail e, (c, f, s))
      | Panic => (Panic, (c, f, s))
      end
  | Ok false =>
      if (NormalizedKey cur =? "-Fo")%string then
        match index (Values cur) 0 with
        | Ok v => (Ok tt, (c, add_outputs [v] f, s))
        | Fail e => (Fail e, (c, f, s))
        | Panic => (Panic, (c, f, s))
        end
      else let '(r, (s, f)) := HandleClangFlags cur false (s, f) in (r, (c, f, s))
  | Fail e => (Fail e, (c, f, s))
  | Panic => (Panic, (c, f, s))
  end.

Definition merge_all (f c : CommandFlags) : CommandFlags :=
  add_targets (TargetFilePaths f) (add_includes (IncludeDirPaths f) (merge_outputs f c)).

Definition handleClangCLFlags : Scanner → ST (CommandFlags * State) unit :=
  handle_flags w (λ rspFile, add_deps [rspFile]) merge_all cl_arg.

Definition cl_parseFlags (command : list string) (workingDir execRoot : string) : res CommandFlags :=
  with_command command (λ executable rest,
    let? (c, s) := parse_loop handleClangCLFlags (New T executable rest)
      (command_flags executable workingDir execRoot []) zero_State in
    Ok (Finalize s c)).

End env.

(** ** The tables after the initializers *)

#[export] Instance prefix_ge_total : Total prefix_ge.
Proof. intros f g. unfold prefix_ge. destruct (total String.le (Prefix g) (Prefix f)); auto. Qed.

#[export] Instance prefix_ge_trans : Transitive prefix_ge.
Proof. intros f g h. unfold prefix_ge. intros H1 H2. by transitivity (Prefix g). Qed.

Lemma sort_prefixes_sorted l : StronglySorted prefix_ge (sort_prefixes l).
Proof. apply (StronglySorted_merge_sort _ _). Qed.

Lemma New_sorted t executable rest : StronglySorted prefix_ge (sc_Joined (New (abi_init (init t)) executable rest)).
Proof. unfold New. case_if; apply sort_prefixes_sorted. Qed.

(** Whatever tables the build generates, the initializers leave them in the
    order that the scanner needs: a joined flag is read with the longest of the
    prefixes that match it. *)
Theorem New_longest_match t executable rest flag f :
  let s := New (abi_init (init t)) executable rest in
  List.find (λ f, HasPrefix flag (Prefix f)) (sc_Joined s) = Some f →
  HasPrefix flag (Prefix f) = true ∧
  ∀ g, g ∈ sc_Joined s → HasPrefix flag (Prefix g) = true → String.length (Prefix g) ≤ String.length (Prefix f).
Proof. intros s. apply joined_longest_match, New_sorted. Qed.

End ClangParser.

(** ** Witnesses and examples *)

Import ClangParser.

Definition tables_example : tables := {|
  ClangOptions := {["-o" := 1%Z; "-I" := 1%Z; "-c" := 0%Z; "-MF" := 1%Z; "-L" := 1%Z]};
  ClangPrefixes := [{| Prefix := "-f"; NumArgs := 0 |}; {| Prefix := "-fprofile-use="; NumArgs := 0 |};
                    {| Prefix := "-Wl,"; NumArgs := 0 |}];
  ClangNormalizedFlags := {["--include-directory" := "-I"]};
  ClangCLOptions := {["-c" := 0%Z]};
  ClangCLPrefixes := [{| Prefix := "/clang:"; NumArgs := 0 |}; {| Prefix := "/Fo"; NumArgs := 0 |}];
  ClangCLNormalizedFlags := {["/clang:" := "-clang:"; "/Fo" := "-Fo"]} |}.

Definition T_example : tables := abi_init (init tables_example).

Lemma New_longest_match_witness :
  HasPrefix "-fprofile-use=x" "-fprofile-use=" = true ∧
  ∀ g, g ∈ sc_Joined (New T_example "/usr/bin/clang++" ["-fprofile-use=x"]) →
    HasPrefix "-fprofile-use=x" (Prefix g) = true → String.length (Prefix g) ≤ 14.
Proof.
  apply (New_longest_match tables_example "/usr/bin/clang++" ["-fprofile-use=x"] "-fprofile-use=x"
    {| Prefix := "-fprofile-use="; NumArgs := 0 |}). vm_compute. reflexivity.
Defined.

Definition link_fs : fs := {["/r/out/link.rsp" := NFile "-o prog main.o" 420%Z]}.

Definition inputs_outputs (c : CommandFlags) := (TargetFilePaths c, Dependencies c, OutputFilePaths c).

Example cpp_parse_example :
  inputs_outputs <$> cpp_ParseFlags link_fs false T_example
    ["clang++"; "-c"; "a.cc"; "-o"; "a.o"; "-gsplit-dwarf"; "-fprofile-use=p"; "-MF"; "a.d"] "out" "/r"
  = Ok (["a.cc"], ["p"], ["a.o"; "a.d"; "a.dwo"]).
Proof. vm_compute. reflexivity. Qed.

(** The flags of a link that are in a response file are looked up on the result
    that named the file: the output is lost. *)
Example link_rsp_output_lost :
  inputs_outputs <$> (link_parseFlags link_fs false T_example false false ["clang++"; "@link.rsp"] "out" "/r" ∅).1
    = Ok ([], ["link.rsp"; "link.rsp"; "main.o"], []) ∧
  inputs_outputs <$> (link_parseFlags link_fs false T_example false false ["clang++"; "-o"; "prog"; "main.o"] "out" "/r" ∅).1
    = Ok ([], ["main.o"], ["prog"]).
Proof. vm_compute. done. Qed.

(** The archives that are found once are named for ever as the first action
    named them, whatever the working directory. *)
Example archive_cache_is_global :
  let f wd := command_flags "clang++" wd "/r" [] in
  let '(r1, ar) := processArchive link_fs false "../x.a" (f "out/a") ∅ in
  r1 = Ok ["../x.a"] ∧ (processArchive link_fs false "x.a" (f "out") ar).1 = Ok ["../x.a"].
Proof. vm_compute. done. Qed.

Example cl_dependency_file :
  (λ c, (OutputFilePaths c, cf_EmittedDependencyFile c, length (Flags c))) <$>
    cl_parseFlags link_fs false T_example ["clang-cl.exe"; "-c"; "a.cc"; "/Foa.obj"; "/clang:-MD"; "/clang:-MF"; "/clang:a.d"] "out" "/r"
  = Ok (["a.obj"; "a.d"], "a.d", 2).
Proof. vm_compute. reflexivity. Qed.
