(* ===== verification/ClangTables.v ===== *)
(** * The tables of clang's options:
    [internal/pkg/inputprocessor/clangparser/gen_clang_flags]

    The build makes the tables of [ClangParser.v] from a dump of the options
    that clang declares.  The specification says of an argument what the options
    that are declared say of it; the scanner with the generated tables reads it
    so.  The text of the dump, and the source file in which the tables go from
    the generator to the compiler, are left out: the dump is a tree, the tables
    are values. *)
From S2P Require Import Prelude GoStrings GoPath ArgsScanner GoFloat ClangParser.
Import Filepath ClangParser.

Module ClangTables.

(** ** The dump

    What [encoding/json] makes of a text, for [interface{}]. *)
Inductive json :=
  | JObj (m : gmap string json)
  | JArr (l : list json)
  | JStr (s : string)
  | JNum (x : float64)
  | JBool (b : bool)
  | JNull.

Notation object := (gmap string json).

Definition getString (m : object) (key : string) : option string :=
  match m !! key with Some (JStr v) => Some v | _ => None end.

Definition getInt (m : object) (key : string) : option Z :=
  match m !! key with Some (JNum v) => Some (int64_of_float v) | _ => None end.

Definition getStrings (m : object) (key : string) : option (list string) :=
  match m !! key with
  | Some (JArr v) => mapM (λ e, match e with JStr s => Some s | _ => None end) v
  | _ => None
  end.

Definition getDef (m : object) (key : string) : option string :=
  match m !! key with Some (JObj v) => getString v "def" | _ => None end.

Definition getDefs (m : object) (key : string) : option (list string) :=
  match m !! key with
  | Some (JArr vs) => mapM (λ v, match v with JObj vm => getString vm "def" | _ => None end) vs
  | _ => None
  end.

(** ** Options *)

Record opt := {
  kind : string;
  name : string;
  prefixes : list string;
  numArgs : Z;
  visibility : list string
}.

Definition isOptionClass (m : object) : bool :=
  match getStrings m "!superclasses" with Some l => mem "Option" l | None => false end.

(** The second name of the last case is spelled as the source spells it. *)
Definition implied_args (k : string) (n : Z) : Z :=
  if mem k ["KIND_JOINED_AND_SEPARATE"; "KIND_SEPARATE"] then 1%Z
  else if mem k ["KIND_REMAINING_ARGS"; "KIND_REMAINING_ARGS_JOIND"] then (-1)%Z else n.

Definition parseOpt (m : object) : res opt :=
  let? k := or_fail (EMsg "`Kind` not found") (getDef m "Kind") in
  let? n := or_fail (EMsg "`Name` not found") (getString m "Name") in
  let? ps := or_fail (EMsg "`Prefixes` not found") (getStrings m "Prefixes") in
  let? vs := or_fail (EMsg "`Visibility` not found") (getDefs m "Visibility") in
  Ok {| kind := k; name := n; prefixes := ps; numArgs := implied_args k (default 0%Z (getInt m "NumArgs"));
        visibility := vs |}.

(** ** The tables of one command *)

Record OptionDefs := {
  Options : gmap string Z;
  Prefixes : list PrefixOption;
  NormalizedFlags : gmap string string
}.

Definition empty_defs : OptionDefs := {| Options := ∅; Prefixes := []; NormalizedFlags := ∅ |}.

Definition with_option (flag : string) (n : Z) (od : OptionDefs) : OptionDefs :=
  {| Options := <[flag := n]> (Options od); Prefixes := Prefixes od; NormalizedFlags := NormalizedFlags od |}.

Definition with_prefix (flag : string) (n : Z) (od : OptionDefs) : OptionDefs :=
  {| Options := Options od; Prefixes := Prefixes od ++ [{| Prefix := flag; NumArgs := n |}];
     NormalizedFlags := NormalizedFlags od |}.

Definition with_normalized (flag normal : string) (od : OptionDefs) : OptionDefs :=
  {| Options := Options od; Prefixes := Prefixes od; NormalizedFlags := <[flag := normal]> (NormalizedFlags od) |}.

(** The switch of [setOption], for one prefix of the option. *)
Definition set_flag (o : opt) (od : OptionDefs) (prefix : string) : res OptionDefs :=
  let flag := prefix +:+ name o in
  if (kind o =? "KIND_COMMAJOINED")%string then Ok (with_prefix flag 0 od)
  else if (kind o =? "KIND_FLAG")%string then Ok (with_option flag 0 od)
  else if (kind o =? "KIND_JOINED")%string then Ok (with_prefix flag 0 od)
  else if (kind o =? "KIND_JOINED_AND_SEPARATE")%string then Ok (with_prefix flag 1 od)
  else if (kind o =? "KIND_JOINED_OR_SEPARATE")%string then Ok (with_prefix flag 0 (with_option flag 1 od))
  else if (kind o =? "KIND_MULTIARG")%string then Ok (with_option flag (numArgs o) od)
  else if (kind o =? "KIND_SEPARATE")%string then Ok (with_option flag 1 od)
  else if (kind o =? "KIND_REMAINING_ARGS")%string then Ok (with_option flag (-1) od)
  else if (kind o =? "KIND_REMAINING_ARGS_JOINED")%string then Ok (with_prefix flag (-1) od)
  else Fail (EMsg "unknown kind").

Fixpoint set_flags (o : opt) (od : OptionDefs) (ps : list string) : res OptionDefs :=
  match ps with
  | [] => Ok od
  | p :: ps => let? od := set_flag o od p in set_flags o od ps
  end.

(** All spellings but the last stand for the last. *)
Definition normalize (o : opt) (od : OptionDefs) : OptionDefs :=
  match last (prefixes o) with
  | Some p => foldl (λ od q, with_normalized (q +:+ name o) (p +:+ name o) od) od (removelast (prefixes o))
  | None => od
  end.

Definition setOption (od : OptionDefs) (o : opt) : res OptionDefs :=
  let? od := set_flags o od (prefixes o) in
  Ok (if (1 <? length (prefixes o))%nat then normalize o od else od).

(** ** Both commands *)

Record AllOptions := { Clang : OptionDefs; ClangCL : OptionDefs }.

Definition setOptions (options : AllOptions) (o : opt) : res AllOptions :=
  let vis := visibility o in
  if (0 <? length vis)%nat && negb (mem "DefaultVis" vis) && negb (mem "CLOption" vis) then Ok options
  else if mem "DefaultVis" vis then
    let? c := setOption (Clang options) o in
    let? cl := setOption (ClangCL options) o in Ok {| Clang := c; ClangCL := cl |}
  else if mem "CLOption" vis then
    let? cl := setOption (ClangCL options) o in Ok {| Clang := Clang options; ClangCL := cl |}
  else
    let? c := setOption (Clang options) o in Ok {| Clang := c; ClangCL := ClangCL options |}.

Definition parse_value (options : AllOptions) (val : json) : res AllOptions :=
  match val with
  | JObj v =>
      if negb (isOptionClass v) then Ok options else
      let? o := parseOpt v in setOptions options o
  | _ => Ok options
  end.

Fixpoint parse_values (options : AllOptions) (vals : list json) : res AllOptions :=
  match vals with
  | [] => Ok options
  | val :: vals => let? options := parse_value options val in parse_values options vals
  end.

(** The values of the dump in the order of their keys. *)
Definition values_by_key (m : object) : list json :=
  omap (λ k, m !! k) (sort_Strings ((map_to_list m).*1)).

Definition sorted_defs (od : OptionDefs) : OptionDefs :=
  {| Options := Options od; Prefixes := sort_prefixes (Prefixes od); NormalizedFlags := NormalizedFlags od |}.

Definition parseOptions (m : object) : res AllOptions :=
  let? options := parse_values {| Clang := empty_defs; ClangCL := empty_defs |} (values_by_key m) in
  Ok {| Clang := sorted_defs (Clang options); ClangCL := sorted_defs (ClangCL options) |}.

(** The template: the variables of the generated file. *)
Definition generated (o : AllOptions) : tables := {|
  ClangOptions := Options (Clang o);
  ClangPrefixes := Prefixes (Clang o);
  ClangNormalizedFlags := NormalizedFlags (Clang o);
  ClangCLOptions := Options (ClangCL o);
  ClangCLPrefixes := Prefixes (ClangCL o);
  ClangCLNormalizedFlags := NormalizedFlags (ClangCL o) |}.

(** [main]: [readFile] and [unmarshal] are those of the libraries; every error is
    fatal. *)
Definition gen_main (readFile : string → res string) (unmarshal : string → res object) (input : string) : res tables :=
  if (input =? "")%string then Fail (EMsg "need to specify --input") else
  let? content := readFile input in
  let? m := unmarshal content in
  let? options := parseOptions m in Ok (generated options).

(** ** What the declarations mean *)

(** The options that are declared, in the order of their keys. *)
Fixpoint declared (vals : list json) : res (list opt) :=
  match vals with
  | [] => Ok []
  | JObj v :: vals =>
      if isOptionClass v then let? o := parseOpt v in let? os := declared vals in Ok (o :: os) else declared vals
  | _ :: vals => declared vals
  end.

(** Whether a command takes the option: [cl] for clang-cl. *)
Definition takes (cl : bool) (o : opt) : bool :=
  mem "DefaultVis" (visibility o) ||
  (if cl then mem "CLOption" (visibility o) else bool_decide (visibility o = [])).

(** The spellings of the options that a command takes. *)
Definition spellings (cl : bool) (os : list opt) : list (string * opt) :=
  filter (takes cl) os ≫= λ o, (λ p, (p +:+ name o, o)) <$> prefixes o.

(** The number of arguments after an option that is a word of its own, -1 for
    all that are left. *)
Definition separate_args (o : opt) : option Z :=
  if mem (kind o) ["KIND_FLAG"] then Some 0%Z
  else if mem (kind o) ["KIND_SEPARATE"; "KIND_JOINED_OR_SEPARATE"] then Some 1%Z
  else if mem (kind o) ["KIND_MULTIARG"] then Some (numArgs o)
  else if mem (kind o) ["KIND_REMAINING_ARGS"] then Some (-1)%Z else None.

(** The number of arguments after an option that begins a word. *)
Definition joined_args (o : opt) : option Z :=
  if mem (kind o) ["KIND_COMMAJOINED"; "KIND_JOINED"; "KIND_JOINED_OR_SEPARATE"] then Some 0%Z
  else if mem (kind o) ["KIND_JOINED_AND_SEPARATE"] then Some 1%Z
  else if mem (kind o) ["KIND_REMAINING_ARGS_JOINED"] then Some (-1)%Z else None.

(** The last declaration of a spelling counts. *)
Definition separate (cl : bool) (os : list opt) (f : string) : option Z :=
  last (omap (λ so, if (so.1 =? f)%string then separate_args so.2 else None) (spellings cl os)).

Definition joined (cl : bool) (os : list opt) : list PrefixOption :=
  omap (λ so, (λ n, {| Prefix := so.1; NumArgs := n |}) <$> joined_args so.2) (spellings cl os).

(** What the initializers of the packages add. *)
Definition extra_separate (cl : bool) : gmap string Z :=
  if cl then {["--" := 0%Z; "-fprofile_use" := 0%Z; "/showIncludes:user" := 0%Z]}
  else {["--root-dir" := 1%Z; "--" := 0%Z; "-fmax-tokens" := 1%Z]}.

Definition extra_joined (cl : bool) : PrefixOption :=
  {| Prefix := if cl then "-fprofile-use=" else "--coverage-data-file="; NumArgs := 0 |}.

(** ** The tables hold what is declared *)

Definition separate_of (ss : list (string * opt)) (f : string) : option Z :=
  last (omap (λ so, if (so.1 =? f)%string then separate_args so.2 else None) ss).

Definition joined_of (ss : list (string * opt)) : list PrefixOption :=
  omap (λ so, (λ n, {| Prefix := so.1; NumArgs := n |}) <$> joined_args so.2) ss.

(** The normal form of a spelling that is not the last of its option. *)
Definition normal_of (os : list opt) (f g : string) : Prop :=
  ∃ o p q, o ∈ os ∧ p ∈ removelast (prefixes o) ∧ last (prefixes o) = Some q ∧ f = p +:+ name o ∧ g = q +:+ name o.

Definition holds (ss : list (string * opt)) (os : list opt) (od : OptionDefs) : Prop :=
  (∀ f, Options od !! f = separate_of ss f) ∧ Prefixes od = joined_of ss ∧
  ∀ f g, NormalizedFlags od !! f = Some g → normal_of os f g.

Ltac by_kind :=
  repeat match goal with |- context [mem ?a ?b] =>
    let v := eval vm_compute in (mem a b) in change (mem a b) with v end;
  cbn; rewrite ?app_nil_r; done.

Lemma set_flag_spec o od p od' :
  set_flag o od p = Ok od' →
  Options od' = match separate_args o with Some n => <[p +:+ name o := n]> (Options od) | None => Options od end ∧
  Prefixes od' = Prefixes od ++ joined_of [(p +:+ name o, o)] ∧ NormalizedFlags od' = NormalizedFlags od.
Proof.
  destruct o as [k n ps na vs]. unfold set_flag, joined_of, separate_args, joined_args. cbn.
  repeat match goal with |- context [if (k =? ?x)%string then _ else _] =>
    destruct (String.eqb_spec k x) as [->|?]; [intros [= <-]; by_kind|] end.
  done.
Qed.

Lemma set_flag_holds o od p od' ss os :
  holds ss os od → set_flag o od p = Ok od' → holds (ss ++ [(p +:+ name o, o)]) os od'.
Proof.
  intros (Ho & Hp & Hn) (Eo & Ep & En)%set_flag_spec. split_and!.
  - intros f. rewrite Eo. unfold separate_of. rewrite omap_app, last_app. simpl.
    destruct (String.eqb_spec (p +:+ name o) f) as [<-|Hne]; [|destruct (separate_args o);
      rewrite ?lookup_insert_ne by done; apply Ho].
    destruct (separate_args o); [by rewrite lookup_insert_eq|apply Ho].
  - rewrite Ep, Hp. unfold joined_of. by rewrite omap_app.
  - by rewrite En.
Qed.

Lemma set_flags_holds o od ps od' ss os :
  holds ss os od → set_flags o od ps = Ok od' → holds (ss ++ ((λ p, (p +:+ name o, o)) <$> ps)) os od'.
Proof.
  revert od ss. induction ps as [|p ps IH]; simpl; intros od ss H E.
  - injection E as <-. by rewrite app_nil_r.
  - apply bind_Ok_inv in E as (od1 & E1 & E). rewrite cons_middle, app_assoc.
    eapply IH; [by eapply set_flag_holds|done].
Qed.

Lemma normalize_holds o od ss os : holds ss os od → o ∈ os → holds ss os (normalize o od).
Proof.
  intros H Ho. unfold normalize. destruct (last (prefixes o)) as [q|] eqn:El; [|done].
  apply foldl_invariant; [done|]. intros od1 p Hp (H1 & H2 & H3). split_and!; [done..|].
  intros f g. simpl. rewrite lookup_insert_Some. intros [[<- <-]|[_ Hf]]; [|by apply H3].
  by exists o, p, q.
Qed.

Lemma holds_more ss os os' od : holds ss os od → holds ss (os ++ os') od.
Proof.
  intros (H1 & H2 & H3). split_and!; [done..|]. intros f g (o & p & q & Ho & H)%H3.
  exists o, p, q. split; [by apply elem_of_app; left|done].
Qed.

Lemma setOption_holds o od od' ss os :
  holds ss os od → setOption od o = Ok od' →
  holds (ss ++ ((λ p, (p +:+ name o, o)) <$> prefixes o)) (os ++ [o]) od'.
Proof.
  unfold setOption. intros H (od1 & E & [= <-])%bind_Ok_inv.
  assert (holds (ss ++ ((λ p, (p +:+ name o, o)) <$> prefixes o)) (os ++ [o]) od1)
    by (apply holds_more; by eapply set_flags_holds).
  destruct (_ <? _)%nat; [|done]. apply normalize_holds; [done|]. apply elem_of_app. right. by left.
Qed.

Lemma spellings_snoc cl os o :
  spellings cl (os ++ [o]) =
  spellings cl os ++ (if takes cl o then (λ p, (p +:+ name o, o)) <$> prefixes o else []).
Proof.
  unfold spellings. rewrite filter_app, bind_app, filter_cons. destruct (takes cl o); simpl; [|done].
  by rewrite app_nil_r.
Qed.

Definition side (cl : bool) (options : AllOptions) : OptionDefs := if cl then ClangCL options else Clang options.

Lemma setOptions_each o options options' cl :
  setOptions options o = Ok options' →
  if takes cl o then setOption (side cl options) o = Ok (side cl options') else side cl options' = side cl options.
Proof.
  unfold setOptions, takes, side. destruct (mem "DefaultVis" _) eqn:E1; simpl.
  - rewrite andb_false_r. intros (c & Ec & (d & Ed & [= <-])%bind_Ok_inv)%bind_Ok_inv. by destruct cl.
  - destruct (mem "CLOption" _) eqn:E2; simpl.
    + rewrite andb_false_r. intros (d & Ed & [= <-])%bind_Ok_inv. destruct cl; [done|].
      rewrite bool_decide_eq_false_2; [done|]. intros E. by rewrite E in E2.
    + rewrite !andb_true_r. destruct (visibility o) eqn:Ev; simpl.
      * intros (d & Ed & [= <-])%bind_Ok_inv. by destruct cl.
      * intros [= <-]. by destruct cl.
Qed.

(** The tables of both commands. *)
Definition describes (os : list opt) (options : AllOptions) : Prop :=
  ∀ cl, holds (spellings cl os) (filter (takes cl) os) (side cl options).

Lemma setOptions_describes o os options options' :
  describes os options → setOptions options o = Ok options' → describes (os ++ [o]) options'.
Proof.
  intros H E cl. apply (setOptions_each _ _ _ cl) in E. specialize (H cl).
  rewrite spellings_snoc, filter_app, filter_cons. destruct (takes cl o); simpl; [by eapply setOption_holds|].
  by rewrite E, !app_nil_r.
Qed.

Lemma parse_values_describes vals os options options' :
  describes os options → parse_values options vals = Ok options' →
  ∃ os', declared vals = Ok os' ∧ describes (os ++ os') options'.
Proof.
  revert os options. induction vals as [|val vals IH]; simpl; intros os options H E.
  { injection E as <-. exists []. by rewrite app_nil_r. }
  apply bind_Ok_inv in E as (options1 & E1 & E). destruct val; simpl in E1;
    try (injection E1 as <-; by apply (IH os) in E).
  destruct (isOptionClass m); simpl in E1; [|injection E1 as <-; by apply (IH os) in E].
  apply bind_Ok_inv in E1 as (o & Eo & E1). rewrite Eo. simpl.
  apply (setOptions_describes _ os) in E1; [|done]. apply (IH (os ++ [o])) in E as (os' & Ed & Hd); [|done].
  rewrite Ed. exists (o :: os'). split; [done|]. by rewrite cons_middle, app_assoc.
Qed.

Lemma parseOptions_holds m options :
  parseOptions m = Ok options →
  ∃ os, declared (values_by_key m) = Ok os ∧
    ∀ cl, (∀ f, Options (side cl options) !! f = separate cl os f) ∧
      Prefixes (side cl options) ≡ₚ joined cl os ∧
      ∀ f g, NormalizedFlags (side cl options) !! f = Some g → normal_of (filter (takes cl) os) f g.
Proof.
  unfold parseOptions. intros (o1 & E & [= <-])%bind_Ok_inv.
  apply (parse_values_describes _ []) in E as (os & Ed & Hd); [|intros []; split_and!; done].
  exists os. split; [done|]. intros cl. destruct (Hd cl) as (H1 & H2 & H3). split_and!.
  - intros f. transitivity (Options (side cl o1) !! f); [by destruct cl|apply H1].
  - transitivity (Prefixes (side cl o1)); [destruct cl; apply merge_sort_Permutation|by rewrite H2].
  - intros f g Hf. apply H3. by destruct cl.
Qed.

(** ** The scanner with the tables *)

Definition is_cl (executable : string) : bool :=
  (TrimSuffix (Base executable) (Ext (Base executable)) =? "clang-cl")%string.

(** The tables when all packages are initialized. *)
Definition process_tables (options : AllOptions) : tables := abi_init (init (generated options)).

Definition separate_all (cl : bool) (os : list opt) (f : string) : option Z :=
  match extra_separate cl !! f with Some n => Some n | None => separate cl os f end.

Definition joined_all (cl : bool) (os : list opt) : list PrefixOption := joined cl os ++ [extra_joined cl].

Lemma New_tables m options executable rest :
  parseOptions m = Ok options →
  let s := New (process_tables options) executable rest in
  let cl := is_cl executable in
  ∃ os, declared (values_by_key m) = Ok os ∧ (∀ f, sc_Flags s !! f = separate_all cl os f) ∧
    sc_Joined s ≡ₚ joined_all cl os ∧ ∀ f g, sc_Normalized s !! f = Some g → normal_of (filter (takes cl) os) f g.
Proof.
  intros E s cl. apply parseOptions_holds in E as (os & Ed & H). exists os. split; [done|].
  destruct (H cl) as (H1 & H2 & H3). subst s cl. unfold New, is_cl, separate_all, joined_all in *.
  destruct (_ =? "clang-cl")%string; simpl in *; split_and!.
  - intros f. rewrite <- H1, !lookup_insert. repeat case_decide; by simplify_map_eq.
  - unfold sort_prefixes. rewrite merge_sort_Permutation. by rewrite H2.
  - done.
  - intros f. rewrite <- H1, !lookup_insert. repeat case_decide; by simplify_map_eq.
  - unfold sort_prefixes. rewrite merge_sort_Permutation. by rewrite H2.
  - done.
Qed.

(** The scanner reads a flag that wants [n] arguments: it panics when there are
    not enough, and gives a result of which [P] holds otherwise. *)
Definition scanned (s : Scanner) (n : Z) (P : FlagResult → Prop) : Prop :=
  if (Z.of_nat (length (sc_Args s)) <=? n)%Z then ReadNextFlag s = Panic
  else ∃ r s', ReadNextFlag s = Ok (r, s') ∧
    fr_Args r = (if (n <? 0)%Z then sc_Args s else take (Z.to_nat n + 1) (sc_Args s)) ∧ P r.

(** The options that begin the word [arg], the longest of which counts. *)
Definition longest (l : list PrefixOption) (arg : string) (g : PrefixOption) : Prop :=
  g ∈ l ∧ HasPrefix arg (Prefix g) = true ∧
  ∀ g', g' ∈ l → HasPrefix arg (Prefix g') = true → String.length (Prefix g') ≤ String.length (Prefix g).

Lemma scanned_by s n arg rest nk ok v j (P : FlagResult → Prop) :
  sc_Args s = arg :: rest →
  ReadNextFlag s = (let? (a, r) := take_args (arg :: rest) n in Ok (updatedFlag s r nk ok a (v a) j)) →
  (∀ a, a ≠ [] → P {| fr_Args := a; NormalizedKey := nk; OriginalKey := ok; Values := v a; fr_Joined := j |}) →
  scanned s n P.
Proof.
  intros Ha E HP. unfold scanned. rewrite Ha. destruct (Z.leb_spec (Z.of_nat (length (arg :: rest))) n).
  - apply take_args_Panic in H. by rewrite E, H.
  - unfold take_args in E. destruct (n <? 0)%Z eqn:En; [|apply Z.ltb_ge in En; rewrite (proj2 (Nat.leb_le _ _)) in E by lia].
    + eexists _, _. split; [exact E|]. split; [done|by apply HP].
    + eexists _, _. split; [exact E|]. split; [done|]. apply HP. by rewrite Nat.add_1_r.
Qed.

Lemma find_longest l l' arg :
  StronglySorted prefix_ge l → l ≡ₚ l' →
  match List.find (λ f, HasPrefix arg (Prefix f)) l with
  | Some g => longest l' arg g
  | None => ∀ g, g ∈ l' → HasPrefix arg (Prefix g) = false
  end.
Proof.
  intros Hs Hp. destruct (List.find _ l) as [g|] eqn:E.
  - destruct (joined_longest_match (new_Scanner [] ∅ l ∅) arg g Hs E) as [H1 H2].
    apply List.find_some in E as [Hg _]. apply list_elem_of_In in Hg. unfold longest. setoid_rewrite <- Hp.
    split_and!; [done..|]. exact H2.
  - intros g. rewrite <- Hp. intros Hg. apply (List.find_none _ _ E), list_elem_of_In, Hg.
Qed.


(** ** Examples *)

Module Concrete.

Definition defs (l : list string) : json := JArr ((λ d, JObj {["def" := JStr d]}) <$> l).

Definition declare (k n : string) (ps vis : list string) (args : Z) : json :=
  JObj {["!superclasses" := JArr [JStr "Option"]; "Kind" := JObj {["def" := JStr k]}; "Name" := JStr n;
         "Prefixes" := JArr (JStr <$> ps); "Visibility" := defs vis; "NumArgs" := JNum (float64_of_int args)]}.

Definition dump : object :=
  {["_SLASH_Fo" := declare "KIND_JOINED_OR_SEPARATE" "Fo" ["/"; "-"] ["CLOption"] 0;
    "c" := declare "KIND_FLAG" "c" ["-"] ["DefaultVis"] 0;
    "f" := declare "KIND_JOINED" "f" ["-"] ["DefaultVis"; "CC1Option"] 0;
    "fprofile_list" := declare "KIND_JOINED" "fprofile-list=" ["-"] ["DefaultVis"] 0;
    "output" := declare "KIND_JOINED_OR_SEPARATE" "o" ["-"] ["DefaultVis"] 0;
    "sectcreate" := declare "KIND_MULTIARG" "sectcreate" ["-"] [] 3;
    "cc1" := declare "KIND_FLAG" "cc1" ["-"] ["CC1Option"] 0;
    "!instanceof" := JObj ∅;
    "not_an_object" := JNull]}.

Definition read (executable : string) (args : list string) : res (list FlagResult) :=
  let? options := parseOptions dump in read_all (New (process_tables options) executable []) args.

Definition seen (r : FlagResult) : string * list string := (NormalizedKey r, Values r).

Example clang_read :
  (map seen <$> read "bin/clang++" ["-c"; "-fprofile-list=l"; "-fx"; "-o"; "a.o"; "-ob.o"; "-sectcreate"; "1"; "2"; "3"; "/Foc"; "a.c"]) =
  Ok [("-c", []); ("-fprofile-list=", ["l"]); ("-f", ["x"]); ("-o", ["a.o"]); ("-o", ["b.o"]);
      ("-sectcreate", ["1"; "2"; "3"]); ("", ["/Foc"]); ("", ["a.c"])].
Proof. vm_compute. reflexivity. Qed.

(** A joined value keeps the spelling, but the key is the normal one. *)
Example clang_cl_read :
  (map seen <$> read "clang-cl.exe" ["/Fo"; "a.obj"; "/Foa.obj"; "-c"; "-sectcreate"]) =
  Ok [("-Fo", ["a.obj"]); ("-Fo", ["a.obj"]); ("-c", []); ("-sectcreate", [])].
Proof. vm_compute. reflexivity. Qed.

Example too_few : read "clang" ["-c"; "-sectcreate"; "1"; "2"] = Panic.
Proof. vm_compute. reflexivity. Qed.

Example unknown_kind :
  parseOptions {["x" := declare "KIND_OTHER" "x" ["-"] [] 0]} = Fail (EMsg "unknown kind").
Proof. vm_compute. reflexivity. Qed.

End Concrete.


End ClangTables.
