(* ===== verification/DepsCache.v ===== *)
(** * The cache of C++ dependencies:
    [internal/pkg/inputprocessor/depscache]

    The cache maps a command and a source file to the headers that the command
    reads, each with the digest of its preprocessor directives.  It is loaded
    from a file when the proxy starts and written back when it stops.  The
    serialization of protocol buffers, the hash function and modification times
    are parameters. *)
From S2P Require Import Prelude GoStrings GoPath GoFS Command InputProcessor.
From Stdlib Require Import Ascii.
Import Filepath.

Module DepsCache.

Definition cacheName : string := "reproxy.cache".

(** [ppb.FileInfo] *)
Record FileInfo := { AbsPath : string; Digest : string; Mtime : Z }.

Record Key := { CommandDigest : string; SrcFilePath : string; srcFileMinDigest : string }.

#[export] Instance Key_eq_dec : EqDecision Key.
Proof. solve_decision. Defined.

#[export] Instance Key_countable : Countable Key.
Proof.
  refine (inj_countable' (λ k, (CommandDigest k, SrcFilePath k, srcFileMinDigest k))
    (λ '(c, s, d), {| CommandDigest := c; SrcFilePath := s; srcFileMinDigest := d |}) _).
  by intros [].
Defined.

(** [fileInfo]: whether the information is of this run. *)
Record fileInfo := { fi_FileInfo : FileInfo; updated : bool }.

(** The digest and the modification time of a file. *)
Notation minDigestInfo := (string * Z)%type.

Record minimalFileCache := { minfc : gmap string minDigestInfo; files : gmap string fileInfo }.

Record Cache := {
  MaxEntries : Z;
  reclientVersion : string;
  depsCache : gmap Key (list FileInfo);
  filesCache : minimalFileCache;
  lutByKey : gmap Key Z;
  ready : bool
}.

(** [ppb.Deps] and [ppb.DepsDatabase] *)
Record Deps := { d_CommandDigest : string; SrcFile : FileInfo; DepIds : list Z; LastUsed : Z }.
Record DepsDatabase := { Files : list FileInfo; db_Deps : list Deps; Version : string }.

Definition New (maxEntries : Z) (version : string) : Cache := {|
  MaxEntries := maxEntries; reclientVersion := version; depsCache := ∅;
  filesCache := {| minfc := ∅; files := ∅ |}; lutByKey := ∅; ready := false |}.

Definition with_files (c : Cache) (m : minimalFileCache) : Cache := {|
  MaxEntries := MaxEntries c; reclientVersion := reclientVersion c; depsCache := depsCache c;
  filesCache := m; lutByKey := lutByKey c; ready := ready c |}.
Definition with_ready (c : Cache) (b : bool) : Cache := {|
  MaxEntries := MaxEntries c; reclientVersion := reclientVersion c; depsCache := depsCache c;
  filesCache := filesCache c; lutByKey := lutByKey c; ready := b |}.
Definition with_entry (c : Cache) (k : Key) (deps : list FileInfo) (now : Z) : Cache := {|
  MaxEntries := MaxEntries c; reclientVersion := reclientVersion c; depsCache := <[k := deps]> (depsCache c);
  filesCache := filesCache c; lutByKey := <[k := now]> (lutByKey c); ready := ready c |}.
Definition touch (c : Cache) (k : Key) (now : Z) : Cache := {|
  MaxEntries := MaxEntries c; reclientVersion := reclientVersion c; depsCache := depsCache c;
  filesCache := filesCache c; lutByKey := <[k := now]> (lutByKey c); ready := ready c |}.

Section env.

(** The hexadecimal hash of a content, and the modification time of a path. *)
Variable Hash : string → string.
Variable ModTime : fs → string → Z.

(** ** Digests of the preprocessor directives *)

Definition backslash : string := String "092" "".

(** The trimmed lines that start with a hash or continue such a line, one after
    the other. *)
Fixpoint directives (continuedLine : bool) (lines : list string) : string :=
  match lines with
  | [] => ""
  | l :: lines =>
      let txt := TrimSpace l in
      if HasPrefix txt "#" || continuedLine then txt +:+ directives (HasSuffix txt backslash) lines
      else directives false lines
  end.

(** [digest.Digest.String] *)
Definition digest_String (hash : string) (size : Z) : string := hash +:+ "/" +:+ Itoa size.

Definition minimalDigest (w : fs) (absPath : string) : res minDigestInfo :=
  let? content := OS.ReadFile w absPath in
  let txt := directives false (InputProcessor.text_lines content) in
  Ok (digest_String (Hash txt) (Z.of_nat (String.length txt)), ModTime w absPath).

Definition new_fileInfo (absPath : string) (md : minDigestInfo) : FileInfo :=
  {| AbsPath := absPath; Digest := md.1; Mtime := md.2 |}.

(** [minimalFileCache.load]; the digest of a path is computed once in a run. *)
Definition load (w : fs) (absPath : string) : ST minimalFileCache FileInfo := λ m,
  let compute :=
    match minfc m !! absPath with
    | Some md => Ok (md, minfc m)
    | None => let? md := minimalDigest w absPath in Ok (md, <[absPath := md]> (minfc m))
    end in
  let miss :=
    match compute with
    | Ok (md, minfc') =>
        let fi := new_fileInfo absPath md in
        (Ok fi, {| minfc := minfc'; files := <[absPath := {| fi_FileInfo := fi; updated := true |}]> (files m) |})
    | Fail e => (Fail e, m)
    | Panic => (Panic, m)
    end in
  match files m !! absPath with
  | Some fi => if updated fi then (Ok (fi_FileInfo fi), m) else miss
  | None => miss
  end.

(** [minimalFileCache.init] *)
Definition init (fInfos : list FileInfo) (m : minimalFileCache) : minimalFileCache := {|
  minfc := minfc m;
  files := foldl (λ fm fi, <[AbsPath fi := {| fi_FileInfo := fi; updated := false |}]> fm) (files m) fInfos |}.

(** ** Lookups and updates *)

Definition full_key (k : Key) (fi : FileInfo) : Key :=
  {| CommandDigest := CommandDigest k; SrcFilePath := SrcFilePath k; srcFileMinDigest := Digest fi |}.

(** The loop of [GetDeps]: [None] as soon as a file is missing or changed. *)
Fixpoint check_deps (w : fs) (fInfos : list FileInfo) (m : minimalFileCache)
    : option (list string) * minimalFileCache :=
  match fInfos with
  | [] => (Some [], m)
  | d :: fInfos =>
      match load w (AbsPath d) m with
      | (Ok fi, m) =>
          if (Digest fi =? Digest d)%string then
            let '(deps, m) := check_deps w fInfos m in (option_map (cons (AbsPath d)) deps, m)
          else (None, m)
      | (_, m) => (None, m)
      end
  end.

(** [GetDeps] of a cache that is not nil.  The time of the last use is set by a
    goroutine of its own. *)
Definition GetDeps (w : fs) (now : Z) (k : Key) (c : Cache) : option (list string) * Cache :=
  if negb (ready c) then (None, c) else
  match load w (SrcFilePath k) (filesCache c) with
  | (Ok sfi, m) =>
      let fullKey := full_key k sfi in
      match depsCache c !! fullKey with
      | None => (None, with_files c m)
      | Some fInfos =>
          match check_deps w fInfos m with
          | (Some deps, m) => (Some deps, touch (with_files c m) fullKey now)
          | (None, m) => (None, with_files c m)
          end
      end
  | (_, m) => (None, with_files c m)
  end.

(** The loop of [SetDeps]: [Ok None] when a file cannot be loaded. *)
Fixpoint load_deps (w : fs) (deps : list string) (m : minimalFileCache)
    : res (option (list FileInfo)) * minimalFileCache :=
  match deps with
  | [] => (Ok (Some []), m)
  | d :: deps =>
      if negb (IsAbs d) then (Fail (EMsg "not an absolute path"), m) else
      match load w d m with
      | (Ok fi, m) => let '(r, m) := load_deps w deps m in (let? fis := r in Ok (option_map (cons fi) fis), m)
      | (_, m) => (Ok None, m)
      end
  end.

Definition SetDeps (w : fs) (now : Z) (k : Key) (deps : list string) : ST Cache unit := λ c,
  if negb (ready c) then (Ok tt, c) else
  match load_deps w deps (filesCache c) with
  | (Ok (Some fInfos), m) =>
      match load w (SrcFilePath k) m with
      | (Ok fi, m) => (Ok tt, with_entry (with_files c m) (full_key k fi) fInfos now)
      | (_, m) => (Ok tt, with_files c m)
      end
  | (Ok None, m) => (Ok tt, with_files c m)
  | (Fail e, m) => (Fail e, with_files c m)
  | (Panic, m) => (Panic, with_files c m)
  end.

(** ** The file of the cache *)

Variable Marshal : DepsDatabase → res string.
Variable Unmarshal : string → res DepsDatabase.

(** [db.Files[d]] for each id; [Ok None] for an id past the end, a panic for a
    negative one. *)
Fixpoint entry_files (fs : list FileInfo) (ids : list Z) : res (option (list FileInfo)) :=
  match ids with
  | [] => Ok (Some [])
  | d :: ids =>
      if (Z.of_nat (length fs) <=? d)%Z then Ok None
      else if (d <? 0)%Z then Panic
      else let? f := index fs (Z.to_nat d) in
           let? r := entry_files fs ids in Ok (option_map (cons f) r)
  end.

Definition entry_key (e : Deps) : Key :=
  {| CommandDigest := d_CommandDigest e; SrcFilePath := AbsPath (SrcFile e); srcFileMinDigest := Digest (SrcFile e) |}.

Definition load_entry (fs : list FileInfo) (c : res Cache) (e : Deps) : res Cache :=
  let? c := c in
  let? r := entry_files fs (DepIds e) in
  Ok (match r with Some deps => with_entry c (entry_key e) deps (LastUsed e) | None => c end).

(** What the file holds is added to the cache, which is ready in any case. *)
Definition load_db (db : DepsDatabase) (c : Cache) : res Cache :=
  if negb (Version db =? reclientVersion c)%string then Ok c
  else foldl (load_entry (Files db)) (Ok (with_files c (init (Files db) (filesCache c)))) (db_Deps db).

Definition LoadFromDir (w : fs) (dir : string) (c : Cache) : res Cache :=
  match OS.ReadFile w (Join [dir; cacheName]) with
  | Ok content =>
      match Unmarshal content with
      | Ok db => let? c := load_db db c in Ok (with_ready c true)
      | _ => Ok (with_ready c true)
      end
  | _ => Ok (with_ready c true)
  end.

(** The files written so far, and the index of each. *)
Definition file_table : Type := list FileInfo * gmap (string * string) Z.

Definition file_id (t : file_table) (fi : FileInfo) : Z * file_table :=
  match t.2 !! (AbsPath fi, Digest fi) with
  | Some idx => (idx, t)
  | None =>
      let idx := Z.of_nat (size t.2) in
      (idx, (t.1 ++ [fi], <[(AbsPath fi, Digest fi) := idx]> t.2))
  end.

Fixpoint file_ids (t : file_table) (fis : list FileInfo) : list Z * file_table :=
  match fis with
  | [] => ([], t)
  | fi :: fis =>
      let '(idx, t) := file_id t fi in
      let '(ids, t) := file_ids t fis in (idx :: ids, t)
  end.

(** A key without a time of last use has the zero time. *)
Definition zero_time : Z := 0.
Definition lut (c : Cache) (k : Key) : Z := default zero_time (lutByKey c !! k).

Definition write_deps (k : Key) (ids : list Z) (t : Z) : Deps := {|
  d_CommandDigest := CommandDigest k;
  SrcFile := {| AbsPath := SrcFilePath k; Digest := srcFileMinDigest k; Mtime := 0 |};
  DepIds := ids; LastUsed := t |}.

(** The loop of [WriteToDisk], with the number of entries written before. *)
Fixpoint write_entries (c : Cache) (keys : list Key) (count : Z) (t : file_table) : list Deps * file_table :=
  match keys with
  | [] => ([], t)
  | key :: keys =>
      let '(depIds, t) := file_ids t (default [] (depsCache c !! key)) in
      let d := write_deps key depIds (lut c key) in
      if (MaxEntries c <=? count + 1)%Z then ([d], t)
      else let '(ds, t) := write_entries c keys (count + 1) t in (d :: ds, t)
  end.

(** [sort.Slice] of the keys of the map, latest use first: one of the orders
    that are sorted so. *)
Definition sorted_keys (c : Cache) (keys : list Key) : Prop :=
  keys ≡ₚ (map_to_list (depsCache c)).*1 ∧ StronglySorted (λ k1 k2, lut c k2 ≤ lut c k1)%Z keys.

Definition database (c : Cache) (keys : list Key) : DepsDatabase :=
  let '(ds, t) := write_entries c keys 0 ([], ∅) in
  {| Files := t.1; db_Deps := ds; Version := reclientVersion c |}.

(** [WriteToDisk] of a cache that is not nil; nothing is reported when the
    database cannot be serialized or written. *)
Definition WriteToDisk (w : fs) (outDir : string) (keys : list Key) (c : Cache) : fs * Cache :=
  (match Marshal (database c keys) with
   | Ok out =>
       let file := Join [outDir; cacheName] in
       match (let? w := OS.Create w file in OS.Write w file out) with Ok w => w | _ => w end
   | _ => w
   end, with_ready c false).

(** ** The cache of digests *)

(** What the cache of digests holds of this run is what the files say. *)
Definition coherent (w : fs) (m : minimalFileCache) : Prop :=
  (∀ p md, minfc m !! p = Some md → minimalDigest w p = Ok md) ∧
  (∀ p f, files m !! p = Some f → updated f = true →
     ∃ md, minimalDigest w p = Ok md ∧ fi_FileInfo f = new_fileInfo p md).

Lemma load_spec w p m :
  coherent w m →
  (load w p m).1 = new_fileInfo p <$> minimalDigest w p ∧ coherent w (load w p m).2.
Proof.
  intros [Hm Hf]. unfold load.
  set (miss := match (match minfc m !! p with Some md => Ok (md, minfc m) | None => _ end) with Ok _ => _ | _ => _ end).
  assert (miss.1 = new_fileInfo p <$> minimalDigest w p ∧ coherent w miss.2) as Hmiss.
  { subst miss. destruct (minfc m !! p) as [md|] eqn:E.
    - rewrite (Hm p md E). simpl. split; [done|]. split; [done|]. simpl. intros q f.
      rewrite lookup_insert_Some. intros [[<- <-]|[_ H]]; [|by apply Hf]. intros _. exists md. split; [by apply Hm|done].
    - destruct (minimalDigest w p) as [md|e|] eqn:Ed; simpl; [|by split..]. split; [done|]. split; simpl.
      + intros q md'. rewrite lookup_insert_Some. intros [[<- <-]|[_ H]]; [done|by apply Hm].
      + intros q f. rewrite lookup_insert_Some. intros [[<- <-]|[_ H]]; [|by apply Hf]. by exists md. }
  destruct (files m !! p) as [f|] eqn:E; [|done]. destruct (updated f) eqn:Eu; [|done].
  destruct (Hf p f E Eu) as (md & -> & ->). done.
Qed.

(** The file still has the digest that was recorded. *)
Definition unchanged (w : fs) (d : FileInfo) : Prop :=
  ∃ md, minimalDigest w (AbsPath d) = Ok md ∧ md.1 = Digest d.

Lemma check_deps_spec w fInfos m :
  coherent w m →
  coherent w (check_deps w fInfos m).2 ∧
  ∀ deps, (check_deps w fInfos m).1 = Some deps ↔ Forall (unchanged w) fInfos ∧ deps = AbsPath <$> fInfos.
Proof.
  revert m. induction fInfos as [|d fInfos IH]; intros m Hm; simpl.
  { split; [done|]. intros deps. split; [intros [= <-]; by split|by intros [_ ->]]. }
  destruct (load_spec w (AbsPath d) m Hm) as [E Hm1].
  destruct (load w (AbsPath d) m) as [r m1]. simpl in E, Hm1.
  destruct (minimalDigest w (AbsPath d)) as [md|e|] eqn:Ed; simpl in E; subst r; simpl.
  - destruct (String.eqb_spec md.1 (Digest d)) as [Heq|Hne].
    + specialize (IH m1 Hm1). destruct (check_deps w fInfos m1) as [r m2]. simpl in *. destruct IH as [Hm2 IH].
      split; [done|]. intros deps. rewrite Forall_cons. destruct r as [ds|]; simpl.
      * destruct (IH ds) as [IH1 _]. destruct (IH1 eq_refl) as [Ha ->].
        split; [intros [= <-]; split_and!; [by exists md|done|done]|by intros (_ & ->)].
      * split; [done|]. intros ((_ & Ha) & _). destruct (IH (AbsPath <$> fInfos)) as [_ IH2]. by discriminate IH2.
    + split; [done|]. intros deps. split; [done|]. rewrite Forall_cons. intros (((md' & H & H') & _) & _).
      rewrite Ed in H. by injection H as <-.
  - split; [done|]. intros deps. split; [done|]. rewrite Forall_cons. intros (((md' & H & _) & _) & _). congruence.
  - split; [done|]. intros deps. split; [done|]. rewrite Forall_cons. intros (((md' & H & _) & _) & _). congruence.
Qed.

(** C8: the cache answers exactly when it holds an entry for the command and
    the source file as it is now, and no header of the entry has other
    directives than when it was recorded; the answer is those headers.  A lookup
    changes no entry. *)
Theorem GetDeps_spec w now k c deps :
  coherent w (filesCache c) →
  ((GetDeps w now k c).1 = Some deps ↔
   ready c = true ∧ ∃ md fInfos,
     minimalDigest w (SrcFilePath k) = Ok md ∧
     depsCache c !! full_key k (new_fileInfo (SrcFilePath k) md) = Some fInfos ∧
     Forall (unchanged w) fInfos ∧ deps = AbsPath <$> fInfos) ∧
  depsCache (GetDeps w now k c).2 = depsCache c ∧ coherent w (filesCache (GetDeps w now k c).2).
Proof.
  intros Hc. unfold GetDeps. destruct (ready c); simpl; [|split; [split; [done|by intros []]|done]].
  destruct (load_spec w (SrcFilePath k) (filesCache c) Hc) as [E Hm].
  destruct (load w (SrcFilePath k) (filesCache c)) as [r m]. simpl in E, Hm.
  destruct (minimalDigest w (SrcFilePath k)) as [md|e|]; simpl in E; subst r;
    [|split; [split; [done|intros (_ & md & fis & [=] & _)]|done]..].
  destruct (depsCache c !! _) as [fInfos|] eqn:Ek.
  - destruct (check_deps_spec w fInfos m Hm) as [Hm2 Hd]. destruct (check_deps w fInfos m) as [r m2]. simpl in *.
    destruct r as [ds|]; simpl; (split; [|done]); rewrite Hd; split.
    + intros [Hf ->]. split; [done|]. by exists md, fInfos.
    + intros (_ & md' & fis & [= <-] & E & Hf & ->). rewrite Ek in E. by injection E as <-.
    + intros [Hf ->]. split; [done|]. by exists md, fInfos.
    + intros (_ & md' & fis & [= <-] & E & Hf & ->). rewrite Ek in E. by injection E as <-.
  - split; [|done]. split; [done|]. intros (_ & md' & fis & [= <-] & E & _). by rewrite Ek in E.
Qed.

Lemma load_deps_spec w deps m fis m' :
  coherent w m → load_deps w deps m = (Ok (Some fis), m') →
  coherent w m' ∧ Forall (unchanged w) fis ∧ AbsPath <$> fis = deps.
Proof.
  revert m fis m'. induction deps as [|d deps IH]; intros m fis m' Hm; simpl; [by intros [= <- <-]|].
  destruct (IsAbs d); simpl; [|done]. destruct (load_spec w d m Hm) as [E Hm1].
  destruct (load w d m) as [r m1]. simpl in E, Hm1.
  destruct (minimalDigest w d) as [md|e|] eqn:Ed; simpl in E; subst r; [|done..].
  destruct (load_deps w deps m1) as [r m2] eqn:El. destruct r as [[fis'|]|e|]; simpl; try done.
  intros [= <- <-]. destruct (IH m1 fis' m2 Hm1 El) as (H1 & H2 & H3).
  split_and!; [done| |by rewrite fmap_cons, H3]. constructor; [|done]. by exists md.
Qed.

Lemma load_deps_total w deps m :
  coherent w m → Forall (λ d, IsAbs d = true ∧ is_ok (minimalDigest w d) = true) deps →
  ∃ fis m', load_deps w deps m = (Ok (Some fis), m').
Proof.
  revert m. induction deps as [|d deps IH]; intros m Hm Hd; simpl; [by eexists _, _|].
  apply Forall_cons in Hd as [[Ha Ho] Hd]. rewrite Ha. simpl.
  destruct (load_spec w d m Hm) as [E Hm1]. destruct (load w d m) as [r m1]. simpl in E, Hm1.
  destruct (minimalDigest w d) as [md|e|]; [|done..]. simpl in E. subst r.
  destruct (IH m1 Hm1 Hd) as (fis & m2 & ->). simpl. by eexists _, _.
Qed.

(** A lookup keeps the digests coherent and the cache ready. *)
Lemma GetDeps_keeps w now k c :
  coherent w (filesCache c) →
  coherent w (filesCache (GetDeps w now k c).2) ∧ ready (GetDeps w now k c).2 = ready c.
Proof.
  intros Hc. unfold GetDeps. destruct (ready c) eqn:Er; simpl; [|by rewrite Er].
  destruct (load_spec w (SrcFilePath k) (filesCache c) Hc) as [_ Hm].
  destruct (load w (SrcFilePath k) (filesCache c)) as [[sfi|e|] m]; simpl in *; [|by rewrite Er..].
  destruct (depsCache c !! _) as [fInfos|]; simpl; [|by rewrite Er].
  destruct (check_deps_spec w fInfos m Hm) as [Hm2 _].
  destruct (check_deps w fInfos m) as [[ds|] m2]; simpl in *; by rewrite Er.
Qed.

(** An entry of the file as it is now, none of whose headers changed, is
    found. *)
Lemma GetDeps_hit w now k c md fis :
  coherent w (filesCache c) → ready c = true → minimalDigest w (SrcFilePath k) = Ok md →
  depsCache c !! full_key k (new_fileInfo (SrcFilePath k) md) = Some fis → Forall (unchanged w) fis →
  (GetDeps w now k c).1 = Some (AbsPath <$> fis).
Proof.
  intros Hm Hr Ed Hk Hu. unfold GetDeps. rewrite Hr. simpl.
  destruct (load_spec w (SrcFilePath k) _ Hm) as [El Hm2].
  destruct (load w (SrcFilePath k) (filesCache c)) as [r m2]. rewrite Ed in El. simpl in El, Hm2. subst r. rewrite Hk.
  destruct (check_deps_spec w fis m2 Hm2) as [_ Hd2].
  destruct (check_deps w fis m2) as [ds m3]. simpl in Hd2.
  destruct (Hd2 (AbsPath <$> fis)) as [_ Hd3]. by rewrite (Hd3 (conj Hu eq_refl)).
Qed.

(** What is stored is an entry of the file as it is now. *)
Lemma SetDeps_entry w now k deps c :
  coherent w (filesCache c) → ready c = true → is_ok (minimalDigest w (SrcFilePath k)) = true →
  Forall (λ d, IsAbs d = true ∧ is_ok (minimalDigest w d) = true) deps →
  ∃ c' md fis, SetDeps w now k deps c = (Ok tt, c') ∧ coherent w (filesCache c') ∧ ready c' = true ∧
    minimalDigest w (SrcFilePath k) = Ok md ∧
    depsCache c' !! full_key k (new_fileInfo (SrcFilePath k) md) = Some fis ∧
    Forall (unchanged w) fis ∧ AbsPath <$> fis = deps.
Proof.
  intros Hc Hr Hs Hd. unfold SetDeps. rewrite Hr. simpl.
  destruct (load_deps_total w deps _ Hc Hd) as (fis & m & E). rewrite E.
  destruct (load_deps_spec w deps _ fis m Hc E) as (Hm & Hu & Ha).
  destruct (load_spec w (SrcFilePath k) m Hm) as [El Hm1].
  destruct (load w (SrcFilePath k) m) as [r m1]. simpl in El, Hm1.
  destruct (minimalDigest w (SrcFilePath k)) as [md|e|]; [|done..]. simpl in El. subst r.
  eexists _, md, fis. split_and!; [done|done|done|done| |done|done]. simpl. by rewrite lookup_insert_eq.
Qed.

(** What is stored can be found again: as long as the files stay as they
    are, a lookup with the same command and source file yields the
    dependencies that were stored last. *)
Theorem SetDeps_GetDeps w now now' k deps c :
  coherent w (filesCache c) → ready c = true → is_ok (minimalDigest w (SrcFilePath k)) = true →
  Forall (λ d, IsAbs d = true ∧ is_ok (minimalDigest w d) = true) deps →
  ∃ c', SetDeps w now k deps c = (Ok tt, c') ∧ coherent w (filesCache c') ∧
        (GetDeps w now' k c').1 = Some deps.
Proof.
  intros Hc Hr Hs Hd.
  destruct (SetDeps_entry w now k deps c Hc Hr Hs Hd) as (c' & md & fis & E & Hc' & Hr' & Em & Ek & Hu & <-).
  exists c'. split_and!; [done|done|]. by eapply GetDeps_hit.
Qed.

(** ** The database *)

(** Files with the same path and digest. *)
Definition path_digest (fi : FileInfo) : string * string := (AbsPath fi, Digest fi).

Definition path_digests (l : list FileInfo) : list (string * string) := path_digest <$> l.

(** The index of a table of files points at the file that it is for. *)
Definition table_ok (t : file_table) : Prop :=
  size t.2 = length t.1 ∧
  ∀ k idx, t.2 !! k = Some idx → (0 ≤ idx)%Z ∧ path_digest <$> t.1 !! Z.to_nat idx = Some k.

Definition refers (l : list FileInfo) (idx : Z) (fi : FileInfo) : Prop :=
  (0 ≤ idx)%Z ∧ path_digest <$> l !! Z.to_nat idx = Some (path_digest fi).

Lemma refers_prefix l l' idx fi : l `prefix_of` l' → refers l idx fi → refers l' idx fi.
Proof.
  intros [k ->] [H1 H2]. split; [done|]. destruct (l !! Z.to_nat idx) as [x|] eqn:E; [|done].
  by rewrite (lookup_app_l_Some _ _ _ _ E).
Qed.

Lemma file_id_spec t fi :
  table_ok t →
  let '(idx, t') := file_id t fi in table_ok t' ∧ t.1 `prefix_of` t'.1 ∧ refers t'.1 idx fi.
Proof.
  intros [Hs Ht]. unfold file_id. destruct (t.2 !! (AbsPath fi, Digest fi)) as [idx|] eqn:E.
  - split_and!; [done|done|]. by apply Ht in E.
  - rewrite Hs. assert (refers (t.1 ++ [fi]) (Z.of_nat (length t.1)) fi) as Hr.
    { split; [lia|]. rewrite Nat2Z.id, lookup_app_r, Nat.sub_diag by lia. done. }
    split_and!; [|by eexists|done]. split; simpl.
    + rewrite map_size_insert_None, length_app by done. simpl. lia.
    + intros k idx. rewrite lookup_insert_Some. intros [[<- <-]|[_ H]]; [done|].
      apply Ht in H as [H1 H2]. split; [done|]. destruct (t.1 !! Z.to_nat idx) as [x|] eqn:Ex; [|done].
      by rewrite (lookup_app_l_Some _ _ _ _ Ex).
Qed.

Lemma file_ids_spec fis t :
  table_ok t →
  let '(ids, t') := file_ids t fis in
  table_ok t' ∧ t.1 `prefix_of` t'.1 ∧ Forall2 (refers t'.1) ids fis.
Proof.
  revert t. induction fis as [|fi fis IH]; intros t Ht; simpl; [done|].
  pose proof (file_id_spec t fi Ht) as H. destruct (file_id t fi) as [idx t1]. destruct H as (H1 & P1 & R1).
  specialize (IH t1 H1). destruct (file_ids t1 fis) as [ids t2]. destruct IH as (H2 & P2 & R2).
  split_and!; [done|by etrans|]. constructor; [by eapply refers_prefix|done].
Qed.

(** The entries written for [keys], all of them in the table [l] of files. *)
Definition written (c : Cache) (l : list FileInfo) (keys : list Key) (ds : list Deps) : Prop :=
  Forall2 (λ k d, entry_key d = k ∧ LastUsed d = lut c k ∧
                  Forall2 (refers l) (DepIds d) (default [] (depsCache c !! k))) keys ds.

Lemma written_prefix c l l' keys ds : l `prefix_of` l' → written c l keys ds → written c l' keys ds.
Proof.
  intros Hp H. eapply Forall2_impl; [exact H|]. intros k d (H1 & H2 & H3). split_and!; [done..|].
  eapply Forall2_impl; [done|]. intros. by eapply refers_prefix.
Qed.

Lemma write_entries_spec c keys count t :
  table_ok t → (0 ≤ count)%Z →
  let '(ds, t') := write_entries c keys count t in
  table_ok t' ∧ t.1 `prefix_of` t'.1 ∧
  written c t'.1 (take (max 1 (Z.to_nat (MaxEntries c - count))) keys) ds.
Proof.
  revert count t. induction keys as [|key keys IH]; intros count t Ht Hn; simpl.
  { rewrite take_nil. split_and!; [done|done|constructor]. }
  pose proof (file_ids_spec (default [] (depsCache c !! key)) t Ht) as H.
  destruct (file_ids t _) as [ids t1]. destruct H as (H1 & P1 & R1).
  destruct (Z.leb_spec (MaxEntries c) (count + 1)).
  - replace (max 1 _) with 1 by lia. simpl. split_and!; [done|done|]. rewrite take_0. repeat constructor; [by destruct key|done].
  - specialize (IH (count + 1)%Z t1 H1 ltac:(lia)). destruct (write_entries c keys _ t1) as [ds t2].
    destruct IH as (H2 & P2 & W2).
    replace (max 1 (Z.to_nat (MaxEntries c - count))) with (S (max 1 (Z.to_nat (MaxEntries c - (count + 1))))) by lia.
    split_and!; [done|by etrans|]. simpl. constructor; [|done]. split_and!; [by destruct key|done|].
    eapply Forall2_impl; [done|]. intros. by eapply refers_prefix.
Qed.

Lemma database_spec c keys :
  let db := database c keys in
  written c (Files db) (take (max 1 (Z.to_nat (MaxEntries c))) keys) (db_Deps db) ∧
  Version db = reclientVersion c.
Proof.
  unfold database. pose proof (write_entries_spec c keys 0 ([], ∅)) as H.
  destruct (write_entries c keys 0 ([], ∅)) as [ds t]. simpl. rewrite Z.sub_0_r in H.
  destruct H as (_ & _ & H); [|done|done]. split; [done|]. intros k idx H. simpl in H. by apply lookup_empty_Some in H.
Qed.

Lemma StronglySorted_take_drop {A} (R : A → A → Prop) l n x y :
  StronglySorted R l → x ∈ take n l → y ∈ drop n l → R x y.
Proof.
  revert n. induction l as [|z l IH]; intros n Hs; [rewrite take_nil; by intros ?%elem_of_nil|].
  apply StronglySorted_inv in Hs as [Hs Hz]. destruct n as [|n]; [by intros ?%elem_of_nil|]. simpl.
  intros [->|Hx]%elem_of_cons Hy; [|by apply (IH n)].
  rewrite Forall_forall in Hz. apply Hz. rewrite <- (take_drop n l). apply elem_of_app. by right.
Qed.

(** At most [MaxEntries] entries are written (but one, when there are any,
    even for a bound below one), and none that is left out was used later than
    one that is written. *)
Theorem database_bounded c keys :
  sorted_keys c keys →
  let ks := entry_key <$> db_Deps (database c keys) in
  length ks = min (max 1 (Z.to_nat (MaxEntries c))) (size (depsCache c)) ∧
  ∀ k1 k2, k1 ∈ ks → k2 ∈ dom (depsCache c) → k2 ∉ ks → (lut c k2 ≤ lut c k1)%Z.
Proof.
  intros [Hp Hs] ks. destruct (database_spec c keys) as [Hw _].
  assert (ks = take (max 1 (Z.to_nat (MaxEntries c))) keys) as ->.
  { subst ks. revert Hw. unfold written. generalize (take (max 1 (Z.to_nat (MaxEntries c))) keys) as l.
    generalize (db_Deps (database c keys)) as ds. induction ds as [|d ds IH]; intros l; inversion 1; subst; [done|].
    rewrite fmap_cons. match goal with H : _ ∧ _ |- _ => destruct H as (-> & _) end. f_equal. by apply IH. }
  split.
  - rewrite length_take. f_equal. rewrite (Permutation_length Hp), length_fmap. by rewrite length_map_to_list.
  - intros k1 k2 H1 H2 Hn. apply (StronglySorted_take_drop _ _ _ k1 k2 Hs H1).
    assert (k2 ∈ keys) as Hin.
    { rewrite Hp. apply elem_of_dom in H2 as [v H2]. apply list_elem_of_fmap. exists (k2, v).
      split; [done|]. by apply elem_of_map_to_list. }
    rewrite <- (take_drop (max 1 (Z.to_nat (MaxEntries c))) keys) in Hin. apply elem_of_app in Hin as [?|?]; done.
Qed.

Lemma entry_files_refers l ids fis :
  Forall2 (refers l) ids fis →
  Forall (λ id, 0 ≤ id < Z.of_nat (length l))%Z ids ∧
  ∃ fis', entry_files l ids = Ok (Some fis') ∧ path_digest <$> fis' = path_digest <$> fis.
Proof.
  induction 1 as [|id fi ids fis [H0 Hr] _ (Hids & fis' & E & Hp)]; simpl; [split; [constructor|by exists []]|].
  destruct (l !! Z.to_nat id) as [x|] eqn:Ex; [|done]. injection Hr as Hr Hr'.
  pose proof (lookup_lt_Some _ _ _ Ex) as Hlt. split; [constructor; [lia|done]|].
  rewrite (proj2 (Z.leb_gt _ _)) by lia. rewrite (proj2 (Z.ltb_ge _ _)) by lia.
  unfold index. rewrite Ex. simpl. rewrite E. simpl. exists (x :: fis'). split; [done|].
  rewrite fmap_cons, Hp. unfold path_digest at 1. by rewrite Hr, Hr'.
Qed.

(** C29: a database that is written is well formed: every identifier of a file
    is that of a file of the database, so that reading it back neither panics
    nor drops an entry. *)
Theorem database_well_formed c keys d :
  d ∈ db_Deps (database c keys) →
  Forall (λ id, 0 ≤ id < Z.of_nat (length (Files (database c keys))))%Z (DepIds d) ∧
  ∃ fis, entry_files (Files (database c keys)) (DepIds d) = Ok (Some fis) ∧
         path_digest <$> fis = path_digest <$> default [] (depsCache c !! entry_key d).
Proof.
  destruct (database_spec c keys) as [Hw _]. intros Hd. apply list_elem_of_lookup in Hd as [i Hi].
  destruct (Forall2_lookup_r _ _ _ _ _ Hw Hi) as (k & _ & -> & _ & Hr). by apply entry_files_refers.
Qed.

(** Entries with distinct keys are all in the cache after they are loaded. *)
Lemma load_entries l keys ds c0 c :
  written c l keys ds → NoDup keys → (∀ k, k ∈ keys → depsCache c0 !! k = None) →
  ∃ c', foldl (load_entry l) (Ok c0) ds = Ok c' ∧
    (∀ k, k ∉ keys → depsCache c' !! k = depsCache c0 !! k ∧ lutByKey c' !! k = lutByKey c0 !! k) ∧
    (∀ k, k ∈ keys → lutByKey c' !! k = Some (lut c k) ∧
       path_digests <$> depsCache c' !! k = Some (path_digests (default [] (depsCache c !! k)))).
Proof.
  intros Hw. revert c0. induction Hw as [|k d keys ds (Hk & Hl & Hr) Hw IH]; intros c0 Hnd Hc0; simpl.
  { exists c0. split; [done|]. split; [done|]. by intros k ?%elem_of_nil. }
  apply NoDup_cons in Hnd as [Hnk Hnd]. destruct (entry_files_refers _ _ _ Hr) as (_ & fis & -> & Hf). simpl.
  rewrite Hk, Hl. set (c1 := with_entry c0 k fis (lut c k)).
  destruct (IH c1 Hnd) as (c' & -> & Hout & Hin).
  { intros k' Hk'. simpl. rewrite lookup_insert_ne by (by intros ->). apply Hc0. by right. }
  exists c'. split; [done|]. split.
  - intros k' [Hne Hn]%not_elem_of_cons. destruct (Hout k' Hn) as [-> ->]. simpl. by rewrite !lookup_insert_ne.
  - intros k' [->|Hk']%elem_of_cons; [|by apply Hin]. destruct (Hout k Hnk) as [-> ->]. simpl.
    rewrite !lookup_insert_eq. simpl. unfold path_digests. by rewrite Hf.
Qed.

(** C19: the cache survives the trip through its file.  A proxy of the same
    version that loads what was written has the entries that were written, with
    the same dependencies, digests and times of last use; nothing else. *)
Theorem disk_roundtrip w dir keys c out n :
  sorted_keys c keys → (Z.of_nat (size (depsCache c)) ≤ MaxEntries c)%Z →
  Marshal (database c keys) = Ok out → Unmarshal out = Ok (database c keys) →
  OS.is_dir w (Dir (Join [dir; cacheName])) = true → OS.is_dir w (Join [dir; cacheName]) = false →
  ∃ c', LoadFromDir (WriteToDisk w dir keys c).1 dir (New n (reclientVersion c)) = Ok c' ∧ ready c' = true ∧
    ∀ k, path_digests <$> depsCache c' !! k = path_digests <$> depsCache c !! k ∧
         lutByKey c' !! k = (λ _, lut c k) <$> depsCache c !! k.
Proof.
  intros [Hp _] Hmax Hm Hu Hdir Hnd. unfold LoadFromDir, WriteToDisk. rewrite Hm.
  set (file := Join [dir; cacheName]) in *. cbv zeta. cbn [fst].
  unfold OS.Create. rewrite Hnd, Hdir. simpl. unfold OS.Write. rewrite lookup_insert_eq. simpl.
  unfold OS.ReadFile, OS.Stat, OS.is_dir in *. rewrite lookup_insert_eq.
  apply orb_false_iff in Hnd as [-> _]. rewrite bool_decide_eq_false_2 by done. simpl. rewrite Hu.
  destruct (database_spec c keys) as [Hw Hv]. unfold load_db. rewrite Hv.
  change (reclientVersion (New n (reclientVersion c))) with (reclientVersion c). rewrite String.eqb_refl. cbn [negb].
  pose proof (Permutation_length Hp) as Hlen. rewrite length_fmap, length_map_to_list in Hlen.
  rewrite take_ge in Hw by lia.
  destruct (load_entries _ keys _ (with_files (New n (reclientVersion c))
    (init (Files (database c keys)) (filesCache (New n (reclientVersion c))))) c Hw) as (c' & -> & Hout & Hin).
  { rewrite Hp. apply NoDup_fst_map_to_list. }
  { done. }
  eexists. split; [done|]. split; [done|]. intros k. simpl.
  assert (k ∈ keys ↔ is_Some (depsCache c !! k)) as Hiff.
  { rewrite Hp, list_elem_of_fmap. split.
    - intros ([k' v] & -> & H%elem_of_map_to_list). by exists v.
    - intros [v H]. exists (k, v). split; [done|]. by apply elem_of_map_to_list. }
  destruct (depsCache c !! k) as [v|] eqn:E.
  - destruct (Hin k) as [-> H]; [by apply Hiff|]. rewrite E in H. done.
  - destruct (Hout k) as [-> ->]; [rewrite Hiff; by intros []|]. done.
Qed.

End env.

End DepsCache.

(** ** Witnesses and examples *)

Import DepsCache.

Definition nl : string := String "010" "".
Definition deps_fs : fs :=
  {["/r/a.cc" := NFile ("#include <a.h>" +:+ nl +:+ "int x;") 420%Z; "/r/a.h" := NFile "#define A 1" 420%Z;
    "/c" := NDir]}.

Definition ModTime_example : fs → string → Z := λ _ _, 7%Z.
Definition key_example : Key := {| CommandDigest := "cmd/1"; SrcFilePath := "/r/a.cc"; srcFileMinDigest := "" |}.
Definition cache_example : Cache := with_ready (New 10 "1.0") true.
Definition stored_example : Cache :=
  (SetDeps id ModTime_example deps_fs 5 key_example ["/r/a.h"] cache_example).2.
Definition keys_example : list Key :=
  [full_key key_example (new_fileInfo "/r/a.cc" ("#include <a.h>/14", 7%Z))].

Lemma coherent_empty w n v : coherent id ModTime_example w (filesCache (with_ready (New n v) true)).
Proof.
  split.
  - intros p md H. simpl in H. by apply lookup_empty_Some in H.
  - intros p f H. simpl in H. by apply lookup_empty_Some in H.
Qed.

Lemma GetDeps_spec_witness :
  coherent id ModTime_example deps_fs (filesCache cache_example) ∧
  depsCache (GetDeps id ModTime_example deps_fs 9 key_example cache_example).2 = ∅.
Proof.
  split; [apply coherent_empty|].
  by destruct (GetDeps_spec id ModTime_example deps_fs 9 key_example cache_example ["/r/a.h"]
    (coherent_empty deps_fs 10 "1.0")) as (_ & H & _).
Defined.

Lemma SetDeps_GetDeps_witness :
  ∃ c', SetDeps id ModTime_example deps_fs 5 key_example ["/r/a.h"] cache_example = (Ok tt, c') ∧
        coherent id ModTime_example deps_fs (filesCache c') ∧
        (GetDeps id ModTime_example deps_fs 9 key_example c').1 = Some ["/r/a.h"].
Proof.
  apply (SetDeps_GetDeps id ModTime_example deps_fs 5 9 key_example ["/r/a.h"] cache_example).
  - apply coherent_empty.
  - reflexivity.
  - vm_compute. reflexivity.
  - repeat constructor.
Defined.

Lemma sorted_example : sorted_keys stored_example keys_example.
Proof.
  split; [|repeat constructor].
  assert ((map_to_list (depsCache stored_example)).*1 = keys_example) as -> by (vm_compute; reflexivity). done.
Qed.

Lemma database_bounded_witness :
  length (entry_key <$> db_Deps (database stored_example keys_example)) = 1.
Proof.
  destruct (database_bounded stored_example keys_example sorted_example) as [H _].
  rewrite H. vm_compute. reflexivity.
Defined.

Lemma database_well_formed_witness :
  ∃ fis, entry_files (Files (database stored_example keys_example)) [0%Z] = Ok (Some fis) ∧
    path_digest <$> fis = path_digest <$> default [] (depsCache stored_example !! default key_example (head keys_example)).
Proof.
  destruct (database_well_formed stored_example keys_example
    (default (write_deps key_example [] 0) (head (db_Deps (database stored_example keys_example))))) as [_ H].
  - vm_compute. left.
  - exact H.
Defined.

Definition Marshal_example (_ : DepsDatabase) : res string := Ok "db".
Definition Unmarshal_example (s : string) : res DepsDatabase :=
  if (s =? "db")%string then Ok (database stored_example keys_example) else Fail ESyntax.

Lemma disk_roundtrip_witness :
  ∃ c', LoadFromDir Unmarshal_example (WriteToDisk Marshal_example deps_fs "/c" keys_example stored_example).1 "/c" (New 3 "1.0") = Ok c' ∧
    ready c' = true ∧
    ∀ k, path_digests <$> depsCache c' !! k = path_digests <$> depsCache stored_example !! k ∧
         lutByKey c' !! k = (λ _, lut stored_example k) <$> depsCache stored_example !! k.
Proof.
  apply (disk_roundtrip Marshal_example Unmarshal_example deps_fs "/c" keys_example stored_example "db" 3 sorted_example);
    vm_compute; done.
Defined.

(** The directives are hashed without a separator: different directives can
    have one digest. *)
Example directives_collide :
  directives false ["#define A"; "#define B"] = directives false ["#define A#define B"].
Proof. reflexivity. Qed.

(** A bound of zero still writes one entry. *)
Example zero_bound :
  length (db_Deps (database {| MaxEntries := 0; reclientVersion := "1.0"; depsCache := depsCache stored_example;
    filesCache := filesCache stored_example; lutByKey := ∅; ready := false |} keys_example)) = 1.
Proof. vm_compute. reflexivity. Qed.
