(* ===== verification/CppCompile.v ===== *)
(** * Preprocessors of C++ actions:
    [internal/pkg/inputprocessor/action/]{cppcompile, clangcl, nacl, headerabi,
    clanglint, clanglink}

    The headers of a compilation come from a dependency scanner, whose answers
    are cached.  The scanner, the local executor and the identity of files are
    parameters. *)
From S2P Require Import Prelude GoStrings GoPath PathTranslator ArgsScanner GoFS Command InputProcessor.
From S2P Require Import FlagParsers ClangParser DepsCache.
From Stdlib Require Import Ascii.
Import Filepath PathTranslator InputProcessor FlagParsers ClangParser.

Module CppCompile.

(** ** Command lines for the dependency scanner *)

Definition clangCompilerArgFlag : string := "-Xclang".

Definition cpp_toAbsArgs : list string :=
  ["--sysroot"; "--sysroot="; "-isysroot"; "-fprofile-sample-use="; "-fsanitize-blacklist="; "-fsanitize-ignorelist=";
   "-fprofile-list="].
Definition toRemoveArgs : list string :=
  ["-fno-experimental-new-pass-manager"; "-fexperimental-new-pass-manager"; "-fconserve-stack"].
Definition toRemoveXclangFlags : list string := ["-verify"; "-fallow-half-arguments-and-returns"].
Definition cpp_virtualInputFlags : list string :=
  ["-I"; "-isystem"; "-isysroot"; "--sysroot="; "--sysroot"; "-internal-isystem"; "-internal-externc-isystem"].

Definition appendNonEmpty (slice : list string) (value : string) : list string :=
  if (value =? "")%string then slice else slice ++ [value].

Definition appendFlag (slice : list string) (key value : string) (joined : bool) : list string :=
  if joined then appendNonEmpty slice (key +:+ value)
  else appendNonEmpty (appendNonEmpty slice key) value.

(** [p] under [directory] unless it is absolute. *)
Definition under (directory p : string) : string := if IsAbs p then p else Join [directory; p].

(** One round of the loop over the flags in [BuildCommandLine]. *)
Definition append_flag (directory : string) (toAbsArgs : list string) (args : list string) (flag : Flag) : list string :=
  let value := Value flag in
  if (Key flag =? clangCompilerArgFlag)%string && mem value toRemoveXclangFlags then args else
  let value := if mem (Key flag) toAbsArgs
               then (if IsAbs value then Clean value else Join [directory; value]) else value in
  if mem (Key flag) toRemoveArgs then args
  else appendFlag args (InputProcessor.OriginalKey flag) value (Joined flag).

Definition append_output (f : CommandFlags) (outputFlag : string) (joined : bool) (args : list string) (v : string)
    : list string :=
  if (v =? cf_EmittedDependencyFile f)%string then args else appendFlag args outputFlag v joined.

Definition BuildCommandLine (f : CommandFlags) (outputFlag : string) (outputFlagJoined : bool)
    (toAbsArgs : list string) : list string :=
  let directory := Join [cf_ExecRoot f; WorkingDirectory f] in
  let args := [under directory (ExecutablePath f)] in
  let filename := match TargetFilePaths f with [] => "" | t :: _ => under directory t end in
  let args := foldl (append_flag directory toAbsArgs) args (Flags f) in
  let args := args ++ ["-Qunused-arguments"] in
  let args := foldl (append_output f outputFlag outputFlagJoined) args (OutputFilePaths f) in
  args ++ [filename].

(** ** Virtual inputs *)

(** One round of the loop of [extractVirtualSubdirectories]: the directories,
    the path so far and its last element. *)
Definition extract_step (acc : list string * string * string) (elem : string) : list string * string * string :=
  let '(vis, cpath, lastElem) := acc in
  let vis := if (elem =? "..")%string && negb (lastElem =? "")%string && negb (lastElem =? "..")%string
             then vis ++ [Clean cpath] else vis in
  (vis, Join [cpath; elem], elem).

(** The result is cached by path, and depends on nothing else. *)
Definition extractVirtualSubdirectories (path : string) : list string :=
  let '(vis, cpath, lastElem) := foldl extract_step ([], "", "") (Split path slash) in
  if negb (lastElem =? "..")%string || bool_decide (length vis = 0) then vis ++ [Clean cpath] else vis.

(** The path of a flag under the exec root; [filepath.Rel] gives the empty
    string with its error. *)
Definition virtual_path (f : CommandFlags) (value : string) : string :=
  let path := if IsAbs value
              then match Rel (Join [cf_ExecRoot f; WorkingDirectory f]) value with Ok p => p | _ => "" end
              else value in
  Join [WorkingDirectory f; path].

(** [VirtualInputs] for a processor that says which flags name virtual inputs
    and appends them. *)
Section VirtualInputs.

Context {X : Type} (IsVirtualInput : string → bool).
Context (AppendVirtualInput : list VirtualInput → string → string → ST X (list VirtualInput)).

Fixpoint append_all (res : list VirtualInput) (flag : string) (paths : list string) : ST X (list VirtualInput) :=
  match paths with
  | [] => st_ret res
  | p :: paths => let! res := AppendVirtualInput res flag p in append_all res flag paths
  end.

Fixpoint virtual_inputs (f : CommandFlags) (res : list VirtualInput) (fl : list Flag) : ST X (list VirtualInput) :=
  match fl with
  | [] => st_ret res
  | flag :: fl =>
      if IsVirtualInput (Key flag) && negb (Value flag =? "")%string then
        let! res := append_all res (Key flag) (extractVirtualSubdirectories (virtual_path f (Value flag))) in
        virtual_inputs f res fl
      else virtual_inputs f res fl
  end.

Definition VirtualInputs (f : CommandFlags) : ST X (list VirtualInput) := virtual_inputs f [] (Flags f).

End VirtualInputs.

Definition cpp_IsVirtualInput (flag : string) : bool := mem flag cpp_virtualInputFlags.

Definition cpp_AppendVirtualInput {X} (res : list VirtualInput) (flag path : string) : ST X (list VirtualInput) :=
  st_ret (res ++ [empty_directory path]).

(** ** State *)

(** What the proxy keeps across actions: the resource directories by compiler,
    with the identity of the compiler's file, the Windows directories by
    [-winsysroot], and the cache of dependencies when there is one. *)
Record caches := {
  resourceDirs : gmap string (Z * string);
  winSDKCache : gmap string string;
  vcToolchainCache : gmap string string;
  DepsCache : option DepsCache.Cache
}.

Definition with_resourceDirs (x : caches) (m : gmap string (Z * string)) : caches :=
  {| resourceDirs := m; winSDKCache := winSDKCache x; vcToolchainCache := vcToolchainCache x; DepsCache := DepsCache x |}.
Definition with_winSDKCache (x : caches) (m : gmap string string) : caches :=
  {| resourceDirs := resourceDirs x; winSDKCache := m; vcToolchainCache := vcToolchainCache x; DepsCache := DepsCache x |}.
Definition with_vcToolchainCache (x : caches) (m : gmap string string) : caches :=
  {| resourceDirs := resourceDirs x; winSDKCache := winSDKCache x; vcToolchainCache := m; DepsCache := DepsCache x |}.
Definition with_DepsCache (x : caches) (c : option DepsCache.Cache) : caches :=
  {| resourceDirs := resourceDirs x; winSDKCache := winSDKCache x; vcToolchainCache := vcToolchainCache x; DepsCache := c |}.

Notation preprocessor := (BasePreprocessor * caches)%type.

(** [cppdependencyscanner.ErrDepsScanTimeout] *)
Definition ErrDepsScanTimeout : error := EMsg "cpp dependency scanner timed out".

(** The services that the preprocessors call: the dependency scanner, given the
    command line, the source file and the directory, and whether it wants the
    resource directory; the local executor, given the arguments, the exec root
    and the working directory of a command; the wait for a slot; the directory
    that the proxy runs in. *)
Record services := {
  ProcessInputs : list string → string → string → res (list string * bool);
  GetExpectsResourceDir : bool;
  Executor : option (list string → string → string → res string);
  Acquire : res unit;
  BlobDigest : string → string;
  Inode : fs → string → Z;
  Cwd : string;
  Hash : string → string;
  ModTime : fs → string → Z
}.

Section env.

Variable w : fs.
Variable fmc : option (string → res bool).
Variable sv : services.
Variable now : Z.

(** *** Dependencies *)

Definition dep_key (f : CommandFlags) (args : list string) (filename : string) : DepsCache.Key := {|
  DepsCache.CommandDigest := BlobDigest sv (GoStrings.Join args " ");
  DepsCache.SrcFilePath := Join [cf_ExecRoot f; WorkingDirectory f; filename];
  DepsCache.srcFileMinDigest := "" |}.

Definition getFromDepsCache (key : DepsCache.Key) (x : caches) : option (list string) * caches :=
  match DepsCache x with
  | None => (None, x)
  | Some c => let '(r, c) := DepsCache.GetDeps (Hash sv) (ModTime sv) w now key c in (r, with_DepsCache x (Some c))
  end.

(** [saveDeps] runs in a goroutine of its own; its error is logged. *)
Definition saveDeps (f : CommandFlags) (key : DepsCache.Key) (headerInputFiles : list string) (x : caches) : caches :=
  match DepsCache x with
  | None => x
  | Some c =>
      let absInputFiles := (λ p, if IsAbs p then p else Join [cf_ExecRoot f; ""; p]) <$> headerInputFiles in
      with_DepsCache x (Some (DepsCache.SetDeps (Hash sv) (ModTime sv) w now key absInputFiles c).2)
  end.

Definition FindDependencies (f : CommandFlags) (args : list string) : ST caches (list string) := λ x,
  match TargetFilePaths f with
  | [] => (Ok [], x)
  | filename :: _ =>
      let key := dep_key f args filename in
      match getFromDepsCache key x with
      | (Some res, x) => (Ok (ListRelToExecRoot (cf_ExecRoot f) "" res), x)
      | (None, x) =>
          match Acquire sv with
          | Fail e => (Fail e, x)
          | Panic => (Panic, x)
          | Ok _ =>
              let directory := Join [cf_ExecRoot f; WorkingDirectory f] in
              match ProcessInputs sv args (under directory filename) directory with
              | Ok (res, usedCache) =>
                  let headerInputFiles := ListRelToExecRoot (cf_ExecRoot f) "" res in
                  (Ok headerInputFiles, saveDeps f key headerInputFiles x)
              | Fail e =>
                  (Fail (if errors_Is e EDeadlineExceeded then EWrap "dependency scan" ErrDepsScanTimeout
                         else EWrap "cpp dependency scanner's ProcessInputs failed" e), x)
              | Panic => (Panic, x)
              end
          end
      end
  end.

(** *** Resource directories *)

Definition ResourceDir (args : list string) (resourceDirFlag : string) (mapper : string → string * option error)
    : ST caches string := λ x,
  match args with
  | [] => (Ok "", x)
  | exe :: _ =>
      if negb (IsAbs exe) then (Ok "", x) else
      match Executor sv with
      | None => (Ok "", x)
      | Some run =>
          if negb (is_ok (OS.Stat w exe)) then (Ok "", x) else
          let execute :=
            match run [exe; resourceDirFlag] "" "/" with
            | Ok stdout =>
                match mapper stdout with
                | (resourceDir, Some _) => (Ok resourceDir, x)
                | (resourceDir, None) =>
                    (Ok resourceDir, with_resourceDirs x (<[exe := (Inode sv w exe, resourceDir)]> (resourceDirs x)))
                end
            | Fail _ => (Ok "", x)
            | Panic => (Panic, x)
            end in
          match resourceDirs x !! exe with
          | Some (inode, dir) => if (inode =? Inode sv w exe)%Z then (Ok dir, x) else execute
          | None => execute
          end
      end
  end.

(** [addResourceDir]: the argument is added unless [has] finds it. *)
Definition add_resource_dir (has : string → bool) (resourceDir : list string → ST caches string) (args : list string)
    : ST caches (list string) :=
  if existsb has args then st_ret args else
  let! dir := resourceDir args in
  st_ret (if (dir =? "")%string then args else args ++ ["-resource-dir"; dir]).

Definition cpp_resourceDir (args : list string) : ST caches string :=
  ResourceDir args "-print-resource-dir" (λ stdout, (TrimSpace stdout, None)).

Definition cpp_addResourceDir : list string → ST caches (list string) :=
  add_resource_dir (λ arg, (arg =? "-resource-dir")%string) cpp_resourceDir.

(** *** [ComputeSpec]

    The deferred [AppendSpec] runs in every case; after an error its
    specification says that the shallow mode was used. *)
Definition compute_with (outputFlag : string) (joined : bool) (toAbsArgs : list string)
    (addResourceDir : list string → ST caches (list string))
    (virtuals : CommandFlags → ST caches (list VirtualInput)) : ST preprocessor unit := λ '(b, x),
  match bp_Flags b with
  | None => (Panic, (b, x))
  | Some f =>
      let args := BuildCommandLine f outputFlag joined toAbsArgs in
      let m :=
        (let! args := if GetExpectsResourceDir sv then addResourceDir args else st_ret args in
         let! headerInputFiles := FindDependencies f args in
         let! vis := virtuals f in
         st_ret {| Inputs := headerInputFiles; Command.VirtualInputs := vis; InputExclusions := [];
                   EnvironmentVariables := ∅ |}) in
      match m x with
      | (Ok inp, x) => (Ok tt, (AppendSpec (new_ActionSpec (Some inp)) b, x))
      | (Fail e, x) => (Fail e, (AppendSpec (set_shallow (new_ActionSpec (Some empty_InputSpec)) true) b, x))
      | (Panic, x) => (Panic, (AppendSpec (new_ActionSpec (Some empty_InputSpec)) b, x))
      end
  end.

Definition cpp_VirtualInputs (f : CommandFlags) : ST caches (list VirtualInput) :=
  VirtualInputs cpp_IsVirtualInput cpp_AppendVirtualInput f.

Definition cpp_ComputeSpec : ST preprocessor unit :=
  compute_with "-o" false cpp_toAbsArgs cpp_addResourceDir cpp_VirtualInputs.

Variable darwin : bool.
Variable T : tables.

(** The base preprocessor with a parser and a last step of its own. *)
Definition cpp_Preprocessor : Preprocessor preprocessor :=
  embedding_Preprocessor w fmc (ParseFlags_with (cpp_ParseFlags w darwin T)) cpp_ComputeSpec.

(** *** [nacl] *)

Definition is_pnacl (flag : Flag) : bool :=
  HasPrefix (Key flag) "-pnacl" || HasPrefix (Key flag) "--pnacl" ||
  ((Key flag =? "--")%string && HasPrefix (Value flag) "pnacl").

Definition is_target (flag : Flag) : bool := mem (Key flag) ["-target"; "--target="].

(** The text before the first [nacl] of a name that contains it. *)
Fixpoint before_nacl (s : string) : string :=
  if HasPrefix s "nacl" then "" else
  match s with EmptyString => "" | String a s => String a (before_nacl s) end.

Definition target_flag (binaryName : string) : Flag :=
  let arch := before_nacl binaryName in
  NewFlag "--target=" "" (if (arch =? "p")%string then "i686-nacl" else arch +:+ "nacl") true.

Definition nacl_flags (f : CommandFlags) : res CommandFlags :=
  let finalFlags := filter (λ flag, negb (is_pnacl flag)) (Flags f) in
  let hasTarget := existsb is_target finalFlags in
  let binaryName := Base (ExecutablePath f) in
  if negb (Contains binaryName "nacl") then Fail (EMsg "nacl binary doesn't include 'nacl' in basename")
  else Ok (set_flags (if hasTarget then finalFlags else finalFlags ++ [target_flag binaryName]) f).

(** A last step that changes the flags before the one for C++. *)
Definition with_cpp_flags (change : CommandFlags → res CommandFlags) : ST preprocessor unit :=
  λ '(b, x),
  match bp_Flags b with
  | None => (Panic, (b, x))
  | Some f =>
      match change f with
      | Ok f => cpp_ComputeSpec (with_Flags b f, x)
      | Fail e => (Fail e, (b, x))
      | Panic => (Panic, (b, x))
      end
  end.

Definition nacl_Preprocessor : Preprocessor preprocessor :=
  embedding_Preprocessor w fmc (ParseFlags_with (cpp_ParseFlags w darwin T)) (with_cpp_flags nacl_flags).

(** *** [headerabi] *)

Definition headerABIToCppFlags (f : CommandFlags) : CommandFlags :=
  set_flags (filter (λ flag, Key flag ≠ "--root-dir") (Flags f)) (Copy f).

Definition headerabi_Preprocessor : Preprocessor preprocessor :=
  embedding_Preprocessor w fmc (ParseFlags_with (abi_ParseFlags w darwin T))
    (with_cpp_flags (λ f, Ok (headerABIToCppFlags f))).

(** *** [clanglint] *)

(** The first line of the output, which must end with a newline. *)
Definition first_line (s : string) : option string :=
  match SplitN2 s "010" with (l, Some _) => Some l | (_, None) => None end.

(** [rdCache] is keyed by the address of the flags of one action: it never has
    an answer. *)
Definition lint_resourceDir (f : CommandFlags) : res string :=
  let? run := or_panic (Executor sv) in
  let? outStr := run [ExecutablePath f; "--version"; "--"; "-print-resource-dir"] (cf_ExecRoot f) (WorkingDirectory f) in
  let? l := or_fail (EMsg "unexpected clang-tidy output") (first_line outStr) in
  let resourceDir := Join [WorkingDirectory f; ExecutablePath f; "../../"; l] in
  match OS.Stat w (under (Cwd sv) resourceDir) with
  | Fail e => if errors_Is e ENotExist then Fail (EMsg "resource-directory not found") else Ok resourceDir
  | _ => Ok resourceDir
  end.

(** The flags after the first [--], preceded by the resource directory. *)
Fixpoint after_dashes (fl : list Flag) : option (list Flag) :=
  match fl with
  | [] => None
  | flag :: fl => if (Key flag =? "--")%string then Some fl else after_dashes fl
  end.

Definition clangTidyToCPPFlags (f : CommandFlags) : res CommandFlags :=
  match after_dashes (Flags f) with
  | None => Ok (set_flags [] (Copy f))
  | Some rest =>
      let? rd := lint_resourceDir f in
      Ok (set_flags (NewFlag "-resource-dir" "" rd false :: rest) (Copy f))
  end.

(** An error leaves the flags nil: [p.Flags] is assigned with it. *)
Definition without_Flags (b : BasePreprocessor) : BasePreprocessor :=
  mkBP (bp_Options b) None (Err b) (actionSpec b) (nfc b) (fsc b) (toolchainFilesCache b).

Definition lint_ComputeSpec : ST preprocessor unit := λ '(b, x),
  match bp_Flags b with
  | None => (Panic, (b, x))
  | Some f =>
      match clangTidyToCPPFlags f with
      | Ok f => cpp_ComputeSpec (with_Flags b f, x)
      | Fail e => (Fail e, (with_Err (without_Flags b) e, x))
      | Panic => (Panic, (b, x))
      end
  end.

Definition clanglint_Preprocessor : Preprocessor preprocessor :=
  embedding_Preprocessor w fmc (ParseFlags_with (cpp_ParseFlags w darwin T)) lint_ComputeSpec.

(** *** [clanglink]: the last step is that of the base *)

Variable sysrootDoNotUpload : bool.
Variable arDeepScan : bool.

Definition link_ParseFlags : ST (BasePreprocessor * gmap string (list string)) unit := λ '(b, ar),
  let o := bp_Options b in
  match link_parseFlags w darwin T sysrootDoNotUpload arDeepScan (opt_Cmd o) (opt_WorkingDir o) (opt_ExecRoot o) ar with
  | (Ok f, ar) => lift FlagsToActionSpec (with_Flags b f, ar)
  | (Fail _, ar) => let e := EMsg "flag parsing failed" in (Fail e, (with_Err b e, ar))
  | (Panic, ar) => (Panic, (b, ar))
  end.

Definition clanglink_Preprocessor : Preprocessor (BasePreprocessor * gmap string (list string)) := {|
  pp_Init := λ o s, (Init o s.1, s.2);
  pp_ParseFlags := link_ParseFlags;
  pp_ProcessToolchains := lift (ProcessToolchains w fmc);
  pp_ComputeSpec := lift ComputeSpec;
  pp_Sanitize := lift (Sanitize w fmc);
  pp_Spec := λ s, Spec s.1 |}.

(** *** [clangcl] *)

Record version := { major : Z; minor : Z; micro : Z; build : Z; text : string }.

Definition empty_version : version := {| major := 0; minor := 0; micro := 0; build := 0; text := "" |}.

(** [strconv.Atoi] with its error ignored. *)
Definition atoi (s : string) : Z :=
  match ParseInt s 10 64 with Ok v => v | Fail ERange => (2 ^ 63 - 1)%Z | _ => 0%Z end.

(** One to four numbers separated by dots. *)
Definition newVersion (t : string) : option version :=
  let parts := Split t "." in
  if (length parts <=? 4)%nat && forallb (λ p, negb (p =? "")%string && str_forallb is_digit p) parts then
    let n i := match parts !! i with Some p => atoi p | None => 0%Z end in
    Some {| major := n 0; minor := n 1; micro := n 2; build := n 3; text := t |}
  else None.

Definition gt (a b : version) : bool :=
  if negb (major a =? major b)%Z then (major b <? major a)%Z
  else if negb (minor a =? minor b)%Z then (minor b <? minor a)%Z
  else if negb (micro a =? micro b)%Z then (micro b <? micro a)%Z
  else (build b <? build a)%Z.

Definition isEmpty (a : version) : bool := (text a =? "")%string.

(** [os.ReadDir]: the entries of a directory by name, and which are
    directories. *)
Definition entry_le (a b : string * bool) : Prop := String.le a.1 b.1.

#[local] Instance entry_le_dec : RelDecision entry_le.
Proof. intros a b. unfold entry_le. apply _. Defined.

Definition ReadDir (path : string) : res (list (string * bool)) :=
  if OS.is_dir w path then
    Ok (merge_sort entry_le (omap (λ kv, if (Dir kv.1 =? path)%string && negb (kv.1 =? path)%string
                                         then Some (Base kv.1, bool_decide (kv.2 = NDir)) else None) (map_to_list w)))
  else Fail (EMsg "not a directory").

Definition max_step (maxVersion : version) (entry : string * bool) : version :=
  if negb entry.2 then maxVersion else
  match newVersion entry.1 with
  | Some tuple => if gt tuple maxVersion then tuple else maxVersion
  | None => maxVersion
  end.

Definition getMaxVersionFromPath (path : string) : res string :=
  let? entries := ReadDir path in
  let maxVersion := foldl max_step empty_version entries in
  if isEmpty maxVersion then Fail (EMsg "No version dir") else Ok (text maxVersion).

Definition getMaxVersionDir (path : string) : res string :=
  let? _ := OS.Stat w path in
  match getMaxVersionFromPath path with
  | Ok maxVersion => Ok (Join [path; maxVersion])
  | Fail _ => Fail (EMsg "No version dir under")
  | Panic => Panic
  end.

Definition winSDKDir (winsysroot : string) : res string :=
  let? path := getMaxVersionDir (Join [winsysroot; "Windows Kits"]) in
  getMaxVersionDir (Join [path; "Include"]).

Definition vcToolchainDir (winsysroot : string) : res string :=
  getMaxVersionDir (Join [winsysroot; "VC"; "Tools"; "MSVC"]).

Definition cl_virtualInputFlags : list string := ["-I"; "/I"; "-imsvc"; "-winsysroot"].
Definition cl_IsVirtualInput (flag : string) : bool := mem flag cl_virtualInputFlags.

(** The closures of [AppendVirtualInput]: the directory that [find] finds,
    relative to the exec root, or the system root itself. *)
Definition windows_dir (find : string → res string) (execRoot winsysroot : string) : res string :=
  match find (Join [execRoot; winsysroot]) with
  | Ok absDir => match Rel execRoot absDir with Ok dir => Ok dir | _ => Ok winsysroot end
  | Fail _ => Ok winsysroot
  | Panic => Panic
  end.

Definition append_unless (winsysroot computedPath : string) (vis : list VirtualInput) : list VirtualInput :=
  if (computedPath =? winsysroot)%string then vis else vis ++ [empty_directory computedPath].

(** A step on one of the caches. *)
Definition on_cache {A C} (get : caches → C) (set : caches → C → caches) (m : ST C A) : ST caches A := λ x,
  let '(r, c) := m (get x) in (r, set x c).

Definition cl_AppendVirtualInput (execRoot : string) (vis : list VirtualInput) (flag path : string)
    : ST caches (list VirtualInput) :=
  if (flag =? "-winsysroot")%string then
    let! computedPath := on_cache winSDKCache with_winSDKCache (load_or_store path (windows_dir winSDKDir execRoot path)) in
    let vis := append_unless path computedPath vis in
    let! computedPath := on_cache vcToolchainCache with_vcToolchainCache
                           (load_or_store path (windows_dir vcToolchainDir execRoot path)) in
    st_ret (append_unless path computedPath vis)
  else cpp_AppendVirtualInput vis flag path.

(** The mapper of [resourceDir]: the version is the word after
    [clang version]. *)
Definition cl_mapper (compiler stdout : string) : string * option error :=
  if negb (HasPrefix stdout "clang version ") then ("", Some (EMsg "unexpected version string")) else
  match SplitN2 (TrimPrefix stdout "clang version ") " " with
  | (_, None) => ("", Some (EMsg "unexpected version string"))
  | (v, Some _) => (Join [Dir compiler; ".."; "lib"; "clang"; v], None)
  end.

Definition cl_resourceDir (args : list string) : ST caches string :=
  ResourceDir args "--version" (cl_mapper (default "" (head args))).

Definition cl_addResourceDir : list string → ST caches (list string) :=
  add_resource_dir (λ arg, (arg =? "-resource-dir")%string || HasPrefix arg "-resource-dir=") cl_resourceDir.

Definition cl_ComputeSpec : ST preprocessor unit :=
  compute_with "/Fo" true [] cl_addResourceDir
    (λ f, VirtualInputs cl_IsVirtualInput (cl_AppendVirtualInput (cf_ExecRoot f)) f).

Definition clangcl_Preprocessor : Preprocessor preprocessor :=
  embedding_Preprocessor w fmc (ParseFlags_with (cl_parseFlags w darwin T)) cl_ComputeSpec.

End env.

(** ** Versions *)

Lemma gt_iff a b :
  gt a b = true ↔
  (major b < major a ∨ major a = major b ∧ (minor b < minor a ∨ minor a = minor b ∧
    (micro b < micro a ∨ micro a = micro b ∧ build b < build a)))%Z.
Proof.
  unfold gt. destruct (Z.eqb_spec (major a) (major b)); simpl; [|rewrite Z.ltb_lt; lia].
  destruct (Z.eqb_spec (minor a) (minor b)); simpl; [|rewrite Z.ltb_lt; lia].
  destruct (Z.eqb_spec (micro a) (micro b)); simpl; rewrite Z.ltb_lt; lia.
Qed.

(** The order of versions by arithmetic. *)
Ltac gt_lia := rewrite <- ?not_true_iff_false, ?gt_iff in *; lia.

Lemma newVersion_text t v : newVersion t = Some v → text v = t ∧ t ≠ "".
Proof.
  unfold newVersion. destruct (_ && _) eqn:E; [|done]. intros [= <-]. split; [done|]. by intros ->.
Qed.

(** The entry is a directory with the name of the version. *)
Definition names_version (entries : list (string * bool)) (v : version) : Prop :=
  ∃ n, (n, true) ∈ entries ∧ newVersion n = Some v.

Lemma max_fold entries m :
  let r := foldl max_step m entries in
  gt m r = false ∧ (r = m ∨ names_version entries r) ∧ ∀ v, names_version entries v → gt v r = false.
Proof.
  revert m. induction entries as [|[n d] entries IH]; intros m; cbn zeta; simpl.
  { split_and!; [gt_lia|by left|]. intros v (? & []%elem_of_nil & _). }
  destruct (IH (max_step m (n, d))) as (H1 & H2 & H3). set (r := foldl max_step (max_step m (n, d)) entries) in *.
  assert (gt m r = false ∧ (d = true → ∀ v, newVersion n = Some v → gt v r = false)) as [Hm Hv].
  { unfold max_step in H1. simpl in H1. destruct d; simpl in H1; [|done].
    destruct (newVersion n) as [v|] eqn:Ev; [|done]. destruct (gt v m) eqn:Eg.
    - split; [gt_lia|]. by intros _ v' [= <-].
    - split; [done|]. intros _ v' [= <-]. gt_lia. }
  split_and!; [done| |].
  - destruct H2 as [->|(n' & Hin & Hn)]; [|right; exists n'; split; [by right|done]].
    unfold max_step. simpl. destruct d; simpl; [|by left]. destruct (newVersion n) as [v|] eqn:Ev; [|by left].
    destruct (gt v m); [|by left]. right. exists n. split; [by left|done].
  - intros v (n' & [[= <- <-]|Hin]%elem_of_cons & Hn); [by apply Hv|]. apply H3. by exists n'.
Qed.

(** The directory that is chosen is named by a version and no other
    directory has a greater one; none is chosen only when there is no version
    above zero. *)
Theorem getMaxVersionFromPath_spec w path entries :
  ReadDir w path = Ok entries →
  match getMaxVersionFromPath w path with
  | Ok t => ∃ v, newVersion t = Some v ∧ (t, true) ∈ entries ∧ ∀ u, names_version entries u → gt u v = false
  | Fail _ => ∀ u, names_version entries u → gt u empty_version = false
  | Panic => False
  end.
Proof.
  intros E. unfold getMaxVersionFromPath. rewrite E. cbn [mbind res_bind].
  destruct (max_fold entries empty_version) as (_ & H & Hmax).
  set (r := foldl max_step empty_version entries) in *. unfold isEmpty.
  destruct H as [->|(n & Hin & Hn)]; [done|]. destruct (newVersion_text n r Hn) as [<- Hne].
  apply String.eqb_neq in Hne as ->. by exists r.
Qed.

(** ** Dependencies, from the scanner and from the cache *)

(** A path under the exec root is itself once made absolute and relative
    again. *)
Lemma RelToExecRoot_again er p r :
  IsAbs er = true → RelToExecRoot er "" p = r → r ≠ "" →
  IsAbs r = false ∧ RelToExecRoot er "" (Join [er; ""; r]) = r.
Proof.
  intros He Hr Hne. destruct (RelToExecRoot_denotes er "" p r He Hr Hne) as (Hj & Hna & _).
  destruct (RelToExecRoot_Ok er "" p r He Hr Hne) as [HR Hp]. split; [done|].
  pose proof (IsAbs_abs_path er "" p He) as Ha.
  assert (Join [er; ""; r] = Clean (abs_path er "" p)) as ->.
  { rewrite <- Hj, Join3_Join2 by done. apply Join2_eq; [by apply IsAbs_Join2|done|].
    rewrite (Join2_comps (Join [er; ""])), (Join2_comps er ""), (Join2_comps er r) by (try apply IsAbs_Join2; done).
    simpl comps. by rewrite reverse_involutive. }
  unfold RelToExecRoot. pose proof (IsAbs_Clean _ Ha) as Hc.
  rewrite (proj2 (String.eqb_neq _ _)) by by apply IsAbs_nonempty.
  rewrite Hc. assert (Rel er (Clean (abs_path er "" p)) = Ok r) as ->; [|by rewrite Hp].
  rewrite <- HR, !Rel_rooted by done. by rewrite parse_Clean.
Qed.

Lemma ListRelToExecRoot_again er res :
  IsAbs er = true →
  let l := ListRelToExecRoot er "" res in
  Forall (λ p, IsAbs p = false) l ∧ ListRelToExecRoot er "" ((λ p, Join [er; ""; p]) <$> l) = l.
Proof.
  intros He l. subst l. unfold ListRelToExecRoot. rewrite !mapPaths_spec.
  induction res as [|p res [IH1 IH2]]; [done|]. rewrite !fmap_cons, filter_cons.
  destruct (decide (RelToExecRoot er "" p ≠ "")) as [Hne|]; [|done].
  destruct (RelToExecRoot_again er p _ He eq_refl Hne) as [Ha Hr].
  split; [by constructor|]. rewrite !fmap_cons, filter_cons, Hr, decide_True by done. by rewrite IH2.
Qed.

(** The paths that [saveDeps] stores. *)
Lemma saved_paths er l :
  Forall (λ p, IsAbs p = false) l →
  (λ p, if IsAbs p then p else Join [er; ""; p]) <$> l = (λ p, Join [er; ""; p]) <$> l.
Proof. intros H. apply list_fmap_ext. intros i p Hp. rewrite Forall_lookup in H. by rewrite (H i p Hp). Qed.

(** C18: a scan is not repeated: after a scan that succeeded, the next action
    with the same command line and source file gets the same headers from the
    cache, whatever the scanner would say, as long as the files stay as they
    are. *)
Theorem FindDependencies_twice w sv now now' scan acquire f args filename targets c x l x' :
  let sv' := {| ProcessInputs := scan; GetExpectsResourceDir := GetExpectsResourceDir sv; Executor := Executor sv;
    Acquire := acquire; BlobDigest := BlobDigest sv; Inode := Inode sv; Cwd := Cwd sv; Hash := Hash sv;
    ModTime := ModTime sv |} in
  let readable p := is_ok (DepsCache.minimalDigest (Hash sv) (ModTime sv) w p) = true in
  IsAbs (cf_ExecRoot f) = true → TargetFilePaths f = filename :: targets →
  DepsCache x = Some c → DepsCache.ready c = true →
  DepsCache.coherent (Hash sv) (ModTime sv) w (DepsCache.filesCache c) →
  (getFromDepsCache w sv now (dep_key sv f args filename) x).1 = None →
  FindDependencies w sv now f args x = (Ok l, x') →
  readable (Join [cf_ExecRoot f; WorkingDirectory f; filename]) →
  Forall (λ h, readable (Join [cf_ExecRoot f; ""; h])) l →
  (FindDependencies w sv' now' f args x').1 = Ok l.
Proof.
  intros sv' readable He Et Ex Hr Hc Hmiss. unfold FindDependencies. rewrite Et. cbv zeta.
  change (dep_key sv' f args filename) with (dep_key sv f args filename).
  set (key := dep_key sv f args filename) in *.
  unfold getFromDepsCache in *. rewrite Ex in *.
  destruct (DepsCache.GetDeps_keeps (Hash sv) (ModTime sv) w now key c Hc) as [Hc1 Hr1]. rewrite Hr in Hr1.
  destruct (DepsCache.GetDeps (Hash sv) (ModTime sv) w now key c) as [r c1]. simpl in Hmiss, Hc1, Hr1. subst r.
  destruct (Acquire sv); [|done..].
  destruct (ProcessInputs sv _ _ _) as [[res used]|e|]; [|done..]. intros [= <- <-] Hs Hh.
  destruct (ListRelToExecRoot_again (cf_ExecRoot f) res He) as [Hna Hag]. cbv zeta in Hag.
  set (l := ListRelToExecRoot (cf_ExecRoot f) "" res) in *.
  unfold saveDeps. cbn [DepsCache with_DepsCache].
  rewrite saved_paths by done.
  destruct (DepsCache.SetDeps_entry (Hash sv) (ModTime sv) w now key ((λ p, Join [cf_ExecRoot f; ""; p]) <$> l) c1)
    as (c2 & md & fis & E & Hc2 & Hr2 & Em & Ek & Hu & Hp); [done|done|done| |].
  { rewrite Forall_fmap. eapply Forall_impl; [exact Hh|]. intros h Hh'. split; [by apply IsAbs_Join3|exact Hh']. }
  rewrite E. cbn [snd DepsCache with_DepsCache].
  pose proof (DepsCache.GetDeps_hit (Hash sv) (ModTime sv) w now' key c2 md fis Hc2 Hr2 Em Ek Hu) as Hg.
  change (Hash sv') with (Hash sv). change (ModTime sv') with (ModTime sv).
  destruct (DepsCache.GetDeps (Hash sv) (ModTime sv) w now' key c2) as [r c3]. simpl in Hg. subst r. simpl.
  by rewrite Hp, Hag.
Qed.

End CppCompile.

(** ** Witnesses and examples *)

Import CppCompile.

Definition services_example (scan : res (list string * bool)) : services := {|
  ProcessInputs := λ _ _ _, scan; GetExpectsResourceDir := false; Executor := None; Acquire := Ok tt;
  BlobDigest := id; Inode := λ _ _, 1%Z; Cwd := "/"; Hash := id; ModTime := ModTime_example |}.

Definition msvc_fs : fs :=
  {["/w" := NDir; "/w/9.30" := NDir; "/w/14.29.30133" := NDir; "/w/14.30" := NDir; "/w/latest" := NDir;
    "/w/15.0" := NFile "" 420%Z]}.

Lemma getMaxVersionFromPath_spec_witness :
  ∃ v, newVersion "14.30" = Some v ∧
       ∀ u, names_version (match ReadDir msvc_fs "/w" with Ok l => l | _ => [] end) u → gt u v = false.
Proof.
  pose proof (getMaxVersionFromPath_spec msvc_fs "/w" _ eq_refl) as H.
  assert (getMaxVersionFromPath msvc_fs "/w" = Ok "14.30") as E by (vm_compute; reflexivity). rewrite E in H.
  destruct H as (v & H1 & _ & H2). exists v. split; [exact H1|exact H2].
Defined.

Definition flags_example : CommandFlags := add_targets ["a.cc"] (command_flags "clang++" "." "/r" []).
Definition caches_example : caches :=
  {| resourceDirs := ∅; winSDKCache := ∅; vcToolchainCache := ∅; DepsCache := Some cache_example |}.
Definition scanned_example : list string * bool := (["/r/a.h"; "/usr/include/x.h"; "/r/a.cc"], false).

Lemma FindDependencies_twice_witness :
  ∃ x', FindDependencies deps_fs (services_example (Ok scanned_example)) 5 flags_example ["clang++"] caches_example
          = (Ok ["a.h"; "a.cc"], x') ∧
        (FindDependencies deps_fs (services_example (Fail EEOF)) 9 flags_example ["clang++"] x').1 = Ok ["a.h"; "a.cc"].
Proof.
  assert (FindDependencies deps_fs (services_example (Ok scanned_example)) 5 flags_example ["clang++"] caches_example
    = (Ok ["a.h"; "a.cc"], (FindDependencies deps_fs (services_example (Ok scanned_example)) 5 flags_example ["clang++"]
         caches_example).2)) as E by (vm_compute; reflexivity).
  eexists. split; [exact E|].
  apply (FindDependencies_twice deps_fs (services_example (Ok scanned_example)) 5 9 (λ _ _ _, Fail EEOF) (Ok tt)
    flags_example ["clang++"] "a.cc" [] cache_example caches_example ["a.h"; "a.cc"]);
    [reflexivity|reflexivity|reflexivity|reflexivity|apply coherent_empty|vm_compute; reflexivity|exact E
    |vm_compute; reflexivity|repeat constructor].
Defined.

(** The path of a flag is cleaned before the directories that it goes through
    are looked for, so that none is found. *)
Example virtual_subdirectories_lost :
  let f := command_flags "clang++" "out" "/r" [NewFlag "-I" "" "gen/sub/../include" true] in
  extractVirtualSubdirectories "out/gen/sub/../include" = ["out/gen/sub"; "out/gen/include"] ∧
  (cpp_VirtualInputs f caches_example).1 = Ok [empty_directory "out/gen/include"].
Proof. vm_compute. done. Qed.
