(* ===== verification/Typescript.v ===== *)
(** * TypeScript actions: [internal/pkg/inputprocessor/action/typescript]

    The inputs of a compilation are the files that its target reaches by
    imports, by the files and directories of configurations and by references
    between them. *)
From S2P Require Import Prelude GoStrings GoPath PathTranslator ArgsScanner GoFS Command InputProcessor.
From Stdlib Require Import Ascii.
Import Filepath PathTranslator InputProcessor.

Module Typescript.

(** ** Data

    A slice that JSON does not set is nil. *)
Record Tsconfig := {
  Extends : string;
  Exclude : option (list string);
  Files : option (list string);
  Include : option (list string);
  References : list string;
  TsPath : string
}.

Record Tsfile := { Imports : list string; tf_TsPath : string }.

Inductive Tsinput := InTsfile (t : Tsfile) | InTsconfig (t : Tsconfig).

Definition Path (t : Tsinput) : string :=
  match t with InTsfile t => tf_TsPath t | InTsconfig t => TsPath t end.

Section env.

Variable w : fs.

(** ** [tsfile_parser.go] *)

Definition quote (a : ascii) : bool := Ascii.eqb a "'" || Ascii.eqb a "034".

(** The text from the first quote on, and the text up to the last quote. *)
Definition from_quote (s : string) : string := TrimLeftFunc (λ a, negb (quote a)) s.
Definition to_quote (s : string) : string := TrimRightFunc (λ a, negb (quote a)) s.

(** [importPathRE.FindString]: the first match starts at the first quote that
    has another one after at least one character, and ends at the last. *)
Definition importPathRE (line : string) : string :=
  let m := to_quote (from_quote line) in
  if (3 <=? String.length m)%nat then m else "".

(** [importRE] matches a line that starts with [import] and holds such a
    path. *)
Definition import_line (line : string) : option string :=
  if HasPrefix line "import" && negb (importPathRE line =? "")%string
  then Some (Trim (importPathRE line) (String "'" (String "034" ""))) else None.

Definition parseTsfile (path : string) : res Tsfile :=
  let? content := OS.ReadFile w path in
  Ok {| Imports := omap import_line (text_lines content); tf_TsPath := path |}.

Definition suffixes : list string :=
  [".tsx"; ".ts"; ".d.ts"; "/package.json"; "/index.ts"; "/index.tsx"; "/index.d.ts"].

(** The first of the paths that can be parsed. *)
Fixpoint first_tsfile (searchPrefix : string) (l : list string) : option Tsfile :=
  match l with
  | [] => None
  | suffix :: l =>
      match parseTsfile (searchPrefix +:+ suffix) with
      | Ok t => Some t
      | _ => first_tsfile searchPrefix l
      end
  end.

Definition import_input (TsfileDir impt : string) : res Tsinput :=
  let path := Join [TsfileDir; impt] in
  let ext := Ext impt in
  if (ext =? "")%string || (ext =? ".js")%string then
    let? t := or_fail (EMsg "failed to find dependency file") (first_tsfile (TrimSuffix path ext) suffixes) in
    Ok (InTsfile t)
  else let? t := parseTsfile path in Ok (InTsfile t).

(** One call per element; the first error ends it. *)
Fixpoint map_res {A B} (f : A → res B) (l : list A) : res (list B) :=
  match l with
  | [] => Ok []
  | a :: l => let? b := f a in let? bs := map_res f l in Ok (b :: bs)
  end.

Definition tsfile_Inputs (t : Tsfile) : res (list Tsinput) :=
  map_res (import_input (Dir (tf_TsPath t))) (Imports t).

(** ** [tsconfig_parser.go]

    [encoding/json] sets the fields of a value, [filepath.Match] matches a
    pattern and a path, and [godirwalk.Walk] lists what is below a directory,
    each path with whether it is a directory, with the error that ends the walk
    if there is one. *)
Variable Unmarshal : string → Tsconfig → res Tsconfig.
Variable Match : string → string → res bool.
Variable Walk : string → list (string * bool) * option error.

Definition or_nil {A} (l parent : option (list A)) : option (list A) :=
  match l with None => parent | Some _ => l end.

Definition extend (t parent : Tsconfig) : Tsconfig := {|
  Extends := Extends t;
  Exclude := or_nil (Exclude t) (Exclude parent);
  Files := or_nil (Files t) (Files parent);
  Include := or_nil (Include t) (Include parent);
  References := References t;
  TsPath := TsPath t |}.

Definition is_empty {A} (l : option (list A)) : bool := match l with None | Some [] => true | _ => false end.

Definition default_Include (t : Tsconfig) : Tsconfig :=
  if is_empty (Include t) && is_empty (Files t)
  then {| Extends := Extends t; Exclude := Exclude t; Files := Files t; Include := Some ["."];
          References := References t; TsPath := TsPath t |}
  else t.

Definition new_Tsconfig (path : string) : Tsconfig :=
  {| Extends := ""; Exclude := None; Files := None; Include := None; References := []; TsPath := path |}.

(** [None] when the parents are not exhausted within the fuel: the code
    recurses without a bound. *)
Fixpoint parseTsconfig (fuel : nat) (path : string) : option (res Tsconfig) :=
  match fuel with
  | 0 => None
  | S fuel =>
      match (let? content := OS.ReadFile w path in Unmarshal content (new_Tsconfig path)) with
      | Ok t =>
          if (Extends t =? "")%string then Some (Ok (default_Include t)) else
          match parseTsconfig fuel (Join [Dir (TsPath t); Extends t]) with
          | Some (Ok parent) => Some (Ok (default_Include (extend t parent)))
          | Some (Fail e) => Some (Fail e)
          | Some Panic => Some Panic
          | None => None
          end
      | Fail e => Some (Fail e)
      | Panic => Some Panic
      end
  end.

(** Whether one of the patterns matches; an invalid pattern is an error. *)
Fixpoint excluded (excludePatterns : list string) (path : string) : res bool :=
  match excludePatterns with
  | [] => Ok false
  | p :: l => Match p path ≫= λ b : bool, if b then Ok true else excluded l path
  end.

(** The callback of the walk. *)
Definition walk_callback (excludePatterns : list string) (path : string) (isDir : bool) : res (list Tsinput) :=
  if isDir then Ok [] else
  if negb (mem (Ext path) [".ts"; ".tsx"]) then Ok [] else
  excluded excludePatterns path ≫= λ b : bool,
  if b then Ok [] else let? t := parseTsfile path in Ok [InTsfile t].

Definition include_inputs (excludePatterns : list string) (searchPath : string) : res (list Tsinput) :=
  let '(entries, err) := Walk searchPath in
  let? ls := map_res (λ e, walk_callback excludePatterns e.1 e.2) entries in
  match err with Some e => Fail e | None => Ok (concat ls) end.

Definition reference_path (TsconfigDir ref : string) : string :=
  let path := Join [TsconfigDir; ref] in
  if (Ext ref =? ".json")%string then path else Join [path; "tsconfig.json"].

Fixpoint reference_inputs (fuel : nat) (TsconfigDir : string) (refs : list string) : option (res (list Tsinput)) :=
  match refs with
  | [] => Some (Ok [])
  | ref :: refs =>
      match parseTsconfig fuel (reference_path TsconfigDir ref) with
      | Some (Ok t) =>
          (λ r, let? ts := r in Ok (InTsconfig t :: ts)) <$> reference_inputs fuel TsconfigDir refs
      | Some (Fail e) => Some (Fail e)
      | Some Panic => Some Panic
      | None => None
      end
  end.

Definition tsconfig_Inputs (fuel : nat) (t : Tsconfig) : option (res (list Tsinput)) :=
  let TsconfigDir := Dir (TsPath t) in
  match
    (let? files := map_res (λ file, parseTsfile (Join [TsconfigDir; file])) (default [] (Files t)) in
     let excludePatterns := (λ pattern, Join [TsPath t; pattern]) <$> default [] (Exclude t) in
     let? included := map_res (λ dir, include_inputs excludePatterns (Join [TsconfigDir; dir])) (default [] (Include t)) in
     Ok ((InTsfile <$> files) ++ concat included))
  with
  | Ok inputs => (λ r, let? refs := r in Ok (inputs ++ refs)) <$> reference_inputs fuel TsconfigDir (References t)
  | Fail e => Some (Fail e)
  | Panic => Some Panic
  end.

Definition Inputs_of (fuel : nat) (t : Tsinput) : option (res (list Tsinput)) :=
  match t with
  | InTsfile t => Some (tsfile_Inputs t)
  | InTsconfig t => tsconfig_Inputs fuel t
  end.

End env.

(** ** [tsinputs.go]: the closure

    [next] gives the direct inputs of an input. *)
Section closure.

Variable next : Tsinput → option (res (list Tsinput)).

(** One round: the inputs that are new give theirs, in their order. *)
Fixpoint round (Paths : gset string) (l : list Tsinput) : option (res (gset string * list Tsinput)) :=
  match l with
  | [] => Some (Ok (Paths, []))
  | t :: l =>
      if bool_decide (Path t ∈ Paths) then round Paths l else
      match next t with
      | Some (Ok directDeps) =>
          (λ r, r ≫= λ '(P, ds), Ok (P, directDeps ++ ds)) <$> round ({[Path t]} ∪ Paths) l
      | Some (Fail e) => Some (Fail e)
      | Some Panic => Some Panic
      | None => None
      end
  end.

(** The loop of [TsinputProcessor.Inputs]; [None] without fuel. *)
Fixpoint process (fuel : nat) (Paths : gset string) (l : list Tsinput) : option (res (gset string)) :=
  match l with
  | [] => Some (Ok Paths)
  | _ =>
      match fuel with
      | 0 => None
      | S fuel =>
          match round Paths l with
          | Some (Ok (Paths, l)) => process fuel Paths l
          | Some (Fail e) => Some (Fail e)
          | Some Panic => Some Panic
          | None => None
          end
      end
  end.

End closure.

(** The paths of the outputs, in the order of the map, which is not
    specified. *)
Definition output_of (file : string) : option string :=
  if (Ext file =? ".ts")%string && negb (Contains file ".d.ts") then Some (Replace1 file ".ts" ".js") else None.

Definition Outputs (Paths : list string) : list string := omap output_of Paths.

(** ** [ProcessInputs] and the last step of the preprocessor *)

Section preprocessor.

Variable w : fs.
Variable Unmarshal : string → Tsconfig → res Tsconfig.
Variable Match : string → string → res bool.
Variable Walk : string → list (string * bool) * option error.

Definition initialInput (fuel : nat) (path : string) : option (res Tsinput) :=
  let ext := Ext path in
  if (ext =? ".json")%string then (λ r : res Tsconfig, r ≫= λ t, Ok (InTsconfig t)) <$> parseTsconfig w Unmarshal fuel path
  else if mem ext [".ts"; ".tsx"] then Some (parseTsfile w path ≫= λ t, Ok (InTsfile t))
  else Some (Fail (EMsg "unrecognized file extension")).

(** A result without fuel is one that the code does not give. *)
Definition or_EFuel {A} (r : option (res A)) : res A := default (Fail EFuel) r.

(** The paths of the closure of the target. *)
Definition ProcessInputs (fuel : nat) (path : string) : res (gset string) :=
  let? t := or_EFuel (initialInput fuel path) in
  or_EFuel (process (Inputs_of w Unmarshal Match Walk fuel) fuel ∅ [t]).

(** What [ComputeSpec] appends to the specification. *)
Definition ts_spec (fuel : nat) (o : Options) : res ActionSpec :=
  let? target := or_fail (EMsg "insufficient number of arguments in command") (opt_Cmd o !! 1) in
  let? Paths := ProcessInputs fuel (Join [opt_ExecRoot o; opt_WorkingDir o; target]) in
  let rel := ListRelToExecRoot (opt_ExecRoot o) (opt_WorkingDir o) in
  Ok {| as_InputSpec := Some (set_Inputs empty_InputSpec (rel (elements Paths)));
        as_OutputFiles := rel (Outputs (elements Paths)); as_OutputDirectories := [];
        as_EmittedDependencyFile := ""; as_UsedShallowMode := false |}.

Definition ts_ComputeSpec (fuel : nat) : ST BasePreprocessor unit := λ b,
  match ts_spec fuel (bp_Options b) with
  | Ok s => (Ok tt, AppendSpec s b)
  | Fail e => (Fail e, with_Err b e)
  | Panic => (Panic, b)
  end.

Definition typescript_Preprocessor (fmc : option (string → res bool)) (fuel : nat) : Preprocessor BasePreprocessor :=
  base_Preprocessor w fmc flagsparser_CommandFlags (ts_ComputeSpec fuel).

End preprocessor.

(** ** The closure holds what is reachable *)

Section closure_proofs.

Variable next : Tsinput → option (res (list Tsinput)).

Definition edge (x y : Tsinput) : Prop := ∃ l, next x = Some (Ok l) ∧ y ∈ l.

(** Case analysis of a round, whose result is a pair. *)
Lemma round_cons P t l P' l' :
  round next P (t :: l) = Some (Ok (P', l')) →
  (Path t ∈ P ∧ round next P l = Some (Ok (P', l'))) ∨
  (Path t ∉ P ∧ ∃ ds l2, next t = Some (Ok ds) ∧ round next ({[Path t]} ∪ P) l = Some (Ok (P', l2)) ∧ l' = ds ++ l2).
Proof.
  simpl. case_bool_decide as Hp; [by left|]. intros H. right. split; [done|].
  destruct (next t) as [[ds|e|]|]; [|done..]. exists ds.
  destruct (round next _ l) as [[[P2 l2]|e|]|]; simpl in H; [|done..]. injection H as <- <-. by exists l2.
Qed.

Lemma round_progress P l P' l' :
  round next P l = Some (Ok (P', l')) → P ⊆ P' ∧ (P' ⊆ P → l' = []).
Proof.
  revert P P' l'. induction l as [|t l IH]; intros P P' l' H; [by injection H as <- <-|].
  apply round_cons in H as [[_ H]|(Hp & ds & l2 & _ & H & ->)]; [by apply IH|].
  destruct (IH _ _ _ H) as [Hs _]. split; [set_solver|]. intros Hc. set_solver.
Qed.

Lemma round_reach (Q : Tsinput → Prop) P l P' l' :
  (∀ x y, Q x → edge x y → Q y) → Forall Q l → round next P l = Some (Ok (P', l')) →
  Forall Q l' ∧ ∀ p, p ∈ P' → p ∈ P ∨ ∃ t, Q t ∧ Path t = p.
Proof.
  intros HQ. revert P P' l'. induction l as [|t l IH]; intros P P' l' Hl H; [injection H as <- <-; auto|].
  apply Forall_cons in Hl as [Ht Hl]. apply round_cons in H as [[_ H]|(Hp & ds & l2 & En & H & ->)]; [by apply (IH P)|].
  destruct (IH _ _ _ Hl H) as [H1 H2]. split.
  - apply Forall_app. split; [|done]. apply Forall_forall. intros y Hy. apply (HQ t); [done|by exists ds].
  - intros p Hp'. destruct (H2 p Hp') as [[->%elem_of_singleton|?]%elem_of_union|?]; [right; by exists t|by left|by right].
Qed.

(** What the inputs of [P] give is in [P] or still to do. *)
Definition closed (Q : Tsinput → Prop) (P : gset string) (todo : list Tsinput) : Prop :=
  ∀ x y, Q x → Path x ∈ P → edge x y → Path y ∈ P ∨ y ∈ todo.

Definition path_inj (Q : Tsinput → Prop) : Prop := ∀ x y, Q x → Q y → Path x = Path y → x = y.

Lemma round_closed (Q : Tsinput → Prop) P l A P' l' :
  path_inj Q → Forall Q l → round next P l = Some (Ok (P', l')) → closed Q P (l ++ A) →
  closed Q P' (A ++ l') ∧ Forall (λ t, Path t ∈ P') l.
Proof.
  intros HQ. revert P A P' l'. induction l as [|t l IH]; intros P A P' l' Hl H Hc.
  { injection H as <- <-. rewrite app_nil_r. by split. }
  apply Forall_cons in Hl as [Ht Hl]. apply round_cons in H as [[Hp H]|(Hp & ds & l2 & En & H & ->)].
  - destruct (IH P A P' l' Hl H) as [H1 H2].
    { intros x y Hx Hxp Hxy. destruct (Hc x y Hx Hxp Hxy) as [?|[->|?]%elem_of_cons]; auto. }
    split; [done|]. constructor; [|done]. by apply (round_progress _ _ _ _ H).
  - destruct (IH ({[Path t]} ∪ P) (A ++ ds) P' l2 Hl H) as [H1 H2].
    { intros x y Hx Hxp Hxy. destruct (decide (Path x = Path t)) as [E|E].
      - rewrite (HQ x t Hx Ht E) in Hxy. destruct Hxy as (l0 & E0 & Hy). rewrite En in E0. injection E0 as <-.
        right. set_solver.
      - assert (Path x ∈ P) as Hxp' by set_solver. destruct (Hc x y Hx Hxp' Hxy) as [?|[->|?]%elem_of_cons]; set_solver. }
    rewrite <- app_assoc in H1. split; [done|]. constructor; [|done].
    apply (round_progress _ _ _ _ H). set_solver.
Qed.

Lemma process_spec (Q : Tsinput → Prop) fuel P l P' :
  (∀ x y, Q x → edge x y → Q y) → path_inj Q → Forall Q l → closed Q P l →
  process next fuel P l = Some (Ok P') →
  closed Q P' [] ∧ P ⊆ P' ∧ Forall (λ t, Path t ∈ P') l ∧ ∀ p, p ∈ P' → p ∈ P ∨ ∃ t, Q t ∧ Path t = p.
Proof.
  intros HQ Hi. revert P l. induction fuel as [|fuel IH]; intros P l Hl Hc H.
  { destruct l; [|done]. injection H as <-. auto. }
  destruct l as [|t l]; [injection H as <-; auto|]. cbn [process] in H.
  destruct (round next P (t :: l)) as [[[P1 l1]|e|]|] eqn:Er; [|done..].
  destruct (round_reach Q _ _ _ _ HQ Hl Er) as [Hl1 Hr].
  destruct (round_closed Q P (t :: l) [] P1 l1 Hi Hl Er) as [Hc1 Hin]; [by rewrite app_nil_r|].
  destruct (round_progress _ _ _ _ Er) as [Hs _].
  destruct (IH P1 l1 Hl1 Hc1 H) as (H1 & H2 & _ & H4). split_and!; [done|set_solver| |].
  - eapply Forall_impl; [exact Hin|]. set_solver.
  - intros p Hp. destruct (H4 p Hp) as [?|?]; [by apply Hr|by right].
Qed.

(** Enough fuel: one round per path, and one more. *)
Lemma process_total (Q : Tsinput → Prop) (U : gset string) fuel P l :
  (∀ x y, Q x → edge x y → Q y) → (∀ x, Q x → next x ≠ None ∧ Path x ∈ U) →
  Forall Q l → size (U ∖ P) < fuel → process next fuel P l ≠ None.
Proof.
  intros HQ HU. revert P l. induction fuel as [|fuel IH]; intros P l Hl Hf; [lia|].
  destruct l as [|t l]; [done|]. cbn [process].
  assert (∀ l P, Forall Q l → round next P l ≠ None) as Hr.
  { clear -HQ HU. induction l as [|t l IH]; intros P [Ht Hl]%Forall_cons || intros P Hl; [done|]. simpl.
    case_bool_decide; [by apply IH|]. destruct (HU t Ht) as [Hn _].
    destruct (next t) as [[ds|e|]|]; [|done..]. specialize (IH ({[Path t]} ∪ P) Hl). by destruct (round next _ l). }
  specialize (Hr (t :: l) P Hl). destruct (round next P (t :: l)) as [[[P1 l1]|e|]|] eqn:Er; [|done..].
  destruct (round_reach Q _ _ _ _ HQ Hl Er) as [Hl1 Hp]. destruct (round_progress _ _ _ _ Er) as [Hs Hn].
  destruct (decide (P1 ⊆ P)) as [Hle|Hnle].
  - rewrite (Hn Hle). by destruct fuel.
  - apply IH; [done|]. enough (size (U ∖ P1) < size (U ∖ P)) by lia.
    apply subset_size. split; [set_solver|]. intros Hsub. apply Hnle. intros p Hp1.
    destruct (decide (p ∈ P)) as [|Hnp]; [done|]. destruct (Hp p Hp1) as [|(x & Hx & <-)]; [done|].
    destruct (HU x Hx) as [_ HxU]. set_solver.
Qed.

End closure_proofs.

(** ** The inputs of a TypeScript file *)

Section files.

Variable w : fs.
Variable Unmarshal : string → Tsconfig → res Tsconfig.
Variable Match : string → string → res bool.
Variable Walk : string → list (string * bool) * option error.

(** [q] is the path of a file that the file [p] imports. *)
Definition imports (p q : string) : Prop :=
  ∃ t u l, parseTsfile w p = Ok t ∧ tsfile_Inputs w t = Ok l ∧ u ∈ l ∧ Path u = q.

(** An input that is a file as it was parsed. *)
Definition parsed (x : Tsinput) : Prop := ∃ t, x = InTsfile t ∧ parseTsfile w (tf_TsPath t) = Ok t.

Lemma parseTsfile_path p t : parseTsfile w p = Ok t → tf_TsPath t = p ∧ p ∈ dom w.
Proof.
  unfold parseTsfile, OS.ReadFile, OS.Stat. intros H. inv_bind. subst. split; [done|].
  destruct (OS.is_dir w p); [by injection Hr0 as <-|]. destruct (w !! p) as [n|] eqn:E; [|done].
  apply elem_of_dom. by exists n.
Qed.

Lemma parseTsfile_parsed p t : parseTsfile w p = Ok t → parsed (InTsfile t).
Proof. intros H. exists t. destruct (parseTsfile_path p t H) as [-> _]. done. Qed.

Lemma first_tsfile_parsed sp l t : first_tsfile w sp l = Some t → parsed (InTsfile t).
Proof.
  induction l as [|s l IH]; simpl; [done|]. destruct (parseTsfile w (sp +:+ s)) as [t'|e|] eqn:E; [|done..].
  intros [= ->]. by eapply parseTsfile_parsed.
Qed.

Lemma map_res_elem {A B} (f : A → res B) l bs b : map_res f l = Ok bs → b ∈ bs → ∃ a, a ∈ l ∧ f a = Ok b.
Proof.
  revert bs. induction l as [|a l IH]; simpl; intros bs H Hb; inv_bind; subst; [by apply elem_of_nil in Hb|].
  apply elem_of_cons in Hb as [->|Hb]; [exists a; split; [by left|done]|].
  destruct (IH _ Hr0 Hb) as (a' & ? & ?). exists a'. split; [by right|done].
Qed.

Lemma import_input_parsed d i x : import_input w d i = Ok x → parsed x.
Proof.
  unfold import_input. case_if; intros H; inv_bind; subst.
  - destruct (first_tsfile w _ suffixes) as [t|] eqn:E; [|done]. injection Hr as <-.
    by eapply first_tsfile_parsed.
  - by eapply parseTsfile_parsed.
Qed.

Notation next n := (Inputs_of w Unmarshal Match Walk n).

Lemma parsed_edge n x y : parsed x → edge (next n) x y → parsed y ∧ imports (Path x) (Path y).
Proof.
  intros (t & -> & Hp) (l & [= Hl] & Hy). unfold tsfile_Inputs in Hl.
  destruct (map_res_elem _ _ _ _ Hl Hy) as (i & _ & Hi). split; [by eapply import_input_parsed|].
  by exists t, y, l.
Qed.

(** The files that a file imports are its direct inputs. *)
Lemma imports_edge n x q : parsed x → imports (Path x) q → ∃ y, edge (next n) x y ∧ Path y = q.
Proof.
  intros (t & -> & Hp) (t' & y & l & Hp' & Hl & Hy & <-). exists y. split; [|done]. exists l. simpl in *.
  rewrite Hp in Hp'. injection Hp' as <-. by rewrite Hl.
Qed.

Lemma parsed_inj : path_inj parsed.
Proof. intros x y (t & -> & Hp) (u & -> & Hq) E. simpl in E. congruence. Qed.

Lemma initialInput_file fuel path x :
  mem (Ext path) [".ts"; ".tsx"] = true → or_EFuel (initialInput w Unmarshal fuel path) = Ok x →
  parsed x ∧ Path x = path.
Proof.
  intros He. unfold initialInput. rewrite He. destruct (String.eqb_spec (Ext path) ".json") as [Ej|_].
  { rewrite Ej in He. by vm_compute in He. }
  simpl. intros H. inv_bind. subst. split; [by eapply parseTsfile_parsed|]. simpl.
  by apply parseTsfile_path in Hr as [-> _].
Qed.

(** C25: the inputs of a TypeScript file are the file and exactly those that it
    reaches by imports, also when files import each other. *)
Theorem ProcessInputs_reachable fuel path Paths :
  mem (Ext path) [".ts"; ".tsx"] = true → ProcessInputs w Unmarshal Match Walk fuel path = Ok Paths →
  ∀ p, p ∈ Paths ↔ rtc imports path p.
Proof.
  intros He H. unfold ProcessInputs in H. inv_bind. rename r into t.
  destruct (initialInput_file fuel path t He Hr) as [Ht <-].
  destruct (process (next fuel) fuel ∅ [t]) as [[P|e|]|] eqn:E; try done. injection H as ->.
  set (Q x := parsed x ∧ rtc imports (Path t) (Path x)).
  destruct (process_spec (next fuel) Q fuel ∅ [t] Paths) as (Hc & _ & Hin & Hs); [| | | |done|].
  - intros x y [Hx Hr1] Hxy. destruct (parsed_edge fuel x y Hx Hxy) as [Hy Hi]. split; [done|]. by eapply rtc_r.
  - intros x y [Hx _] [Hy _]. by apply parsed_inj.
  - repeat constructor; done.
  - intros x y _ Hx. set_solver.
  - intros p. split; [intros Hp; destruct (Hs p Hp) as [|(x & [_ Hx] & <-)]; set_solver|].
    apply Forall_cons in Hin as [Hin _]. intros Hp.
    assert (∃ x, Q x ∧ Path x = p ∧ p ∈ Paths) as (_ & _ & _ & ?); [|done].
    eapply (rtc_ind_r (λ p, ∃ x, Q x ∧ Path x = p ∧ p ∈ Paths) (Path t)); [by exists t| |exact Hp].
    intros y z _ Hyz (x & [Hx Hrx] & <- & Hxin).
    destruct (imports_edge fuel x z Hx Hyz) as (u & Hxu & <-). destruct (parsed_edge fuel x u Hx Hxu) as [Hu Hi].
    exists u. split_and!; [split; [done|by eapply rtc_r]|done|].
    by destruct (Hc x u) as [?|?%elem_of_nil].
Qed.

(** *** The closure ends *)

(** JSON does not set the path of a configuration. *)
Definition keeps_path : Prop := ∀ content t t', Unmarshal content t = Ok t' → TsPath t' = TsPath t.

(** Parents have a smaller rank: no configuration extends itself. *)
Definition ranked (rank : string → nat) : Prop := ∀ p content t,
  OS.ReadFile w p = Ok content → Unmarshal content (new_Tsconfig p) = Ok t → Extends t ≠ "" →
  rank (Join [Dir (TsPath t); Extends t]) < rank p.

Lemma ReadFile_dom p c : OS.ReadFile w p = Ok c → p ∈ dom w.
Proof.
  intros H. assert (parseTsfile w p = Ok {| Imports := omap import_line (text_lines c); tf_TsPath := p |}) as E.
  { unfold parseTsfile. by rewrite H. }
  by apply parseTsfile_path in E as [_ ?].
Qed.

Lemma parseTsconfig_total rank n p : ranked rank → rank p < n → parseTsconfig w Unmarshal n p ≠ None.
Proof.
  intros Hrk. revert p. induction n as [|n IH]; intros p Hn; [lia|]. cbn [parseTsconfig].
  destruct (OS.ReadFile w p) as [c|e|] eqn:Ef; [|done..]. cbn [mbind res_bind].
  destruct (Unmarshal c (new_Tsconfig p)) as [t|e|] eqn:Eu; [|done..].
  destruct (String.eqb_spec (Extends t) "") as [_|Hx]; [done|].
  pose proof (Hrk p c t Ef Eu Hx). specialize (IH (Join [Dir (TsPath t); Extends t]) ltac:(lia)).
  by destruct (parseTsconfig w Unmarshal n _) as [[]|].
Qed.

Lemma parseTsconfig_path n p t :
  keeps_path → parseTsconfig w Unmarshal n p = Some (Ok t) → TsPath t = p ∧ p ∈ dom w.
Proof.
  intros Hk. destruct n as [|n]; [done|]. cbn [parseTsconfig].
  destruct (OS.ReadFile w p) as [c|e|] eqn:Ef; [|done..]. cbn [mbind res_bind].
  destruct (Unmarshal c (new_Tsconfig p)) as [t0|e|] eqn:Eu; [|done..]. apply Hk in Eu. apply ReadFile_dom in Ef.
  assert (∀ u, TsPath (default_Include u) = TsPath u) as Hd by (intros u; unfold default_Include; by case_if).
  case_if; [intros [= <-]; by rewrite Hd|]. destruct (parseTsconfig w Unmarshal n _) as [[pa|e|]|]; [|done..].
  intros [= <-]. by rewrite Hd.
Qed.

Definition known (x : Tsinput) : Prop := Path x ∈ dom w.

Lemma parsed_known x : parsed x → known x.
Proof. intros (t & -> & H). by apply parseTsfile_path in H as [_ ?]. Qed.

Lemma include_parsed pats p l x : include_inputs w Match Walk pats p = Ok l → x ∈ l → parsed x.
Proof.
  unfold include_inputs. destruct (Walk p) as [entries err]. intros H Hx. inv_bind.
  destruct err; [done|]. injection H as <-. apply list_elem_of_In, in_concat in Hx as (l & Hl & Hx).
  apply list_elem_of_In in Hl, Hx. destruct (map_res_elem _ _ _ _ Hr Hl) as ([q d] & _ & Hc).
  unfold walk_callback in Hc. simpl in Hc. destruct d; [injection Hc as <-; by apply elem_of_nil in Hx|].
  case_if; [injection Hc as <-; by apply elem_of_nil in Hx|]. apply bind_Ok_inv in Hc as (b & _ & Hc).
  destruct b; [injection Hc as <-; by apply elem_of_nil in Hx|]. inv_bind. subst.
  apply list_elem_of_singleton in Hx as ->. by eapply parseTsfile_parsed.
Qed.

Lemma reference_known n d refs l x :
  keeps_path → reference_inputs w Unmarshal n d refs = Some (Ok l) → x ∈ l → known x.
Proof.
  intros Hk. revert l. induction refs as [|r refs IH]; simpl; intros l H Hx.
  { injection H as <-. by apply elem_of_nil in Hx. }
  destruct (parseTsconfig w Unmarshal n _) as [[t|e|]|] eqn:Et; [|done..].
  destruct (reference_inputs w Unmarshal n d refs) as [[ts|e|]|]; [|done..]. injection H as <-.
  apply elem_of_cons in Hx as [->|Hx]; [|by apply (IH ts)].
  unfold known. simpl. by destruct (parseTsconfig_path n _ t Hk Et) as [-> ?].
Qed.

Lemma known_edge n x y : keeps_path → known x → edge (next n) x y → known y.
Proof.
  intros Hk Hx (l & Hl & Hy). destruct x as [t|t]; simpl in Hl.
  - injection Hl as Hl. destruct (map_res_elem _ _ _ _ Hl Hy) as (i & _ & Hi).
    apply parsed_known. by eapply import_input_parsed.
  - unfold tsconfig_Inputs in Hl.
    destruct (_ ≫= _) as [inputs|e|] eqn:Ei in Hl; [|done..].
    destruct (reference_inputs _ _ _ _ _) as [[refs|e|]|] eqn:Er; [|done..]. injection Hl as <-.
    apply elem_of_app in Hy as [Hy|Hy]; [|by eapply reference_known]. inv_bind. subst inputs.
    apply parsed_known. apply elem_of_app in Hy as [Hy|Hy].
    + apply list_elem_of_fmap in Hy as (u & -> & Hu). destruct (map_res_elem _ _ _ _ Hr Hu) as (f & _ & Hf).
      by eapply parseTsfile_parsed.
    + apply list_elem_of_In, in_concat in Hy as (l & Hl & Hy). apply list_elem_of_In in Hl, Hy.
      destruct (map_res_elem _ _ _ _ Hr0 Hl) as (dir & _ & Hd). by eapply include_parsed.
Qed.

Lemma next_total n x : (∀ p, parseTsconfig w Unmarshal n p ≠ None) → next n x ≠ None.
Proof.
  intros Hp. destruct x as [t|t]; [done|]. simpl. unfold tsconfig_Inputs. destruct (_ ≫= _); [|done..].
  assert (∀ d refs, reference_inputs w Unmarshal n d refs ≠ None) as Hr.
  { intros d refs. induction refs as [|r refs IH]; simpl; [done|]. specialize (Hp (reference_path d r)).
    destruct (parseTsconfig w Unmarshal n _) as [[u|e|]|]; [|done..].
    by destruct (reference_inputs w Unmarshal n d refs). }
  specialize (Hr (Dir (TsPath t)) (References t)). by destruct (reference_inputs w Unmarshal n _ _).
Qed.

(** Finding the inputs ends, whatever the imports, inclusions and references
    and however they form cycles: one round per file is enough, as long as no
    configuration extends itself. *)
Theorem ProcessInputs_ends rank fuel path :
  keeps_path → ranked rank → (∀ p, rank p < fuel) → size w < fuel →
  initialInput w Unmarshal fuel path ≠ None ∧
  ∀ t, initialInput w Unmarshal fuel path = Some (Ok t) → process (next fuel) fuel ∅ [t] ≠ None.
Proof.
  intros Hk Hrk Hrf Hf.
  assert (∀ p, parseTsconfig w Unmarshal fuel p ≠ None) as Hp by (intros p; by apply (parseTsconfig_total rank)).
  split.
  - unfold initialInput. specialize (Hp path). repeat case_if; [|done|done]. by destruct (parseTsconfig _ _ _ _).
  - intros t Ht. apply (process_total _ known (dom w)).
    + intros x y. by apply known_edge.
    + intros x Hx. split; [by apply next_total|done].
    + repeat constructor. unfold initialInput in Ht. repeat case_if; [| |done].
      * destruct (parseTsconfig w Unmarshal fuel path) as [[c|e|]|] eqn:E; [|done..]. injection Ht as <-.
        unfold known. simpl. by destruct (parseTsconfig_path fuel path c Hk E) as [-> ?].
      * destruct (parseTsfile w path) as [u|e|] eqn:E; [|done..]. injection Ht as <-.
        by eapply parsed_known, parseTsfile_parsed.
    + rewrite difference_empty_L, size_dom. done.
Qed.

(** A configuration that extends itself is parsed without end. *)
Lemma extends_itself p content t fuel :
  OS.ReadFile w p = Ok content → Unmarshal content (new_Tsconfig p) = Ok t → Extends t ≠ "" →
  Join [Dir (TsPath t); Extends t] = p → parseTsconfig w Unmarshal fuel p = None.
Proof.
  intros Hr Hu Hx Hp. induction fuel as [|fuel IH]; [done|]. cbn [parseTsconfig]. rewrite Hr. cbn [mbind res_bind].
  rewrite Hu. apply String.eqb_neq in Hx as ->. by rewrite Hp, IH.
Qed.

End files.

End Typescript.

(** ** Witnesses and examples *)

Import Typescript.

Definition ts_fs : fs :=
  {["/p/a.ts" := NFile "import {b} from './b';" 420%Z; "/p/b.ts" := NFile "import {a} from './a.js';" 420%Z;
    "/p/c.ts" := NFile "export const c = 1;" 420%Z; "/p/tsconfig.json" := NFile "{}" 420%Z]}.

(** The configuration that includes its directory but for [b.ts]. *)
Definition Unmarshal_example (_ : string) (t : Tsconfig) : res Tsconfig :=
  Ok {| Extends := ""; Exclude := Some ["b.ts"]; Files := None; Include := Some ["."]; References := [];
        TsPath := TsPath t |}.

(** Patterns without special characters match themselves. *)
Definition Match_example (pattern path : string) : res bool := Ok (pattern =? path)%string.

Definition Walk_example (p : string) : list (string * bool) * option error :=
  ([("/p", true); ("/p/a.ts", false); ("/p/b.ts", false); ("/p/c.ts", false); ("/p/tsconfig.json", false)], None).

Definition closure_example : gset string := {["/p/a.ts"; "/p/b.ts"]}.

Lemma ProcessInputs_reachable_witness :
  rtc (imports ts_fs) "/p/a.ts" "/p/b.ts" ∧ ¬ rtc (imports ts_fs) "/p/a.ts" "/p/c.ts".
Proof.
  assert (ProcessInputs ts_fs Unmarshal_example Match_example Walk_example 9 "/p/a.ts" = Ok closure_example) as H
    by (vm_compute; reflexivity).
  split.
  - apply (ProcessInputs_reachable ts_fs Unmarshal_example Match_example Walk_example 9 "/p/a.ts" closure_example);
      [reflexivity|exact H|by vm_compute].
  - intros Hr. apply (ProcessInputs_reachable ts_fs Unmarshal_example Match_example Walk_example 9 "/p/a.ts"
      closure_example eq_refl H) in Hr. by vm_compute in Hr.
Defined.

Lemma ProcessInputs_ends_witness :
  size ts_fs < 9 ∧ ∀ t, initialInput ts_fs Unmarshal_example 9 "/p/tsconfig.json" = Some (Ok t) →
  process (Inputs_of ts_fs Unmarshal_example Match_example Walk_example 9) 9 ∅ [t] ≠ None.
Proof.
  assert (size ts_fs < 9) as Hs by (apply Nat.ltb_lt; vm_compute; reflexivity). split; [exact Hs|].
  apply (ProcessInputs_ends ts_fs Unmarshal_example Match_example Walk_example (λ _, 0) 9 "/p/tsconfig.json").
  - by intros content t t' [= <-].
  - by intros p content t _ [= <-].
  - intros p. lia.
  - exact Hs.
Defined.

(** The patterns to exclude are joined with the path of the configuration and
    not with its directory: [b.ts] is not excluded. *)
Example exclude_ineffective :
  ProcessInputs ts_fs Unmarshal_example Match_example Walk_example 9 "/p/tsconfig.json" =
  Ok {["/p/a.ts"; "/p/b.ts"; "/p/c.ts"; "/p/tsconfig.json"]}.
Proof. vm_compute. reflexivity. Qed.

(** The first [.ts] of the whole path is replaced, and a quote in a comment ends
    the path of an import. *)
Example output_in_another_directory : output_of "/x.tsd/b.ts" = Some "/x.jsd/b.ts".
Proof. reflexivity. Qed.

Example import_with_comment : import_line "import a from './a'; // it's" = Some "./a'; // it".
Proof. reflexivity. Qed.
