(* ===== verification/Dispatch.v ===== *)
(** * Input processing of an action: [pkg/inputprocessor/inputprocessor.go]

    [ProcessInputs] chooses the preprocessor of an action by its labels, runs it
    with the caches of the proxy and reports what it found, or why not. *)
From S2P Require Import Prelude GoStrings GoPath PathTranslator ArgsScanner GoFS Command Labels Action ServerRun.
From S2P Require Import InputProcessor FlagParsers ClangParser DepsCache CppCompile Typescript.
From Stdlib Require Import Ascii.
Import Filepath PathTranslator Labels InputProcessor FlagParsers CppCompile.

Module Dispatch.

Import Action ServerRun.

(** ** Configuration and state *)

(** For each kind of action, the strategies under which the shallow mode may
    not stand in for a failed preprocessor. *)
Definition shallowFallbackConfig : list (Labels * list (ExecutionStrategy * bool)) :=
  [(HeaderAbiDumpLabels, [(UNSPECIFIED, false)]);
   (ClangLintLabels, [(UNSPECIFIED, false)]);
   (ClangCppLabels, [(REMOTE, false); (REMOTE_LOCAL_FALLBACK, false)]);
   (ClangCLCppLabels, [(REMOTE, false); (REMOTE_LOCAL_FALLBACK, false)]);
   (NaClLabels, [(REMOTE, false); (REMOTE_LOCAL_FALLBACK, false)])].

Fixpoint assoc {K V} `{EqDecision K} (k : K) (l : list (K * V)) : option V :=
  match l with
  | [] => None
  | (k', v) :: l => if decide (k = k') then Some v else assoc k l
  end.

Definition shallowFallback (lbls : Labels) (st : ExecutionStrategy) : bool :=
  default true (m ← assoc lbls shallowFallbackConfig; assoc st m).

(** What outlives an action: the caches of names, stat results and toolchains of
    the processor, and those of the preprocessors. *)
Record ip_state := {
  ip_nfc : gmap string string;
  ip_fsc : gmap string bool;
  ip_tfc : gmap string (option (list string));
  ip_caches : caches;
  r8Cache : gmap string (list string);
  versionCache : gmap string string;
  arCache : gmap string (list string)
}.

Definition with_base (s : ip_state) (b : BasePreprocessor) : ip_state := {|
  ip_nfc := default ∅ (nfc b); ip_fsc := default ∅ (fsc b); ip_tfc := toolchainFilesCache b;
  ip_caches := ip_caches s; r8Cache := r8Cache s; versionCache := versionCache s; arCache := arCache s |}.
Definition with_ip_caches (s : ip_state) (x : caches) : ip_state := {|
  ip_nfc := ip_nfc s; ip_fsc := ip_fsc s; ip_tfc := ip_tfc s;
  ip_caches := x; r8Cache := r8Cache s; versionCache := versionCache s; arCache := arCache s |}.
Definition with_r8Cache (s : ip_state) (x : gmap string (list string)) : ip_state := {|
  ip_nfc := ip_nfc s; ip_fsc := ip_fsc s; ip_tfc := ip_tfc s;
  ip_caches := ip_caches s; r8Cache := x; versionCache := versionCache s; arCache := arCache s |}.
Definition with_versionCache (s : ip_state) (x : gmap string string) : ip_state := {|
  ip_nfc := ip_nfc s; ip_fsc := ip_fsc s; ip_tfc := ip_tfc s;
  ip_caches := ip_caches s; r8Cache := r8Cache s; versionCache := x; arCache := arCache s |}.
Definition with_arCache (s : ip_state) (x : gmap string (list string)) : ip_state := {|
  ip_nfc := ip_nfc s; ip_fsc := ip_fsc s; ip_tfc := ip_tfc s;
  ip_caches := ip_caches s; r8Cache := r8Cache s; versionCache := versionCache s; arCache := x |}.

Definition no_options : Options := {|
  opt_Cmd := []; opt_WorkingDir := ""; opt_ExecRoot := ""; opt_Inputs := None; opt_Labels := ∅;
  opt_ToolchainInputs := []; ShallowFallback := false; WindowsCross := false |}.

(** The base preprocessor of a new action. *)
Definition new_base (s : ip_state) : BasePreprocessor :=
  mkBP no_options None None None (Some (ip_nfc s)) (Some (ip_fsc s)) (ip_tfc s).

(** A preprocessor run on the state of the processor: [get] and [set] are those
    of its own cache. *)
Definition run_embedding {X} (P : Preprocessor (BasePreprocessor * X)) (get : ip_state → X) (set : ip_state → X → ip_state)
    (o : Options) : ST ip_state (option ActionSpec) := λ s,
  let '(r, (b, x)) := Compute (H := P) o (new_base s, get s) in (r, set (with_base s b) x).

Definition run_base (P : Preprocessor BasePreprocessor) (o : Options) : ST ip_state (option ActionSpec) := λ s,
  let '(r, b) := Compute (H := P) o (new_base s) in (r, with_base s b).

Section env.

Variable w : fs.
Variable fmc : option (string → res bool).
Variable sv : services.
Variable now : Z.
Variable darwin : bool.
Variable T : ClangParser.tables.
Variable sysrootDoNotUpload : bool.
Variable cppLinkDeepScan : bool.
Variable Execute : option (list string → string → gmap string string → res string).
Variable Unmarshal : string → Typescript.Tsconfig → res Typescript.Tsconfig.
Variable Match : string → string → res bool.
Variable Walk : string → list (string * bool) * option error.
Variable fuel : nat.

Notation cpp P := (run_embedding (P w fmc sv now darwin T) ip_caches with_ip_caches).
Notation none P := (run_embedding P (λ _, tt) (λ s _, s)).

(** The [switch] over the labels. *)
Definition preprocessor_of (lbls : Labels) : option (Options → ST ip_state (option ActionSpec)) :=
  assoc lbls
    [(ToolLabels, run_base (tool_Preprocessor w fmc));
     (SignAPKLabels, run_base (tool_Preprocessor w fmc));
     (D8Labels, none (d8_Preprocessor w fmc));
     (R8Labels, run_embedding (r8_Preprocessor w fmc fuel) r8Cache with_r8Cache);
     (MetalavaLabels, run_embedding (metalava_Preprocessor w fmc Execute) versionCache with_versionCache);
     (ClangCppLabels, cpp cpp_Preprocessor);
     (ClangLintLabels, cpp clanglint_Preprocessor);
     (HeaderAbiDumpLabels, cpp headerabi_Preprocessor);
     (ClangCLCppLabels, cpp clangcl_Preprocessor);
     (NaClLabels, cpp nacl_Preprocessor);
     (ClangLinkLabels, run_embedding (clanglink_Preprocessor w fmc darwin T sysrootDoNotUpload cppLinkDeepScan)
                         arCache with_arCache);
     (NaClLinkLabels, run_embedding (clanglink_Preprocessor w fmc darwin T sysrootDoNotUpload cppLinkDeepScan)
                        arCache with_arCache);
     (JavacLabels, none (javac_Preprocessor w fmc));
     (LLVMArLabels, none (archive_Preprocessor w fmc fuel));
     (TscLabels, run_base (Typescript.typescript_Preprocessor w Unmarshal Match Walk fmc fuel))].

Definition processor_options (opts : ProcessInputsOptions) : Options := {|
  opt_Cmd := o_Cmd opts; opt_WorkingDir := o_WorkingDir opts; opt_ExecRoot := o_ExecRoot opts;
  opt_Inputs := o_Inputs opts; opt_Labels := o_Labels opts; opt_ToolchainInputs := o_ToolchainInputs opts;
  ShallowFallback := shallowFallback (FromMap (o_Labels opts)) (o_ExecStrategy opts);
  WindowsCross := o_WindowsCross opts |}.

(** [fmt.Errorf("%w: %v", ErrIPTimeout, err)] *)
Definition translate_error (e : error) : error :=
  if errors_Is e ErrDepsScanTimeout then EWrap "dependency scan" EIPTimeout else e.

Definition command_io (r : option ActionSpec) : res CommandIO :=
  let? a := or_panic r in
  Ok {| io_InputSpec := as_InputSpec a; io_OutputFiles := as_OutputFiles a;
        io_OutputDirectories := as_OutputDirectories a; EmittedDependencyFile := as_EmittedDependencyFile a;
        UsedShallowMode := as_UsedShallowMode a |}.

(** [cancelled] says that the context is done before the preprocessor, which
    goes on in its goroutine. *)
Definition ProcessInputs (cancelled : bool) (opts : ProcessInputsOptions) : ST ip_state CommandIO := λ s,
  match preprocessor_of (FromMap (o_Labels opts)) with
  | None => (Fail (EMsg "unsupported labels"), s)
  | Some run =>
      let '(r, s) := run (processor_options opts) s in
      (match r with
       | Panic => Panic
       | Ok a => if cancelled then Fail (EMsg "context was cancelled before completing input processing") else command_io a
       | Fail e => if cancelled then Fail (EMsg "context was cancelled before completing input processing")
                   else Fail (translate_error e)
       end, s)
  end.

End env.

(** ** [NewInputProcessor] *)

Record NewOptions := {
  EnableDepsCache : bool;
  CacheDir : string;
  ReclientVersion : string
}.

(** The cache of dependencies of a new processor: there is one when it is
    enabled and the scanner, which says whether it caches by itself, does not,
    or when a feature asks for it; the file is loaded by a goroutine. *)
Definition new_depsCache (o : NewOptions) (scanner_caches ExperimentalGomaDepsCache : bool) (MaxEntries : Z)
    : option DepsCache.Cache :=
  if negb (CacheDir o =? "")%string && EnableDepsCache o && (negb scanner_caches || ExperimentalGomaDepsCache)
  then Some (DepsCache.New MaxEntries (ReclientVersion o)) else None.

(** [onceFunc]: whether the function ran, and the state that it changes. *)
Definition onceFunc {S} (f : S → S) (st : bool * S) : bool * S :=
  if st.1 then st else (true, f st.2).

(** ** What every preprocessor promises

    [tracks b m]: there is a specification with its inputs, and [m] tells whether
    it comes from the shallow mode. *)
Definition tracks (b : BasePreprocessor) (m : bool) : Prop :=
  ∃ a i, current b = Some (a, i) ∧ as_UsedShallowMode a = m.

(** A step keeps a specification, and the mode unless it fails. *)
Definition keeps {S} (base : S → BasePreprocessor) (step : ST S unit) : Prop :=
  ∀ s m, tracks (base s) m →
  ∃ m', tracks (base (step s).2) m' ∧ ((step s).1 = Ok tt → m' = m).

Class Tracks {S} (base : S → BasePreprocessor) (P : Preprocessor S) : Prop := {
  tr_init : ∀ o s, base (pp_Init o s) = Init o (base s);
  tr_spec : ∀ s, pp_Spec s = Spec (base s);
  tr_ParseFlags : keeps base pp_ParseFlags;
  tr_ProcessToolchains : keeps base pp_ProcessToolchains;
  tr_ComputeSpec : keeps base pp_ComputeSpec;
  tr_Sanitize : keeps base pp_Sanitize
}.

Section client.

Context {S : Type} (base : S → BasePreprocessor) {P : Preprocessor S} {HP : Tracks base P}.

Lemma sanitized_mode s m a s' :
  tracks (base s) m → sanitized_spec s = (Ok a, s') → ∃ a' i, a = Some a' ∧ as_InputSpec a' = Some i ∧ as_UsedShallowMode a' = m.
Proof.
  intros Ht. unfold sanitized_spec, st_bind. destruct (tr_Sanitize s m Ht) as (m' & H & Hm).
  destruct (pp_Sanitize s) as [[[]|e|] s1]; [|done..]. rewrite tr_spec. unfold Spec.
  destruct (Err (base s1)); [done|]. intros [= <- <-]. destruct H as (a' & i & Hc & Hs).
  simpl in Hc. unfold current in Hc. destruct (actionSpec (base s1)) as [a0|]; [|done]. simpl in Hc.
  destruct (as_InputSpec a0) as [i0|] eqn:Ei; [|done]. injection Hc as <- <-.
  exists a0, i0. split_and!; [done|done|]. rewrite Hs. by apply Hm.
Qed.

Lemma or_fallback_mode fb (step : ST S unit) k s m a s' :
  keeps base step → tracks (base s) m → or_fallback fb step k s = (Ok a, s') →
  (∃ s1, step s = (Ok tt, s1) ∧ tracks (base s1) m ∧ k s1 = (Ok a, s')) ∨
  (fb = true ∧ ∃ a' i, a = Some a' ∧ as_InputSpec a' = Some i).
Proof.
  intros Hk Ht. unfold or_fallback. destruct (Hk s m Ht) as (m' & Ht' & Hm).
  destruct (step s) as [[[]|e|] s1]; simpl in *; [|destruct fb; [|done]|done].
  - rewrite (Hm eq_refl) in Ht'. intros H. left. by exists s1.
  - intros H. right. split; [done|]. destruct (sanitized_mode s1 m' a s' Ht' H) as (a' & i & ? & ? & _). by exists a', i.
Qed.

(** The specification of [Compute] has its inputs; without a fallback its mode is
    the one asked for. *)
Lemma Compute_mode o s a s' :
  Compute o s = (Ok a, s') →
  ∃ a' i, a = Some a' ∧ as_InputSpec a' = Some i ∧
    (ShallowFallback o = false → as_UsedShallowMode a' = shallow_option o).
Proof.
  unfold Compute. intros H.
  assert (tracks (base (pp_Init o s)) (shallow_option o)) as Ht.
  { rewrite tr_init. destruct (Init_current o (base s)) as [Hc _]. eexists _, _. split; [exact Hc|done]. }
  apply (or_fallback_mode _ _ _ _ (shallow_option o)) in H as [(s1 & _ & H1 & H)|(Hf & a' & i & ? & ?)];
    [|exists a', i; split_and!; [done..|congruence]|apply tr_ParseFlags|done].
  apply (or_fallback_mode _ _ _ _ (shallow_option o)) in H as [(s2 & _ & H2 & H)|(Hf & a' & i & ? & ?)];
    [|exists a', i; split_and!; [done..|congruence]|apply tr_ProcessToolchains|done].
  destruct (pp_Spec s2) as [[a2|]|e|]; [|done..]. destruct (as_UsedShallowMode a2).
  { destruct (sanitized_mode s2 _ a s' H2 H) as (a' & i & ? & ? & ?). by exists a', i. }
  apply (or_fallback_mode _ _ _ _ (shallow_option o)) in H as [(s3 & _ & H3 & H)|(Hf & a' & i & ? & ?)];
    [|exists a', i; split_and!; [done..|congruence]|apply tr_ComputeSpec|done].
  destruct (sanitized_mode s3 _ a s' H3 H) as (a' & i & ? & ? & ?). by exists a', i.
Qed.

End client.

(** ** The steps of the preprocessors keep the promise *)

Lemma tracks_AppendSpec c m a : tracks c m → tracks (AppendSpec a c) (m || as_UsedShallowMode a).
Proof.
  intros (s & i & Hc & <-). rewrite (AppendSpec_current _ _ _ _ Hc). eexists _, _. split; [reflexivity|]. simpl.
  by destruct (as_UsedShallowMode s).
Qed.

(** States with the same specification. *)
Lemma tracks_ext b b' m : actionSpec b = actionSpec b' → tracks b m → tracks b' m.
Proof. intros H. unfold tracks, current. by rewrite H. Qed.

(** The specification is the same up to its inputs. *)
Lemma tracks_set_InputSpec b b' s i j m :
  current b = Some (s, i) → actionSpec b' = Some (set_InputSpec s j) → tracks b m → tracks b' m.
Proof.
  intros Hc H (s' & i' & Hc' & Hm). rewrite Hc in Hc'. injection Hc' as <- <-.
  unfold tracks, current. rewrite H. by eexists _, _.
Qed.

Lemma keeps_FlagsToActionSpec : keeps id FlagsToActionSpec.
Proof.
  intros b m Ht. change (tracks b m) in Ht. unfold FlagsToActionSpec. destruct (bp_Flags b) as [f|]; [|by exists m].
  pose proof Ht as (a & i & -> & _). simpl. exists m. split; [|done].
  rewrite <- (orb_false_r m). by apply (tracks_AppendSpec b m).
Qed.

Lemma keeps_ParseFlags_with parse : keeps id (ParseFlags_with parse).
Proof.
  intros b m Ht. unfold ParseFlags_with. destruct (parse _ _ _) as [f|e|]; [|by exists m..].
  by apply (keeps_FlagsToActionSpec (with_Flags b f)).
Qed.

Lemma keeps_ProcessToolchains w fmc : keeps id (ProcessToolchains w fmc).
Proof.
  intros b m Ht. change (tracks b m) in Ht. unfold ProcessToolchains. destruct (bp_Flags b) as [f|]; [|by exists m].
  destruct (ProcessToolchainInputs _ _ _ _ _ _ _) as [[tci|e|] tfc]; simpl; [| |by exists m].
  - exists m. split; [|done]. rewrite <- (orb_false_r m). by apply (tracks_AppendSpec (with_tfc b tfc) m).
  - destruct Ht as (s & i & Hc & Hm). unfold current in Hc.
    destruct (actionSpec b) as [a|]; [|done]. simpl in Hc. destruct (as_InputSpec a) as [j|] eqn:Ej; [|done].
    injection Hc as <- <-. exists true. split; [|done]. unfold tracks, current. simpl. rewrite Ej. by eexists _, _.
Qed.

Lemma keeps_Sanitize w fmc : keeps id (Sanitize w fmc).
Proof.
  intros b m Ht. change (tracks b m) in Ht. exists m. split; [|done]. unfold Sanitize.
  assert (tracks (FilterInputsUnderExecRoot w b) m) as H1.
  { pose proof Ht as (s & i & Hc & _). unfold FilterInputsUnderExecRoot. rewrite Hc.
    destruct (foldl _ _ _) as [[l ?] ?]. by eapply tracks_set_InputSpec. }
  set (b1 := FilterInputsUnderExecRoot w b) in *.
  assert (tracks (RewriteEnvironmentVariables b1) m) as H2.
  { pose proof H1 as (s & i & Hc & _). unfold RewriteEnvironmentVariables. rewrite Hc. by eapply tracks_set_InputSpec. }
  set (b2 := RewriteEnvironmentVariables b1) in *. destruct (FilterVirtualInputs w fmc b2) as [b3|e|] eqn:E; [|done..].
  simpl. pose proof H2 as (s & i & Hc & _). unfold FilterVirtualInputs in E. rewrite Hc in E. inv_bind.
  destruct r as [l cache]. injection E as <-. by eapply tracks_set_InputSpec.
Qed.

Lemma keeps_lift {X} (step : ST BasePreprocessor unit) :
  keeps id step → keeps (fst : BasePreprocessor * X → _) (FlagParsers.lift step).
Proof.
  intros H [b x] m Ht. specialize (H b m Ht). unfold FlagParsers.lift. destruct (step b) as [r b']. exact H.
Qed.

Lemma keeps_ComputeSpec : keeps id ComputeSpec.
Proof. intros b m Ht. by exists m. Qed.

Lemma Tracks_base w fmc parse compute :
  keeps id compute → Tracks id (base_Preprocessor w fmc parse compute).
Proof.
  split; [done|done|apply keeps_ParseFlags_with|apply keeps_ProcessToolchains|done|apply keeps_Sanitize].
Qed.

Lemma Tracks_embedding {X} w fmc (parse : ST BasePreprocessor unit) (compute : ST (BasePreprocessor * X) unit) :
  keeps id parse → keeps fst compute → Tracks fst (embedding_Preprocessor w fmc parse compute).
Proof.
  intros H1 H2.
  split; [done|done|by apply keeps_lift|apply keeps_lift, keeps_ProcessToolchains|done|apply keeps_lift, keeps_Sanitize].
Qed.

(** *** Each preprocessor *)

#[export] Instance Tracks_tool w fmc : Tracks id (tool_Preprocessor w fmc).
Proof. apply Tracks_base, keeps_ComputeSpec. Qed.

#[export] Instance Tracks_javac w fmc : Tracks fst (javac_Preprocessor w fmc).
Proof. apply Tracks_embedding; [apply keeps_ParseFlags_with|apply keeps_lift, keeps_ComputeSpec]. Qed.

#[export] Instance Tracks_archive w fmc fuel : Tracks fst (archive_Preprocessor w fmc fuel).
Proof.
  apply Tracks_embedding; [|apply keeps_lift, keeps_ComputeSpec]. intros b m Ht. unfold archive_ParseFlags.
  repeat case_match; try (by exists m); match goal with |- context [FlagsToActionSpec ?b'] => by apply (keeps_FlagsToActionSpec b' m) end.
Qed.

Lemma keeps_append_output_dirs : keeps id append_output_dirs.
Proof.
  intros b m Ht. change (tracks b m) in Ht. exists m. split; [|done]. unfold append_output_dirs.
  destruct (Spec b) as [[s|]|e|]; [|done..]. simpl. rewrite <- (orb_false_r m). by apply (tracks_AppendSpec b m).
Qed.

#[export] Instance Tracks_d8 w fmc : Tracks fst (d8_Preprocessor w fmc).
Proof. apply Tracks_embedding; [apply keeps_ParseFlags_with|apply keeps_lift, keeps_append_output_dirs]. Qed.

#[export] Instance Tracks_r8 w fmc fuel : Tracks fst (r8_Preprocessor w fmc fuel).
Proof.
  apply Tracks_embedding; [apply keeps_ParseFlags_with|]. intros [b x] m Ht. change (tracks b m) in Ht.
  unfold r8_ComputeSpec. destruct (bp_Flags b) as [f|]; [|by exists m].
  destruct (dep_includes _ _ _ _ _ _) as [[incs|e|] x']; [|by exists m..].
  apply (keeps_lift _ keeps_append_output_dirs (_, x') m). rewrite <- (orb_false_r m). by apply (tracks_AppendSpec b m).
Qed.

Lemma verify_base want Execute s : (verifyMetalavaVersion Execute want s).2.1 = s.1.
Proof.
  destruct s as [b x]. unfold verifyMetalavaVersion. destruct (bp_Flags b); [|done].
  by destruct (load_or_store _ _ _) as [[] ?].
Qed.

#[export] Instance Tracks_metalava w fmc Execute : Tracks fst (metalava_Preprocessor w fmc Execute).
Proof.
  apply Tracks_embedding; [apply keeps_ParseFlags_with|]. intros s m Ht. exists m. split; [|done].
  unfold metalava_ComputeSpec. pose proof (verify_base "1.3.0" Execute s) as E.
  destruct (verifyMetalavaVersion Execute "1.3.0" s) as [[v|e|] [b x]]; simpl in *; by subst b.
Qed.

Section cpp.

Variable w : fs.
Variable fmc : option (string → res bool).
Variable sv : services.
Variable now : Z.
Variable darwin : bool.
Variable T : ClangParser.tables.

Lemma keeps_compute_with outputFlag joined toAbs add virtuals :
  keeps fst (compute_with w sv now outputFlag joined toAbs add virtuals).
Proof.
  intros [b x] m Ht. change (tracks b m) in Ht. unfold compute_with. destruct (bp_Flags b) as [f|]; [|by exists m].
  match goal with |- context [st_bind ?r ?k x] => destruct (st_bind r k x) as [[inp|e|] x'] end.
  - exists m. split; [|done]. rewrite <- (orb_false_r m). by apply (tracks_AppendSpec b m).
  - eexists. split; [by apply (tracks_AppendSpec b m)|done].
  - eexists. split; [by apply (tracks_AppendSpec b m)|done].
Qed.

Lemma keeps_with_cpp_flags change : keeps fst (with_cpp_flags w sv now change).
Proof.
  intros [b x] m Ht. unfold with_cpp_flags. destruct (bp_Flags b) as [f|]; [|by exists m].
  destruct (change f) as [f'|e|]; [|by exists m..]. by apply (keeps_compute_with _ _ _ _ _ (with_Flags b f', x)).
Qed.

#[export] Instance Tracks_cpp : Tracks fst (cpp_Preprocessor w fmc sv now darwin T).
Proof. apply Tracks_embedding; [apply keeps_ParseFlags_with|apply keeps_compute_with]. Qed.

#[export] Instance Tracks_clangcl : Tracks fst (clangcl_Preprocessor w fmc sv now darwin T).
Proof. apply Tracks_embedding; [apply keeps_ParseFlags_with|apply keeps_compute_with]. Qed.

#[export] Instance Tracks_nacl : Tracks fst (nacl_Preprocessor w fmc sv now darwin T).
Proof. apply Tracks_embedding; [apply keeps_ParseFlags_with|apply keeps_with_cpp_flags]. Qed.

#[export] Instance Tracks_headerabi : Tracks fst (headerabi_Preprocessor w fmc sv now darwin T).
Proof. apply Tracks_embedding; [apply keeps_ParseFlags_with|apply keeps_with_cpp_flags]. Qed.

#[export] Instance Tracks_clanglint : Tracks fst (clanglint_Preprocessor w fmc sv now darwin T).
Proof.
  apply Tracks_embedding; [apply keeps_ParseFlags_with|]. intros [b x] m Ht. unfold lint_ComputeSpec.
  destruct (bp_Flags b) as [f|]; [|by exists m]. destruct (clangTidyToCPPFlags w sv f) as [f'|e|]; [|by exists m..].
  by apply (keeps_compute_with _ _ _ _ _ (with_Flags b f', x)).
Qed.

#[export] Instance Tracks_clanglink sysroot deep : Tracks fst (clanglink_Preprocessor w fmc darwin T sysroot deep).
Proof.
  split; [done|done| |apply keeps_lift, keeps_ProcessToolchains|apply keeps_lift, keeps_ComputeSpec|apply keeps_lift, keeps_Sanitize].
  intros [b x] m Ht. unfold pp_ParseFlags, clanglink_Preprocessor, link_ParseFlags.
  destruct (ClangParser.link_parseFlags _ _ _ _ _ _ _ _ _) as [[f|e|] ar]; [|by exists m..].
  by apply (keeps_lift _ keeps_FlagsToActionSpec (with_Flags b f, ar)).
Qed.

End cpp.

#[export] Instance Tracks_typescript w Unmarshal Match Walk fmc fuel :
  Tracks id (Typescript.typescript_Preprocessor w Unmarshal Match Walk fmc fuel).
Proof.
  apply Tracks_base. intros b m Ht. unfold Typescript.ts_ComputeSpec.
  destruct (Typescript.ts_spec _ _ _ _ _ _) as [a|e|] eqn:E; [|by exists m..]. exists m. split; [|done].
  assert (as_UsedShallowMode a = false) as Ha.
  { unfold Typescript.ts_spec in E. inv_bind. by subst a. }
  rewrite <- (orb_false_r m), <- Ha. by apply (tracks_AppendSpec b m).
Qed.

(** ** Properties *)

Section properties.

Variable w : fs.
Variable fmc : option (string → res bool).
Variable sv : services.
Variable now : Z.
Variable darwin : bool.
Variable T : ClangParser.tables.
Variables sysrootDoNotUpload cppLinkDeepScan : bool.
Variable Execute : option (list string → string → gmap string string → res string).
Variable Unmarshal : string → Typescript.Tsconfig → res Typescript.Tsconfig.
Variable Match : string → string → res bool.
Variable Walk : string → list (string * bool) * option error.
Variable fuel : nat.

Notation process := (ProcessInputs w fmc sv now darwin T sysrootDoNotUpload cppLinkDeepScan Execute Unmarshal Match Walk fuel).
Notation choose := (preprocessor_of w fmc sv now darwin T sysrootDoNotUpload cppLinkDeepScan Execute Unmarshal Match Walk fuel).

Lemma assoc_elem {K V} `{EqDecision K} (k : K) (l : list (K * V)) v : assoc k l = Some v → (k, v) ∈ l.
Proof.
  induction l as [|[k' v'] l IH]; simpl; [done|]. case_decide as E; [|intros H; right; by apply IH].
  intros [= <-]. subst. left.
Qed.

(** What every preprocessor gives, whatever its state. *)
Definition gives_mode (run : Options → ST ip_state (option ActionSpec)) : Prop := ∀ o s a s',
  run o s = (Ok a, s') → ∃ a' i, a = Some a' ∧ as_InputSpec a' = Some i ∧
    (ShallowFallback o = false → as_UsedShallowMode a' = shallow_option o).

Lemma gives_mode_embedding {X} (P : Preprocessor (BasePreprocessor * X)) get set :
  Tracks fst P → gives_mode (run_embedding P get set).
Proof.
  intros HP o s a s'. unfold run_embedding. destruct (Compute o (new_base s, get s)) as [r [b x]] eqn:E.
  intros [= -> _]. by apply (Compute_mode fst o _ _ _ E).
Qed.

Lemma gives_mode_base (P : Preprocessor BasePreprocessor) : Tracks id P → gives_mode (run_base P).
Proof.
  intros HP o s a s'. unfold run_base. destruct (Compute o (new_base s)) as [r b] eqn:E.
  intros [= -> _]. by apply (Compute_mode id o _ _ _ E).
Qed.

Lemma preprocessors_give_mode lbls run : choose lbls = Some run → gives_mode run.
Proof.
  unfold preprocessor_of. intros H%assoc_elem.
  repeat (apply elem_of_cons in H as [[= _ ->]|H];
    [first [apply gives_mode_base|apply gives_mode_embedding]; apply _|]).
  by apply elem_of_nil in H.
Qed.

(** C5: the inputs that are reported are always set, which the server relies on;
    and where the shallow mode may not stand in for a preprocessor, they come
    from the shallow mode only when the request asks for it: no failure, of
    the flags, of the toolchains or of the dependency scan, is hidden. *)
Theorem shallow_only_when_asked cancelled opts s io s' :
  process cancelled opts s = (Ok io, s') →
  is_Some (io_InputSpec io) ∧
  (shallowFallback (FromMap (o_Labels opts)) (o_ExecStrategy opts) = false →
   UsedShallowMode io = shallow_option (processor_options opts)).
Proof.
  unfold ProcessInputs. destruct (choose (FromMap (o_Labels opts))) as [run|] eqn:Er; [|done].
  pose proof (preprocessors_give_mode _ _ Er (processor_options opts) s) as Hm.
  destruct (run (processor_options opts) s) as [[a|e|] s1]; intros H; [|by destruct cancelled|done].
  destruct (Hm a s1 eq_refl) as (a' & i & -> & Hi & Hs). destruct cancelled; [done|]. injection H as <- <-. simpl.
  rewrite Hi. by split.
Qed.

(** *** A dependency scan that times out *)

(** The specification that a step of a preprocessor with caches leaves. *)
Lemma sanitized_spec_embedding {X} Get parse (compute : ST (BasePreprocessor * X) unit) c x a i :
  let o := bp_Options c in
  current c = Some (a, i) → coherent w (opt_ExecRoot o) (nfc c) → Err c = None →
  (sanitized_spec (H := embedding_Preprocessor w (Some Get) parse compute) (c, x)).1 =
  Ok (Some (set_InputSpec a (sanitized w Get (opt_ExecRoot o) (opt_WorkingDir o) i))).
Proof.
  cbv zeta. intros Hc Hn Hnone. destruct (Sanitize_current w Get c a i Hc Hn) as (c' & E & He & Hs).
  unfold sanitized_spec, st_bind. cbn [pp_Sanitize pp_Spec embedding_Preprocessor]. unfold FlagParsers.lift. rewrite E.
  simpl. unfold Spec. by rewrite He, Hs, Hnone.
Qed.

(** The last step of a C++ action when the scan ends with an error. *)
Lemma compute_with_scan_fails outputFlag joined toAbs add virtuals b x f t ts a i e :
  bp_Flags b = Some f → TargetFilePaths f = t :: ts → current b = Some (a, i) →
  GetExpectsResourceDir sv = false → DepsCache x = None → Acquire sv = Ok tt →
  (∀ args file dir, CppCompile.ProcessInputs sv args file dir = Fail e) → errors_Is e EDeadlineExceeded = true →
  compute_with w sv now outputFlag joined toAbs add virtuals (b, x) =
  (Fail (EWrap "dependency scan" ErrDepsScanTimeout),
   (with_spec b (appended a i (set_shallow (new_ActionSpec (Some empty_InputSpec)) true)), x)).
Proof.
  intros Hf Ht Hc Hg Hd Ha Hp He. unfold compute_with. rewrite Hf, Hg. unfold st_bind, st_ret, FindDependencies, getFromDepsCache.
  rewrite Ht, Hd, Ha, Hp, He. by rewrite (AppendSpec_current _ _ _ _ Hc).
Qed.

(** [Compute] up to the last step, when the flags are parsed. *)
Lemma Compute_to_last {X} Get parse (compute : ST (BasePreprocessor * X) unit) o c x f :
  let P := embedding_Preprocessor w (Some Get) (ParseFlags_with parse) compute in
  Err c = None → IsAbs (opt_ExecRoot o) = true → shallow_option o = false →
  parse (opt_Cmd o) (opt_WorkingDir o) (opt_ExecRoot o) = Ok f →
  ∃ b a i, current b = Some (a, i) ∧ bp_Flags b = Some f ∧ bp_Options b = o ∧ nfc b = nfc c ∧ Err b = None ∧
    Compute (H := P) o (c, x) = or_fallback (H := P) (ShallowFallback o) compute (sanitized_spec (H := P)) (b, x).
Proof.
  cbv zeta. intros He Her Hsh Hp. destruct (Init_current o c) as [Hcur Hinit].
  assert (bp_Options (Init o c) = o ∧ nfc (Init o c) = nfc c ∧ Err (Init o c) = None ∧
          toolchainFilesCache (Init o c) = toolchainFilesCache c) as (Ho & Hn & Hnone & Htf) by by rewrite Hinit.
  clear Hinit. unfold Compute. cbn [pp_Init pp_ParseFlags pp_ProcessToolchains pp_Spec pp_ComputeSpec embedding_Preprocessor fst snd].
  set (c0 := Init o c) in *. clearbody c0.
  destruct (ProcessToolchainInputs_Ok w (Some Get) (opt_ExecRoot o) (opt_WorkingDir o) (ExecutablePath f)
    (opt_ToolchainInputs o) (toolchainFilesCache c) Her) as (tci & tfc & Htc).
  pose proof (ParseFlags_Ok parse c0 _ _ f Hcur) as E1. rewrite Ho in E1. specialize (E1 Hp).
  set (b1 := with_spec _ _) in E1.
  pose proof (ProcessToolchains_Ok w (Some Get) b1 _ _ f tci tfc eq_refl eq_refl) as E2.
  change (bp_Options b1) with (bp_Options c0) in E2. change (toolchainFilesCache b1) with (toolchainFilesCache c0) in E2.
  rewrite Ho, Htf in E2. specialize (E2 Htc). set (b2 := with_spec _ _) in E2.
  exists b2. eexists _, _. split; [reflexivity|]. split_and!; [reflexivity|exact Ho|exact Hn|exact Hnone|].
  erewrite or_fallback_Ok; [|unfold FlagParsers.lift; rewrite E1; reflexivity].
  erewrite or_fallback_Ok; [|unfold FlagParsers.lift; rewrite E2; reflexivity].
  unfold Spec. change (Err (b2, x).1) with (Err c0). rewrite Hnone. subst b2 b1. cbn. by rewrite Hsh.
Qed.

(** C24: a dependency scan that takes too long.  Where the shallow mode may not
    replace it, the error says that input processing timed out, which the
    server counts; elsewhere the action goes on with inputs of the shallow
    mode. *)
Theorem scan_timeout Get opts s f t ts e :
  let er := o_ExecRoot opts in
  fmc = Some Get → FromMap (o_Labels opts) = ClangCppLabels → IsAbs er = true → coherent w er (Some (ip_nfc s)) →
  shallow_option (processor_options opts) = false →
  ClangParser.cpp_ParseFlags w darwin T (o_Cmd opts) (o_WorkingDir opts) er = Ok f → TargetFilePaths f = t :: ts →
  GetExpectsResourceDir sv = false → DepsCache (ip_caches s) = None → Acquire sv = Ok tt →
  (∀ args file dir, CppCompile.ProcessInputs sv args file dir = Fail e) → errors_Is e EDeadlineExceeded = true →
  if bool_decide (o_ExecStrategy opts = REMOTE) || bool_decide (o_ExecStrategy opts = REMOTE_LOCAL_FALLBACK)
  then ∃ e', (process false opts s).1 = Fail e' ∧ errors_Is e' EIPTimeout = true
  else ∃ io, (process false opts s).1 = Ok io ∧ UsedShallowMode io = true.
Proof.
  cbv zeta. intros Hget Hl Her Hn Hsh Hp Ht Hg Hd Ha Hscan He.
  unfold ProcessInputs. rewrite Hl.
  change (choose ClangCppLabels) with (Some (run_embedding (cpp_Preprocessor w fmc sv now darwin T) ip_caches with_ip_caches)).
  unfold run_embedding. set (o := processor_options opts) in *. rewrite Hget.
  destruct (Compute_to_last Get (ClangParser.cpp_ParseFlags w darwin T) (cpp_ComputeSpec w sv now) o (new_base s)
    (ip_caches s) f eq_refl Her Hsh Hp) as (b & a & i & Hc & Hf & Ho & Hnfc & Herr & E).
  unfold cpp_Preprocessor. rewrite E. clear E.
  assert (ShallowFallback o = negb (bool_decide (o_ExecStrategy opts = REMOTE) ||
    bool_decide (o_ExecStrategy opts = REMOTE_LOCAL_FALLBACK))) as ->.
  { subst o. simpl. rewrite Hl. by destruct (o_ExecStrategy opts). }
  unfold cpp_ComputeSpec. erewrite or_fallback_Fail; [|by eapply compute_with_scan_fails].
  destruct (_ || _); cbn [negb]; [by eexists|].
  match goal with |- context [sanitized_spec (H := ?P) (?c, ?x)] =>
    pose proof (sanitized_spec_embedding Get (ParseFlags_with (ClangParser.cpp_ParseFlags w darwin T))
      (cpp_ComputeSpec w sv now) c x _ _ eq_refl) as Hs;
    change (sanitized_spec (H := embedding_Preprocessor w (Some Get) (ParseFlags_with (ClangParser.cpp_ParseFlags w darwin T))
      (cpp_ComputeSpec w sv now)) (c, x)) with (sanitized_spec (H := P) (c, x)) in Hs;
    destruct (sanitized_spec (H := P) (c, x)) as [r [b' x']]
  end.
  cbn in Hs. rewrite Hs; [|by rewrite Ho, Hnfc|done]. simpl. eexists. split; [reflexivity|]. simpl.
  by destruct (as_UsedShallowMode a).
Qed.

End properties.

End Dispatch.

(** ** Witnesses and examples *)

Import Dispatch.

Definition ip_empty : ip_state := {|
  ip_nfc := ∅; ip_fsc := ∅; ip_tfc := ∅;
  ip_caches := {| resourceDirs := ∅; winSDKCache := ∅; vcToolchainCache := ∅; DepsCache := None |};
  r8Cache := ∅; versionCache := ∅; arCache := ∅ |}.

Definition opts_example (st : Action.ExecutionStrategy) : ServerRun.ProcessInputsOptions := {|
  ServerRun.o_ExecutionID := "1"; ServerRun.o_Cmd := ["../tool"; "-c"; "../a.c"; "-o"; "a.o"];
  ServerRun.o_WorkingDir := "out"; ServerRun.o_ExecRoot := "/er"; ServerRun.o_Inputs := None;
  ServerRun.o_Labels := ToMap ClangCppLabels; ServerRun.o_ToolchainInputs := [];
  ServerRun.o_WindowsCross := false; ServerRun.o_ExecStrategy := st; ServerRun.o_CmdEnvironment := [] |}.

Definition process_example (scan : res (list string * bool)) (st : Action.ExecutionStrategy)
    : res ServerRun.CommandIO * ip_state :=
  ProcessInputs fs_ip (Some Get_ip) (services_example scan) 0 false T_example false false None
    (λ _ t, Ok t) (λ _ _, Ok false) (λ _, ([], None)) 9 false (opts_example st) ip_empty.

Example process_inputs :
  (λ io, (Inputs (default empty_InputSpec (ServerRun.io_InputSpec io)), ServerRun.io_OutputFiles io,
          ServerRun.UsedShallowMode io)) <$> (process_example (Ok (["/er/lib/l.so"], false)) Action.REMOTE).1
  = Ok (["a.c"; "tool"; "lib/l.so"], ["out/a.o"], false).
Proof. vm_compute. reflexivity. Qed.

Lemma shallow_only_when_asked_witness :
  ∃ io s', process_example (Ok (["/er/lib/l.so"], false)) Action.REMOTE = (Ok io, s') ∧
    is_Some (ServerRun.io_InputSpec io) ∧ ServerRun.UsedShallowMode io = false.
Proof.
  destruct (process_example (Ok (["/er/lib/l.so"], false)) Action.REMOTE) as [r s'] eqn:E.
  assert (is_ok r = true) as Hr by (change r with ((r, s').1); rewrite <- E; vm_compute; reflexivity).
  destruct r as [io|e|]; [|discriminate Hr|discriminate Hr].
  destruct (shallow_only_when_asked _ _ _ _ _ _ _ _ _ _ _ _ _ _ _ _ _ _ E) as [H1 H2].
  exists io, s'. split; [reflexivity|]. split; [exact H1|]. exact (H2 eq_refl).
Defined.

Lemma scan_timeout_witness :
  (∃ e, (process_example (Fail EDeadlineExceeded) Action.REMOTE).1 = Fail e ∧ errors_Is e EIPTimeout = true) ∧
  (∃ io, (process_example (Fail EDeadlineExceeded) Action.LOCAL).1 = Ok io ∧ ServerRun.UsedShallowMode io = true).
Proof.
  destruct (ClangParser.cpp_ParseFlags fs_ip false T_example ["../tool"; "-c"; "../a.c"; "-o"; "a.o"] "out" "/er")
    as [f|e|] eqn:E; [|exfalso; vm_compute in E; discriminate E..].
  assert (TargetFilePaths f = ["../a.c"]) as Ht by (vm_compute in E; injection E as <-; reflexivity).
  assert (coherent fs_ip "/er" (Some ∅)) as Hc by (intros m p n [= <-] H; by apply lookup_empty_Some in H).
  split.
  - apply (scan_timeout fs_ip (Some Get_ip) (services_example (Fail EDeadlineExceeded)) 0 false T_example false false
      None (λ _ t, Ok t) (λ _ _, Ok false) (λ _, ([], None)) 9 Get_ip (opts_example Action.REMOTE) ip_empty f "../a.c" []
      EDeadlineExceeded); try reflexivity; [exact Hc|exact E|exact Ht].
  - apply (scan_timeout fs_ip (Some Get_ip) (services_example (Fail EDeadlineExceeded)) 0 false T_example false false
      None (λ _ t, Ok t) (λ _ _, Ok false) (λ _, ([], None)) 9 Get_ip (opts_example Action.LOCAL) ip_empty f "../a.c" []
      EDeadlineExceeded); try reflexivity; [exact Hc|exact E|exact Ht].
Defined.
