(* ===== verification/Logger.v ===== *)
(** * The action log: [internal/pkg/logger/logger.go]

    Handlers send events through a channel to one goroutine that applies them in
    the order in which they arrive.  A log record is a pointer: its identity is
    a number here, and whether it is open is part of the state.  The counters
    that the status of the proxy shows are functions of the events applied. *)
From S2P Require Import Prelude GoStrings GoFloat Command Action.
Import Action.

Module Logger.

Inductive CompletionStatus :=
  | STATUS_UNKNOWN
  | STATUS_CACHE_HIT
  | STATUS_REMOTE_EXECUTION
  | STATUS_LOCAL_FALLBACK
  | STATUS_LOCAL_EXECUTION
  | STATUS_RACING_LOCAL
  | STATUS_RACING_REMOTE
  | STATUS_REMOTE_FAILURE
  | STATUS_LOCAL_FAILURE
  | STATUS_NON_ZERO_EXIT
  | STATUS_TIMEOUT
  | STATUS_INTERRUPTED.

#[export] Instance CompletionStatus_eq_dec : EqDecision CompletionStatus.
Proof. solve_decision. Defined.

(** The numbers of the protocol. *)
Definition CompletionStatus_value (s : CompletionStatus) : nat :=
  match s with
  | STATUS_UNKNOWN => 0 | STATUS_CACHE_HIT => 1 | STATUS_REMOTE_EXECUTION => 2
  | STATUS_LOCAL_FALLBACK => 3 | STATUS_LOCAL_EXECUTION => 4 | STATUS_RACING_LOCAL => 5
  | STATUS_RACING_REMOTE => 6 | STATUS_REMOTE_FAILURE => 7 | STATUS_LOCAL_FAILURE => 8
  | STATUS_NON_ZERO_EXIT => 9 | STATUS_TIMEOUT => 10 | STATUS_INTERRUPTED => 11
  end.

Definition all_statuses : list CompletionStatus :=
  [STATUS_UNKNOWN; STATUS_CACHE_HIT; STATUS_REMOTE_EXECUTION; STATUS_LOCAL_FALLBACK;
   STATUS_LOCAL_EXECUTION; STATUS_RACING_LOCAL; STATUS_RACING_REMOTE; STATUS_REMOTE_FAILURE;
   STATUS_LOCAL_FAILURE; STATUS_NON_ZERO_EXIT; STATUS_TIMEOUT; STATUS_INTERRUPTED].

#[export] Instance CompletionStatus_countable : Countable CompletionStatus.
Proof.
  refine (inj_countable CompletionStatus_value (λ n, all_statuses !! n) _).
  by intros [].
Defined.

(** [getCompletionStatus].  [executedLocally] is that of the record's local
    metadata. *)
Definition getCompletionStatus (status : ResultStatus) (executedLocally : bool)
    (execStrategy : ExecutionStrategy) : CompletionStatus :=
  match status with
  | NonZeroExitResultStatus => STATUS_NON_ZERO_EXIT
  | CacheHitResultStatus => STATUS_CACHE_HIT
  | TimeoutResultStatus => STATUS_TIMEOUT
  | InterruptedResultStatus => STATUS_INTERRUPTED
  | RemoteErrorResultStatus => STATUS_REMOTE_FAILURE
  | LocalErrorResultStatus => STATUS_LOCAL_FAILURE
  | SuccessResultStatus =>
      match execStrategy with
      | LOCAL => STATUS_LOCAL_EXECUTION
      | REMOTE => if executedLocally then STATUS_LOCAL_EXECUTION else STATUS_REMOTE_EXECUTION
      | REMOTE_LOCAL_FALLBACK => if executedLocally then STATUS_LOCAL_FALLBACK else STATUS_REMOTE_EXECUTION
      | RACING => if executedLocally then STATUS_RACING_LOCAL else STATUS_RACING_REMOTE
      | UNSPECIFIED => STATUS_UNKNOWN
      end
  end.

(** ** The state *)

Record Logger := mkLogger {
  runningActions : Z;
  peakRunningActions : Z;
  completedActions : gmap CompletionStatus Z;
  qps : Z;
  qpsStartTime : Z;
  qpsLastDuration : Z;
  qpsCount : Z;
  l_open : bool;
  open_records : gset nat;
  aggregated : list nat
}.

(** A new logger; [aggregated] are the records given to the aggregator. *)
Definition newLogger : Logger := mkLogger 0 0 ∅ 0 0 0 0 true ∅ [].

Inductive logEvent :=
  | startActionEvent (lr : nat)
  | endActionEvent (lr : nat) (status : CompletionStatus).

Definition max (a b : Z) : Z := if (b <? a)%Z then a else b.

(** [time.Duration.Seconds] *)
Definition Seconds (d : Z) : float64 :=
  SFadd 53 1024 (float64_of_int (Z.quot d 1000000000))
    (fdiv (float64_of_int (Z.rem d 1000000000)) (float64_of_int 1000000000)).

(** [startActionEvent.apply] at the time [now] *)
Definition apply_start (now : Z) (lr : nat) (l : Logger) : Logger :=
  if bool_decide (lr ∈ open_records l) then l
  else
    let running := int32 (runningActions l + 1) in
    mkLogger running (max running (peakRunningActions l)) (completedActions l) (qps l)
      (if bool_decide (runningActions l = 0%Z) then now else qpsStartTime l)
      (qpsLastDuration l) (qpsCount l) (l_open l) ({[lr]} ∪ open_records l) (aggregated l).

(** [endActionEvent.apply].  The exporters and the log file are left out. *)
Definition apply_end (now : Z) (lr : nat) (status : CompletionStatus) (l : Logger) : Logger :=
  if bool_decide (lr ∈ open_records l) then
    let running := int32 (runningActions l - 1) in
    let count := int32 (qpsCount l + 1) in
    let totalDuration := int64 (now - qpsStartTime l + qpsLastDuration l) in
    let seconds := int32 (int64_of_float (Seconds totalDuration)) in
    mkLogger running (peakRunningActions l)
      (<[status := int32 (default 0%Z (completedActions l !! status) + 1)]> (completedActions l))
      (if (0 <? seconds)%Z then Z.quot count seconds else qps l)
      (if bool_decide (running = 0%Z) then now else qpsStartTime l)
      (if bool_decide (running = 0%Z) then totalDuration else qpsLastDuration l)
      count (l_open l) (open_records l ∖ {[lr]}) (aggregated l ++ [lr])
  else l.

Definition apply (now : Z) (e : logEvent) (l : Logger) : Logger :=
  match e with
  | startActionEvent lr => apply_start now lr l
  | endActionEvent lr status => apply_end now lr status l
  end.

(** [processEvents]: the events in the order of the channel, each with the time
    at which it is applied. *)
Definition processEvents (l : Logger) (events : list (Z * logEvent)) : Logger :=
  foldl (λ l te, apply te.1 te.2 l) l events.

Record StatusSummary := {
  CompletedActionStats : gmap CompletionStatus Z;
  RunningActions : Z;
  Qps : Z
}.

(** [summarizeActionsEvent.apply] *)
Definition summarizeActions (l : Logger) : StatusSummary :=
  {| CompletedActionStats := completedActions l; RunningActions := runningActions l; Qps := qps l |}.

Definition GetStatusSummary (l : option Logger) : res StatusSummary :=
  match l with
  | None => Fail (EMsg "not running")
  | Some l => if l_open l then Ok (summarizeActions l) else Fail (EMsg "not running")
  end.

(** [LogActionStart] of the record [lr] and [Log] of a record: nothing is sent
    once the logger is closed. *)
Definition LogActionStart (now : Z) (lr : nat) (l : Logger) : Logger :=
  if l_open l then apply_start now lr l else l.

Definition Log (now : Z) (lr : nat) (status : CompletionStatus) (l : Logger) : Logger :=
  if l_open l then apply_end now lr status l else l.

(** The part of [CloseAndAggregate] that closes the channel. *)
Definition close_log (l : Logger) : Logger :=
  mkLogger (runningActions l) (peakRunningActions l) (completedActions l) (qps l) (qpsStartTime l)
    (qpsLastDuration l) (qpsCount l) false (open_records l) (aggregated l).

(** ** Log files *)

Inductive Format := TextFormat | ReducedTextFormat.

Definition ParseFormat (fs : string) : res Format :=
  if (fs =? "text")%string then Ok TextFormat
  else if (fs =? "reducedtext")%string then Ok ReducedTextFormat
  else Fail (EMsg "unknown format").

Definition Format_String (f : Format) : string :=
  match f with TextFormat => "text" | ReducedTextFormat => "reducedtext" end.

Definition logFileSuffix (f : Format) : string :=
  match f with TextFormat => "rpl" | ReducedTextFormat => "rrpl" end.

(** [strings.Index(s, sub)] *)
Fixpoint Index (s sub : string) : option nat :=
  if HasPrefix s sub then Some 0
  else match s with "" => None | String _ s' => S <$> Index s' sub end.

Definition ParseFilepath (formatfile : string) : res (Format * string) :=
  match Index formatfile "://" with
  | None => Fail (EMsg "unable to parse file format")
  | Some i =>
      let? format := ParseFormat (str_take i formatfile) in
      Ok (format, str_drop (i + 3) formatfile)
  end.

(** ** The counters *)

Definition started_by (te : Z * logEvent) : option nat :=
  match te.2 with startActionEvent lr => Some lr | endActionEvent _ _ => None end.

Definition completed_at (l : Logger) (s : CompletionStatus) : Z := default 0%Z (completedActions l !! s).

Definition completed_total (l : Logger) : Z := foldr (λ s acc, (completed_at l s + acc)%Z) 0%Z all_statuses.

(** [started] are the records started so far, [n] bounds the number of events. *)
Record counted (n : nat) (started : gset nat) (l : Logger) : Prop := {
  ct_running : runningActions l = Z.of_nat (size (open_records l));
  ct_split : open_records l ∪ list_to_set (aggregated l) = started;
  ct_disjoint : ∀ r, r ∈ open_records l → r ∉ aggregated l;
  ct_NoDup : NoDup (aggregated l);
  ct_total : completed_total l = Z.of_nat (length (aggregated l));
  ct_nonneg : ∀ s, (0 ≤ completed_at l s)%Z;
  ct_bound : size (open_records l) + length (aggregated l) ≤ n
}.

Lemma total_ge l s : (∀ s, (0 ≤ completed_at l s)%Z) → (completed_at l s ≤ completed_total l)%Z.
Proof.
  intros H. unfold completed_total. assert (s ∈ all_statuses) as Hs by (destruct s; set_solver).
  induction all_statuses as [|s' ss IH]; [set_solver|]. simpl.
  assert (∀ ss, (0 ≤ foldr (λ s acc, (completed_at l s + acc)%Z) 0%Z ss)%Z) as Hn.
  { intros l'. induction l' as [|x l' IH']; simpl; [done|]. specialize (H x). lia. }
  apply elem_of_cons in Hs as [->|Hs]; [specialize (Hn ss); lia|]. specialize (IH Hs). specialize (H s'). lia.
Qed.

Lemma total_update l l' s :
  completed_at l' s = (completed_at l s + 1)%Z → (∀ s', s' ≠ s → completed_at l' s' = completed_at l s') →
  completed_total l' = (completed_total l + 1)%Z.
Proof.
  intros Hs Hne. unfold completed_total, all_statuses. simpl.
  destruct s; rewrite Hs; rewrite !Hne by done; lia.
Qed.

Lemma counted_start n started l now lr :
  (Z.of_nat (n + 1) < 2 ^ 31)%Z → lr ∉ started →
  counted n started l → counted (n + 1) ({[lr]} ∪ started) (apply_start now lr l).
Proof.
  intros Hn Hlr [H1 H2 H3 H4 H5 H6 H7].
  assert (lr ∉ open_records l ∧ lr ∉ aggregated l) as [Ho Ha] by set_solver.
  unfold apply_start. rewrite bool_decide_false by done.
  assert (size ({[lr]} ∪ open_records l) = S (size (open_records l))) as Es
    by (rewrite size_union by set_solver; by rewrite size_singleton).
  split; simpl; try done.
  - rewrite Es, H1, int32_small; lia.
  - set_solver.
  - set_solver.
  - rewrite Es. lia.
Qed.

Lemma counted_end n started l now lr status :
  (Z.of_nat n < 2 ^ 31)%Z → counted n started l → counted n started (apply_end now lr status l).
Proof.
  intros Hn [H1 H2 H3 H4 H5 H6 H7]. unfold apply_end. case_bool_decide as Ho; [|by split].
  assert (size (open_records l) = S (size (open_records l ∖ {[lr]}))) as Es.
  { rewrite (union_difference_singleton_L lr (open_records l)) at 1 by done.
    rewrite size_union by set_solver. by rewrite size_singleton. }
  pose proof (total_ge l status H6) as Hge.
  set (l' := mkLogger _ _ _ _ _ _ _ _ _ _).
  assert (completed_at l' status = (completed_at l status + 1)%Z) as Ec.
  { unfold completed_at, l'. simpl. rewrite lookup_insert_eq. simpl. fold (completed_at l status).
    specialize (H6 status). rewrite int32_small; lia. }
  assert (∀ s, s ≠ status → completed_at l' s = completed_at l s) as Ene
    by (intros s Hs; unfold completed_at, l'; simpl; by rewrite lookup_insert_ne).
  split.
  - simpl. rewrite H1, int32_small; lia.
  - simpl. rewrite list_to_set_app_L. simpl. rewrite <- H2. apply set_eq. intros r.
    destruct (decide (r = lr)) as [->|]; set_solver.
  - simpl. set_solver.
  - simpl. apply NoDup_app. split; [done|]. split; [set_solver|apply NoDup_singleton].
  - rewrite (total_update l l' status Ec Ene), H5. simpl. rewrite length_app. simpl. lia.
  - intros s. destruct (decide (s = status)) as [->|Hs]; [rewrite Ec|rewrite Ene by done]; [specialize (H6 status)|specialize (H6 s)]; lia.
  - simpl. rewrite length_app. simpl. lia.
Qed.

Lemma counted_events evs n started l :
  (Z.of_nat (n + length evs) < 2 ^ 31)%Z → NoDup (omap started_by evs) →
  (∀ r, r ∈ omap started_by evs → r ∉ started) → counted n started l →
  counted (n + length evs) (started ∪ list_to_set (omap started_by evs)) (processEvents l evs).
Proof.
  unfold processEvents. revert n started l. induction evs as [|[now e] evs IH]; intros n started l Hn Hd Hf Hc.
  { simpl. by rewrite Nat.add_0_r, union_empty_r_L. }
  cbn [foldl length] in *. replace (n + S (length evs)) with ((n + 1) + length evs) in * by lia.
  destruct e as [lr|lr status]; cbn [apply fst snd omap list_omap started_by] in *.
  - apply NoDup_cons in Hd as [Hlr Hd].
    assert (counted (n + 1) ({[lr]} ∪ started) (apply_start now lr l)) as Hc'
      by (apply counted_start; [lia|apply Hf; left|done]).
    assert (∀ r, r ∈ omap started_by evs → r ∉ ({[lr]} ∪ started : gset nat)) as Hf'
      by (intros r Hr; specialize (Hf r); set_solver).
    specialize (IH _ _ _ Hn Hd Hf' Hc').
    simpl. by rewrite (union_comm_L started), <- union_assoc_L, (union_comm_L _ started), union_assoc_L.
  - apply IH; [done..|]. assert (counted n started (apply_end now lr status l)) as [] by (apply counted_end; [lia|done]).
    split; try done. lia.
Qed.

(** The status of the proxy.  When each record is started at most once, the
    number of running actions is that of the records started and not ended, the
    records given to the aggregator are those that ended, each once, whatever
    repeated or early ends there are, and the completed actions add up to
    them. *)
Theorem log_accounting evs :
  (Z.of_nat (length evs) < 2 ^ 31)%Z → NoDup (omap started_by evs) →
  let l := processEvents newLogger evs in
  runningActions l = Z.of_nat (size (open_records l)) ∧
  completed_total l = Z.of_nat (length (aggregated l)) ∧ NoDup (aggregated l) ∧
  (∀ r, r ∈ omap started_by evs ↔ r ∈ open_records l ∨ r ∈ aggregated l) ∧
  (∀ r, r ∈ open_records l → r ∉ aggregated l).
Proof.
  intros Hn Hd l.
  assert (counted 0 ∅ newLogger) as H0
    by (split; simpl; try done; try set_solver; try constructor).
  destruct (counted_events evs 0 ∅ newLogger Hn Hd ltac:(set_solver) H0) as [H1 H2 H3 H4 H5 H6 H7].
  fold l in H1, H2, H3, H4, H5. split_and!; try done.
  intros r. rewrite union_empty_l_L in H2.
  assert (r ∈ open_records l ∪ list_to_set (aggregated l) ↔ r ∈ (list_to_set (omap started_by evs) : gset nat)) as E
    by (by rewrite H2). set_solver.
Qed.

Definition events_example : list (Z * logEvent) :=
  [(10, startActionEvent 1); (20, startActionEvent 2); (30, endActionEvent 1 STATUS_CACHE_HIT);
   (40, endActionEvent 1 STATUS_CACHE_HIT); (50, endActionEvent 9 STATUS_TIMEOUT)]%Z.

Lemma log_accounting_witness :
  runningActions (processEvents newLogger events_example) = 1%Z ∧ NoDup (aggregated (processEvents newLogger events_example)).
Proof.
  destruct (log_accounting events_example) as (H1 & _ & H3 & _); [reflexivity| |].
  - apply (bool_decide_eq_true_1 (NoDup _)). vm_compute. reflexivity.
  - split; [exact H1|exact H3].
Defined.

(** Parsing the format that a log path names gives back the format and the
    file. *)
Lemma ParseFilepath_print f path : ParseFilepath (Format_String f +:+ "://" +:+ path) = Ok (f, path).
Proof. by destruct f. Qed.

End Logger.
