(* ===== verification/LogFile.v ===== *)
(** * Log files and the information on the proxy: [internal/pkg/logger/logger.go]

    The times of the events of an action, the file that its record is written to
    and how it is read back, and what the log keeps on the proxy itself.  The
    counters of the log are in Logger.v. *)
From S2P Require Import Prelude GoStrings GoPath GoRegexp GoFloat GoFS Command Logger.
From Stdlib Require Import Ascii.
Import Filepath Regexp.

Module LogFile.

(** ** Event times *)

(** [cpb.TimeInterval]; a missing time is nil. *)
Record TimeInterval := { From : option Z; To : option Z }.

#[export] Instance TimeInterval_eq_dec : EqDecision TimeInterval.
Proof. solve_decision. Defined.

(** The local metadata of a record, if it has any, and their event times, nil
    until the first is written. *)
Definition metadata : Type := option (option (gmap string TimeInterval)).

Definition GetEventTimes (lr : metadata) : option (gmap string TimeInterval) := mjoin lr.

Definition RecordEventTime (now : Z) (event : string) (from : Z) (lr : metadata) : metadata :=
  Some (Some (<[event := {| From := Some from; To := Some now |}]> (default ∅ (GetEventTimes lr)))).

(** A write to a nil map panics; none is made when there is nothing to copy. *)
Definition CopyEventTimesFrom (other lr : metadata) : res metadata :=
  let times := default ∅ (GetEventTimes other) in
  if bool_decide (times = ∅) then Ok lr
  else match lr with
       | Some (Some m) => Ok (Some (Some (times ∪ m)))
       | _ => Panic
       end.

Definition end_time (now : Z) (t : TimeInterval) : TimeInterval :=
  match To t with None => {| From := From t; To := Some now |} | Some _ => t end.

Definition EndAllEventTimes (now : Z) (lr : metadata) : metadata :=
  match lr with Some (Some m) => Some (Some (end_time now <$> m)) | _ => lr end.

(** ** The proxy *)

Inductive Metric := Int64Value (z : Z) | DoubleValue (x : float64) | BoolValue (b : bool).

Record ProxyInfo := {
  EventTimes : gmap string TimeInterval;
  Metrics : gmap string Metric;
  Flags : gmap string string;
  remoteDisabled : bool
}.

Definition newProxyInfo : ProxyInfo := {| EventTimes := ∅; Metrics := ∅; Flags := ∅; remoteDisabled := false |}.

(** The methods do nothing on a nil logger. *)
Definition on_logger (f : ProxyInfo → ProxyInfo) (l : option ProxyInfo) : option ProxyInfo := f <$> l.

Definition set_Metric (key : string) (m : Metric) (i : ProxyInfo) : ProxyInfo :=
  {| EventTimes := EventTimes i; Metrics := <[key := m]> (Metrics i); Flags := Flags i; remoteDisabled := remoteDisabled i |}.

Definition AddEventTimeToProxyInfo (key : string) (from to : Z) : option ProxyInfo → option ProxyInfo :=
  on_logger (λ i, {| EventTimes := <[key := {| From := Some from; To := Some to |}]> (EventTimes i);
                     Metrics := Metrics i; Flags := Flags i; remoteDisabled := remoteDisabled i |}).
Definition AddEventTimesToProxyInfo (m : gmap string TimeInterval) : option ProxyInfo → option ProxyInfo :=
  on_logger (λ i, {| EventTimes := m ∪ EventTimes i; Metrics := Metrics i; Flags := Flags i; remoteDisabled := remoteDisabled i |}).
Definition AddMetricIntToProxyInfo (key : string) (value : Z) : option ProxyInfo → option ProxyInfo :=
  on_logger (set_Metric key (Int64Value value)).
Definition AddMetricDoubleToProxyInfo (key : string) (value : float64) : option ProxyInfo → option ProxyInfo :=
  on_logger (set_Metric key (DoubleValue value)).
Definition AddMetricBoolToProxyInfo (key : string) (value : bool) : option ProxyInfo → option ProxyInfo :=
  on_logger (set_Metric key (BoolValue value)).

Definition IncrementMetricIntToProxyInfo (key : string) (delta : Z) : option ProxyInfo → option ProxyInfo :=
  on_logger (λ i, match Metrics i !! key with
    | Some (Int64Value v) => set_Metric key (Int64Value (int64 (v + delta))) i
    | Some _ => i
    | None => set_Metric key (Int64Value delta) i
    end).

Definition AddFlagStringToProxyInfo (key value : string) : option ProxyInfo → option ProxyInfo :=
  on_logger (λ i, {| EventTimes := EventTimes i; Metrics := Metrics i; Flags := <[key := value]> (Flags i);
    remoteDisabled := if (key =? "remote_disabled")%string
                      then match ParseBool value with Ok v => v | _ => remoteDisabled i end
                      else remoteDisabled i |}).

(** The flags in the order in which they are visited. *)
Definition AddFlags (flagSet : list (string * string)) (l : option ProxyInfo) : option ProxyInfo :=
  foldl (λ l f, AddFlagStringToProxyInfo f.1 f.2 l) l flagSet.

(** ** Samples of the use of resources *)

Definition peakNumActions : string := "PEAK_NUM_ACTIONS".
Definition unixTime : string := "UNIX_TIME".
Definition peakNumBQWorker : string := "PEAK_NUM_BQ_WORKER".

Record usage := { resourceUsage : gmap string (list Z); peakRunningActions : Z }.

(** A sample at the time [now] in seconds; [peakWorkers] with an uploader.  The
    peak starts again from zero.  Nil maps are empty ones here: a new one is made
    for each. *)
Definition collectResourceUsageSamples (now : Z) (peakWorkers : option Z) (samples : gmap string Z) (u : usage) :
    gmap string Z * usage :=
  let samples := <[peakNumActions := peakRunningActions u]> (<[unixTime := now]> samples) in
  let samples := match peakWorkers with Some n => <[peakNumBQWorker := n]> samples | None => samples end in
  (samples,
   {| resourceUsage :=
        merge (λ s v, match v with Some v => Some (default [] s ++ [v]) | None => s end)
          (resourceUsage u) (delete unixTime samples);
      peakRunningActions := 0 |}).

(** ** The file of the records *)

Definition textDelimiter : string := String "010" (String "010" (String "010" "")).

(** [strings.Split] with a separator that is not empty. *)
Fixpoint split_str (fuel : nat) (s sep : string) : list string :=
  match fuel with
  | O => [s]
  | S fuel =>
      match Logger.Logger.Index s sep with
      | None => [s]
      | Some i => str_take i s :: split_str fuel (str_drop (i + String.length sep) s) sep
      end
  end.
Definition SplitStr (s sep : string) : list string := split_str (S (String.length s)) s sep.

(** A record is its command, whether its result is a cache hit, and the rest;
    the text form of the messages is that of the protocol buffers library. *)
Record LogRecord (R : Type) := mkLogRecord { rec_Command : option Command; rec_CacheHit : bool; rec_Rest : R }.
#[global] Arguments mkLogRecord {R}.
#[global] Arguments rec_Command {R}.
#[global] Arguments rec_CacheHit {R}.
#[global] Arguments rec_Rest {R}.

Definition with_Command {R} (r : LogRecord R) (c : option Command) : LogRecord R :=
  mkLogRecord c (rec_CacheHit r) (rec_Rest r).

Definition truncate_input (vi : VirtualInput) : VirtualInput :=
  if (1024 <? String.length (vi_Contents vi))%nat then {|
    vi_Path := vi_Path vi; vi_Contents := str_take 1024 (vi_Contents vi); vi_IsEmptyDirectory := vi_IsEmptyDirectory vi;
    vi_Digest := vi_Digest vi; vi_Mtime := vi_Mtime vi; vi_FileMode := vi_FileMode vi |}
  else vi.

Definition truncate_inputs {R} (r : LogRecord R) : LogRecord R :=
  with_Command r ((λ c, with_InputSpec c ((λ sp, {|
    Inputs := Inputs sp; VirtualInputs := truncate_input <$> VirtualInputs sp; InputExclusions := InputExclusions sp;
    EnvironmentVariables := EnvironmentVariables sp |}) <$> cmd_InputSpec c)) <$> rec_Command r).

Definition without_inputs {R} (r : LogRecord R) : LogRecord R :=
  with_Command r ((λ c, with_Args (with_InputSpec c None) []) <$> rec_Command r).

(** What is written of a record. *)
Definition stored {R} (format : Logger.Logger.Format) (r : LogRecord R) : LogRecord R :=
  truncate_inputs (match format with Logger.Logger.ReducedTextFormat => without_inputs r | _ => r end).

Definition toBigQueryRecords {R} (r : LogRecord R) : LogRecord R :=
  truncate_inputs (if rec_CacheHit r then without_inputs r else r).

Section files.

Context {R : Type}.
Variables (Marshal : LogRecord R → res string) (Unmarshal : string → res (LogRecord R)).

Definition toBytes (format : Logger.Logger.Format) (r : LogRecord R) : res string :=
  let? textb := Marshal (stored format r) in Ok (textb +:+ textDelimiter).

(** The writes of the end events, in order; a record that cannot be written is
    left out. *)
Definition write_record (format : Logger.Logger.Format) (file : string) (r : LogRecord R) : string :=
  match toBytes format r with Ok blob => file +:+ blob | _ => file end.
Definition write_records (format : Logger.Logger.Format) (rs : list (LogRecord R)) : string :=
  foldl (write_record format) "" rs.

Fixpoint unmarshal_all (l : list string) : res (list (LogRecord R)) :=
  match l with
  | [] => Ok []
  | s :: l => let? r := Unmarshal s in let? rs := unmarshal_all l in Ok (r :: rs)
  end.

Definition parse_records (data : string) : res (list (LogRecord R)) :=
  unmarshal_all (removelast (SplitStr data textDelimiter)).

Definition ParseFromFile (w : fs) (filepath : string) : res (list (LogRecord R)) :=
  let? data := OS.ReadFile w filepath in parse_records data.

Definition ParseFromFormatFile (w : fs) (formatfile : string) : res (list (LogRecord R)) :=
  let? fp := Logger.Logger.ParseFilepath formatfile in ParseFromFile w fp.2.

(** *** Directories of logs *)

(** The entries of a directory, in the order of their names. *)
Definition ReadDir (w : fs) (dir : string) : res (list string) :=
  if OS.is_dir w dir
  then Ok (sort_Strings (Base <$> filter (λ k, Dir k = dir ∧ k ≠ dir) (elements (dom w))))
  else Fail (EMsg "error reading the directory").

Definition literal {A} (l s : string) (k : string → option A) : option A :=
  if HasPrefix s l then k (str_drop (String.length l) s) else None.

(** [regexp.MatchString] of [reproxy.*suffix]. *)
Definition log_name (suffix name : string) : bool :=
  bool_decide (is_Some (search (λ s, literal "reproxy" s (λ t, greedy re_dot t (λ u, literal suffix u (λ _, Some tt)))) name)).

Variable UnmarshalInfo : string → res ProxyInfo.

Record logs := { lg_recs : list (LogRecord R); lg_infos : list ProxyInfo; lg_found : bool }.

Definition parse_child (w : fs) (format : Logger.Logger.Format) (dir : string) (acc : logs) (name : string) : res logs :=
  if log_name (Logger.Logger.logFileSuffix format) name then
    let? rs := ParseFromFile w (Join [dir; name]) in
    Ok {| lg_recs := lg_recs acc ++ rs; lg_infos := lg_infos acc; lg_found := true |}
  else if log_name "rpi" name then
    let? data := OS.ReadFile w (Join [dir; name]) in
    let? i := UnmarshalInfo data in
    Ok {| lg_recs := lg_recs acc; lg_infos := lg_infos acc ++ [i]; lg_found := lg_found acc |}
  else Ok acc.

Fixpoint parse_children (w : fs) (format : Logger.Logger.Format) (dir : string) (acc : logs) (names : list string) : res logs :=
  match names with
  | [] => Ok acc
  | name :: names => let? acc := parse_child w format dir acc name in parse_children w format dir acc names
  end.

Fixpoint parse_dirs (w : fs) (format : Logger.Logger.Format) (acc : logs) (logDirs : list string) : res logs :=
  match logDirs with
  | [] => Ok acc
  | dir :: logDirs =>
      let dir := if (dir =? "")%string then "." else dir in
      let? children := ReadDir w dir in
      let? acc := parse_children w format dir acc children in
      parse_dirs w format acc logDirs
  end.

Definition ParseFromLogDirs (w : fs) (format : Logger.Logger.Format) (logDirs : list string) :
    res (list (LogRecord R) * list ProxyInfo) :=
  let? l := parse_dirs w format {| lg_recs := []; lg_infos := []; lg_found := false |} logDirs in
  if lg_found l then Ok (lg_recs l, lg_infos l) else Fail (EMsg "found no proxy log files").

End files.

(** ** Event times *)

(** After the end of an action every interval has both its ends, those that had
    them are as they were, and ending again changes nothing. *)
Lemma EndAllEventTimes_spec now lr :
  (∀ k t, default ∅ (GetEventTimes (EndAllEventTimes now lr)) !! k = Some t → To t ≠ None) ∧
  (∀ k t, default ∅ (GetEventTimes lr) !! k = Some t → To t ≠ None →
    default ∅ (GetEventTimes (EndAllEventTimes now lr)) !! k = Some t) ∧
  ∀ now', EndAllEventTimes now' (EndAllEventTimes now lr) = EndAllEventTimes now lr.
Proof.
  assert (∀ t, To (end_time now t) ≠ None) as Hend by (intros [f [t|]]; done).
  destruct lr as [[m|]|]; simpl; [|split_and!; done..]. split_and!.
  - intros k t. rewrite lookup_fmap. intros (t0 & _ & ->)%fmap_Some. apply Hend.
  - intros k t Hk Ht. rewrite lookup_fmap, Hk. simpl. f_equal. unfold end_time. by destruct (To t).
  - intros now'. rewrite <- map_fmap_compose. do 2 f_equal. apply map_fmap_ext. intros k t _. unfold compose, end_time at 1.
    specialize (Hend t). by destruct (To (end_time now t)).
Qed.

(** Copying after an event was recorded cannot panic. *)
Lemma CopyEventTimesFrom_recorded now event from other lr :
  CopyEventTimesFrom other (RecordEventTime now event from lr) =
  Ok (Some (Some (default ∅ (GetEventTimes other) ∪
                  <[event := {| From := Some from; To := Some now |}]> (default ∅ (GetEventTimes lr))))).
Proof.
  unfold CopyEventTimesFrom, RecordEventTime. case_bool_decide as E; [|done]. by rewrite E, (left_id_L ∅ (∪)).
Qed.

(** A record without metadata cannot take the times of another. *)
Example copy_panics :
  CopyEventTimesFrom (RecordEventTime 2 "a" 1 None) None = Panic.
Proof. vm_compute. reflexivity. Qed.

(** ** Counters of the proxy *)

(** A metric that is only incremented is the sum of its increments, as a 64-bit
    integer. *)
Lemma increments_sum key deltas d i :
  Metrics i !! key = None → (∀ x, x ∈ d :: deltas → int64 x = x) →
  (i ← foldl (λ l d, IncrementMetricIntToProxyInfo key d l) (Some i) (d :: deltas); Metrics i !! key) =
  Some (Int64Value (int64 (foldl Z.add d deltas))).
Proof.
  intros Hi Hd. cbn [foldl]. unfold IncrementMetricIntToProxyInfo at 2. unfold on_logger. cbn [fmap option_fmap option_map].
  rewrite Hi. set (i1 := set_Metric key (Int64Value d) i).
  assert (Metrics i1 !! key = Some (Int64Value (int64 d))) as H1.
  { simpl. rewrite lookup_insert_eq. by rewrite Hd by (by left). }
  clearbody i1. clear Hi i Hd. revert d i1 H1. induction deltas as [|x deltas IH]; intros d i1 H1; [exact H1|].
  cbn [foldl]. unfold IncrementMetricIntToProxyInfo at 2. unfold on_logger. cbn [fmap option_fmap option_map]. rewrite H1.
  apply IH. simpl. by rewrite lookup_insert_eq, int64_add.
Qed.

(** ** Reading a file back *)

Notation nl := (String "010" "").

(** Newlines are single and inside. *)
Fixpoint single_newlines (s : string) : Prop :=
  match s with
  | EmptyString => True
  | String a s' =>
      (a = "010"%char → match s' with String b _ => b ≠ "010"%char | EmptyString => False end) ∧ single_newlines s'
  end.

Definition starts_newline (s : string) : Prop :=
  match s with String a _ => a = "010"%char | EmptyString => False end.

Lemma Index_delimiter p rest :
  single_newlines p → Logger.Logger.Index (p +:+ textDelimiter +:+ rest) textDelimiter = Some (String.length p).
Proof.
  induction p as [|a p IH]; intros H; [done|]. destruct H as [Ha Hp]. rewrite str_app_cons.
  cbn [Logger.Logger.Index]. rewrite IH by done.
  assert (HasPrefix (String a (p +:+ textDelimiter +:+ rest)) textDelimiter = false) as ->; [|done].
  unfold textDelimiter at 2. cbn [HasPrefix]. destruct (Ascii.eqb_spec "010" a) as [<-|]; [|done].
  specialize (Ha eq_refl). destruct p as [|b p]; [done|]. rewrite str_app_cons. cbn [HasPrefix].
  by destruct (Ascii.eqb_spec "010" b).
Qed.

Lemma split_str_delimiter fuel p rest :
  single_newlines p →
  split_str (S fuel) (p +:+ textDelimiter +:+ rest) textDelimiter = p :: split_str fuel rest textDelimiter.
Proof.
  intros H. cbn [split_str]. rewrite Index_delimiter by done. rewrite str_take_app. f_equal.
  assert (str_drop (String.length p + String.length textDelimiter) (p +:+ textDelimiter +:+ rest) = rest) as ->; [|done].
  rewrite <- str_app_length, <- str_app_assoc. apply str_drop_app.
Qed.

Section read.

Context {R : Type}.
Variables (Marshal : LogRecord R → res string) (Unmarshal : string → res (LogRecord R)).

(** The text of a record: lines that end in a newline, none of them empty; the
    empty record has no text.  White space before and after it does not
    matter to the reader. *)
Definition readable (r : LogRecord R) : Prop :=
  (Marshal r = Ok "" ∧ Unmarshal "" = Ok r) ∨
  ∃ body, Marshal r = Ok (body +:+ nl) ∧ body ≠ "" ∧ single_newlines body ∧ ¬ starts_newline body ∧
    Unmarshal body = Ok r ∧ Unmarshal (nl +:+ body) = Ok r.

(** What is left before the next record: nothing or a newline. *)
Lemma split_records format rs c fuel :
  Forall readable (stored format <$> rs) → (c = "" ∨ c = nl) → length rs < fuel →
  ∃ ps c', split_str fuel (c +:+ write_records Marshal format rs) textDelimiter = ps ++ [c'] ∧
    Forall2 (λ p r, Unmarshal p = Ok r) ps (stored format <$> rs).
Proof.
  assert (∀ rs file, foldl (write_record Marshal format) file rs = file +:+ write_records Marshal format rs) as Hf.
  { intros l. unfold write_records. induction l as [|r l IH]; intros file; simpl; [by rewrite str_app_nil_r|].
    rewrite IH, (IH (write_record _ _ "" _)). unfold write_record. destruct (toBytes _ _ _); [by rewrite !str_app_assoc|done..]. }
  revert c fuel. induction rs as [|r rs IH]; intros c fuel Hr Hc Hlen.
  - exists [], c. split; [|by constructor]. simpl. rewrite str_app_nil_r. destruct fuel; [done|].
    by destruct Hc as [->| ->].
  - apply Forall_cons in Hr as [Hr Hrs]. destruct fuel as [|fuel]; [lia|]. simpl in Hlen.
    unfold write_records. cbn [foldl]. rewrite Hf. unfold write_record, toBytes.
    destruct Hr as [[Hm Hu]|(body & Hm & Hne & Hsn & Hst & Hu1 & Hu2)]; rewrite Hm; cbn [mbind res_bind].
    + destruct (IH c fuel Hrs Hc) as (ps & c' & E & HF); [lia|]. exists ("" :: ps), c'.
      split; [|constructor; [done|exact HF]]. rewrite <- app_comm_cons, <- E.
      destruct Hc as [->| ->].
      * apply (split_str_delimiter fuel ""). done.
      * change (nl +:+ ("" +:+ "" +:+ textDelimiter) +:+ ?x) with ("" +:+ textDelimiter +:+ nl +:+ x).
        by apply (split_str_delimiter fuel "").
    + destruct (IH nl fuel Hrs (or_intror eq_refl)) as (ps & c' & E & HF); [lia|]. exists ((c +:+ body) :: ps), c'.
      split; [|constructor; [by destruct Hc as [->| ->]|exact HF]]. rewrite <- app_comm_cons, <- E.
      assert (c +:+ ("" +:+ (body +:+ nl) +:+ textDelimiter) +:+ write_records Marshal format rs =
        (c +:+ body) +:+ textDelimiter +:+ nl +:+ write_records Marshal format rs) as ->.
      { change ("" +:+ ?x) with x. rewrite !str_app_assoc. done. }
      apply split_str_delimiter. destruct Hc as [->| ->]; [done|]. split; [|done]. intros _.
      destruct body as [|b body]; [done|]. intros ->. by apply Hst.
Qed.

Lemma write_records_length format rs :
  Forall readable (stored format <$> rs) → length rs ≤ String.length (write_records Marshal format rs).
Proof.
  unfold write_records. change (length rs) with (String.length "" + length rs). generalize "" as file.
  induction rs as [|r rs IH]; intros file H; simpl; [lia|]. apply Forall_cons in H as [Hr Hrs].
  etrans; [|by apply IH]. unfold write_record, toBytes.
  destruct Hr as [[-> _]|(body & -> & _)]; cbn [mbind res_bind]; rewrite !str_app_length; simpl; lia.
Qed.

Lemma unmarshal_all_Forall2 ps rs : Forall2 (λ p r, Unmarshal p = Ok r) ps rs → unmarshal_all Unmarshal ps = Ok rs.
Proof. induction 1 as [|p r ps rs E _ IH]; simpl; [done|]. by rewrite E, IH. Qed.

(** C23: what was written to a log is read back: the records of the actions that
    ended, each once and in the order in which they ended, without inputs and
    arguments in the reduced format, and with the contents of virtual inputs cut
    to 1024 bytes. *)
Theorem ParseFromFile_written w path format rs :
  Forall readable (stored format <$> rs) →
  OS.ReadFile w path = Ok (write_records Marshal format rs) →
  ParseFromFile Unmarshal w path = Ok (stored format <$> rs).
Proof.
  intros Hr Hw. unfold ParseFromFile. rewrite Hw. cbn [mbind res_bind]. unfold parse_records, SplitStr.
  destruct (split_records format rs "" (S (String.length (write_records Marshal format rs))) Hr (or_introl eq_refl))
    as (ps & c & E & HF); [pose proof (write_records_length format rs Hr); lia|].
  change ("" +:+ write_records Marshal format rs) with (write_records Marshal format rs) in E. rewrite E.
  rewrite removelast_last. by apply unmarshal_all_Forall2.
Qed.

End read.

(** ** On concrete files *)

Module Concrete.

(** Two records and their texts. *)
Definition r0 : LogRecord nat := mkLogRecord None false 0.
Definition r1 : LogRecord nat := mkLogRecord None true 1.
Definition Marshal (r : LogRecord nat) : res string :=
  match rec_Rest r with 0 => Ok "" | 1 => Ok ("status: 1" +:+ nl +:+ "digest: d" +:+ nl) | _ => Fail (EMsg "invalid UTF-8") end.
Definition Unmarshal (s : string) : res (LogRecord nat) :=
  if (s =? "")%string then Ok r0
  else if (s =? "status: 1" +:+ nl +:+ "digest: d")%string then Ok r1
  else if (s =? nl +:+ "status: 1" +:+ nl +:+ "digest: d")%string then Ok r1
  else Fail (EMsg "syntax error").

Definition written : string := write_records Marshal Logger.Logger.TextFormat [r1; r0; r1; mkLogRecord None false 2; r0].
Definition dir : fs := {[ "/l" := NDir; "/l/reproxy_1.rrpl" := NFile written 0 ]}.

(** A record that cannot be written is missing and the others are there. *)
Example written_read : ParseFromFile Unmarshal dir "/l/reproxy_1.rrpl" = Ok [r1; r0; r1; r0].
Proof. vm_compute. reflexivity. Qed.

(** The name of a reduced log matches the expression for full ones: logs of
    both formats are read for either. *)
Example reduced_read_as_text :
  ParseFromLogDirs Unmarshal (λ _, Fail ENotExist) dir Logger.Logger.TextFormat ["/l"] = Ok ([r1; r0; r1; r0], []).
Proof. vm_compute. reflexivity. Qed.

Example log_names :
  log_name "rpl" "reproxy_2024.rpl" = true ∧ log_name "rpl" "reproxy.INFO" = false ∧ log_name "rrpl" "reproxy_2024.rpl" = false ∧
  log_name "rpl" "my-reproxy.rpl.gz" = true.
Proof. split_and!; vm_compute; reflexivity. Qed.

(** A sample: the peak is noted and starts again, the time is not kept. *)
Example sample :
  let r := collectResourceUsageSamples 17 None {[ "CPU_pct" := 5%Z ]}
    {| resourceUsage := {[ "CPU_pct" := [4%Z] ]}; peakRunningActions := 9 |} in
  r.1 = {[ "CPU_pct" := 5%Z; "UNIX_TIME" := 17%Z; "PEAK_NUM_ACTIONS" := 9%Z ]} ∧
  resourceUsage r.2 = {[ "CPU_pct" := [4%Z; 5%Z]; "PEAK_NUM_ACTIONS" := [9%Z] ]} ∧ peakRunningActions r.2 = 0%Z.
Proof. split_and!; vm_compute; reflexivity. Qed.

Definition written_dir : fs :=
  {[ "/l" := NDir; "/l/x.rpl" := NFile (write_records Marshal Logger.Logger.TextFormat [r1; r0; r1]) 0 ]}.

End Concrete.

Lemma ParseFromFile_written_witness :
  ParseFromFile Concrete.Unmarshal Concrete.written_dir "/l/x.rpl" = Ok [Concrete.r1; Concrete.r0; Concrete.r1].
Proof.
  assert (readable Concrete.Marshal Concrete.Unmarshal Concrete.r1) as H1.
  { right. exists ("status: 1" +:+ nl +:+ "digest: d"). split; [reflexivity|]. split; [discriminate|].
    split; [simpl; repeat split; discriminate|]. split; [simpl; discriminate|]. split; reflexivity. }
  assert (readable Concrete.Marshal Concrete.Unmarshal Concrete.r0) as H0 by (left; split; reflexivity).
  apply (ParseFromFile_written Concrete.Marshal Concrete.Unmarshal Concrete.written_dir "/l/x.rpl" Logger.Logger.TextFormat
    [Concrete.r1; Concrete.r0; Concrete.r1]).
  - change (Forall (readable Concrete.Marshal Concrete.Unmarshal) [Concrete.r1; Concrete.r0; Concrete.r1]).
    do 3 (constructor; [assumption|]). constructor.
  - vm_compute. reflexivity.
Defined.

End LogFile.
