(* ===== verification/Usage.v ===== *)
(** * The use of resources: [internal/pkg/localresources/usage],
      [cmd/reproxytool/usage2csv]

    What the sampler measures, the line of the log it becomes, and the tool that
    makes a table of these lines. *)
From S2P Require Import Prelude GoStrings GoRegexp GoFloat LogFile.
From Stdlib Require Import Ascii.
Import Regexp LogFile.

Module Usage.

(** ** Samples *)

Definition CPUPct : string := "CPU_pct".
Definition MemPct : string := "MEM_pct".
Definition MemVirt : string := "MEM_VIRT_mbs".
Definition MemRes : string := "MEM_RES_mbs".
Definition mb : Z := 1048576.

Record MemoryInfoStat := { VMS : Z; RSS : Z }.

(** What the operating system answers.  The percentages are given with their
    fractions cut off: [int64] of the numbers. *)
Record Sampler := {
  Percent : res Z;
  MemoryPercent : res Z;
  MemoryInfo : res MemoryInfoStat
}.

(** Nothing is sampled unless everything is. *)
Definition Sample (uSampler : option Sampler) : gmap string Z :=
  match uSampler with
  | None => ∅
  | Some s =>
      match Percent s, MemoryPercent s, MemoryInfo s with
      | Ok c, Ok m, Ok i =>
          <[MemRes := (RSS i / mb)%Z]> (<[MemVirt := (VMS i / mb)%Z]> (<[MemPct := m]> {[ CPUPct := c ]}))
      | _, _, _ => ∅
      end
  end.

(** ** The line of the log *)

(** [strconv.FormatInt(z, 10)] *)
Definition FormatInt (z : Z) : string := if (z <? 0)%Z then "-" +:+ Itoa (- z) else Itoa z.

Definition keys (m : gmap string Z) : list string := sort_Strings (map_to_list m).*1.

(** [%v] of a map: its keys in order. *)
Definition print_map (m : gmap string Z) : string :=
  "map[" +:+ Join ((λ k, k +:+ ":" +:+ FormatInt (default 0%Z (m !! k))) <$> keys m) " " +:+ "]".

Definition usage_line (header : string) (samples : gmap string Z) : string :=
  header +:+ "Resource Usage: " +:+ print_map samples.

(** ** The tool *)

Record usage := {
  timestamp : Z;
  u_CPUPct : Z;
  MemResMbs : Z;
  MemVirtMbs : Z;
  u_MemPct : Z;
  PeakNumActions : Z
}.

Definition no_usage : usage :=
  {| timestamp := 0; u_CPUPct := 0; MemResMbs := 0; MemVirtMbs := 0; u_MemPct := 0; PeakNumActions := 0 |}.

(** The field of a key is set; other keys are passed over. *)
Definition set_field (u : usage) (key : string) (value : Z) : usage :=
  let '{| timestamp := t; u_CPUPct := c; MemResMbs := r; MemVirtMbs := v; u_MemPct := m; PeakNumActions := p |} := u in
  if (key =? "UNIX_TIME")%string then {| timestamp := value; u_CPUPct := c; MemResMbs := r; MemVirtMbs := v; u_MemPct := m; PeakNumActions := p |}
  else if (key =? "CPU_pct")%string then {| timestamp := t; u_CPUPct := value; MemResMbs := r; MemVirtMbs := v; u_MemPct := m; PeakNumActions := p |}
  else if (key =? "MEM_RES_mbs")%string then {| timestamp := t; u_CPUPct := c; MemResMbs := value; MemVirtMbs := v; u_MemPct := m; PeakNumActions := p |}
  else if (key =? "MEM_VIRT_mbs")%string then {| timestamp := t; u_CPUPct := c; MemResMbs := r; MemVirtMbs := value; u_MemPct := m; PeakNumActions := p |}
  else if (key =? "MEM_pct")%string then {| timestamp := t; u_CPUPct := c; MemResMbs := r; MemVirtMbs := v; u_MemPct := value; PeakNumActions := p |}
  else if (key =? "PEAK_NUM_ACTIONS")%string then {| timestamp := t; u_CPUPct := c; MemResMbs := r; MemVirtMbs := v; u_MemPct := m; PeakNumActions := value |}
  else u.

(** A value that is no number ends the tool; a field without a value is indexed
    out of range. *)
Definition unmarshall_field (u : usage) (field : string) : res usage :=
  match Split field ":" with
  | key :: value :: _ =>
      match ParseInt value 10 64 with
      | Ok v => Ok (set_field u key v)
      | _ => Fail (EMsg "Cannot unmarshall")
      end
  | _ => Panic
  end.

Fixpoint unmarshall_fields (u : usage) (fields : list string) : res usage :=
  match fields with
  | [] => Ok u
  | f :: fields => let? u := unmarshall_field u f in unmarshall_fields u fields
  end.

Definition unmarshall (s : string) : res usage := unmarshall_fields no_usage (Split s " ").

(** [Resource Usage: map\[(.*?)\]] *)
Definition usageRegex (s : string) : option string :=
  search (λ s,
    if HasPrefix s "Resource Usage: map[" then
      let s := TrimPrefix s "Resource Usage: map[" in
      lazy re_dot s (λ t, if HasPrefix t "]" then Some (between s t) else None)
    else None) s.

(** The lines of the file, those that have no sample being left out. *)
Fixpoint parseLogFileToSlice (usages : list usage) (lines : list string) : res (list usage) :=
  match lines with
  | [] => Ok usages
  | l :: lines =>
      match usageRegex l with
      | None => parseLogFileToSlice usages lines
      | Some s => let? u := unmarshall s in parseLogFileToSlice (usages ++ [u]) lines
      end
  end.

Definition by_timestamp (a b : usage) : Prop := (timestamp a ≤ timestamp b)%Z.
#[export] Instance by_timestamp_dec a b : Decision (by_timestamp a b) := Z_le_dec (timestamp a) (timestamp b).
Definition sortByTimestamp (usages : list usage) : list usage := merge_sort by_timestamp usages.

Definition header_row : list string := ["timestamp"; "CPU_pct"; "MEM_RES_mbs"; "MEM_VIRT_mbs"; "MEM_pct"; "PEAK_NUM_ACTIONS"].
Definition row (u : usage) : list string :=
  FormatInt <$> [timestamp u; u_CPUPct u; MemResMbs u; MemVirtMbs u; u_MemPct u; PeakNumActions u].

(** No field of the table needs quotes. *)
Definition saveToCSV (usages : list usage) : string :=
  foldr (λ r t, Join r "," +:+ String "010" t) "" (header_row :: (row <$> usages)).

(** The samples are kept in a variable of the package: a second call adds to
    those of the first.  [create] is the outcome of the creation of the file. *)
Definition Usage2CSV (create : res unit) (usages : list usage) (lines : list string) : res string :=
  let? usages := parseLogFileToSlice usages lines in
  let? _ := create in
  Ok (saveToCSV (sortByTimestamp usages)).

(** ** What the logger wrote is what the tool reads *)

(** The bytes that would end the map, its entries or their keys. *)
Definition plain (a : ascii) : bool := negb (Ascii.eqb a ":" || Ascii.eqb a " " || Ascii.eqb a "]" || Ascii.eqb a "010").

Definition inner (a : ascii) : bool := re_dot a && negb (Ascii.eqb a "]").

Lemma str_forallb_no_char f c s : f c = false → str_forallb f s = true → contains_char c s = false.
Proof.
  intros Hc. induction s as [|a s IH]; [done|]. simpl. intros [Ha Hs]%andb_true_iff. rewrite IH by done.
  destruct (Ascii.eqb_spec a c) as [->|]; [congruence|done].
Qed.

Lemma FormatInt_plain z : str_forallb plain (FormatInt z) = true.
Proof.
  assert (∀ n, (0 ≤ n)%Z → str_forallb plain (Itoa n) = true) as H.
  { intros n Hn. eapply str_forallb_impl; [|by apply (dec_digits_digits 19 n)]. intros a Ha.
    destruct a as [[] [] [] [] [] [] [] []]; vm_compute in Ha; done || reflexivity. }
  unfold FormatInt. destruct (Z.ltb_spec z 0); [|by apply H].
  rewrite str_forallb_app, H by lia. reflexivity.
Qed.

Lemma ParseInt_FormatInt z : (- 2 ^ 63 ≤ z < 2 ^ 63)%Z → ParseInt (FormatInt z) 10 64 = Ok z.
Proof.
  intros Hz. unfold FormatInt. destruct (Z.ltb_spec z 0); [|apply ParseInt_Itoa; lia].
  unfold ParseInt. change ("-" +:+ ?s) with (String "-" s). cbv iota beta.
  pose proof (dec_digits_nonempty 19 (- z)) as Hne. apply String.eqb_neq in Hne. unfold Itoa. rewrite Hne.
  rewrite parse_dec_digits by lia. destruct (Z.leb_spec (- z) (2 ^ (64 - 1))); [by rewrite Z.opp_involutive|lia].
Qed.

(** The entries of the line. *)
Definition entry (m : gmap string Z) (k : string) : string := k +:+ ":" +:+ FormatInt (default 0%Z (m !! k)).
Definition body (m : gmap string Z) : string := Join (entry m <$> keys m) " ".

Definition plain_keys (m : gmap string Z) : Prop := map_Forall (λ k _, str_forallb plain k = true) m.
Definition in_range (m : gmap string Z) : Prop := map_Forall (λ _ v, (- 2 ^ 63 ≤ v < 2 ^ 63)%Z) m.

Definition in_rangeb (m : gmap string Z) : bool :=
  forallb (λ kv, (- 2 ^ 63 <=? kv.2) && (kv.2 <? 2 ^ 63))%Z (map_to_list m).

Lemma in_rangeb_true m : in_rangeb m = true → in_range m.
Proof.
  unfold in_rangeb. rewrite forallb_forall. intros H k v Hk.
  specialize (H (k, v) ltac:(apply list_elem_of_In; by apply elem_of_map_to_list)). simpl in H. lia.
Qed.

Lemma elem_of_keys m k : k ∈ keys m ↔ is_Some (m !! k).
Proof.
  unfold keys. rewrite sort_Strings_perm. split.
  - intros ([k' v] & -> & H%elem_of_map_to_list)%list_elem_of_fmap. by eexists.
  - intros [v H]. apply list_elem_of_fmap. exists (k, v). split; [done|by apply elem_of_map_to_list].
Qed.

Lemma entry_Split m k : str_forallb plain k = true → Split (entry m k) ":" = [k; FormatInt (default 0%Z (m !! k))].
Proof.
  intros Hk. unfold entry. change (":" +:+ ?s) with (String ":" s). rewrite Split_app.
  rewrite !Split_none; [done|..]; eapply str_forallb_no_char with (f := plain); try done. apply FormatInt_plain.
Qed.

Lemma entry_inner m k : str_forallb plain k = true → str_forallb inner (entry m k) = true ∧ contains_char " " (entry m k) = false.
Proof.
  assert (∀ a, plain a = true → inner a = true) as Hi.
  { intros a. unfold plain, inner, re_dot. destruct (Ascii.eqb a "010"), (Ascii.eqb a "]"), (Ascii.eqb a ":"), (Ascii.eqb a " "); done. }
  intros Hk. unfold entry. rewrite !str_forallb_app, !contains_char_app. pose proof (FormatInt_plain (default 0%Z (m !! k))) as Hf.
  rewrite (str_forallb_impl _ _ _ Hi Hk), (str_forallb_impl _ _ _ Hi Hf). split; [done|].
  rewrite (str_forallb_no_char plain " " k eq_refl Hk), (str_forallb_no_char plain " " _ eq_refl Hf). done.
Qed.

Lemma entries_keys m : plain_keys m → Forall (λ k, str_forallb plain k = true) (keys m).
Proof. intros H. apply Forall_forall. intros k [v Hv]%elem_of_keys. by apply (H k v). Qed.

Lemma body_inner m : plain_keys m → str_forallb inner (body m) = true.
Proof.
  intros H%entries_keys. unfold body. induction H as [|k ks Hk _ IH]; [done|]. destruct ks as [|k' ks]; [apply entry_inner, Hk|].
  rewrite !fmap_cons. rewrite Join_cons by done. rewrite !str_forallb_app. rewrite fmap_cons in IH. rewrite IH.
  by rewrite (proj1 (entry_inner m k Hk)).
Qed.

Lemma Split_body m : m ≠ ∅ → plain_keys m → Split (body m) " " = entry m <$> keys m.
Proof.
  intros Hm H. apply Split_Join.
  - destruct (map_choose m Hm) as (k & v & Hk). assert (k ∈ keys m) as Hin by (apply elem_of_keys; by eexists).
    by destruct (keys m); [apply elem_of_nil in Hin|].
  - apply Forall_fmap. eapply Forall_impl; [by apply entries_keys|]. intros k Hk. apply entry_inner, Hk.
Qed.

(** The line is found, wherever it starts. *)
Lemma usageRegex_line header m :
  contains_char "R" header = false → plain_keys m → usageRegex (usage_line header m) = Some (body m).
Proof.
  intros Hh Hm. unfold usageRegex, usage_line. induction header as [|a header IH].
  - change ("" +:+ ?s) with s. apply search_now.
    change ("Resource Usage: " +:+ print_map m) with ("Resource Usage: map[" +:+ (body m +:+ "]")).
    rewrite HasPrefix_app, TrimPrefix_app. apply lazy_first.
    + eapply str_forallb_impl; [|by apply body_inner]. intros c. unfold inner. by intros [? _]%andb_true_iff.
    + intros u1 [|c u2] E Hne; [done|]. pose proof (body_inner m Hm) as Hb. rewrite E, str_forallb_app in Hb.
      apply andb_true_iff in Hb as [_ Hb]. simpl in Hb. apply andb_true_iff in Hb as [Hc _]. unfold inner in Hc.
      change (String c u2 +:+ "]") with (String c (u2 +:+ "]")). cbn [HasPrefix]. destruct (Ascii.eqb_spec c "]") as [->|Hc']; [done|].
      destruct (Ascii.eqb_spec "]" c); [congruence|]. done.
    + cbn. by rewrite between_app.
  - simpl in Hh. apply orb_false_iff in Hh as [Ha Hh]. rewrite str_app_cons. cbn [search].
    assert (HasPrefix (String a (header +:+ "Resource Usage: " +:+ print_map m)) "Resource Usage: map[" = false) as ->; [|by apply IH].
    cbn [HasPrefix]. destruct (Ascii.eqb_spec a "R") as [->|Hn]; [done|]. destruct (Ascii.eqb_spec "R" a); [congruence|done].
Qed.

(** A row made of the values of the keys. *)
Definition usage_of (f : string → Z) : usage := {|
  timestamp := f "UNIX_TIME"; u_CPUPct := f "CPU_pct"; MemResMbs := f "MEM_RES_mbs"; MemVirtMbs := f "MEM_VIRT_mbs";
  u_MemPct := f "MEM_pct"; PeakNumActions := f "PEAK_NUM_ACTIONS" |}.

Lemma set_field_spec f k v : set_field (usage_of f) k v = usage_of (λ x, if (x =? k)%string then v else f x).
Proof.
  unfold set_field, usage_of.
  destruct (String.eqb_spec k "UNIX_TIME") as [->|H1]; [done|].
  destruct (String.eqb_spec k "CPU_pct") as [->|H2]; [done|].
  destruct (String.eqb_spec k "MEM_RES_mbs") as [->|H3]; [done|].
  destruct (String.eqb_spec k "MEM_VIRT_mbs") as [->|H4]; [done|].
  destruct (String.eqb_spec k "MEM_pct") as [->|H5]; [done|].
  destruct (String.eqb_spec k "PEAK_NUM_ACTIONS") as [->|H6]; [done|].
  apply not_eq_sym in H1, H2, H3, H4, H5, H6. apply String.eqb_neq in H1, H2, H3, H4, H5, H6.
  by rewrite H1, H2, H3, H4, H5, H6.
Qed.

Lemma usage_of_ext f g : (∀ x, f x = g x) → usage_of f = usage_of g.
Proof. intros H. unfold usage_of. by rewrite !H. Qed.

Lemma unmarshall_entries m ks f :
  in_range m → Forall (λ k, str_forallb plain k = true) ks →
  unmarshall_fields (usage_of f) (entry m <$> ks) =
  Ok (usage_of (λ x, if bool_decide (x ∈ ks) then default 0%Z (m !! x) else f x)).
Proof.
  intros Hr Hk. revert f. induction Hk as [|k ks Hk _ IH]; intros f; [done|].
  rewrite fmap_cons. cbn [unmarshall_fields]. unfold unmarshall_field. rewrite entry_Split by done.
  rewrite ParseInt_FormatInt.
  2: { destruct (m !! k) as [v|] eqn:E; simpl; [by apply (Hr k v)|lia]. }
  rewrite bind_Ok, set_field_spec, IH. f_equal. apply usage_of_ext. intros x.
  destruct (String.eqb_spec x k) as [->|Hn].
  - rewrite (bool_decide_true (k ∈ k :: ks)) by left. by case_bool_decide.
  - rewrite (bool_decide_ext (x ∈ k :: ks) (x ∈ ks)); [done|]. rewrite elem_of_cons. naive_solver.
Qed.

Lemma unmarshall_body m :
  m ≠ ∅ → plain_keys m → in_range m → unmarshall (body m) = Ok (usage_of (λ k, default 0%Z (m !! k))).
Proof.
  intros Hm Hp Hr. unfold unmarshall. rewrite Split_body by done.
  change no_usage with (usage_of (λ _, 0%Z)). rewrite unmarshall_entries by (done || by apply entries_keys).
  f_equal. apply usage_of_ext. intros x. case_bool_decide as H; [done|].
  rewrite elem_of_keys in H. destruct (m !! x) eqn:E; [|done]. destruct H. by eexists.
Qed.

(** A line of the log: one of the samples, or one that has none. *)
Inductive line := Sampled (header : string) (m : gmap string Z) | Other (s : string).

Definition text (l : line) : string := match l with Sampled h m => usage_line h m | Other s => s end.

Definition readable (l : line) : Prop :=
  match l with
  | Sampled h m => contains_char "R" h = false ∧ m ≠ ∅ ∧ plain_keys m ∧ in_range m
  | Other s => usageRegex s = None
  end.

Definition sampled (l : line) : option usage :=
  match l with Sampled _ m => Some (usage_of (λ k, default 0%Z (m !! k))) | Other _ => None end.

Lemma parse_lines us ls :
  Forall readable ls → parseLogFileToSlice us (text <$> ls) = Ok (us ++ omap sampled ls).
Proof.
  intros H. revert us. induction H as [|l ls Hl _ IH]; intros us; [by rewrite app_nil_r|].
  rewrite fmap_cons. cbn [parseLogFileToSlice]. destruct l as [h m|s]; simpl in *.
  - destruct Hl as (Hh & Hm & Hp & Hr). rewrite usageRegex_line, unmarshall_body by done. rewrite bind_Ok, IH.
    by rewrite <- app_assoc.
  - by rewrite Hl, IH.
Qed.

Lemma sortByTimestamp_spec us : sortByTimestamp us ≡ₚ us ∧ Sorted by_timestamp (sortByTimestamp us).
Proof.
  assert (Total by_timestamp) by (intros a b; unfold by_timestamp; lia).
  split; [apply merge_sort_Permutation|apply (Sorted_merge_sort by_timestamp)].
Qed.

(** What the logger samples, with the time and its peak of actions. *)
Definition logged (header : string) (now : Z) (peakWorkers : option Z) (s : option Sampler) (peak : Z) : line :=
  Sampled header (collectResourceUsageSamples now peakWorkers (Sample s) {| resourceUsage := ∅; peakRunningActions := peak |}).1.

(** The keys of a sample. *)
Definition key_names : list string := [CPUPct; MemPct; MemVirt; MemRes; unixTime; peakNumActions; peakNumBQWorker].

Lemma logged_keys h now w s peak k v :
  match logged h now w s peak with Sampled _ m => m !! k = Some v | _ => False end → k ∈ key_names.
Proof.
  unfold logged, collectResourceUsageSamples. cbn [fst]. intros H. unfold key_names.
  assert (∀ k' v' (m : gmap string Z), <[k' := v']> m !! k = Some v → k = k' ∨ m !! k = Some v) as Hi.
  { intros k' v' m. rewrite lookup_insert_Some. naive_solver. }
  assert (Sample s !! k = Some v → k ∈ [CPUPct; MemPct; MemVirt; MemRes]) as Hs.
  { unfold Sample. destruct s as [[[|?|] [|?|] [|?|]]|]; simpl; try (by rewrite lookup_empty). intros H'.
    repeat (apply Hi in H' as [->|H']; [set_solver|]). by rewrite lookup_empty in H'. }
  destruct w as [n|]; repeat (apply Hi in H as [->|H]; [set_solver|]); set_solver.
Qed.

Lemma logged_plain h now w s peak : match logged h now w s peak with Sampled _ m => plain_keys m | _ => False end.
Proof.
  intros k v H. apply (logged_keys h now w s peak) in H. unfold key_names in H.
  repeat (apply elem_of_cons in H as [->|H]; [reflexivity|]). by apply elem_of_nil in H.
Qed.

Lemma logged_nonempty h now w s peak : match logged h now w s peak with Sampled _ m => m ≠ ∅ | _ => False end.
Proof. unfold logged, collectResourceUsageSamples. cbn [fst]. destruct w; apply insert_non_empty. Qed.

Definition row_of (now : Z) (s : option Sampler) (peak : Z) : usage := usage_of (λ k,
  if (k =? "UNIX_TIME")%string then now else if (k =? "PEAK_NUM_ACTIONS")%string then peak else default 0%Z (Sample s !! k)).

Lemma logged_values h now w s peak : sampled (logged h now w s peak) = Some (row_of now s peak).
Proof.
  unfold logged, collectResourceUsageSamples, sampled, row_of. cbn [fst]. f_equal.
  assert (∀ n (m : gmap string Z), usage_of (λ k, default 0%Z (<[peakNumBQWorker := n]> m !! k)) = usage_of (λ k, default 0%Z (m !! k))) as Hw.
  { intros n m. unfold usage_of. by rewrite !lookup_insert_ne by done. }
  destruct w as [n|]; [rewrite Hw|]; unfold usage_of, peakNumActions, unixTime; cbn [String.eqb Ascii.eqb Bool.eqb];
    (f_equal; [rewrite lookup_insert_ne by done; by rewrite lookup_insert_eq|..|by rewrite lookup_insert_eq]; by rewrite !lookup_insert_ne by done).
Qed.

(** The tool makes one row of every sample of the log, in the order of their
    times, and each has the values that were measured: those of the machine, or
    zeros when it could not be measured, the time and the peak of actions. *)
Theorem Usage2CSV_spec (ls : list (string * Z * option Z * option Sampler * Z)) :
  let line_of := λ '(h, now, w, s, peak), logged h now w s peak in
  Forall (λ '(h, now, w, s, peak), contains_char "R" h = false ∧ in_range (match logged h now w s peak with Sampled _ m => m | _ => ∅ end)) ls →
  ∃ rows,
    Usage2CSV (Ok tt) [] (text <$> (line_of <$> ls)) = Ok (saveToCSV rows) ∧ Sorted by_timestamp rows ∧
    rows ≡ₚ (λ '(_, now, _, s, peak), row_of now s peak) <$> ls.
Proof.
  intros line_of H. exists (sortByTimestamp (omap sampled (line_of <$> ls))).
  destruct (sortByTimestamp_spec (omap sampled (line_of <$> ls))) as [Hp Hs]. split; [|split; [done|]].
  - unfold Usage2CSV. rewrite parse_lines; [done|]. apply Forall_fmap. eapply Forall_impl; [exact H|].
    intros [[[[h now] w] s] peak] [Hh Hr]. split; [done|]. split; [apply (logged_nonempty h now w s peak)|].
    split; [apply (logged_plain h now w s peak)|exact Hr].
  - rewrite Hp. clear H Hs Hp. match goal with |- ?a ≡ₚ ?b => assert (a = b) as ->; [|done] end. induction ls as [|[[[[h now] w] s] peak] ls IH]; [done|].
    rewrite !fmap_cons. cbn [omap list_omap]. unfold line_of at 1. rewrite logged_values. by rewrite IH.
Qed.

(** ** On concrete logs *)

Module Concrete.

Definition sampler : Sampler := {| Percent := Ok 12%Z; MemoryPercent := Ok 3%Z; MemoryInfo := Ok {| VMS := 6181355520; RSS := 1306525696 |} |}.
Definition header : string := "I1019 17:34:49.000001       1 logger.go:457] ".

Example line_text :
  text (logged header 1697736889 None (Some sampler) 4) =
  header +:+ "Resource Usage: map[CPU_pct:12 MEM_RES_mbs:1246 MEM_VIRT_mbs:5895 MEM_pct:3 PEAK_NUM_ACTIONS:4 UNIX_TIME:1697736889]".
Proof. vm_compute. reflexivity. Qed.

Example no_sample : row_of 5 (Some {| Percent := Ok 1%Z; MemoryPercent := Fail (EMsg "no access"); MemoryInfo := Panic |}) 2 =
  {| timestamp := 5; u_CPUPct := 0; MemResMbs := 0; MemVirtMbs := 0; u_MemPct := 0; PeakNumActions := 2 |}.
Proof. reflexivity. Qed.

(** A line with an empty map, or with an entry without a value, ends the tool. *)
Example empty_map : Usage2CSV (Ok tt) [] ["Resource Usage: map[]"] = Panic ∧
  Usage2CSV (Ok tt) [] ["x"; "Resource Usage: map[UNIX_TIME:x]"] = Fail (EMsg "Cannot unmarshall").
Proof. split; vm_compute; reflexivity. Qed.

(** The rows of an earlier call are written again. *)
Example rows_kept :
  (let? us := parseLogFileToSlice [] [text (logged header 7 None None 1)] in Usage2CSV (Ok tt) us [text (logged header 5 None None 2)]) =
  Ok (saveToCSV [row_of 5 None 2; row_of 7 None 1]).
Proof. vm_compute. reflexivity. Qed.

End Concrete.

Lemma Usage2CSV_spec_witness :
  ∃ rows,
    Usage2CSV (Ok tt) [] [text (logged Concrete.header 20 (Some 3%Z) (Some Concrete.sampler) 4); text (logged Concrete.header 10 None None 1)] =
      Ok (saveToCSV rows) ∧
    rows ≡ₚ [row_of 20 (Some Concrete.sampler) 4; row_of 10 None 1].
Proof.
  destruct (Usage2CSV_spec [(Concrete.header, 20%Z, Some 3%Z, Some Concrete.sampler, 4%Z); (Concrete.header, 10%Z, None, None, 1%Z)])
    as (rows & E & _ & Hp).
  - apply Forall_cons; split; [split; [reflexivity|]|apply Forall_cons; split; [split; [reflexivity|]|by apply Forall_nil]];
      apply in_rangeb_true; vm_compute; reflexivity.
  - exists rows. split; [exact E|exact Hp].
Defined.

End Usage.
