(* ===== verification/BqItem.v ===== *)
(** * The rows of records: [internal/pkg/bigquerytranslator/translator.go]

    A record of the log becomes a row of a table: values with names, in which a
    map is a list of keys and values. *)
From S2P Require Import Prelude GoStrings.
From Stdlib Require Import Ascii.

Module BqItem.

(** ** Values and messages

    [VNil] is a nil slice. *)

Inductive value :=
  | VString (s : string) | VInt (z : Z) | VBool (b : bool) | VTime (t : Z) | VStrings (l : list string)
  | VNil | VList (l : list value) | VMap (m : list (string * value)).

Record VirtualInput := { vi_Path : string; vi_Contents : string; vi_IsExecutable : bool; vi_IsEmptyDirectory : bool }.
Record ExcludeInput := { ei_Regex : string; ei_Type : Z }.

(** A repeated field may be nil. *)
Record InputSpec := {
  Inputs : option (list string);
  VirtualInputs : list VirtualInput;
  ExcludeInputs : list ExcludeInput;
  EnvironmentVariables : gmap string string
}.

Record OutputSpec := { OutputFiles : option (list string); OutputDirectories : option (list string) }.

Record CommandResult := { cr_Status : Z; cr_ExitCode : Z; cr_Msg : string }.

(** The ends of an event; either may be missing. *)
Record TimeInterval := { From : option Z; To : option Z }.

Record RemoteMetadata := {
  rm_Result : CommandResult;
  rm_CacheHit : bool;
  rm_NumInputFiles : Z;
  rm_NumInputDirectories : Z;
  rm_TotalInputBytes : Z;
  rm_NumOutputFiles : Z;
  rm_NumOutputDirectories : Z;
  rm_TotalOutputBytes : Z;
  rm_CommandDigest : string;
  rm_ActionDigest : string;
  rm_LogicalBytesUploaded : Z;
  rm_RealBytesUploaded : Z;
  rm_LogicalBytesDownloaded : Z;
  rm_RealBytesDownloaded : Z;
  rm_StderrDigest : string;
  rm_StdoutDigest : string;
  rm_EventTimes : gmap string TimeInterval;
  rm_OutputFileDigests : gmap string string;
  rm_OutputDirectoryDigests : gmap string string
}.

Record Mismatch := {
  mm_Path : string;
  mm_RemoteDigests : option (list string);
  mm_LocalDigests : option (list string);
  mm_Determinism : Z
}.

Record LocalMetadata := {
  lm_Result : CommandResult;
  lm_ExecutedLocally : bool;
  lm_ValidCacheHit : bool;
  lm_UpdatedCache : bool;
  lm_Mismatches : list Mismatch;
  lm_TotalMismatches : Z;
  lm_TotalVerified : Z;
  lm_EventTimes : gmap string TimeInterval;
  lm_Environment : gmap string string;
  lm_Labels : gmap string string
}.

Record Identifiers := {
  CommandId : string;
  InvocationId : string;
  CorrelatedInvocationsId : string;
  ToolName : string;
  ToolVersion : string;
  ExecutionId : string
}.

(** A message that is absent is one without contents: the getters tell no
    difference. *)
Record LogRecord := {
  cmd_Identifiers : Identifiers;
  cmd_ExecRoot : string;
  cmd_Input : InputSpec;
  cmd_Output : OutputSpec;
  cmd_Args : option (list string);
  cmd_ExecutionTimeout : Z;
  cmd_WorkingDirectory : string;
  cmd_Platform : gmap string string;
  lr_Result : CommandResult;
  lr_RemoteMetadata : RemoteMetadata;
  lr_LocalMetadata : LocalMetadata;
  CompletionStatus : Z
}.

(** ** The row *)

Definition row_keys {A} (m : gmap string A) : list string := sort_Strings (map_to_list m).*1.

(** The loops over the keys of a map. *)
Definition pairs {A} (f : A → value) (m : gmap string A) : value :=
  VList (omap (λ k, v ← m !! k; Some (VMap [("key", VString k); ("value", f v)])) (row_keys m)).

(** The only list here that may be nil. *)
Definition platform (p : gmap string string) : value := if decide (p = ∅) then VNil else pairs VString p.

Definition nonnil (l : option (list string)) : list string := default [] l.

Definition virtual_input (vi : VirtualInput) : value := VMap [
  ("path", VString (vi_Path vi)); ("contents", VString (vi_Contents vi)); ("is_executable", VBool (vi_IsExecutable vi));
  ("is_empty_directory", VBool (vi_IsEmptyDirectory vi))].

Definition exclude_input (ei : ExcludeInput) : value := VMap [("regex", VString (ei_Regex ei)); ("type", VInt (ei_Type ei))].

Definition collectInputs (input : InputSpec) : value := VMap [
  ("inputs", VStrings (nonnil (Inputs input)));
  ("virtual_inputs", VList (virtual_input <$> VirtualInputs input));
  ("exclude_inputs", VList (exclude_input <$> ExcludeInputs input));
  ("environment_variables", pairs VString (EnvironmentVariables input))].

Definition collectOutputs (output : OutputSpec) : value := VMap (
  match OutputFiles output with Some l => [("output_files", VStrings l)] | None => [] end ++
  match OutputDirectories output with Some l => [("output_directories", VStrings l)] | None => [] end).

Definition collectResult (result : CommandResult) : value := VMap [
  ("status", VInt (cr_Status result)); ("exit_code", VInt (cr_ExitCode result)); ("msg", VString (cr_Msg result))].

(** Both ends, or nothing. *)
Definition interval (et : TimeInterval) : value :=
  VMap (match From et, To et with Some f, Some t => [("from", VTime f); ("to", VTime t)] | _, _ => [] end).

Definition collectRemoteMetadata (rm : RemoteMetadata) : value := VMap [
  ("result", collectResult (rm_Result rm)); ("cache_hit", VBool (rm_CacheHit rm));
  ("num_input_files", VInt (rm_NumInputFiles rm)); ("num_input_directories", VInt (rm_NumInputDirectories rm));
  ("total_input_bytes", VInt (rm_TotalInputBytes rm)); ("num_output_files", VInt (rm_NumOutputFiles rm));
  ("num_output_directories", VInt (rm_NumOutputDirectories rm)); ("total_output_bytes", VInt (rm_TotalOutputBytes rm));
  ("command_digest", VString (rm_CommandDigest rm)); ("action_digest", VString (rm_ActionDigest rm));
  ("logical_bytes_uploaded", VInt (rm_LogicalBytesUploaded rm)); ("real_bytes_uploaded", VInt (rm_RealBytesUploaded rm));
  ("logical_bytes_downloaded", VInt (rm_LogicalBytesDownloaded rm)); ("real_bytes_downloaded", VInt (rm_RealBytesDownloaded rm));
  ("stderr_digest", VString (rm_StderrDigest rm)); ("stdout_digest", VString (rm_StdoutDigest rm));
  ("event_times", pairs interval (rm_EventTimes rm)); ("output_file_digests", pairs VString (rm_OutputFileDigests rm));
  ("output_directory_digests", pairs VString (rm_OutputDirectoryDigests rm))].

Definition mismatch_value (mm : Mismatch) : value := VMap [
  ("path", VString (mm_Path mm)); ("remote_digests", VStrings (nonnil (mm_RemoteDigests mm)));
  ("local_digests", VStrings (nonnil (mm_LocalDigests mm))); ("determinism", VInt (mm_Determinism mm))].

Definition collectLocalMetadata (lm : LocalMetadata) : value := VMap [
  ("result", collectResult (lm_Result lm)); ("executed_locally", VBool (lm_ExecutedLocally lm));
  ("valid_cache_hit", VBool (lm_ValidCacheHit lm)); ("updated_cache", VBool (lm_UpdatedCache lm));
  ("verification", VMap [("mismatches", VList (mismatch_value <$> lm_Mismatches lm));
                         ("total_mismatches", VInt (lm_TotalMismatches lm)); ("total_verified", VInt (lm_TotalVerified lm))]);
  ("event_times", pairs interval (lm_EventTimes lm)); ("environment", pairs VString (lm_Environment lm));
  ("labels", pairs VString (lm_Labels lm))].

Definition identifiers_value (i : Identifiers) : value := VMap [
  ("command_id", VString (CommandId i)); ("invocation_id", VString (InvocationId i));
  ("correlated_invocations_id", VString (CorrelatedInvocationsId i)); ("tool_name", VString (ToolName i));
  ("tool_version", VString (ToolVersion i)); ("execution_id", VString (ExecutionId i))].

(** The row, and the identifier by which the service tells repeated rows. *)
Definition Save (i : LogRecord) : value * string :=
  (VMap [
    ("command", VMap [
      ("identifiers", identifiers_value (cmd_Identifiers i)); ("exec_root", VString (cmd_ExecRoot i));
      ("input", collectInputs (cmd_Input i)); ("output", collectOutputs (cmd_Output i));
      ("args", VStrings (nonnil (cmd_Args i))); ("execution_timeout", VInt (cmd_ExecutionTimeout i));
      ("working_directory", VString (cmd_WorkingDirectory i)); ("platform", platform (cmd_Platform i))]);
    ("result", collectResult (lr_Result i)); ("remote_metadata", collectRemoteMetadata (lr_RemoteMetadata i));
    ("local_metadata", collectLocalMetadata (lr_LocalMetadata i)); ("completion_status", VInt (CompletionStatus i))],
   ExecutionId (cmd_Identifiers i)).

(** ** Reading a row *)

Definition str (v : value) : option string := match v with VString s => Some s | _ => None end.
Definition int (v : value) : option Z := match v with VInt z => Some z | _ => None end.
Definition bool_ (v : value) : option bool := match v with VBool b => Some b | _ => None end.
Definition time (v : value) : option Z := match v with VTime t => Some t | _ => None end.
Definition strs (v : value) : option (list string) := match v with VStrings l => Some l | _ => None end.
Definition list_of {A} (f : value → option A) (v : value) : option (list A) := match v with VList l => mapM f l | VNil => Some [] | _ => None end.

Fixpoint assoc (k : string) (m : list (string * value)) : option value :=
  match m with [] => None | (k', v) :: m => if (k' =? k)%string then Some v else assoc k m end.
Definition at_ (k : string) {A} (f : value → option A) (v : value) : option A :=
  match v with VMap m => assoc k m ≫= f | _ => None end.

Definition pair_of {A} (f : value → option A) (v : value) : option (string * A) :=
  k ← at_ "key" str v; x ← at_ "value" f v; Some (k, x).
Definition map_of {A} (f : value → option A) (v : value) : option (gmap string A) := list_to_map <$> list_of (pair_of f) v.

Definition read_result (v : value) : option CommandResult :=
  s ← at_ "status" int v; e ← at_ "exit_code" int v; m ← at_ "msg" str v;
  Some {| cr_Status := s; cr_ExitCode := e; cr_Msg := m |}.

Definition read_interval (v : value) : option TimeInterval :=
  match v with VMap m => Some {| From := assoc "from" m ≫= time; To := assoc "to" m ≫= time |} | _ => None end.

Definition read_virtual (v : value) : option VirtualInput :=
  p ← at_ "path" str v; c ← at_ "contents" str v; x ← at_ "is_executable" bool_ v; e ← at_ "is_empty_directory" bool_ v;
  Some {| vi_Path := p; vi_Contents := c; vi_IsExecutable := x; vi_IsEmptyDirectory := e |}.

Definition read_exclude (v : value) : option ExcludeInput :=
  r ← at_ "regex" str v; t ← at_ "type" int v; Some {| ei_Regex := r; ei_Type := t |}.

Definition read_input (v : value) : option InputSpec :=
  i ← at_ "inputs" strs v; vi ← at_ "virtual_inputs" (list_of read_virtual) v; ei ← at_ "exclude_inputs" (list_of read_exclude) v;
  e ← at_ "environment_variables" (map_of str) v;
  Some {| Inputs := Some i; VirtualInputs := vi; ExcludeInputs := ei; EnvironmentVariables := e |}.

Definition read_output (v : value) : option OutputSpec :=
  match v with
  | VMap m => Some {| OutputFiles := assoc "output_files" m ≫= strs; OutputDirectories := assoc "output_directories" m ≫= strs |}
  | _ => None
  end.

Definition read_remote (v : value) : option RemoteMetadata :=
  r ← at_ "result" read_result v; ch ← at_ "cache_hit" bool_ v;
  n1 ← at_ "num_input_files" int v; n2 ← at_ "num_input_directories" int v; n3 ← at_ "total_input_bytes" int v;
  n4 ← at_ "num_output_files" int v; n5 ← at_ "num_output_directories" int v; n6 ← at_ "total_output_bytes" int v;
  d1 ← at_ "command_digest" str v; d2 ← at_ "action_digest" str v;
  b1 ← at_ "logical_bytes_uploaded" int v; b2 ← at_ "real_bytes_uploaded" int v;
  b3 ← at_ "logical_bytes_downloaded" int v; b4 ← at_ "real_bytes_downloaded" int v;
  e1 ← at_ "stderr_digest" str v; e2 ← at_ "stdout_digest" str v;
  t ← at_ "event_times" (map_of read_interval) v; f ← at_ "output_file_digests" (map_of str) v;
  d ← at_ "output_directory_digests" (map_of str) v;
  Some {| rm_Result := r; rm_CacheHit := ch; rm_NumInputFiles := n1; rm_NumInputDirectories := n2; rm_TotalInputBytes := n3;
    rm_NumOutputFiles := n4; rm_NumOutputDirectories := n5; rm_TotalOutputBytes := n6; rm_CommandDigest := d1; rm_ActionDigest := d2;
    rm_LogicalBytesUploaded := b1; rm_RealBytesUploaded := b2; rm_LogicalBytesDownloaded := b3; rm_RealBytesDownloaded := b4;
    rm_StderrDigest := e1; rm_StdoutDigest := e2; rm_EventTimes := t; rm_OutputFileDigests := f; rm_OutputDirectoryDigests := d |}.

Definition read_mismatch (v : value) : option Mismatch :=
  p ← at_ "path" str v; r ← at_ "remote_digests" strs v; l ← at_ "local_digests" strs v; d ← at_ "determinism" int v;
  Some {| mm_Path := p; mm_RemoteDigests := Some r; mm_LocalDigests := Some l; mm_Determinism := d |}.

Definition read_local (v : value) : option LocalMetadata :=
  r ← at_ "result" read_result v; e ← at_ "executed_locally" bool_ v; c ← at_ "valid_cache_hit" bool_ v; u ← at_ "updated_cache" bool_ v;
  m ← at_ "verification" (at_ "mismatches" (list_of read_mismatch)) v; tm ← at_ "verification" (at_ "total_mismatches" int) v;
  tv ← at_ "verification" (at_ "total_verified" int) v;
  t ← at_ "event_times" (map_of read_interval) v; en ← at_ "environment" (map_of str) v; l ← at_ "labels" (map_of str) v;
  Some {| lm_Result := r; lm_ExecutedLocally := e; lm_ValidCacheHit := c; lm_UpdatedCache := u; lm_Mismatches := m;
    lm_TotalMismatches := tm; lm_TotalVerified := tv; lm_EventTimes := t; lm_Environment := en; lm_Labels := l |}.

Definition read_identifiers (v : value) : option Identifiers :=
  a ← at_ "command_id" str v; b ← at_ "invocation_id" str v; c ← at_ "correlated_invocations_id" str v; d ← at_ "tool_name" str v;
  e ← at_ "tool_version" str v; f ← at_ "execution_id" str v;
  Some {| CommandId := a; InvocationId := b; CorrelatedInvocationsId := c; ToolName := d; ToolVersion := e; ExecutionId := f |}.

Definition read_row (v : value) : option LogRecord :=
  i ← at_ "command" (at_ "identifiers" read_identifiers) v; er ← at_ "command" (at_ "exec_root" str) v;
  inp ← at_ "command" (at_ "input" read_input) v; out ← at_ "command" (at_ "output" read_output) v;
  a ← at_ "command" (at_ "args" strs) v; t ← at_ "command" (at_ "execution_timeout" int) v;
  wd ← at_ "command" (at_ "working_directory" str) v; p ← at_ "command" (at_ "platform" (map_of str)) v;
  r ← at_ "result" read_result v; rm ← at_ "remote_metadata" read_remote v; lm ← at_ "local_metadata" read_local v;
  c ← at_ "completion_status" int v;
  Some {| cmd_Identifiers := i; cmd_ExecRoot := er; cmd_Input := inp; cmd_Output := out; cmd_Args := Some a; cmd_ExecutionTimeout := t;
    cmd_WorkingDirectory := wd; cmd_Platform := p; lr_Result := r; lr_RemoteMetadata := rm; lr_LocalMetadata := lm; CompletionStatus := c |}.

(** ** What a row keeps *)

#[local] Arguments pairs : simpl never.
#[local] Arguments map_of : simpl never.
#[local] Arguments list_of : simpl never.

Lemma list_of_map {A B} (f : value → option B) (g : A → value) (h : A → B) l :
  (∀ a, f (g a) = Some (h a)) → list_of f (VList (g <$> l)) = Some (h <$> l).
Proof.
  intros H. unfold list_of. induction l as [|a l IH]; [done|]. rewrite !fmap_cons. cbn [mapM]. by rewrite H, IH.
Qed.

Lemma pair_of_entry {A} (f : value → option A) k v : pair_of f (VMap [("key", VString k); ("value", v)]) = (x ← f v; Some (k, x)).
Proof. unfold pair_of. simpl. by destruct (f v). Qed.

Lemma list_of_entries {A B} (f : value → option B) (g : A → value) (h : A → B) (m : gmap string A) ks :
  (∀ a, f (g a) = Some (h a)) →
  list_of (pair_of f) (VList (omap (λ k, v ← m !! k; Some (VMap [("key", VString k); ("value", g v)])) ks)) =
  Some (omap (λ k, v ← m !! k; Some (k, h v)) ks).
Proof.
  intros H. unfold list_of. induction ks as [|k ks IH]; [done|].
  cbn [omap list_omap]. destruct (m !! k) as [v|]; cbn [mbind option_bind]; [|exact IH].
  cbn [mapM]. rewrite pair_of_entry, H. cbn [mbind option_bind]. by rewrite IH.
Qed.

Lemma map_of_pairs {A B} (f : value → option B) (g : A → value) (h : A → B) (m : gmap string A) :
  (∀ a, f (g a) = Some (h a)) → map_of f (pairs g m) = Some (h <$> m).
Proof.
  intros H. unfold map_of, pairs. rewrite (list_of_entries f g h) by done.
  simpl. f_equal. assert (∀ k, k ∈ row_keys m ↔ is_Some (m !! k)) as Hk.
  { intros k. unfold row_keys. rewrite sort_Strings_perm, list_elem_of_fmap. split.
    - intros ([k' v] & -> & Hin%elem_of_map_to_list). by exists v.
    - intros [v Hv]. exists (k, v). split; [done|by apply elem_of_map_to_list]. }
  apply map_eq. intros k. rewrite lookup_fmap. destruct (m !! k) as [v|] eqn:Ek; simpl.
  - apply elem_of_list_to_map_1'.
    + intros y (k' & _ & H')%list_elem_of_omap. destruct (m !! k') eqn:E'; simplify_eq/=. congruence.
    + apply list_elem_of_omap. exists k. rewrite Ek. split; [apply Hk; by exists v|done].
  - apply not_elem_of_list_to_map_1. intros (kv & -> & (k' & _ & H')%list_elem_of_omap)%list_elem_of_fmap.
    destruct (m !! k') eqn:E'; by simplify_eq/=.
Qed.

(** What the table keeps of a message: nil lists are empty ones, and the times of
    an event only when both are there. *)
Definition kept_interval (t : TimeInterval) : TimeInterval :=
  match From t, To t with Some _, Some _ => t | _, _ => {| From := None; To := None |} end.

Definition kept_input (i : InputSpec) : InputSpec := {|
  Inputs := Some (nonnil (Inputs i)); VirtualInputs := VirtualInputs i; ExcludeInputs := ExcludeInputs i;
  EnvironmentVariables := EnvironmentVariables i |}.

Definition kept_remote (m : RemoteMetadata) : RemoteMetadata := {|
  rm_Result := rm_Result m; rm_CacheHit := rm_CacheHit m; rm_NumInputFiles := rm_NumInputFiles m;
  rm_NumInputDirectories := rm_NumInputDirectories m; rm_TotalInputBytes := rm_TotalInputBytes m; rm_NumOutputFiles := rm_NumOutputFiles m;
  rm_NumOutputDirectories := rm_NumOutputDirectories m; rm_TotalOutputBytes := rm_TotalOutputBytes m;
  rm_CommandDigest := rm_CommandDigest m; rm_ActionDigest := rm_ActionDigest m;
  rm_LogicalBytesUploaded := rm_LogicalBytesUploaded m; rm_RealBytesUploaded := rm_RealBytesUploaded m;
  rm_LogicalBytesDownloaded := rm_LogicalBytesDownloaded m; rm_RealBytesDownloaded := rm_RealBytesDownloaded m;
  rm_StderrDigest := rm_StderrDigest m; rm_StdoutDigest := rm_StdoutDigest m;
  rm_EventTimes := kept_interval <$> rm_EventTimes m; rm_OutputFileDigests := rm_OutputFileDigests m;
  rm_OutputDirectoryDigests := rm_OutputDirectoryDigests m |}.

Definition kept_mismatch (m : Mismatch) : Mismatch := {|
  mm_Path := mm_Path m; mm_RemoteDigests := Some (nonnil (mm_RemoteDigests m)); mm_LocalDigests := Some (nonnil (mm_LocalDigests m));
  mm_Determinism := mm_Determinism m |}.

Definition kept_local (m : LocalMetadata) : LocalMetadata := {|
  lm_Result := lm_Result m; lm_ExecutedLocally := lm_ExecutedLocally m; lm_ValidCacheHit := lm_ValidCacheHit m;
  lm_UpdatedCache := lm_UpdatedCache m; lm_Mismatches := kept_mismatch <$> lm_Mismatches m; lm_TotalMismatches := lm_TotalMismatches m;
  lm_TotalVerified := lm_TotalVerified m; lm_EventTimes := kept_interval <$> lm_EventTimes m; lm_Environment := lm_Environment m;
  lm_Labels := lm_Labels m |}.

Definition kept (r : LogRecord) : LogRecord := {|
  cmd_Identifiers := cmd_Identifiers r; cmd_ExecRoot := cmd_ExecRoot r; cmd_Input := kept_input (cmd_Input r);
  cmd_Output := cmd_Output r; cmd_Args := Some (nonnil (cmd_Args r)); cmd_ExecutionTimeout := cmd_ExecutionTimeout r;
  cmd_WorkingDirectory := cmd_WorkingDirectory r; cmd_Platform := cmd_Platform r; lr_Result := lr_Result r;
  lr_RemoteMetadata := kept_remote (lr_RemoteMetadata r); lr_LocalMetadata := kept_local (lr_LocalMetadata r);
  CompletionStatus := CompletionStatus r |}.

(** *** Each part, read back *)

Lemma strings_map m : map_of str (pairs VString m) = Some m.
Proof. rewrite (map_of_pairs str VString id) by done. by rewrite map_fmap_id. Qed.

Lemma platform_map m : map_of str (platform m) = Some m.
Proof. unfold platform. case_decide as H; [by subst|apply strings_map]. Qed.

Lemma read_interval_spec t : read_interval (interval t) = Some (kept_interval t).
Proof. destruct t as [[f|] [e|]]; reflexivity. Qed.

Lemma times_map m : map_of read_interval (pairs interval m) = Some (kept_interval <$> m).
Proof. apply map_of_pairs, read_interval_spec. Qed.

Lemma read_result_spec r : read_result (collectResult r) = Some r.
Proof. by destruct r. Qed.

Lemma result_eta r : {| cr_Status := cr_Status r; cr_ExitCode := cr_ExitCode r; cr_Msg := cr_Msg r |} = r.
Proof. by destruct r. Qed.

Lemma read_virtuals l : list_of read_virtual (VList (virtual_input <$> l)) = Some l.
Proof. rewrite (list_of_map _ _ id); [by rewrite list_fmap_id|]. by intros []. Qed.

Lemma read_excludes l : list_of read_exclude (VList (exclude_input <$> l)) = Some l.
Proof. rewrite (list_of_map _ _ id); [by rewrite list_fmap_id|]. by intros []. Qed.

Lemma read_mismatches l : list_of read_mismatch (VList (mismatch_value <$> l)) = Some (kept_mismatch <$> l).
Proof. apply list_of_map. by intros []. Qed.

#[local] Hint Rewrite strings_map platform_map times_map read_result_spec result_eta read_virtuals read_excludes read_mismatches : row.

#[local] Arguments read_result : simpl never.
#[local] Arguments collectResult : simpl never.
#[local] Arguments platform : simpl never.
#[local] Arguments interval : simpl never.

(** Read the fields in their order, by the equations of the parts. *)
#[local] Ltac read := simpl; repeat (autorewrite with row; simpl); reflexivity.

Lemma read_input_spec i : read_input (collectInputs i) = Some (kept_input i).
Proof. unfold read_input, collectInputs. read. Qed.

Lemma read_output_spec o : read_output (collectOutputs o) = Some o.
Proof. by destruct o as [[] []]. Qed.

Lemma read_remote_spec m : read_remote (collectRemoteMetadata m) = Some (kept_remote m).
Proof. unfold read_remote, collectRemoteMetadata. read. Qed.

Lemma read_local_spec m : read_local (collectLocalMetadata m) = Some (kept_local m).
Proof. unfold read_local, collectLocalMetadata. read. Qed.

Lemma read_identifiers_spec i : read_identifiers (identifiers_value i) = Some i.
Proof. by destruct i. Qed.

#[local] Hint Rewrite read_input_spec read_output_spec read_remote_spec read_local_spec read_identifiers_spec : row.
#[local] Arguments read_input : simpl never.
#[local] Arguments read_output : simpl never.
#[local] Arguments read_remote : simpl never.
#[local] Arguments read_local : simpl never.
#[local] Arguments read_identifiers : simpl never.
#[local] Arguments collectInputs : simpl never.
#[local] Arguments collectOutputs : simpl never.
#[local] Arguments collectRemoteMetadata : simpl never.
#[local] Arguments collectLocalMetadata : simpl never.
#[local] Arguments identifiers_value : simpl never.

(** From the row of a record everything the row is made for is read back:
    all of its fields, maps included, with nil lists as empty ones and without
    the times of events that lack an end. *)
Theorem Save_read r : read_row (Save r).1 = Some (kept r) ∧ (Save r).2 = ExecutionId (cmd_Identifiers r).
Proof. split; [|done]. destruct r as [[] ? ? [[] []]]; unfold read_row, Save; cbn [fst]; read. Qed.

(** The rows of an empty platform and of one with two properties: the first is
    nil, where every other list of the row is an empty one. *)
Example platform_rows :
  platform ∅ = VNil ∧
  platform {["b" := "2"; "a" := "1"]} =
    VList [VMap [("key", VString "a"); ("value", VString "1")]; VMap [("key", VString "b"); ("value", VString "2")]].
Proof. split; vm_compute; reflexivity. Qed.

(** An event without its end has no times in the row. *)
Example half_an_event : interval {| From := Some 3%Z; To := None |} = VMap [].
Proof. reflexivity. Qed.

End BqItem.
