(* ===== verification/BigQuery.v ===== *)
(** * The upload of records: [internal/pkg/bigquery/bigquery.go]

    The records of a log are grouped into batches that a service takes, each of
    which a goroutine of its own uploads.  How the log feeds and closes the
    channel of the records ([internal/pkg/logger/logger.go]) is at the end. *)
From S2P Require Import Prelude GoStrings.
From Stdlib Require Import Ascii.

Module BigQuery.

(** ** Where the records go *)

Definition bad_spec : error := EMsg "bigquery resource spec should have form <project>:<dataset>.<table> or <dataset>.<table>".

Definition parseResourceSpec (spec defaultProject : string) : res (string * string * string) :=
  let? ps :=
    if contains_char ":" spec then
      match Split spec ":" with
      | [project; spec] => Ok (project, spec)
      | _ => Fail bad_spec
      end
    else Ok (defaultProject, spec) in
  if (ps.1 =? "")%string then Fail (EMsg "project not specified")
  else match Split ps.2 "." with
       | [dataset; table] => Ok (ps.1, dataset, table)
       | _ => Fail bad_spec
       end.

(** ** Batches *)

Definition MaxUploadSize : Z := 8 * 1000 * 1000.

Section batches.

Context {item : Type}.
(** The length of the JSON text of a record. *)
Variable Marshal : item → res Z.

(** The batches that were sent, the buffer and its size. *)
Definition batch_state : Type := list (list item) * list item * Z.

Definition batch_step (batchSizeBytes : Z) (s : batch_state) (data : item) : batch_state :=
  let '(sent, buffer, bufferSize) := s in
  match Marshal data with
  | Ok size =>
      if (batchSizeBytes <? size)%Z then s
      else
        let '(sent, buffer, bufferSize) :=
          if (batchSizeBytes <? size + bufferSize)%Z then (sent ++ [buffer], [], 0%Z) else s in
        (sent, buffer ++ [data], (bufferSize + size)%Z)
  | _ => s
  end.

Definition batch_bytes (batchSizeMB : Z) : Z :=
  let b := (batchSizeMB * 1000 * 1000)%Z in if (MaxUploadSize <? b)%Z then MaxUploadSize else b.

(** All batches; the last is sent when the channel is closed, even if it is
    empty. *)
Definition batch (items : list item) (batchSizeMB : Z) : list (list item) :=
  let '(sent, buffer, _) := foldl (batch_step (batch_bytes batchSizeMB)) ([], [], 0%Z) items in
  sent ++ [buffer].

(** ** Uploads *)

(** What the service answers: an error of its interface has a code. *)
Inductive put_error := APIError (code : Z) | OtherError.

Inductive action := Succeed | Retry | GiveUp.

#[export] Instance action_eq_dec : EqDecision action.
Proof. solve_decision. Defined.

Definition Classify (e : option put_error) : action :=
  match e with
  | None => Succeed
  | Some (APIError c) => if (c =? 500)%Z || (c =? 503)%Z then Retry else GiveUp
  | Some OtherError => GiveUp
  end.

(** The retrier calls until its classifier does not ask for more, at most once
    more than it has delays; it gives the error it ends with and the number of
    calls. *)
Variable RunCtx : nat → (nat → option put_error) → option put_error * nat.

(** Counters of type [int32], and whether a fatal error was stored. *)
Record counters := { successful : Z; failed : Z; fatal : bool }.

(** [put] is the answer to each call for this batch. *)
Definition uploadWithRetry (items : list item) (put : nat → option put_error) (c : counters) : counters :=
  let '(err, calls) := RunCtx 3 put in
  let fatal := fatal c || existsb (λ i, bool_decide (Classify (put i) = GiveUp)) (seq 0 calls) in
  match err with
  | Some _ => {| successful := successful c; failed := int32 (failed c + int32 (Z.of_nat (length items))); fatal := fatal |}
  | None => {| successful := int32 (successful c + int32 (Z.of_nat (length items))); failed := failed c; fatal := fatal |}
  end.

(** *** What a batch holds *)

Definition size_of (data : item) : Z := match Marshal data with Ok n => n | _ => 0 end.
Definition fits (batchSizeBytes : Z) (data : item) : bool :=
  match Marshal data with Ok n => (n <=? batchSizeBytes)%Z | _ => false end.

Definition total (b : list item) : Z := foldr (λ d t, size_of d + t)%Z 0%Z b.

Lemma total_app b1 b2 : total (b1 ++ b2) = (total b1 + total b2)%Z.
Proof. unfold total. induction b1 as [|d b1 IH]; simpl; [done|]. lia. Qed.

Definition batch_inv (limit : Z) (done : list item) (s : batch_state) : Prop :=
  let '(sent, buffer, bufferSize) := s in
  concat sent ++ buffer = List.filter (fits limit) done ∧ bufferSize = total buffer ∧ (total buffer ≤ limit)%Z ∧
  Forall (λ b, (total b ≤ limit)%Z) sent.

Context (Hsize : ∀ d n, Marshal d = Ok n → (0 ≤ n)%Z).

Lemma batch_step_inv limit d s data :
  (0 ≤ limit)%Z → batch_inv limit d s → batch_inv limit (d ++ [data]) (batch_step limit s data).
Proof using Hsize.
  intros Hl. destruct s as [[sent buffer] n]. intros (H1 & -> & H3 & H4). unfold batch_step, batch_inv.
  rewrite List.filter_app. cbn [List.filter]. unfold fits at 2. destruct (Marshal data) as [size|e|] eqn:Em; simpl.
  2-3: rewrite app_nil_r; by split_and!.
  pose proof (Hsize _ _ Em) as H0. rewrite Z.leb_antisym. destruct (Z.ltb_spec limit size) as [Hs|Hs]; simpl; [rewrite app_nil_r; by split_and!|].
  assert (size_of data = size) as Ez by (unfold size_of; by rewrite Em).
  assert (total [data] = size) as Et by (simpl; lia).
  destruct (Z.ltb_spec limit (size + total buffer)); simpl.
  - rewrite concat_app. simpl. rewrite app_nil_r, H1. split_and!; [done|lia|lia|]. apply Forall_app. split; [done|]. by repeat constructor.
  - rewrite app_assoc, H1, total_app. split_and!; [done|lia|lia|done].
Qed.

Lemma batch_bytes_range mb : (batch_bytes mb ≤ MaxUploadSize)%Z.
Proof using Type. unfold batch_bytes. destruct (Z.ltb_spec MaxUploadSize (mb * 1000 * 1000)); lia. Qed.

(** Every record that fits is in one batch, in its place, and no batch is larger
    than the limit. *)
Lemma batch_spec items mb :
  (0 ≤ mb)%Z →
  concat (batch items mb) = List.filter (fits (batch_bytes mb)) items ∧
  Forall (λ b, (total b ≤ batch_bytes mb)%Z) (batch items mb).
Proof using Hsize.
  intros Hmb. assert (0 ≤ batch_bytes mb)%Z as Hl.
  { unfold batch_bytes, MaxUploadSize. destruct (Z.ltb_spec (8 * 1000 * 1000) (mb * 1000 * 1000)); lia. }
  assert (∀ its d s, batch_inv (batch_bytes mb) d s → batch_inv (batch_bytes mb) (d ++ its) (foldl (batch_step (batch_bytes mb)) s its)) as H.
  { induction its as [|x its IH]; intros d s Hs; [by rewrite app_nil_r|]. simpl.
    replace (d ++ x :: its) with ((d ++ [x]) ++ its) by (by rewrite <- app_assoc). by apply IH, batch_step_inv. }
  specialize (H items [] ([], [], 0%Z)). unfold batch. destruct (foldl _ _ items) as [[sent buffer] n].
  destruct H as (H1 & _ & H3 & H4); [by split_and!|]. rewrite concat_app. simpl. rewrite app_nil_r. split; [exact H1|].
  apply Forall_app. split; [done|]. by repeat constructor.
Qed.

(** *** One upload *)

(** What the retrier promises: at most one call more than it has delays, all but
    the last to be repeated, and no error only when a call had none. *)
Record retrier_laws : Prop := {
  run_calls : ∀ n put, (RunCtx n put).2 ≤ S n;
  run_retries : ∀ n put i, S i < (RunCtx n put).2 → Classify (put i) = Retry;
  run_success : ∀ n put, (RunCtx n put).1 = None → ∃ i, S i = (RunCtx n put).2 ∧ put i = None
}.

(** A batch is counted as uploaded only if the service took it, by its fourth
    call at the latest; a fatal error is stored only when the last call had it,
    and then the batch is counted as failed. *)
Lemma uploadWithRetry_spec items put c :
  retrier_laws →
  let c' := uploadWithRetry items put c in
  (successful c' ≠ successful c → ∃ i, i < 4 ∧ put i = None) ∧
  (fatal c = false → fatal c' = true → successful c' = successful c ∧ ∃ i, i < 4 ∧ Classify (put i) = GiveUp).
Proof using Type.
  intros [L1 L2 L3]. specialize (L1 3 put). specialize (L2 3 put). specialize (L3 3 put). unfold uploadWithRetry.
  destruct (RunCtx 3 put) as [[e|] calls]; cbn [fst snd successful fatal] in *.
  - split; [done|]. intros -> H. split; [done|]. simpl in H. apply existsb_exists in H as (i & Hi & H%bool_decide_eq_true).
    apply in_seq in Hi. exists i. split; [lia|done].
  - destruct (L3 eq_refl) as (i & Ei & Hp). split; [intros _; exists i; split; [lia|done]|]. intros -> H. simpl in H.
    apply existsb_exists in H as (j & Hj & H%bool_decide_eq_true). apply in_seq in Hj. exfalso.
    destruct (decide (S j = calls)) as [E|E]; [assert (j = i) as -> by lia; by rewrite Hp in H|].
    by rewrite L2 in H by lia.
Qed.

(** ** The workers *)

(** The batches that are still to be sent, those in the channel, the uploads
    that run, and the counters. *)
Record uploads := {
  unsent : list (list item);
  channel : list (list item);
  running : list (list item);
  runningWorkers : Z;
  peakWorkers : Z;
  counts : counters;
  returned : bool
}.

Inductive label :=
  (** [batch] sends; [upload] takes and starts a goroutine, or returns *)
  | Send | Take | Return
  (** worker number [i] ends, with these answers *)
  | Finish (i : nat) (put : nat → option put_error)
  (** [GetPeakWorkers] of the sampler *)
  | ReadPeak.

Definition channel_size : nat := 100.

Definition with_counts (s : uploads) (u c r : list (list item)) (w p : Z) (k : counters) (b : bool) : uploads :=
  {| unsent := u; channel := c; running := r; runningWorkers := w; peakWorkers := p; counts := k; returned := b |}.

Definition step (s : uploads) (l : label) : option uploads :=
  match l with
  | Send =>
      match unsent s with
      | b :: u => if (length (channel s) <? channel_size)%nat
                  then Some (with_counts s u (channel s ++ [b]) (running s) (runningWorkers s) (peakWorkers s) (counts s) (returned s))
                  else None
      | [] => None
      end
  | Take =>
      match channel s with
      | b :: c =>
          let w := int32 (runningWorkers s + 1) in
          Some (with_counts s (unsent s) c (running s ++ [b]) w (Z.max (peakWorkers s) w) (counts s) (returned s))
      | [] => None
      end
  | Finish i put =>
      match running s !! i with
      | Some b => Some (with_counts s (unsent s) (channel s) (delete i (running s)) (int32 (runningWorkers s - 1)) (peakWorkers s)
                          (uploadWithRetry b put (counts s)) (returned s))
      | None => None
      end
  (** the channel is closed and empty, and all workers are done *)
  | Return =>
      match unsent s, channel s, running s with
      | [], [], [] => if returned s then None else Some (with_counts s [] [] [] (runningWorkers s) (peakWorkers s) (counts s) true)
      | _, _, _ => None
      end
  | ReadPeak => Some (with_counts s (unsent s) (channel s) (running s) (runningWorkers s) 0 (counts s) (returned s))
  end.

Fixpoint steps (s : uploads) (ls : list label) : option uploads :=
  match ls with [] => Some s | l :: ls => step s l ≫= λ s, steps s ls end.

(** [LogRecordsToBigQuery] at its start. *)
Definition start (items : list item) (mb : Z) : uploads := {|
  unsent := batch items mb; channel := []; running := []; runningWorkers := 0; peakWorkers := 0;
  counts := {| successful := 0; failed := 0; fatal := false |}; returned := false |}.

(** *** Accounting *)

Definition records (bs : list (list item)) : Z := Z.of_nat (length (concat bs)).
Definition waiting (s : uploads) : Z := (records (unsent s) + records (channel s) + records (running s))%Z.

Definition accounted (n : Z) (s : uploads) : Prop :=
  (successful (counts s) + failed (counts s) + waiting s = n)%Z ∧
  (0 ≤ successful (counts s))%Z ∧ (0 ≤ failed (counts s))%Z ∧
  (returned s = true → unsent s = [] ∧ channel s = [] ∧ running s = []).

Lemma records_app b1 b2 : records (b1 ++ b2) = (records b1 + records b2)%Z.
Proof using Type. unfold records. rewrite concat_app, length_app. lia. Qed.

Lemma records_cons b bs : records (b :: bs) = (Z.of_nat (length b) + records bs)%Z.
Proof using Type. unfold records. simpl. rewrite length_app. lia. Qed.

Lemma records_nonneg bs : (0 ≤ records bs)%Z.
Proof using Type. unfold records. lia. Qed.

Lemma records_delete i bs b : bs !! i = Some b → records bs = (Z.of_nat (length b) + records (delete i bs))%Z.
Proof using Type.
  intros H. pose proof (take_drop_middle _ _ _ H) as E. rewrite <- E at 1. rewrite delete_take_drop, !records_app, records_cons. lia.
Qed.

Lemma upload_counts b put c :
  (0 ≤ successful c)%Z → (0 ≤ failed c)%Z → (successful c + failed c + Z.of_nat (length b) < 2 ^ 31)%Z →
  let c' := uploadWithRetry b put c in
  (successful c' + failed c' = successful c + failed c + Z.of_nat (length b))%Z ∧ (0 ≤ successful c')%Z ∧ (0 ≤ failed c')%Z.
Proof using Type.
  intros H1 H2 H3. unfold uploadWithRetry. destruct (RunCtx 3 put) as [[e|] calls]; cbn [successful failed];
    rewrite (int32_small (Z.of_nat (length b))) by lia; rewrite int32_small by lia; lia.
Qed.

Lemma step_accounted n s l s' : (n < 2 ^ 31)%Z → accounted n s → step s l = Some s' → accounted n s'.
Proof using Type.
  intros Hn (H1 & H2 & H3 & H4) E. unfold accounted, waiting in *. destruct l as [| | |i put|]; cbn [step] in E.
  - destruct (unsent s) as [|b u] eqn:Eu; [done|]. destruct (_ <? _)%nat; [|done]. injection E as <-. cbn.
    rewrite records_cons in H1. rewrite records_app, records_cons. change (records []) with 0%Z. split_and!; [lia|done|done|].
    intros Hr. destruct (H4 Hr). done.
  - destruct (channel s) as [|b c] eqn:Ec; [done|]. injection E as <-. cbn. rewrite records_cons in H1.
    rewrite records_app, records_cons. change (records []) with 0%Z. split_and!; [lia|done|done|].
    intros Hr. destruct (H4 Hr) as (_ & ? & _). done.
  - destruct (unsent s) eqn:Eu, (channel s) eqn:Ec, (running s) eqn:Er, (returned s) eqn:Ef; try done. injection E as <-. by split_and!.
  - destruct (running s !! i) as [b|] eqn:Ei; [|done]. injection E as <-. cbn. pose proof (records_delete _ _ _ Ei) as Ed.
    pose proof (records_nonneg (delete i (running s))). pose proof (records_nonneg (unsent s)). pose proof (records_nonneg (channel s)).
    destruct (upload_counts b put (counts s)) as (U1 & U2 & U3); [done|done|lia|]. split_and!; [lia|done|done|].
    intros Hr. destruct (H4 Hr) as (_ & _ & E0). by rewrite E0 in Ei.
  - injection E as <-. by split_and!.
Qed.

Lemma steps_accounted n s ls s' : (n < 2 ^ 31)%Z → accounted n s → steps s ls = Some s' → accounted n s'.
Proof using Type.
  intros Hn. revert s. induction ls as [|l ls IH]; intros s H E; simpl in E; [by injection E as <-|].
  destruct (step s l) as [s1|] eqn:E1; [|done]. simpl in E. eapply IH; [|exact E]. by eapply step_accounted.
Qed.

(** It can always go on: no state is stuck before the return. *)
Lemma upload_progress s : returned s = false → ∃ l s', l ≠ ReadPeak ∧ step s l = Some s'.
Proof using Type.
  intros Hr. destruct (running s) as [|b r] eqn:Er.
  - destruct (channel s) as [|b c] eqn:Ec.
    + destruct (unsent s) as [|b u] eqn:Eu.
      * exists Return. eexists. split; [done|]. simpl. by rewrite Eu, Ec, Er, Hr.
      * exists Send. eexists. split; [done|]. simpl. by rewrite Eu, Ec.
    + exists Take. eexists. split; [done|]. simpl. by rewrite Ec.
  - exists (Finish 0 (λ _, None)). eexists. split; [done|]. simpl. by rewrite Er.
Qed.

(** The steps that are left, and those of a run; the sampler's do not count. *)
Definition left (s : uploads) : nat :=
  3 * length (unsent s) + 2 * length (channel s) + length (running s) + (if returned s then 0 else 1).

Definition works (l : label) : nat := match l with ReadPeak => 0 | _ => 1 end.

Lemma left_after s l s' : step s l = Some s' → left s = works l + left s'.
Proof using Type.
  unfold left. destruct l as [| | |i put|]; cbn [step works].
  - destruct (unsent s); [done|]. destruct (_ <? _)%nat; [|done]. intros [= <-]. cbn. rewrite length_app. simpl. lia.
  - destruct (channel s); [done|]. intros [= <-]. cbn. rewrite length_app. simpl. lia.
  - destruct (unsent s), (channel s), (running s), (returned s); try done. intros [= <-]. done.
  - destruct (running s !! i) as [b|] eqn:Ei; [|done]. intros [= <-]. cbn.
    pose proof (length_delete (running s) i (mk_is_Some _ _ Ei)). pose proof (lookup_lt_Some _ _ _ Ei). lia.
  - intros [= <-]. done.
Qed.

Lemma steps_left s ls s' : steps s ls = Some s' → left s = sum_list (works <$> ls) + left s'.
Proof using Type.
  revert s. induction ls as [|l ls IH]; intros s E; simpl in E; [by injection E as <-|].
  destruct (step s l) as [s1|] eqn:E1; [|done]. simpl in E. apply left_after in E1. apply IH in E.
  rewrite fmap_cons. change (sum_list (works l :: (works <$> ls))) with (works l + sum_list (works <$> ls)). lia.
Qed.


End batches.

(** ** The log that feeds the upload *)

(** Of [Logger]: whether it is open, its channels, and whether its goroutine is
    about to send the record of an action that has ended. *)
Record log_channels := { open : bool; ch_closed : bool; items_closed : bool; sending : bool }.

Definition new_logger : log_channels := {| open := true; ch_closed := false; items_closed := false; sending := false |}.

Inductive log_label :=
  (** [Log]: an event is handed over, when the goroutine takes one *)
  | LogEnd
  (** [endActionEvent.apply] sends the record *)
  | SendItem
  (** the steps of [CloseAndAggregate] *)
  | CloseCh | CloseItems.

(** A send on a closed channel panics, so does closing it again. *)
Definition log_step (l : log_channels) (a : log_label) : option (res log_channels) :=
  match a with
  | LogEnd => if open l && negb (sending l)
              then Some (Ok {| open := true; ch_closed := ch_closed l; items_closed := items_closed l; sending := true |}) else None
  | SendItem => if sending l
                then Some (if items_closed l then Panic
                           else Ok {| open := open l; ch_closed := ch_closed l; items_closed := items_closed l; sending := false |})
                else None
  | CloseCh => if open l then Some (Ok {| open := false; ch_closed := true; items_closed := items_closed l; sending := sending l |}) else None
  | CloseItems => if open l then None
                  else Some (if items_closed l then Panic
                             else Ok {| open := false; ch_closed := ch_closed l; items_closed := true; sending := sending l |})
  end.

Fixpoint log_steps (l : log_channels) (ls : list log_label) : option (res log_channels) :=
  match ls with
  | [] => Some (Ok l)
  | a :: ls => match log_step l a with Some (Ok l) => log_steps l ls | r => r end
  end.

(** The channel is closed once at most, and only when no record is on its way. *)
Fixpoint careful (closed sending : bool) (ls : list log_label) : bool :=
  match ls with
  | [] => true
  | LogEnd :: ls => careful closed true ls
  | SendItem :: ls => careful closed false ls
  | CloseCh :: ls => careful closed sending ls
  | CloseItems :: ls => negb closed && negb sending && careful true sending ls
  end.

(** Then nothing panics. *)
Lemma careful_close ls l :
  (items_closed l = true → open l = false ∧ sending l = false) → careful (items_closed l) (sending l) ls = true →
  log_steps l ls ≠ Some Panic.
Proof.
  revert l. induction ls as [|a ls IH]; intros l Hi Hc; [done|]. destruct l as [o c i b], a, o, c, i, b; simpl in *; try done;
    try (by destruct (Hi eq_refl)); try (apply IH; simpl; [naive_solver|done]).
Qed.

(** ** On concrete records *)

Module Concrete.

(** A record is its size. *)
Definition Marshal (n : Z) : res Z := if (n =? 13)%Z then Fail (EMsg "marshal") else Ok n.

Example batches :
  batch Marshal [3000000; 4000000; 2000000; 9000000; 13; 1]%Z 8 = [[3000000; 4000000]; [2000000; 1]]%Z ∧
  batch Marshal [] 8 = [[]].
Proof. split; vm_compute; reflexivity. Qed.

Fixpoint run_from (k n : nat) (put : nat → option put_error) : option put_error * nat :=
  match Classify (put k), n with
  | Retry, S n => run_from (S k) n put
  | _, _ => (put k, S k)
  end.
Definition RunCtx (n : nat) (put : nat → option put_error) : option put_error * nat := run_from 0 n put.

Lemma RunCtx_laws : retrier_laws RunCtx.
Proof.
  assert (∀ n k put, let r := run_from k n put in
    k < r.2 ≤ S (k + n) ∧ (∀ i, k ≤ i → S i < r.2 → Classify (put i) = Retry) ∧ (r.1 = None → ∃ i, S i = r.2 ∧ put i = None)) as H.
  { induction n as [|n IH]; intros k put; cbn [run_from].
    - destruct (Classify (put k)); (split; [simpl; lia|]); (split; [intros; simpl in *; lia|]); intros E; by exists k.
    - destruct (Classify (put k)) eqn:Ec.
      1,3: (split; [simpl; lia|]); (split; [intros; simpl in *; lia|]); intros E; by exists k.
      destruct (IH (S k) put) as (H1 & H2 & H3). split; [simpl in *; lia|]. split; [|exact H3].
      intros i Hi. destruct (decide (i = k)) as [->|Hne]; [done|apply H2; lia]. }
  split; intros n put; destruct (H n 0 put) as (H1 & H2 & H3); unfold RunCtx; [simpl in *; lia|intros i; apply H2; lia|done].
Qed.

Definition busy : put_error := APIError 503.

Example retried :
  uploadWithRetry RunCtx [1; 2]%Z (λ i, if (i <? 3)%nat then Some busy else None) {| successful := 5; failed := 0; fatal := false |} =
    {| successful := 7; failed := 0; fatal := false |} ∧
  uploadWithRetry RunCtx [1; 2]%Z (λ _, Some busy) {| successful := 5; failed := 0; fatal := false |} =
    {| successful := 5; failed := 2; fatal := false |} ∧
  uploadWithRetry RunCtx [1; 2]%Z (λ _, Some (APIError 403)) {| successful := 5; failed := 0; fatal := false |} =
    {| successful := 5; failed := 2; fatal := true |}.
Proof. split_and!; reflexivity. Qed.

Definition run : list label := [Send; Take; Send; Take; Finish 1 (λ _, None); Finish 0 (λ _, Some OtherError); Return].

Example uploaded :
  (λ s : uploads, (counts s, runningWorkers s, peakWorkers s)) <$> steps RunCtx (start Marshal [3000000; 4000000; 2000000; 9000000; 13; 1]%Z 8) run =
  Some ({| successful := 2; failed := 2; fatal := true |}, 0%Z, 2%Z).
Proof. vm_compute. reflexivity. Qed.

(** The log is closed while its goroutine handles the last action: the send on
    the closed channel ends the process. *)
Example close_panics : log_steps new_logger [LogEnd; CloseCh; CloseItems; SendItem] = Some Panic.
Proof. reflexivity. Qed.

(** So does a second close. *)
Example close_twice : log_steps new_logger [CloseCh; CloseItems; CloseItems] = Some Panic.
Proof. reflexivity. Qed.

Example specs :
  parseResourceSpec "p:d.t" "q" = Ok ("p", "d", "t") ∧ parseResourceSpec "d.t" "q" = Ok ("q", "d", "t") ∧
  parseResourceSpec "d.t" "" = Fail (EMsg "project not specified") ∧ parseResourceSpec "google.com:p:d.t" "q" = Fail bad_spec.
Proof. split_and!; reflexivity. Qed.

End Concrete.


End BigQuery.
