(* ===== verification/TarFS.v ===== *)
(** * Files inside a tar file: [internal/pkg/tarfs/tarfs.go]

    The members of an archive as the standard library hands them out, the file
    system that is made of them, and its open files.  A read changes the offset
    of the open file alone. *)
From S2P Require Import Prelude GoStrings GoPath.

Module TarFS.

(** ** The archive *)

Inductive typeflag := TypeDir | TypeReg | TypeOther (n : Z).

#[export] Instance typeflag_eq_dec : EqDecision typeflag.
Proof. solve_decision. Defined.

Record header := { Name : string; Typeflag : typeflag; Mode : Z }.

(** What [tar.Reader] gives: the header of the next member, then what a copy of
    its contents yields. *)
Record member := { hdr : header; copied : res string }.

(** The members, and the error that ends them instead of the end of the file. *)
Record tar_data := { members : list member; ended : option error }.

(** ** Files *)

Record FileInTar := { path : string; data : string; mode : Z; mtime : Z; isDir : bool; curReadOffset : nat }.

Notation TarFS := (gmap string FileInTar).

Definition NewOpenFile (f : FileInTar) : FileInTar :=
  {| path := path f; data := data f; mode := mode f; mtime := mtime f; isDir := isDir f; curReadOffset := 0 |}.

Definition Open (t : TarFS) (name : string) : res FileInTar :=
  match t !! name with Some f => Ok (NewOpenFile f) | None => Fail ENotExist end.

(** [Read] into a buffer of [p] bytes: what was read, or the end of the file. *)
Definition Read (f : FileInTar) (p : nat) : res string * FileInTar :=
  if (String.length (data f) <=? curReadOffset f)%nat then (Fail EEOF, f)
  else
    let endIdx := Nat.min (String.length (data f)) (curReadOffset f + p) in
    let got := str_take (endIdx - curReadOffset f) (str_drop (curReadOffset f) (data f)) in
    (Ok got, {| path := path f; data := data f; mode := mode f; mtime := mtime f; isDir := isDir f;
                curReadOffset := curReadOffset f + String.length got |}).

Definition Close (f : FileInTar) : FileInTar :=
  {| path := path f; data := ""; mode := mode f; mtime := mtime f; isDir := isDir f; curReadOffset := 0 |}.

Definition FileName (f : FileInTar) : string := Filepath.Base (path f).
Definition Size (f : FileInTar) : Z := Z.of_nat (String.length (data f)).

(** [now i] is the time at which member [i] was read. *)
Fixpoint add_members (now : nat → Z) (i : nat) (ms : list member) (t : TarFS) : res TarFS :=
  match ms with
  | [] => Ok t
  | m :: ms =>
      let p := Filepath.Clean (Name (hdr m)) in
      let add d dir := <[p := {| path := Filepath.Base p; data := d; mode := Mode (hdr m); mtime := now i; isDir := dir; curReadOffset := 0 |}]> t in
      match Typeflag (hdr m) with
      | TypeDir => add_members now (S i) ms (add "" true)
      | TypeReg => match copied m with
                   | Ok d => add_members now (S i) ms (add d false)
                   | Fail e => Fail (EMsg "could not copy file data")
                   | Panic => Panic
                   end
      | TypeOther _ => Fail (EMsg "unknown type")
      end
  end.

Definition NewTarFSFromBytes (now : nat → Z) (tar : tar_data) : res TarFS :=
  let? t := add_members now 0 (members tar) ∅ in
  match ended tar with Some _ => Fail (EMsg "could not read tar file") | None => Ok t end.

(** ** Reading a file to its end

    What every reader of a file does: read into buffers, of sizes of its
    choice, until the end is reported. *)
Fixpoint read_all (bufs : list nat) (f : FileInTar) : option string :=
  match bufs with
  | [] => None
  | p :: bufs => match Read f p with
                 | (Ok s, f) => (λ rest, s +:+ rest) <$> read_all bufs f
                 | _ => Some ""
                 end
  end.

Lemma str_drop_drop n m s : str_drop n (str_drop m s) = str_drop (m + n) s.
Proof. revert s. induction m as [|m IH]; intros [|c s]; simpl; [done..| |apply IH]. by destruct n. Qed.

Lemma str_drop_none n s : String.length s ≤ n → str_drop n s = "".
Proof. revert n. induction s as [|c s IH]; intros [|n] H; simpl in *; [done..|lia|]. apply IH. lia. Qed.

(** Buffers that are not empty: enough of them yield what is left of the file,
    however large they are. *)
Lemma read_all_spec bufs f :
  Forall (λ p, 0 < p) bufs → String.length (data f) - curReadOffset f < length bufs →
  read_all bufs f = Some (str_drop (curReadOffset f) (data f)).
Proof.
  revert f. induction bufs as [|p bufs IH]; intros f Hp Hl; simpl in Hl; [lia|]. apply Forall_cons in Hp as [H0 Hp].
  simpl. unfold Read. destruct (Nat.leb_spec (String.length (data f)) (curReadOffset f)) as [H|H]; [by rewrite str_drop_none by done|].
  set (n := Nat.min (String.length (data f)) (curReadOffset f + p) - curReadOffset f).
  assert (String.length (str_take n (str_drop (curReadOffset f) (data f))) = n) as En.
  { rewrite str_take_length, str_drop_length. lia. }
  rewrite IH; cbn [data curReadOffset]; [|done|rewrite En; lia]. simpl. f_equal.
  rewrite En, <- str_drop_drop. apply str_take_drop.
Qed.

(** *** What was put in is read back *)

(** The last member of a name is the file of that name. *)
Fixpoint member_of (p : string) (ms : list member) : option member :=
  match ms with
  | [] => None
  | m :: ms => match member_of p ms with
               | Some m' => Some m'
               | None => if decide (Filepath.Clean (Name (hdr m)) = p) then Some m else None
               end
  end.

Definition contents (m : member) : string :=
  match Typeflag (hdr m), copied m with TypeReg, Ok d => d | _, _ => "" end.

(** The file of a member, but for its time. *)
Definition of_member (p : string) (m : member) (f : FileInTar) : Prop :=
  path f = Filepath.Base p ∧ data f = contents m ∧ mode f = Mode (hdr m) ∧
  isDir f = bool_decide (Typeflag (hdr m) = TypeDir) ∧ curReadOffset f = 0.

Lemma add_members_spec now ms i t t' p :
  add_members now i ms t = Ok t' →
  match member_of p ms with Some m => ∃ f, t' !! p = Some f ∧ of_member p m f | None => t' !! p = t !! p end.
Proof.
  revert i t. induction ms as [|m ms IH]; intros i t E; simpl in E; [by injection E as <-|]. simpl.
  assert (∀ d dir, add_members now (S i) ms (<[Filepath.Clean (Name (hdr m)) := {| path := Filepath.Base (Filepath.Clean (Name (hdr m)));
      data := d; mode := Mode (hdr m); mtime := now i; isDir := dir; curReadOffset := 0 |}]> t) = Ok t' →
    d = contents m → dir = bool_decide (Typeflag (hdr m) = TypeDir) →
    match (match member_of p ms with Some m' => Some m' | None => if decide (Filepath.Clean (Name (hdr m)) = p) then Some m else None end) with
    | Some m => ∃ f, t' !! p = Some f ∧ of_member p m f | None => t' !! p = t !! p end) as H.
  { intros d dir E' -> ->. specialize (IH _ _ E'). destruct (member_of p ms); [exact IH|]. rewrite IH. destruct (decide (Filepath.Clean (Name (hdr m)) = p)) as [Hp|Hp].
    - rewrite Hp. eexists. split; [apply lookup_insert_eq|]. by split_and!.
    - by rewrite lookup_insert_ne. }
  unfold contents in H. destruct (Typeflag (hdr m)) eqn:Et; [|destruct (copied m) eqn:Ec|done]; try done;
    (eapply H; [exact E|reflexivity|reflexivity]).
Qed.

(** Whatever is in the archive comes out of it: a name opens if and only if a
    member has it, and reads give the contents of the last such member, whoever
    else reads it. *)
Theorem Open_reads now tar t name bufs :
  NewTarFSFromBytes now tar = Ok t →
  match member_of name (members tar) with
  | None => Open t name = Fail ENotExist
  | Some m => ∃ f, Open t name = Ok f ∧ Size f = Z.of_nat (String.length (contents m)) ∧
      (Forall (λ p, 0 < p) bufs → String.length (contents m) < length bufs → read_all bufs f = Some (contents m))
  end.
Proof.
  unfold NewTarFSFromBytes. destruct (add_members now 0 (members tar) ∅) as [t'|e|] eqn:E; try done. simpl.
  destruct (ended tar); [done|]. intros [= ->]. apply (add_members_spec _ _ _ _ _ name) in E. unfold Open.
  destruct (member_of name (members tar)) as [m|]; [|by rewrite E, lookup_empty].
  destruct E as (f & -> & _ & Hd & _ & _ & Ho). exists (NewOpenFile f). split; [done|]. unfold Size. cbn [data NewOpenFile]. rewrite Hd.
  split; [done|]. intros Hp Hl. rewrite read_all_spec; cbn [data curReadOffset NewOpenFile]; rewrite ?Hd; [done|done|lia].
Qed.

(** ** On a concrete archive *)

Module Concrete.

Definition archive : tar_data := {|
  members := [ {| hdr := {| Name := "d/"; Typeflag := TypeDir; Mode := 493 |}; copied := Ok "" |};
               {| hdr := {| Name := "./d/f"; Typeflag := TypeReg; Mode := 420 |}; copied := Ok "old" |};
               {| hdr := {| Name := "d/f"; Typeflag := TypeReg; Mode := 420 |}; copied := Ok "contents" |} ];
  ended := None |}.

Definition opened (name : string) : res FileInTar :=
  let? t := NewTarFSFromBytes (λ i, Z.of_nat i) archive in Open t name.

Example reads :
  (let? f := opened "d/f" in mret (FileName f, mtime f, read_all [3; 1; 9; 2] f)) = Ok ("f", 2%Z, Some "contents") ∧
  (let? f := opened "d" in mret (isDir f, read_all [3] f)) = Ok (true, Some "") ∧
  (let? f := opened "d/f" in mret (fst (Read (Close f) 3))) = Ok (Fail EEOF) ∧
  opened "./d/f" = Fail ENotExist.
Proof. split_and!; vm_compute; reflexivity. Qed.

(** A link ends the whole archive. *)
Example link_refused :
  NewTarFSFromBytes (λ _, 0%Z) {| members := [{| hdr := {| Name := "l"; Typeflag := TypeOther 50; Mode := 0 |}; copied := Ok "" |}]; ended := None |}
  = Fail (EMsg "unknown type").
Proof. reflexivity. Qed.

End Concrete.

End TarFS.
