(* ===== verification/Auth.v ===== *)
(** * How the proxy authenticates: [internal/pkg/auth/auth.go]

    The mechanism that the flags ask for, and whether the default credentials of
    an application are still good.  The library that fetches tokens is a
    parameter: what it answers is an argument. *)
From S2P Require Import Prelude GoStrings.

Module Auth.

(** ** Exit codes and mechanisms *)

Definition ExitCodeNoAuth : Z := 14.
Definition ExitCodeAppDefCredsAuth : Z := 10.

Inductive Mechanism := Unknown | ADC | GCE | CredentialFile | None_.

#[export] Instance Mechanism_eq_dec : EqDecision Mechanism.
Proof. solve_decision. Defined.

Definition Mechanism_String (m : Mechanism) : string :=
  match m with
  | Unknown => "Unknown"
  | ADC => "ADC"
  | GCE => "GCE"
  | CredentialFile => "CredentialFile"
  | None_ => "None"
  end.

Definition UseAppDefaultCredsFlag : string := "use_application_default_credentials".
Definition UseExternalTokenFlag : string := "use_external_auth_token".
Definition UseGCECredsFlag : string := "use_gce_credentials".
Definition ServiceNoAuthFlag : string := "service_no_auth".
Definition CredentialFileFlag : string := "credential_file".

Definition boolAuthFlags : list string := [UseAppDefaultCredsFlag; UseGCECredsFlag; UseExternalTokenFlag; ServiceNoAuthFlag].
Definition stringAuthFlags : list string := [CredentialFileFlag].

(** The errors: those of the flags, joined, and the one that has an exit code. *)
Inductive auth_error := BadFlags (msgs : list string) | NoMechanism (vals : gmap string bool) (ExitCode : Z).

(** ** Flags

    [flag.Lookup]: the value of a flag that is registered. *)
Definition flags : Type := string → option string.

Definition boolFlagVal (lookup : flags) (flagName : string) : bool + string :=
  match lookup flagName with
  | Some v =>
      if (v =? "")%string then inl false
      else match ParseBool v with
           | Ok b => inl b
           | _ => inr ("unable to parse boolean flag --" +:+ flagName)
           end
  | None => inl false
  end.

(** The loop over the boolean flags: values and errors. *)
Definition bool_step (lookup : flags) (s : gmap string bool * list string) (name : string) : gmap string bool * list string :=
  match boolFlagVal lookup name with
  | inl b => (<[name := b]> s.1, s.2)
  | inr e => (<[name := false]> s.1, s.2 ++ [e])
  end.

Definition string_step (lookup : flags) (vals : gmap string bool) (name : string) : gmap string bool :=
  <[name := match lookup name with Some v => negb (v =? "")%string | None => false end]> vals.

Definition MechanismFromFlags (lookup : flags) : Mechanism * option auth_error :=
  let '(vals, errs) := foldl (bool_step lookup) (∅, []) boolAuthFlags in
  if (0 <? length errs)%nat then (Unknown, Some (BadFlags errs))
  else
    let vals := foldl (string_step lookup) vals stringAuthFlags in
    let val name := default false (vals !! name) in
    if val ServiceNoAuthFlag then (None_, None)
    else if val CredentialFileFlag then (CredentialFile, None)
    else if val UseAppDefaultCredsFlag then (ADC, None)
    else if val UseGCECredsFlag then (GCE, None)
    else (Unknown, Some (NoMechanism vals ExitCodeNoAuth)).

(** ** The state of the default credentials *)

(** Why no token was given: an error of its own kind may be temporary, and wraps
    what the server said, with the error and its subtype when that is JSON. *)
Inductive token_error :=
  | OtherTokenError
  | AuthenticationError (Temporary : bool) (wrapped : option (option (string * string))).

Inductive adc :=
  (** no credentials, no token, a token that is valid or not and its expiry *)
  | NoCredentials
  | NoToken (e : token_error)
  | Token (Valid : bool) (Expiry : Z).

Definition not_valid : error := EMsg "could not get valid Application Default Credentials token".
Definition reauth : error := EMsg "reauth required, run `gcloud auth application-default login` and try again".

(** [0] is the zero time. *)
Definition checkADCStatus (a : adc) : res Z :=
  match a with
  | NoCredentials => Fail (EMsg "could not find Application Default Credentials")
  | NoToken OtherTokenError => Fail not_valid
  | NoToken (AuthenticationError true _) => Ok 0%Z
  | NoToken (AuthenticationError false None) => Fail not_valid
  | NoToken (AuthenticationError false (Some resp)) =>
      match resp with
      | Some (e, sub) => if (e =? "invalid_grant")%string && (sub =? "invalid_rapt")%string then Fail reauth else Fail not_valid
      | None => Fail not_valid
      end
  | Token v exp => if v then Ok exp else Fail not_valid
  end.

Definition UpdateStatus (m : Mechanism) (a : adc) : Z * option error :=
  if decide (m = ADC) then
    match checkADCStatus a with
    | Fail _ => (ExitCodeAppDefCredsAuth, Some (EMsg "application default credentials were invalid"))
    | _ => (0%Z, None)
    end
  else (0%Z, None).

(** ** What decides *)

(** A flag as it counts: set to true, or set at all. *)
Definition on (lookup : flags) (name : string) : bool :=
  match lookup name with Some v => bool_decide (ParseBool v = Ok true) | None => false end.
Definition given (lookup : flags) (name : string) : bool :=
  match lookup name with Some v => negb (v =? "")%string | None => false end.
Definition bad (lookup : flags) (name : string) : bool :=
  match lookup name with Some v => negb (v =? "")%string && negb (is_ok (ParseBool v)) | None => false end.

Lemma boolFlagVal_cases lookup name :
  boolFlagVal lookup name = if bad lookup name then inr ("unable to parse boolean flag --" +:+ name) else inl (on lookup name).
Proof.
  unfold boolFlagVal, bad, on. destruct (lookup name) as [v|]; [|done]. destruct (String.eqb_spec v "") as [->|_]; [reflexivity|].
  assert (ParseBool v ≠ Panic) as Hp by (unfold ParseBool; repeat case_match; done).
  destruct (ParseBool v) as [[]|e|]; simpl; try done.
Qed.

(** The first of the four ways that is asked for is taken, in this order: none,
    a file, the default credentials, those of the machine.  One flag that is no
    boolean refuses them all, and every such flag is named.  A token from
    outside is no mechanism of its own. *)
Theorem MechanismFromFlags_spec lookup :
  let wrong := List.filter (bad lookup) boolAuthFlags in
  let r := MechanismFromFlags lookup in
  if (0 <? length wrong)%nat then r = (Unknown, Some (BadFlags ((λ n, "unable to parse boolean flag --" +:+ n) <$> wrong)))
  else if on lookup ServiceNoAuthFlag then r = (None_, None)
  else if given lookup CredentialFileFlag then r = (CredentialFile, None)
  else if on lookup UseAppDefaultCredsFlag then r = (ADC, None)
  else if on lookup UseGCECredsFlag then r = (GCE, None)
  else ∃ vals, r = (Unknown, Some (NoMechanism vals ExitCodeNoAuth)).
Proof.
  unfold MechanismFromFlags. unfold boolAuthFlags. cbn [foldl List.filter]. unfold bool_step. rewrite !boolFlagVal_cases.
  destruct (bad lookup UseAppDefaultCredsFlag), (bad lookup UseGCECredsFlag), (bad lookup UseExternalTokenFlag),
    (bad lookup ServiceNoAuthFlag); try reflexivity.
  cbn [fst snd length Nat.ltb Nat.leb app foldl stringAuthFlags]. unfold string_step. fold (given lookup CredentialFileFlag).
  destruct (on lookup UseAppDefaultCredsFlag), (on lookup UseGCECredsFlag), (on lookup UseExternalTokenFlag),
    (on lookup ServiceNoAuthFlag), (given lookup CredentialFileFlag); (reflexivity || by eexists).
Qed.

(** Credentials are reported as bad, with their exit code, only for the mechanism
    that uses them, and never for an error that may pass. *)
Lemma UpdateStatus_spec m a :
  UpdateStatus m a = (ExitCodeAppDefCredsAuth, Some (EMsg "application default credentials were invalid")) ↔
  m = ADC ∧ match a with Token v _ => v = false | NoToken (AuthenticationError t _) => t = false | _ => True end.
Proof.
  unfold UpdateStatus. case_decide as H; [|naive_solver]. destruct a as [|[|t w]|v e]; simpl.
  - naive_solver.
  - naive_solver.
  - destruct t; [naive_solver|]. destruct w as [[[x y]|]|]; simpl; [destruct ((x =? _)%string && _)|..]; naive_solver.
  - destruct v; naive_solver.
Qed.

(** ** Concrete flags *)

Definition of_list (l : list (string * string)) : flags := λ n, (list_to_map l : gmap string string) !! n.

Example chosen :
  MechanismFromFlags (of_list [(CredentialFileFlag, "f"); (UseGCECredsFlag, "true")]) = (CredentialFile, None) ∧
  MechanismFromFlags (of_list [(CredentialFileFlag, ""); (UseGCECredsFlag, "T")]) = (GCE, None) ∧
  MechanismFromFlags (of_list [(UseGCECredsFlag, "yes"); (ServiceNoAuthFlag, "1"); (UseExternalTokenFlag, "2")]) =
    (Unknown, Some (BadFlags ["unable to parse boolean flag --use_gce_credentials"; "unable to parse boolean flag --use_external_auth_token"])) ∧
  (MechanismFromFlags (of_list [(UseExternalTokenFlag, "true")])).1 = Unknown.
Proof. split_and!; vm_compute; reflexivity. Qed.

End Auth.
