(* ===== verification/CollectLogs.v ===== *)
(** * Collecting the logs of a build: [internal/pkg/collectlogfiles/collectlogfiles.go]

    The logs of some directories, and the log that a flag names, go into an
    archive or to the storage of the remote service. *)
From S2P Require Import Prelude GoStrings GoPath GoFS GoGlob PathTranslator Logger.

Module CollectLogs.

(** ** Which files are logs *)

Definition glogGlobs (binaries : list string) : list string :=
  binaries ≫= λ binary,
    [binary +:+ ".INFO"; binary +:+ ".WARNING"; binary +:+ ".ERROR";
     binary +:+ ".exe.INFO"; binary +:+ ".exe.WARNING"; binary +:+ ".exe.ERROR";
     binary +:+ ".*.log.INFO.*"; binary +:+ ".*.log.WARNING.*"; binary +:+ ".*.log.ERROR.*"].

Definition logFileGlobs : list string :=
  ["rbe_metrics.txt"; "rbe_metrics.pb"; "*.rpl"; "*.rrpl"; "reproxy_outerr.log"; "build.trace.gz"] ++
  glogGlobs ["bootstrap"; "credshelper"; "reproxy"; "rewrapper"; "scandeps_server"; "scandeps_server-subproc"; "metricsuploader"].

Definition collectLogFilesFromDir (f : fs) (logDir : string) : list string :=
  foldl (λ logFiles glob, match Glob.Glob f (Filepath.Join [logDir; glob]) with Ok files => logFiles ++ files | _ => logFiles end)
    [] logFileGlobs.

(** ** The archive *)

(** The writes of the archive that fail: the member with this number, the end of
    the archive, that of its compression, that of its file. *)
Record write_errors := {
  member_err : nat → option error;
  tw_close : option error;
  zw_close : option error;
  file_close : option error
}.

(** The members in turn, until one cannot be read or written. *)
Fixpoint add_files (f : fs) (w : write_errors) (i : nat) (files : list string) : option error * list (string * string) :=
  match files with
  | [] => (None, [])
  | p :: files =>
      match OS.ReadFile f p with
      | Ok c => match member_err w i with
                | Some e => (Some e, [])
                | None => let '(e, l) := add_files f w (S i) files in (e, (p, c) :: l)
                end
      | Fail e => (Some e, [])
      | Panic => (None, [])
      end
  end.

(** A deferred close keeps the error that is there. *)
Definition close (err cerr : option error) : option error := match err with None => cerr | Some _ => err end.

(** The files that go into the archive. *)
Definition log_files (f : fs) (logDirs : list string) (logPath : string) : res (list string) :=
  let logFiles := logDirs ≫= collectLogFilesFromDir f in
  if (logPath =? "")%string then Ok logFiles
  else let? fp := Logger.ParseFilepath logPath in
       Ok (if is_ok (OS.Stat f fp.2) then logFiles ++ [fp.2] else logFiles).

(** The error and what the archive holds; [create] is what opening it gives. *)
Definition CreateLogsArchive (f : fs) (create : option error) (w : write_errors) (logDirs : list string) (logPath : string)
    : option error * list (string * string) :=
  match log_files f logDirs logPath with
  | Ok logFiles =>
      if (length logFiles <? 1)%nat then (Some (EMsg "unable to find log files. Try again by specifying proxy_log_dir"), [])
      else match create with
           | Some e => (Some e, [])
           | None => let '(err, l) := add_files f w 0 logFiles in
                     (close (close (close err (tw_close w)) (zw_close w)) (file_close w), l)
           end
  | Fail e => (Some e, [])
  | Panic => (None, [])
  end.

(** ** Directories

    How the operating system resolves links and makes a path absolute. *)
Section dirs.

Variable EvalSymlinks : string → res string.
Variable Abs : string → res string.

Definition toAbsRealPath (path : string) : res string := let? noSym := EvalSymlinks path in Abs noSym.

(** The loop's state: [seen] and [out]. *)
Definition dedup_step (s : gmap string bool * list string) (logDir : string) : gmap string bool * list string :=
  match toAbsRealPath logDir with
  | Ok absLogDir => if default false (s.1 !! absLogDir) then s else (<[absLogDir := true]> s.1, s.2 ++ [absLogDir])
  | _ => s
  end.

Definition DeduplicateDirs (dirs : list string) : list string := (foldl dedup_step (∅, []) dirs).2.

(** *** No directory twice *)

Definition dedup_inv (done : list string) (s : gmap string bool * list string) : Prop :=
  NoDup s.2 ∧ (∀ d, d ∈ s.2 ↔ ∃ p, p ∈ done ∧ toAbsRealPath p = Ok d) ∧ (∀ d, s.1 !! d = Some true ↔ d ∈ s.2) ∧
  (∀ d b, s.1 !! d = Some b → b = true).

Lemma dedup_step_inv done s p : dedup_inv done s → dedup_inv (done ++ [p]) (dedup_step s p).
Proof using Type.
  intros (H1 & H2 & H3 & H4). unfold dedup_step. destruct (toAbsRealPath p) as [d|e|] eqn:E.
  2-3: (split_and!; [done| |done|done]; intros d; rewrite H2; split; [intros (q & Hq & Eq); exists q; split; [set_solver|done]|];
    intros (q & [Hq| ->%list_elem_of_singleton]%elem_of_app & Eq); [by exists q|congruence]).
  destruct (s.1 !! d) as [b|] eqn:Ed; simpl.
  - rewrite (H4 _ _ Ed) in Ed |- *. split_and!; [done| |done|done]. intros d'. rewrite H2. split.
    + intros (q & Hq & Eq). exists q. split; [set_solver|done].
    + intros (q & [Hq| ->%list_elem_of_singleton]%elem_of_app & Eq); [by exists q|]. rewrite <- H2. apply H3. congruence.
  - assert (d ∉ s.2) as Hn by (intros Hd%H3; congruence). unfold dedup_inv. cbn [fst snd]. split_and!.
    + apply NoDup_app. split_and!; [done|set_solver|apply NoDup_singleton].
    + intros d'. rewrite elem_of_app, H2, list_elem_of_singleton. split.
      * intros [(q & Hq & Eq)| ->]; [exists q|exists p]; (split; [set_solver|done]).
      * intros (q & [Hq| ->%list_elem_of_singleton]%elem_of_app & Eq); [left; by exists q|right; congruence].
    + intros d'. rewrite elem_of_app, list_elem_of_singleton. destruct (decide (d' = d)) as [->|Hne].
      * rewrite lookup_insert_eq. naive_solver.
      * rewrite lookup_insert_ne by done. rewrite H3. naive_solver.
    + intros d' b. destruct (decide (d' = d)) as [->|Hne]; [rewrite lookup_insert_eq; congruence|].
      rewrite lookup_insert_ne by done. apply H4.
Qed.

Lemma foldl_inv {S A} (step : S → A → S) (I : list A → S → Prop) l done s :
  (∀ done s a, I done s → I (done ++ [a]) (step s a)) → I done s → I (done ++ l) (foldl step s l).
Proof using Type.
  intros Hs. revert done s. induction l as [|a l IH]; intros done s H; [by rewrite app_nil_r|].
  simpl. replace (done ++ a :: l) with ((done ++ [a]) ++ l) by (by rewrite <- app_assoc). by apply IH, Hs.
Qed.

(** The directories that can be resolved, each once. *)
Lemma DeduplicateDirs_spec dirs :
  NoDup (DeduplicateDirs dirs) ∧ ∀ d, d ∈ DeduplicateDirs dirs ↔ ∃ p, p ∈ dirs ∧ toAbsRealPath p = Ok d.
Proof using Type.
  unfold DeduplicateDirs. destruct (foldl_inv dedup_step dedup_inv dirs [] (∅, [])) as (H1 & H2 & _); [apply dedup_step_inv| |done].
  split_and!; [constructor| | |]; simpl.
  - intros d. split; [by intros ?%not_elem_of_nil|]. intros (q & ?%not_elem_of_nil & _). done.
  - intros d. rewrite lookup_empty. split; [done|by intros ?%not_elem_of_nil].
  - intros d b. by rewrite lookup_empty.
Qed.

End dirs.

(** ** The storage of the remote service *)
Section upload.

Variable EvalSymlinks : string → res string.
Variable Abs : string → res string.

Context {entry : Type}.
(** The tree of some files of a directory, by the client library: its digest and
    what has to be uploaded for it. *)
Variable ComputeMerkleTree : string → list string → res (string * list entry).
Variable UploadIfMissing : list entry → res unit.

Record LogDirectory := { ld_Path : string; ld_Digest : string }.

(** The directories and entries so far, and the trees that were asked for. *)
Record upload_state := { lds : list LogDirectory; allInputs : list entry; asked : list (string * list string) }.

Definition appendRootDigests (s : upload_state) (dir : string) (files : list string) : upload_state :=
  match ComputeMerkleTree dir files with
  | Ok (root, inputs) => {| lds := lds s ++ [{| ld_Path := dir; ld_Digest := root |}]; allInputs := allInputs s ++ inputs;
                            asked := asked s ++ [(dir, files)] |}
  | _ => {| lds := lds s; allInputs := allInputs s; asked := asked s ++ [(dir, files)] |}
  end.

(** [logPathBase], [absLogPath] and [needToUploadLogPath]. *)
Definition log_path (logPath : string) : res (string * string * bool) :=
  if (logPath =? "")%string then Ok ("", "", false)
  else let? fp := Logger.ParseFilepath logPath in
       let? absLogPath := toAbsRealPath EvalSymlinks Abs fp.2 in
       Ok (Filepath.Base absLogPath, absLogPath, true).

(** The logs of a directory by their names in it, and whether the named log is
    one of its files. *)
Definition logs_of (f : fs) (dir : string) : list string := PathTranslator.ListRelToExecRoot dir "" (collectLogFilesFromDir f dir).
Definition has_log (base abs dir : string) : bool := (Filepath.Join [dir; base] =? abs)%string.

Definition dir_step (f : fs) (base abs : string) (s : upload_state * bool) (dir : string) : upload_state * bool :=
  let files := logs_of f dir in
  let here := s.2 && has_log base abs dir in
  (appendRootDigests s.1 dir (if here then files ++ [base] else files), s.2 && negb here).

Definition UploadDirsToCas (f : fs) (dirs : list string) (logPath : string) : res (upload_state) :=
  let? lp := log_path logPath in
  let '(base, abs, need) := lp in
  let '(s, need) := foldl (dir_step f base abs) ({| lds := []; allInputs := []; asked := [] |}, need) dirs in
  let s := if need then appendRootDigests s (Filepath.Dir abs) [base] else s in
  let? _ := UploadIfMissing (allInputs s) in Ok s.

(** ** The named log goes along once *)

Definition plain (f : fs) (dirs : list string) : list (string * list string) := (λ d, (d, logs_of f d)) <$> dirs.

(** What came of the trees that were asked for. *)
Definition results (s : upload_state) : Prop :=
  lds s = omap (λ a, match ComputeMerkleTree a.1 a.2 with Ok r => Some {| ld_Path := a.1; ld_Digest := r.1 |} | _ => None end) (asked s) ∧
  allInputs s = asked s ≫= λ a, match ComputeMerkleTree a.1 a.2 with Ok r => r.2 | _ => [] end.

#[local] Opaque collectLogFilesFromDir.

Lemma append_results s dir files : results s → results (appendRootDigests s dir files) ∧ asked (appendRootDigests s dir files) = asked s ++ [(dir, files)].
Proof using Type.
  intros [H1 H2]. unfold results, appendRootDigests. destruct (ComputeMerkleTree dir files) as [[root inputs]|e|] eqn:E;
    cbn [lds allInputs asked]; (split; [|reflexivity]); rewrite omap_app, bind_app, <- H1, <- H2; cbn [omap list_omap mbind list_bind fst snd];
    rewrite E; cbn [fst snd]; rewrite ?app_nil_r; split; reflexivity.
Qed.

(** The state of the loop over the directories that are done. *)
Definition loop_inv (f : fs) (base abs : string) (need : bool) (done : list string) (s : upload_state * bool) : Prop :=
  results s.1 ∧
  if s.2 then need = true ∧ asked s.1 = plain f done ∧ Forall (λ d, has_log base abs d = false) done
  else (need = false ∧ asked s.1 = plain f done) ∨
       (need = true ∧ ∃ d1 d d2, done = d1 ++ d :: d2 ∧ Forall (λ d, has_log base abs d = false) d1 ∧ has_log base abs d = true ∧
          asked s.1 = plain f d1 ++ (d, logs_of f d ++ [base]) :: plain f d2).

Lemma dir_step_inv f base abs need done s d :
  loop_inv f base abs need done s → loop_inv f base abs need (done ++ [d]) (dir_step f base abs s d).
Proof using Type.
  destruct s as [s b]. intros [Hr H]. unfold dir_step, loop_inv. cbn [fst snd] in *.
  destruct (append_results s d (if b && has_log base abs d then logs_of f d ++ [base] else logs_of f d) Hr) as [Hr' ->].
  split; [done|]. unfold plain in *. destruct b; simpl.
  - destruct H as (-> & -> & H). destruct (has_log base abs d) eqn:Eh; simpl.
    + right. split; [done|]. exists done, d, []. split_and!; done.
    + rewrite fmap_app. split_and!; [done|done|]. apply Forall_app. split; [done|]. by repeat constructor.
  - destruct H as [[-> ->]|[-> (d1 & d0 & d2 & -> & H1 & H2 & ->)]]; [left; by rewrite fmap_app|]. right. split; [done|].
    exists d1, d0, (d2 ++ [d]). rewrite fmap_app. split_and!; [by rewrite <- app_assoc|done|done|by rewrite <- app_assoc].
Qed.

(** One tree is asked for per directory, with its logs.  The log that the flag
    names goes into one tree: that of the first directory it is in, or one of its
    own; every tree that could be made is reported and uploaded. *)
Theorem UploadDirsToCas_spec f dirs logPath s :
  UploadDirsToCas f dirs logPath = Ok s →
  results s ∧ UploadIfMissing (allInputs s) = Ok tt ∧
  ((logPath = "" ∧ asked s = plain f dirs) ∨
   ∃ base abs, log_path logPath = Ok (base, abs, true) ∧
     ((∃ d1 d d2, dirs = d1 ++ d :: d2 ∧ Forall (λ d, has_log base abs d = false) d1 ∧ has_log base abs d = true ∧
         asked s = plain f d1 ++ (d, logs_of f d ++ [base]) :: plain f d2) ∨
      (Forall (λ d, has_log base abs d = false) dirs ∧ asked s = plain f dirs ++ [(Filepath.Dir abs, [base])]))).
Proof using Type.
  unfold UploadDirsToCas. destruct (log_path logPath) as [[[base abs] need]|e|] eqn:El; [|done..]. cbn [mbind res_bind].
  pose proof (foldl_inv (dir_step f base abs) (loop_inv f base abs need) dirs [] ({| lds := []; allInputs := []; asked := [] |}, need)) as H.
  destruct (foldl (dir_step f base abs) _ dirs) as [s' b]. destruct H as [Hr H].
  { intros done' s0 d. apply dir_step_inv. }
  { split; [done|]. simpl. destruct need; [done|by left]. }
  cbn [fst snd app] in *. destruct (append_results s' (Filepath.Dir abs) [base] Hr) as [Hr' Ha].
  assert (need = true ∨ need = false ∧ logPath = "") as Hneed.
  { unfold log_path in El. destruct (String.eqb_spec logPath "") as [->|_]; [right; by injection El as <- <- <-|].
    destruct (Logger.ParseFilepath logPath) as [fp|e|]; [|done..]. simpl in El.
    destruct (toAbsRealPath EvalSymlinks Abs fp.2); [|done..]. simpl in El. injection El as <- <- <-. by left. }
  destruct b.
  - destruct (UploadIfMissing _) as [[]|e|] eqn:Eu; [|done..]. intros [= <-]. destruct H as (-> & H1 & H2).
    split_and!; [done|done|]. right. exists base, abs. split; [done|]. right. by rewrite Ha, H1.
  - destruct (UploadIfMissing _) as [[]|e|] eqn:Eu; [|done..]. intros [= <-]. split_and!; [done|done|].
    destruct H as [[-> H]|[-> H]]; [left; by destruct Hneed as [|[]]|]. right. exists base, abs. split; [done|]. by left.
Qed.

End upload.

(** ** Concrete logs *)

Module Concrete.

Definition disk : fs := {["/b/reproxy_1.rpl" := NFile "r" 420; "/b/reproxy.INFO" := NFile "i" 420; "/b/x" := NFile "x" 420;
  "/b" := NDir; "/c" := NDir; "/c/my.log" := NFile "m" 420]}.

Example collected : collectLogFilesFromDir disk "/b" = ["/b/reproxy_1.rpl"; "/b/reproxy.INFO"].
Proof. vm_compute. reflexivity. Qed.

Definition no_errors : write_errors := {| member_err := λ _, None; tw_close := None; zw_close := None; file_close := None |}.

(** A log that the flag names and that is a log of its directory is there twice. *)
Example archived :
  CreateLogsArchive disk None no_errors ["/b"] "text:///b/reproxy_1.rpl" =
    (None, [("/b/reproxy_1.rpl", "r"); ("/b/reproxy.INFO", "i"); ("/b/reproxy_1.rpl", "r")]) ∧
  CreateLogsArchive disk None no_errors ["/c"] "" =
    (Some (EMsg "unable to find log files. Try again by specifying proxy_log_dir"), []).
Proof. split; vm_compute; reflexivity. Qed.

Definition tree (bad : string) (dir : string) (files : list string) : res (string * list string) :=
  if (dir =? bad)%string then Fail (EMsg "tree") else Ok (dir, files).

Definition uploaded (bad : string) (dirs : list string) (logPath : string) : res (list (string * list string) * list string) :=
  let? s := UploadDirsToCas (λ p, Ok p) (λ p, Ok p) (tree bad) (λ _, Ok tt) disk dirs logPath in
  Ok (asked s, ld_Path <$> lds s).

Example named_log :
  uploaded "" ["/b"; "/c"] "text:///c/my.log" =
    Ok ([("/b", ["reproxy_1.rpl"; "reproxy.INFO"]); ("/c", ["my.log"])], ["/b"; "/c"]) ∧
  uploaded "" ["/b"] "text:///c/my.log" =
    Ok ([("/b", ["reproxy_1.rpl"; "reproxy.INFO"]); ("/c", ["my.log"])], ["/b"; "/c"]).
Proof. split; vm_compute; reflexivity. Qed.

(** When the tree of its directory cannot be made, the named log is not uploaded
    by itself either. *)
Example named_log_lost :
  uploaded "/b" ["/b"] "text:///b/reproxy_1.rpl" = Ok ([("/b", ["reproxy_1.rpl"; "reproxy.INFO"; "reproxy_1.rpl"])], []).
Proof. vm_compute. reflexivity. Qed.

End Concrete.

End CollectLogs.
