(* ===== verification/DownloadMismatch.v ===== *)
(** * The outputs that differ: [internal/pkg/downloadmismatch]

    The outputs of a build that compared local and remote runs are downloaded
    into a tree of directories, and the texts inside them are compared there.
    Digests, the storage and the two programs that compare are parameters. *)
From S2P Require Import Prelude GoStrings GoPath GoFS GoGlob.
From Stdlib Require Import Ascii.

Module DownloadMismatch.

Definition metricsFile : string := "rbe_metrics.pb".
Definition DownloadDir : string := "reclient_mismatches".
Definition LocalOutputDir : string := "local".
Definition RemoteOutputDir : string := "remote".
Definition stringsSuffix : string := ".strings".
Definition diffFileName : string := "compare_action.diff".

Record Mismatch := {
  Path : string;
  ActionDigest : string;
  RemoteDigest : string;
  LocalDigest : string;
  RemoteDigests : list string;
  LocalDigests : list string
}.

(** [ioutil.ReadFile] and [os.MkdirAll], the errors of the latter not always
    looked at. *)
Definition try_MkdirAll (f : fs) (p : string) : fs := match OS.MkdirAll f p with Ok f => f | _ => f end.

Section download.

(** The hash of a digest that is written as it should be, and the blob. *)
Variable NewFromString : string → res string.
Variable DownloadBlob : string → res string.
(** [Verification] of the statistics in a file. *)
Variable Unmarshal : string → res (option (list Mismatch)).
(** The order of a map, which is not fixed. *)
Variable order : gmap string string → list string.

Definition dedup_step (fileSet : gmap string string) (f : string) : gmap string string :=
  match fileSet !! Filepath.Clean f with Some _ => fileSet | None => <[Filepath.Clean f := f]> fileSet end.

Definition dedup_digests (l : list string) : list string := order (foldl dedup_step ∅ l).

Definition readMismatchesFromFile (f : fs) (fp : string) : res (option (list Mismatch)) :=
  match OS.ReadFile f fp with
  | Ok blobs => match Unmarshal blobs with Ok s => Ok s | _ => Fail (EMsg "Failed to transform file content into stats proto") end
  | _ => Fail (EMsg "Failed to read mismatches from file")
  end.

(** A digest that is not written as it should be has the empty hash here. *)
Definition hash_of (digestStr : string) : string := match NewFromString digestStr with Ok h => h | _ => "" end.

(** A step on the file system and what it returns; the files stay as they are
    when an error ends it. *)
Definition downloadToFile (downloadPath digestStr : string) : ST fs unit := λ f,
  let f := try_MkdirAll f downloadPath in
  match DownloadBlob digestStr with
  | Ok blobs => match OS.WriteFile f (Filepath.Join [downloadPath; hash_of digestStr]) blobs with
                | Ok f' => (Ok tt, f')
                | Fail e => (Fail e, f)
                | Panic => (Panic, f)
                end
  | Fail e => (Fail (EMsg "Download error"), f)
  | Panic => (Panic, f)
  end.

Fixpoint for_each {A} (step : A → ST fs unit) (l : list A) : ST fs unit :=
  match l with [] => st_ret tt | a :: l => st_bind (step a) (λ _, for_each step l) end.

Definition outputs_of (one : string) (l : list string) : list string := if (one =? "")%string then l else dedup_digests (l ++ [one]).

(** [strings.Replace] of all slashes. *)
Definition outputPath (mismatchOutputDir hash path : string) : string :=
  Filepath.Join [Filepath.Join [mismatchOutputDir; hash]; replace_char Filepath.slash "_" path].

Definition download_one (mismatchOutputDir : string) (m : Mismatch) : ST fs unit := λ f,
  match NewFromString (ActionDigest m) with
  | Ok hash =>
      let out := outputPath mismatchOutputDir hash (Path m) in
      match OS.MkdirAll f out with
      | Ok f => st_bind (for_each (downloadToFile (Filepath.Join [out; RemoteOutputDir])) (outputs_of (RemoteDigest m) (RemoteDigests m)))
                  (λ _, for_each (downloadToFile (Filepath.Join [out; LocalOutputDir])) (outputs_of (LocalDigest m) (LocalDigests m))) f
      | Fail e => (Fail e, f)
      | Panic => (Panic, f)
      end
  | Fail e => (Fail e, f)
  | Panic => (Panic, f)
  end.

Definition DownloadMismatches (logDir outputDir : string) : ST fs unit := λ f,
  let mismatchOutputDir := Filepath.Join [outputDir; DownloadDir] in
  let f := OS.RemoveAll f mismatchOutputDir in
  match readMismatchesFromFile f (Filepath.Join [logDir; metricsFile]) with
  | Ok (Some mismatches) => for_each (download_one mismatchOutputDir) mismatches f
  | Ok None => (Fail (EMsg "No compare build stats in rbe_metrics.pb, was it a compare build?"), f)
  | Fail e => (Fail e, f)
  | Panic => (Panic, f)
  end.

(** ** Comparing

    What a program prints when it is run with some arguments. *)
Variable output : string → list string → fs → string.
(** [Readdir] has no order of its own. *)
Variable Readdir : fs → string → list string.

Definition runAndWriteOutput (outFp : string) (prog : string) (args : list string) : ST fs unit := λ f,
  match OS.WriteFile f outFp (output prog args f) with Ok f' => (Ok tt, f') | Fail e => (Fail e, f) | Panic => (Panic, f) end.

Definition linuxStrings (fp : string) : ST fs unit := runAndWriteOutput (fp +:+ stringsSuffix) "strings" [fp].

(** Both texts are written before an error is looked at. *)
Definition DiffReadableString (outFp fp1 fp2 : string) : ST fs unit := λ f,
  let '(r1, f) := linuxStrings fp1 f in
  let '(r2, f) := linuxStrings fp2 f in
  match r1, r2 with
  | Ok _, Ok _ => runAndWriteOutput outFp "diff" [fp1 +:+ stringsSuffix; fp2 +:+ stringsSuffix] f
  | Ok _, _ => (r2, f)
  | _, _ => (r1, f)
  end.

Definition ReadDir (f : fs) (p : string) : res (list string) := if OS.is_dir f p then Ok (Glob.names f p) else Fail ENotExist.

(** The error of the comparison is dropped. *)
Definition visitOutput (outputPath : string) : ST fs unit := λ f,
  match ReadDir f (Filepath.Join [outputPath; LocalOutputDir]), ReadDir f (Filepath.Join [outputPath; RemoteOutputDir]) with
  | Ok [l], Ok [r] =>
      let '(_, f) := DiffReadableString (Filepath.Join [outputPath; diffFileName])
                       (Filepath.Join [outputPath; LocalOutputDir; l]) (Filepath.Join [outputPath; RemoteOutputDir; r]) f in
      (Ok tt, f)
  | Ok _, Ok _ => (Fail (EMsg "Missing or more than 1 local/remote output"), f)
  | Ok _, Fail e => (Fail e, f)
  | Fail e, _ => (Fail e, f)
  | _, _ => (Panic, f)
  end.

Definition visitAction (curPath : string) : ST fs unit := λ f,
  if OS.is_dir f curPath then for_each (λ name, visitOutput (Filepath.Join [curPath; name])) (Readdir f curPath) f
  else (Fail ENotExist, f).

Definition DiffOutputDir (outputDir : string) : ST fs unit := λ f,
  match ReadDir f outputDir with
  | Ok dirs => for_each (λ name f', if OS.is_dir f (Filepath.Join [outputDir; name])
                                    then visitAction (Filepath.Join [outputDir; name]) f'
                                    else (Fail (EMsg "Error iterating output Directory, it is not directory"), f')) dirs f
  | Fail e => (Fail e, f)
  | Panic => (Panic, f)
  end.

(** ** Every output is there *)

(** Digests are hashes; what is stored under a hash is one blob. *)
Context (blob_of : string → string).
Context (Hblob : ∀ d b, DownloadBlob d = Ok b → ∃ h, NewFromString d = Ok h ∧ Filepath.proper h ∧ b = blob_of h).

Definition has_blob (f : fs) (dir h : string) : Prop := OS.ReadFile f (Filepath.Join [dir; h]) = Ok (blob_of h).

Lemma Join2_last p q h k :
  Filepath.IsAbs p = true → Filepath.IsAbs q = true → Filepath.proper h → Filepath.proper k → Filepath.Join [p; h] = Filepath.Join [q; k] → h = k.
Proof using Type.
  intros Hp Hq Hh Hk E. pose proof (Filepath.Join2_comps p h Hp) as E1. rewrite E, (Filepath.Join2_comps q k Hq) in E1.
  destruct Hh as (? & ? & ? & Sh), Hk as (? & ? & ? & Sk). rewrite !Split_none in E1 by done. injection E1 as E1.
  cbn [foldl] in E1. rewrite !Filepath.push_proper, !reverse_cons in E1 by done. by apply app_inj_tail in E1 as [_ ->].
Qed.

Lemma MkdirAll_blob f p f' dir h : OS.MkdirAll f p = Ok f' → has_blob f dir h → has_blob f' dir h.
Proof using Type.
  unfold has_blob. rewrite !OS.ReadFile_file. intros E (Hp & m & H). split; [done|]. exists m. by eapply OS.MkdirAll_keeps.
Qed.

Lemma try_MkdirAll_keeps f p dir h : has_blob f dir h → has_blob (try_MkdirAll f p) dir h.
Proof using Type. unfold try_MkdirAll. destruct (OS.MkdirAll f p) as [f'|e|] eqn:E; [|done..]. by apply (MkdirAll_blob _ p). Qed.

Lemma downloadToFile_spec path d f u f' :
  Filepath.IsAbs path = true → downloadToFile path d f = (Ok u, f') →
  has_blob f' path (hash_of d) ∧ Filepath.proper (hash_of d) ∧
  (∀ dir h, Filepath.IsAbs dir = true → Filepath.proper h → has_blob f dir h → has_blob f' dir h).
Proof using Hblob.
  intros Ha. unfold downloadToFile. destruct (DownloadBlob d) as [b|e|] eqn:Eb; [|done..].
  destruct (Hblob _ _ Eb) as (h0 & Eh & Hp0 & ->). assert (hash_of d = h0) as Ed by (unfold hash_of; by rewrite Eh). rewrite Ed.
  destruct (OS.WriteFile _ _ _) as [f1|e|] eqn:Ew; [|done..]. intros [= <- <-]. split; [|split; [done|]].
  - by eapply OS.WriteFile_ReadFile.
  - intros dir h Hd Hh H. apply (try_MkdirAll_keeps _ path) in H.
    destruct (decide (Filepath.Join [dir; h] = Filepath.Join [path; h0])) as [E|E].
    + unfold has_blob. rewrite E, (Join2_last _ _ _ _ Hd Ha Hh Hp0 E). by eapply OS.WriteFile_ReadFile.
    + unfold has_blob in *. rewrite OS.ReadFile_file in *. destruct H as (Hr & m & H). split; [done|]. exists m.
      by rewrite (OS.WriteFile_other _ _ _ _ _ Ew E).
Qed.

Lemma for_each_blobs path l f u f' :
  Filepath.IsAbs path = true → for_each (downloadToFile path) l f = (Ok u, f') →
  (∀ d, d ∈ l → has_blob f' path (hash_of d) ∧ Filepath.proper (hash_of d)) ∧
  (∀ dir h, Filepath.IsAbs dir = true → Filepath.proper h → has_blob f dir h → has_blob f' dir h).
Proof using Hblob.
  intros Ha. revert f. induction l as [|d l IH]; intros f; cbn [for_each].
  - intros [= <- <-]. split; [|done]. by intros d ?%elem_of_nil.
  - unfold st_bind. destruct (downloadToFile path d f) as [[[]|e|] f1] eqn:E; [|done..]. intros H.
    destruct (downloadToFile_spec _ _ _ _ _ Ha E) as (H1 & H2 & H3). destruct (IH _ H) as [H4 H5]. split.
    + intros d' [->|Hd]%elem_of_cons; [split; [by apply H5|done]|by apply H4].
    + intros dir h Hd Hh Hb. by apply H5, H3.
Qed.

(** The digests of a mismatch and the directories of its outputs. *)
Definition out_dir (top : string) (m : Mismatch) : string := outputPath top (hash_of (ActionDigest m)) (Path m).
Definition wanted (m : Mismatch) : list (string * string) :=
  ((λ d, (RemoteOutputDir, d)) <$> outputs_of (RemoteDigest m) (RemoteDigests m)) ++
  ((λ d, (LocalOutputDir, d)) <$> outputs_of (LocalDigest m) (LocalDigests m)).

Lemma download_one_spec top m f u f' :
  Filepath.IsAbs top = true → download_one top m f = (Ok u, f') →
  (∀ w, w ∈ wanted m → has_blob f' (Filepath.Join [out_dir top m; w.1]) (hash_of w.2) ∧ Filepath.proper (hash_of w.2)) ∧
  (∀ dir h, Filepath.IsAbs dir = true → Filepath.proper h → has_blob f dir h → has_blob f' dir h).
Proof using Hblob.
  intros Ha. unfold download_one. destruct (NewFromString (ActionDigest m)) as [hash|e|] eqn:Eh; [|done..].
  assert (out_dir top m = outputPath top hash (Path m)) as Eo by (unfold out_dir, hash_of; by rewrite Eh). rewrite <- Eo.
  assert (∀ x, Filepath.IsAbs (Filepath.Join [out_dir top m; x]) = true) as Hx.
  { intros x. unfold out_dir, outputPath. by repeat apply Filepath.IsAbs_Join2. }
  destruct (OS.MkdirAll f (out_dir top m)) as [f1|e|] eqn:Em; [|done..]. unfold st_bind.
  destruct (for_each _ (outputs_of (RemoteDigest m) _) f1) as [[[]|e|] f2] eqn:E1; [|done..]. intros E2.
  destruct (for_each_blobs _ _ _ _ _ (Hx _) E1) as [R1 R2]. destruct (for_each_blobs _ _ _ _ _ (Hx _) E2) as [L1 L2].
  split.
  - intros w [(d & -> & Hd)%list_elem_of_fmap|(d & -> & Hd)%list_elem_of_fmap]%elem_of_app; cbn [fst snd]; [|by apply L1].
    apply R1 in Hd as [Hb Hp]. split; [|done]. apply L2; [apply Hx|done..].
  - intros dir h Hd Hh H. apply L2, R2; try done. by apply (MkdirAll_blob _ _ _ _ _ Em).
Qed.

(** When the download succeeds, every output of every mismatch is in the directory
    of its action and its path, under the name of its hash, and nothing that came
    later has overwritten it. *)
Theorem DownloadMismatches_spec logDir outputDir f u f' :
  Filepath.IsAbs outputDir = true → DownloadMismatches logDir outputDir f = (Ok u, f') →
  ∃ ms, readMismatchesFromFile (OS.RemoveAll f (Filepath.Join [outputDir; DownloadDir])) (Filepath.Join [logDir; metricsFile]) = Ok (Some ms) ∧
    ∀ m w, m ∈ ms → w ∈ wanted m →
      OS.ReadFile f' (Filepath.Join [Filepath.Join [out_dir (Filepath.Join [outputDir; DownloadDir]) m; w.1]; hash_of w.2]) = Ok (blob_of (hash_of w.2)).
Proof using Hblob.
  intros Ha. unfold DownloadMismatches. destruct (readMismatchesFromFile _ _) as [[ms|]|e|]; [|done..]. intros H. exists ms. split; [done|].
  apply (Filepath.IsAbs_Join2 _ DownloadDir) in Ha. revert H. generalize (OS.RemoveAll f (Filepath.Join [outputDir; DownloadDir])) as f0.
  generalize dependent (Filepath.Join [outputDir; DownloadDir]). intros top Ha. clear f.
  assert (∀ ms f0, for_each (download_one top) ms f0 = (Ok u, f') →
    (∀ m w, m ∈ ms → w ∈ wanted m → has_blob f' (Filepath.Join [out_dir top m; w.1]) (hash_of w.2) ∧ Filepath.proper (hash_of w.2)) ∧
    (∀ dir h, Filepath.IsAbs dir = true → Filepath.proper h → has_blob f0 dir h → has_blob f' dir h)) as H.
  { clear ms. intros ms. induction ms as [|m ms' IH]; intros f0; cbn [for_each]; [intros [= <-]; split; [by intros m w ?%elem_of_nil|by subst]|].
    unfold st_bind. destruct (download_one top m f0) as [[[]|e|] f1] eqn:E; [|done..]. intros H.
    destruct (download_one_spec _ _ _ _ _ Ha E) as [H1 H2]. destruct (IH _ H) as [H3 H4]. split.
    - intros m' w [->|Hm]%elem_of_cons Hw; [|by apply (H3 m' w)]. destruct (H1 w Hw) as [Hb Hp]. split; [|done]. apply H4; [|done..].
      unfold out_dir, outputPath. by repeat apply Filepath.IsAbs_Join2.
    - intros dir h Hd Hh Hb. by apply H4, H2. }
  intros f0 H0 m w Hm Hw. destruct (H ms f0 H0) as [H1 _]. exact (proj1 (H1 m w Hm Hw)).
Qed.

End download.

(** ** A concrete comparison *)

Module Concrete.

Definition NewFromString (d : string) : res string :=
  match Split d "/" with [h; _] => Ok h | _ => Fail (EMsg "digest") end.
Definition DownloadBlob (d : string) : res string := let? h := NewFromString d in Ok ("blob " +:+ h).
Definition order (m : gmap string string) : list string := (map_to_list m).*2.

Definition mismatch (path r : string) (rs : list string) : Mismatch :=
  {| Path := path; ActionDigest := "act/3"; RemoteDigest := r; LocalDigest := ""; RemoteDigests := rs; LocalDigests := ["l1/1"] |}.

Definition start : fs := {["/o" := NDir; "/l" := NDir; "/l/rbe_metrics.pb" := NFile "stats" 420]}.

Definition downloaded (ms : list Mismatch) : res unit * fs :=
  DownloadMismatches NewFromString DownloadBlob (λ _, Ok (Some ms)) order "/l" "/o" start.

Definition found (r : res unit * fs) (p : string) : res (res string) := let? _ := r.1 in Ok (OS.ReadFile r.2 p).

Example both_digests :
  found (downloaded [mismatch "out/a.o" "r1/1" ["r1/1"; "r2/1"]]) "/o/reclient_mismatches/act/out_a.o/remote/r2" = Ok (Ok "blob r2") ∧
  found (downloaded [mismatch "out/a.o" "r1/1" ["r1/1"; "r2/1"]]) "/o/reclient_mismatches/act/out_a.o/local/l1" = Ok (Ok "blob l1").
Proof. split; vm_compute; reflexivity. Qed.

Definition output (prog : string) (args : list string) (f : fs) : string := prog +:+ " of " +:+ GoStrings.Join args " ".

Definition after_diff (ms : list Mismatch) : res unit * fs :=
  DiffOutputDir output Glob.names "/o/reclient_mismatches" (downloaded ms).2.

Example one_of_each :
  found (after_diff [mismatch "out/a.o" "" ["r1/1"]]) "/o/reclient_mismatches/act/out_a.o/compare_action.diff" =
  Ok (Ok "diff of /o/reclient_mismatches/act/out_a.o/local/l1.strings /o/reclient_mismatches/act/out_a.o/remote/r1.strings").
Proof. vm_compute. reflexivity. Qed.

(** Two remote outputs of one path are not compared at all, and neither are the
    outputs of two paths that differ in a slash and an underscore. *)
Example retries_refused :
  (after_diff [mismatch "out/a.o" "" ["r1/1"; "r2/1"]]).1 = Fail (EMsg "Missing or more than 1 local/remote output") ∧
  (after_diff [mismatch "out/a.o" "" ["r1/1"]; mismatch "out_a.o" "" ["r2/1"]]).1 = Fail (EMsg "Missing or more than 1 local/remote output").
Proof. split; vm_compute; reflexivity. Qed.

(** What was there before is gone even if there is nothing to download. *)
Example removed_first :
  let f := <["/o/reclient_mismatches/x" := NFile "x" 420]> start in
  DownloadMismatches NewFromString DownloadBlob (λ _, Ok None) order "/l" "/o" f =
  (Fail (EMsg "No compare build stats in rbe_metrics.pb, was it a compare build?"), start).
Proof. vm_compute. reflexivity. Qed.

End Concrete.

End DownloadMismatch.
