(* ===== verification/Interceptors.v ===== *)
(** * The calls of the server: [internal/pkg/interceptors],
      [internal/pkg/reproxy/timeout.go]

    What every remote procedure call goes through: the time of the last request,
    after which an idle proxy ends itself, and the limit on the size of a
    response, whose texts are cut to fit. *)
From S2P Require Import Prelude GoStrings GoPath GoFS.
From Stdlib Require Import Ascii.
Import Filepath.

Module Interceptors.

(** ** The size of responses *)

(** [ppb.RunResponse]: the result is nil, or has a message; [Rest] is what is
    not touched here. *)
Record RunResponse := {
  Stdout : string;
  Stderr : string;
  Result_Msg : option string;
  ExecutionId : string;
  Rest : string
}.

Definition set_Stderr (r : RunResponse) (s : string) : RunResponse :=
  {| Stdout := Stdout r; Stderr := s; Result_Msg := Result_Msg r; ExecutionId := ExecutionId r; Rest := Rest r |}.
Definition set_Stdout (r : RunResponse) (s : string) : RunResponse :=
  {| Stdout := s; Stderr := Stderr r; Result_Msg := Result_Msg r; ExecutionId := ExecutionId r; Rest := Rest r |}.
Definition set_Msg (r : RunResponse) (s : string) : RunResponse :=
  {| Stdout := Stdout r; Stderr := Stderr r; Result_Msg := Some s; ExecutionId := ExecutionId r; Rest := Rest r |}.

Definition len (s : string) : Z := Z.of_nat (String.length s).

(** [getTruncFieldLen] *)
Definition getTruncFieldLen (responseSize currentFieldLen maxResponseSize minFieldLen prefixLen : Z) : Z :=
  let truncFieldLen := (maxResponseSize - (responseSize - currentFieldLen) - prefixLen)%Z in
  if (minFieldLen - prefixLen <=? truncFieldLen)%Z then truncFieldLen else (minFieldLen - prefixLen)%Z.

(** [s[n:]]: the index must be in the string. *)
Definition slice_from (s : string) (n : Z) : res string :=
  if ((0 <=? n) && (n <=? len s))%Z then Ok (str_drop (Z.to_nat n) s) else Panic.

Section truncate.

(** [proto.Size] and the text form of a response. *)
Variables (Size : RunResponse → Z) (Format : RunResponse → string).

Definition dumpResponse (w : fs) (r : RunResponse) (dumpDir : string) : res string * fs :=
  let fileName := Join [dumpDir; "execution-" +:+ ExecutionId r +:+ ".dump"] in
  match OS.Create w fileName with
  | Ok w1 =>
      match OS.Write w1 fileName (Format r) with
      | Ok w2 => (Ok fileName, w2)
      | Fail e => (Fail e, w1)
      | Panic => (Panic, w1)
      end
  | Fail e => (Fail e, w)
  | Panic => (Panic, w)
  end.

Definition trunc_prefix (dump : res string) : string :=
  match dump with
  | Ok fileName => "[content truncated, full response in " +:+ fileName +:+ "]..."
  | _ => "[content truncated]..."
  end.

(** 1 KiB or the length of the prefix. *)
Definition min_field (prefix : string) : Z := Z.max 1024 (len prefix).

(** The cut of one text of a response of a given size: its end, after the
    prefix. *)
Definition cut (prefix : string) (responseSize maxResponseSize : Z) (field : string) : res string :=
  if (min_field prefix <? len field)%Z then
    let? s := slice_from field (len field - getTruncFieldLen responseSize (len field) maxResponseSize (min_field prefix) (len prefix)) in
    Ok (prefix +:+ s)
  else Ok field.

Definition cut_message (prefix : string) (maxResponseSize : Z) (r : RunResponse) : res RunResponse :=
  match Result_Msg r with
  | None => Ok r
  | Some msg => let? msg := cut prefix (Size r) maxResponseSize msg in Ok (set_Msg r msg)
  end.

(** The three cuts, each made when the response is still too large. *)
Definition cut_response (prefix : string) (maxResponseSize : Z) (r : RunResponse) : res RunResponse :=
  let? s := cut prefix (Size r) maxResponseSize (Stderr r) in
  let r := set_Stderr r s in
  if (Size r <=? maxResponseSize)%Z then Ok r
  else
    let? s := cut prefix (Size r) maxResponseSize (Stdout r) in
    let r := set_Stdout r s in
    if (Size r <=? maxResponseSize)%Z then Ok r else cut_message prefix maxResponseSize r.

Definition truncateResponse (w : fs) (r : RunResponse) (maxResponseSize : Z) (dumpDir : string) : res RunResponse * fs :=
  if (Size r <=? maxResponseSize)%Z then (Ok r, w)
  else
    let '(dump, w) := dumpResponse w r dumpDir in
    (cut_response (trunc_prefix dump) maxResponseSize r, w).

(** What a handler returns: the response of a command, or anything else. *)
Inductive message := MRun (r : RunResponse) | MOther (s : string).

(** The interceptor around a handler that answered. *)
Definition NewTruncInterceptor (w : fs) (maxResponseSize : Z) (dumpDir : string) (h : message) (err : option error) :
    res (message * option error) * fs :=
  match err, h with
  | None, MRun r =>
      let '(r, w) := truncateResponse w r maxResponseSize dumpDir in
      (let? r := r in Ok (MRun r, None), w)
  | _, _ => (Ok (h, err), w)
  end.

(** *** The bound *)

(** The wire format: a text that becomes shorter makes the message smaller by
    the difference at least. *)
Context (Size_Stderr : ∀ r s, (len s ≤ len (Stderr r))%Z → (Size (set_Stderr r s) ≤ Size r - (len (Stderr r) - len s))%Z).
Context (Size_Stdout : ∀ r s, (len s ≤ len (Stdout r))%Z → (Size (set_Stdout r s) ≤ Size r - (len (Stdout r) - len s))%Z).
Context (Size_Msg : ∀ r m s, Result_Msg r = Some m → (len s ≤ len m)%Z → (Size (set_Msg r s) ≤ Size r - (len m - len s))%Z).

Lemma len_app s t : len (s +:+ t) = (len s + len t)%Z.
Proof. unfold len. rewrite str_app_length. lia. Qed.

(** A cut never fails; it gives the text itself when it is short, or else the
    prefix and an end of the text, just long enough for the limit, and no
    shorter than the least length. *)
Lemma cut_spec prefix size maxSize field :
  (maxSize < size)%Z →
  ∃ s, cut prefix size maxSize field = Ok s ∧ (len s ≤ len field)%Z ∧
    ((size - (len field - len s) ≤ maxSize)%Z ∨ (len s ≤ min_field prefix)%Z) ∧
    (s = field ∨ ∃ a b, field = a +:+ b ∧ s = prefix +:+ b ∧ (min_field prefix ≤ len s)%Z).
Proof.
  intros Hs. unfold cut. destruct (Z.ltb_spec (min_field prefix) (len field)) as [Hl|Hl].
  2:{ exists field. split; [done|]. split; [lia|]. split; [by right|by left]. }
  set (n := getTruncFieldLen size (len field) maxSize (min_field prefix) (len prefix)).
  assert (0 ≤ len prefix ∧ len prefix ≤ min_field prefix)%Z as [Hp Hm] by (unfold min_field, len; lia).
  assert (0 ≤ n ≤ len field - len prefix ∧ min_field prefix ≤ len prefix + n ∧
    (n = maxSize - (size - len field) - len prefix ∨ len prefix + n = min_field prefix))%Z as (Hn & Hmin & Hor).
  { unfold n, getTruncFieldLen. destruct (Z.leb_spec (min_field prefix - len prefix) (maxSize - (size - len field) - len prefix)); lia. }
  unfold slice_from. rewrite (proj2 (Z.leb_le 0 _)), (proj2 (Z.leb_le _ (len field))) by lia. cbn [andb mbind res_bind].
  set (k := Z.to_nat (len field - n)).
  assert (len (str_drop k field) = n) as Hd.
  { unfold len at 1. rewrite str_drop_length; unfold k, len in *; lia. }
  exists (prefix +:+ str_drop k field). rewrite len_app, Hd. split; [done|]. split; [lia|]. split; [lia|].
  right. exists (str_take k field), (str_drop k field). split; [|by split]. symmetry. apply str_take_drop.
Qed.

Definition short (prefix s : string) : Prop := (len s ≤ min_field prefix)%Z.

(** A field that was kept, or cut: the prefix and an end of it. *)
Definition cut_of (prefix field s : string) : Prop := s = field ∨ ∃ a b, field = a +:+ b ∧ s = prefix +:+ b.


End truncate.

(** ** Idle proxies *)

Record clock := {
  now : Z;
  latestRequestTimestamp : Z;
  deadline : Z;
  requests : list Z;
  interrupts : list Z
}.

Definition max_time (a b : Z) : Z := if (a <? b)%Z then b else a.

(** [UnaryServerInterceptor] and [StreamServerInterceptor]: a request comes. *)
Definition request (s : clock) : clock :=
  {| now := now s; latestRequestTimestamp := max_time (latestRequestTimestamp s) (now s); deadline := deadline s;
     requests := now s :: requests s; interrupts := interrupts s |}.

Definition wait (d : Z) (s : clock) : clock :=
  {| now := now s + d; latestRequestTimestamp := latestRequestTimestamp s; deadline := deadline s;
     requests := requests s; interrupts := interrupts s |}.

(** [IdleTimeout]: the timer of one round of its loop fires; the process is
    interrupted when there was no request for the timeout, and the next timer is
    set. *)
Definition fire (timeout : Z) (s : clock) : clock :=
  {| now := now s; latestRequestTimestamp := latestRequestTimestamp s;
     deadline := latestRequestTimestamp s + timeout; requests := requests s;
     interrupts := if (timeout <=? now s - latestRequestTimestamp s)%Z then now s :: interrupts s else interrupts s |}.

Inductive clock_step (timeout : Z) : clock → clock → Prop :=
  | step_request s : clock_step timeout s (request s)
  | step_wait s d : (0 < d)%Z → clock_step timeout s (wait d s)
  | step_fire s : timeout ≠ 0%Z → (deadline s ≤ now s)%Z → clock_step timeout s (fire timeout s).

Definition start (t timeout : Z) : clock :=
  {| now := t; latestRequestTimestamp := t; deadline := t + timeout; requests := []; interrupts := [] |}.

Definition clock_inv (timeout : Z) (s : clock) : Prop :=
  (latestRequestTimestamp s ≤ now s)%Z ∧ (deadline s ≤ latestRequestTimestamp s + timeout)%Z ∧
  (∀ u, u ∈ requests s → (u ≤ latestRequestTimestamp s)%Z) ∧
  (∀ t, t ∈ interrupts s → (t ≤ now s)%Z ∧ ∀ u, u ∈ requests s → (u < t)%Z → (u ≤ t - timeout)%Z).

Lemma clock_inv_step timeout s s' : (0 ≤ timeout)%Z → clock_step timeout s s' → clock_inv timeout s → clock_inv timeout s'.
Proof.
  intros H0 Hs (H1 & H2 & H3 & H4). destruct Hs as [s|s d Hd|s Hz Hd]; unfold clock_inv; simpl.
  - unfold max_time. destruct (Z.ltb_spec (latestRequestTimestamp s) (now s)); (split; [lia|]; split; [lia|]; split).
    1,3: intros u [->|Hu]%elem_of_cons; [lia|]; specialize (H3 u Hu); lia.
    all: intros t Ht; destruct (H4 t Ht) as [Hle Hu]; (split; [done|]); intros u [->|Hin]%elem_of_cons Hlt; [lia|by apply Hu].
  - split; [lia|]. split; [done|]. split; [done|]. intros t Ht. destruct (H4 t Ht). split; [lia|done].
  - split; [done|]. split; [lia|]. split; [done|].
    destruct (Z.leb_spec timeout (now s - latestRequestTimestamp s)); [|exact H4].
    intros t [->|Ht]%elem_of_cons; [|by apply H4]. split; [lia|]. intros u Hu _. specialize (H3 u Hu). lia.
Qed.

(** An idle proxy is interrupted only when no request came for the timeout,
    and no later than that: once the timeout has passed since the last request,
    the timer is due, and firing it interrupts. *)
Theorem idle_timeout t timeout s :
  (0 < timeout)%Z → rtc (clock_step timeout) (start t timeout) s →
  (∀ i u, i ∈ interrupts s → u ∈ requests s → (u < i)%Z → (u ≤ i - timeout)%Z) ∧
  ((latestRequestTimestamp s + timeout ≤ now s)%Z →
   clock_step timeout s (fire timeout s) ∧ interrupts (fire timeout s) = now s :: interrupts s).
Proof.
  intros H0 Hs. assert (clock_inv timeout s) as (H1 & H2 & H3 & H4).
  { assert (clock_inv timeout (start t timeout)) as Hi by (split_and!; simpl; [lia|lia|set_solver|set_solver]).
    induction Hs as [|s1 s2 s3 Hs1 _ IH]; [done|]. apply IH. eapply clock_inv_step; [lia|done|done]. }
  split; [intros i u Hi Hu; by apply H4|]. intros Hdue. split; [by apply step_fire; lia|].
  unfold fire. simpl. by rewrite (proj2 (Z.leb_le _ _)) by lia.
Qed.

(** The loop does not end with the interrupt: the next timer is due at once. *)
Lemma idle_interrupts_again timeout s :
  timeout ≠ 0%Z → (timeout <= now s - latestRequestTimestamp s)%Z → (deadline s ≤ now s)%Z →
  rtc (clock_step timeout) s (fire timeout (fire timeout s)) ∧
  interrupts (fire timeout (fire timeout s)) = now s :: now s :: interrupts s.
Proof.
  intros Hz Hi Hd. split.
  - apply (rtc_l _ _ (fire timeout s)); [by apply step_fire|]. apply rtc_once, step_fire; simpl; [done|lia].
  - unfold fire. simpl. by rewrite (proj2 (Z.leb_le _ _)) by lia.
Qed.

(** ** On concrete responses *)

Module Concrete.

(** A size that counts the texts. *)
Definition Size (r : RunResponse) : Z :=
  (10 + len (Stdout r) + len (Stderr r) + match Result_Msg r with Some m => len m | None => 0 end)%Z.

Lemma Size_Stderr r s : (len s ≤ len (Stderr r))%Z → (Size (set_Stderr r s) ≤ Size r - (len (Stderr r) - len s))%Z.
Proof. intros _. unfold Size. simpl. lia. Qed.
Lemma Size_Stdout r s : (len s ≤ len (Stdout r))%Z → (Size (set_Stdout r s) ≤ Size r - (len (Stdout r) - len s))%Z.
Proof. intros _. unfold Size. simpl. lia. Qed.
Lemma Size_Msg r m s : Result_Msg r = Some m → (len s ≤ len m)%Z → (Size (set_Msg r s) ≤ Size r - (len m - len s))%Z.
Proof. intros E _. unfold Size. simpl. rewrite E. lia. Qed.

Fixpoint text (n : nat) (a : ascii) : string := match n with O => "" | S n => String a (text n a) end.

Definition response : RunResponse := {|
  Stdout := text 3000 "o"; Stderr := text 5000 "e"; Result_Msg := Some (text 2000 "m"); ExecutionId := "abc"; Rest := "" |}.

Definition w0 : fs := {[ "/log" := NDir ]}.
Definition truncated (maxSize : Z) (dir : string) := truncateResponse Size (λ _, "text") w0 response maxSize dir.
Definition lengths (r : res RunResponse) : res (Z * Z * Z) :=
  let? r := r in Ok (len (Stderr r), len (Stdout r), match Result_Msg r with Some m => len m | None => 0%Z end).

(** Enough is cut and no more; where the dump cannot be written, the note does
    not name it. *)
Example cuts :
  lengths (truncated 8000 "/log").1 = Ok (2990%Z, 3000%Z, 2000%Z) ∧
  lengths (truncated 5000 "/log").1 = Ok (1024%Z, 1966%Z, 2000%Z) ∧
  lengths (truncated 100 "/log").1 = Ok (1024%Z, 1024%Z, 1024%Z) ∧
  lengths (truncated 100 "/missing").1 = Ok (1024%Z, 1024%Z, 1024%Z) ∧
  OS.ReadFile (truncated 8000 "/log").2 "/log/execution-abc.dump" = Ok "text".
Proof. split_and!; vm_compute; reflexivity. Qed.

Definition s2 : clock := fire 10 (wait 12 (request (start 0 10))).

Lemma s2_reached : rtc (clock_step 10) (start 0 10) s2.
Proof.
  apply (rtc_l _ _ (request (start 0 10))); [constructor|]. apply (rtc_l _ _ (wait 12 (request (start 0 10)))); [by constructor|].
  apply rtc_once. by constructor.
Qed.

End Concrete.


Lemma idle_timeout_witness : interrupts Concrete.s2 = [12%Z] ∧ ∀ u, u ∈ [0%Z] → (u < 12)%Z → (u ≤ 12 - 10)%Z.
Proof.
  split; [reflexivity|].
  destruct (idle_timeout 0 10 Concrete.s2 eq_refl Concrete.s2_reached) as [H _].
  intros u Hu. apply (H 12%Z u); [apply list_elem_of_singleton; reflexivity|exact Hu].
Defined.

End Interceptors.
