(* ===== verification/Mtimes.v ===== *)
(** * The times of outputs, and old logs: [internal/pkg/reproxy]

    The digests and times of the outputs that are there before an action, the
    restoration of the times of those that did not change (action.go), and the
    removal of old log files (server.go). *)
From S2P Require Import Prelude GoStrings GoPath GoRegexp GoFS LogFile Interceptors.
From Stdlib Require Import Ascii.
Import Filepath Regexp.

Module Mtimes.

(** ** Files with times *)

(** [filemetadata.Metadata], as far as it is used. *)
Record Metadata := { Digest : string; MTime : Z }.

#[export] Instance Metadata_eq_dec : EqDecision Metadata.
Proof. solve_decision. Defined.

(** The file system, the times of its files, and the cache of their metadata. *)
Record world := { files : fs; times : gmap string Z; fmc : gmap string Metadata }.

Definition ModTime (w : world) (p : string) : Z := default 0%Z (times w !! p).

Definition Chtimes (w : world) (p : string) (t : Z) : res world :=
  match OS.Stat (files w) p with
  | Ok _ => Ok {| files := files w; times := <[p := t]> (times w); fmc := fmc w |}
  | Fail e => Fail e
  | Panic => Panic
  end.

Record command := { ExecRoot : string; WorkingDir : string; OutputFiles : list string; OutputDirs : list string }.

Section mtimes.

(** The digest of a content. *)
Variable digest_of : string → string.

(** ** Before the action *)

Definition absPath (c : command) : string := Join [ExecRoot c; WorkingDir c].

(** What cannot be read has no digest and is left out. *)
Definition getFileInfo (c : command) (w : world) (filesInfo : gmap string Metadata) (path : string) : gmap string Metadata :=
  match OS.ReadFile (files w) path with
  | Ok content =>
      let relPath := match Rel (absPath c) path with Ok r => r | _ => "" end in
      <[relPath := {| Digest := digest_of content; MTime := ModTime w path |}]> filesInfo
  | _ => filesInfo
  end.

(** [filepath.Walk]: the path and what is below it. *)
Definition walked (w : world) (path : string) : list string :=
  sort_Strings (List.filter (λ p, (p =? path)%string || OS.below path p) (map_to_list (files w)).*1).

Definition getPreExecOutsInfo (c : command) (w : world) : gmap string Metadata :=
  let info := foldl (λ info f, getFileInfo c w info (Join [absPath c; f])) ∅ (OutputFiles c) in
  foldl (λ info d, foldl (getFileInfo c w) info (walked w (Join [absPath c; d]))) info (OutputDirs c).

(** ** After it *)

Definition out_path (c : command) (out : string) : string := Join [ExecRoot c; WorkingDir c; out].

(** [fmc] answers from its files; an update is not refused. *)
Definition Update (w : world) (p : string) (m : Metadata) : world :=
  {| files := files w; times := times w; fmc := <[p := m]> (fmc w) |}.

(** The first time that cannot be set ends the loop. *)
Fixpoint restore (c : command) (preExecOutsInfo : gmap string Metadata) (outs : list (string * string)) (w : world) : world :=
  match outs with
  | [] => w
  | (out, d) :: outs =>
      match preExecOutsInfo !! out with
      | Some fInfo =>
          if (Digest fInfo =? d)%string then
            match Chtimes w (out_path c out) (MTime fInfo) with
            | Ok w => restore c preExecOutsInfo outs (Update w (out_path c out) fInfo)
            | _ => w
            end
          else restore c preExecOutsInfo outs w
      | None => restore c preExecOutsInfo outs w
      end
  end.

(** [outDigests] in the order of the map. *)
Definition restoreUnchangedOutputMtimes (c : command) (outDigests : res (list (string * string)))
    (preExecOutsInfo : gmap string Metadata) (w : world) : option error * world :=
  match outDigests with
  | Ok outs => (None, restore c preExecOutsInfo outs w)
  | Fail e => (Some (EWrap "Could not get output digests" e), w)
  | Panic => (None, w)
  end.

(** ** Unchanged outputs keep their times *)

Lemma restore_times c pre outs w :
  (∀ out, out ∈ outs.*1 → is_ok (OS.Stat (files w) (out_path c out)) = true) →
  NoDup (out_path c <$> outs.*1) →
  let w' := restore c pre outs w in
  files w' = files w ∧
  (∀ out d, (out, d) ∈ outs → times w' !! out_path c out =
     match pre !! out with
     | Some i => if (Digest i =? d)%string then Some (MTime i) else times w !! out_path c out
     | None => times w !! out_path c out
     end) ∧
  ∀ p, p ∉ out_path c <$> outs.*1 → times w' !! p = times w !! p.
Proof.
  revert w. induction outs as [|[out d] outs IH]; intros w Hs Hn; [split_and!; [done| |done]; by intros out d ?%elem_of_nil|].
  rewrite !fmap_cons in Hn. apply NoDup_cons in Hn as [Hout Hn]. cbn [fst] in Hout.
  assert (∀ w1, files w1 = files w →
    let w' := restore c pre outs w1 in
    files w' = files w ∧
    (∀ out' d', (out', d') ∈ outs → times w' !! out_path c out' =
       match pre !! out' with
       | Some i => if (Digest i =? d')%string then Some (MTime i) else times w1 !! out_path c out'
       | None => times w1 !! out_path c out'
       end) ∧
    (∀ p, p ∉ out_path c <$> outs.*1 → times w' !! p = times w1 !! p)) as Hw.
  { intros w1 E. rewrite <- E. apply IH; [|done]. intros o Ho. rewrite E. apply Hs. by right. }
  assert (∀ out' d', (out', d') ∈ outs → out_path c out' ≠ out_path c out) as Hne.
  { intros out' d' Hin E. apply Hout. rewrite <- E. apply list_elem_of_fmap. exists out'. split; [done|].
    apply list_elem_of_fmap. by exists (out', d'). }
  assert (∀ w1, files w1 = files w → (∀ p, p ≠ out_path c out → times w1 !! p = times w !! p) →
    let w' := restore c pre outs w1 in
    files w' = files w ∧ times w' !! out_path c out = times w1 !! out_path c out ∧
    (∀ out' d', (out', d') ∈ outs → times w' !! out_path c out' =
       match pre !! out' with
       | Some i => if (Digest i =? d')%string then Some (MTime i) else times w !! out_path c out'
       | None => times w !! out_path c out'
       end) ∧
    (∀ p, p ∉ out_path c <$> (out :: outs.*1) → times w' !! p = times w !! p)) as Hstep.
  { intros w1 E Ht. destruct (Hw w1 E) as (K1 & K2 & K3). cbv zeta in *. split; [done|]. split; [by apply K3|]. split.
    - intros out' d' Hin. rewrite (K2 out' d' Hin), (Ht (out_path c out')) by (by eapply Hne). done.
    - intros p Hp. rewrite fmap_cons, not_elem_of_cons in Hp. destruct Hp. rewrite K3 by done. by apply Ht. }
  cbn [restore]. unfold Chtimes. specialize (Hs out ltac:(by left)). destruct (OS.Stat (files w) (out_path c out)) as [n|e|]; [|done..].
  destruct (pre !! out) as [i|] eqn:Ei; [destruct (Digest i =? d)%string eqn:Ed|].
  - destruct (Hstep (Update {| files := files w; times := <[out_path c out := MTime i]> (times w); fmc := fmc w |} (out_path c out) i))
      as (K1 & K2 & K3 & K4); [done|intros p Hp; by apply lookup_insert_ne|]. split; [done|]. split; [|done].
    intros out' d' [[= -> ->]|Hin]%elem_of_cons; [|by apply K3]. rewrite K2, Ei, Ed. apply lookup_insert_eq.
  - destruct (Hstep w) as (K1 & K2 & K3 & K4); [done|done|]. split; [done|]. split; [|done].
    intros out' d' [[= -> ->]|Hin]%elem_of_cons; [|by apply K3]. by rewrite K2, Ei, Ed.
  - destruct (Hstep w) as (K1 & K2 & K3 & K4); [done|done|]. split; [done|]. split; [|done].
    intros out' d' [[= -> ->]|Hin]%elem_of_cons; [|by apply K3]. by rewrite K2, Ei.
Qed.

(** An output that is named by a clean relative path. *)
Definition clean_output (out : string) : Prop := ∃ ws, ws ≠ [] ∧ Forall proper ws ∧ out = GoStrings.Join ws "/".

Lemma Rel_Join base out : IsAbs base = true → clean_output out → Rel base (Join [base; out]) = Ok out.
Proof.
  intros Hb (ws & Hne & Hws & ->). pose proof (parse_rooted_proper base Hb) as Pb.
  assert (Split (GoStrings.Join ws "/") slash = ws) as Es by (apply Split_Join; [done|by apply proper_no_slash]).
  assert (Join [base; GoStrings.Join ws "/"] = render (LPath true (comps (parse base) ++ ws))) as EJ.
  { apply (Join_words base _ (comps (parse base)) []); [done|by rewrite app_nil_r|constructor|done|exact Es]. }
  rewrite Rel_rooted by (done || by apply IsAbs_Join2). rewrite EJ, parse_render_rooted by (by apply Forall_app). cbn [comps].
  rewrite <- (app_nil_r (comps (parse base))) at 1. rewrite strip_common_app. by destruct ws.
Qed.

(** Joining at once or in two steps. *)
Lemma Join3_nested er wd out : IsAbs er = true → Join [er; wd; out] = Join [Join [er; wd]; out].
Proof.
  intros He. pose proof (IsAbs_nonempty _ He) as Hne.
  assert (Join [er; wd; out] = Join [er; wd +:+ "/" +:+ out]) as ->.
  { simpl. by apply String.eqb_neq in Hne as ->. }
  apply Join2_eq; [done|by apply IsAbs_Join2|]. rewrite !Join2_comps by (done || by apply IsAbs_Join2). cbn [comps].
  rewrite reverse_involutive. f_equal. f_equal. change ("/" +:+ out) with (String slash out). by rewrite Split_app, foldl_app.
Qed.

(** Paths of clean outputs are told apart by their names. *)
Lemma out_path_inj c out1 out2 :
  IsAbs (ExecRoot c) = true → clean_output out1 → clean_output out2 →
  Join [absPath c; out1] = Join [absPath c; out2] → out1 = out2.
Proof.
  intros He H1 H2 E. assert (IsAbs (absPath c) = true) as Ha by (by apply IsAbs_Join2).
  pose proof (Rel_Join _ _ Ha H1) as R1. pose proof (Rel_Join _ _ Ha H2) as R2. rewrite E in R1. congruence.
Qed.

Lemma getFileInfo_other c w info path out :
  Rel (absPath c) path ≠ Ok out → out ≠ "" → getFileInfo c w info path !! out = info !! out.
Proof.
  intros H Hne. unfold getFileInfo. destruct (OS.ReadFile (files w) path) as [content|e|]; [|done..].
  apply lookup_insert_ne. destruct (Rel (absPath c) path) as [r|e|]; congruence.
Qed.

(** What is known of an output file before the action: its digest and its time. *)
Lemma getPreExecOutsInfo_file c w out :
  IsAbs (ExecRoot c) = true → OutputDirs c = [] → Forall clean_output (OutputFiles c) → out ∈ OutputFiles c →
  getPreExecOutsInfo c w !! out =
    match OS.ReadFile (files w) (Join [absPath c; out]) with
    | Ok content => Some {| Digest := digest_of content; MTime := ModTime w (Join [absPath c; out]) |}
    | _ => None
    end.
Proof.
  intros He Hd Hf Hin. unfold getPreExecOutsInfo. rewrite Hd. cbn [foldl].
  assert (IsAbs (absPath c) = true) as Ha by (by apply IsAbs_Join2).
  set (known := match OS.ReadFile _ _ with Ok _ => _ | _ => _ end).
  assert (clean_output out) as Ho by (rewrite Forall_forall in Hf; by apply Hf).
  assert (out ≠ "") as Hne.
  { destruct Ho as ([|[|a x] ws] & Hn & Hp & ->); [done| |by destruct ws].
    apply Forall_cons in Hp as [(? & _) _]. done. }
  assert (∀ fs0 info, Forall clean_output fs0 → info !! out = known ∨ (out ∈ fs0 ∧ info !! out = None) →
    foldl (λ info f, getFileInfo c w info (Join [absPath c; f])) info fs0 !! out = known) as H; [|apply H; [done|by right]].
  induction fs0 as [|f fs0 IH]; intros info Hfs Hi; cbn [foldl].
  { destruct Hi as [->|[?%elem_of_nil _]]; done. }
  apply Forall_cons in Hfs as [Hf0 Hfs]. apply IH; [done|]. destruct (decide (f = out)) as [->|Hn].
  - left. unfold getFileInfo, known. destruct (OS.ReadFile (files w) (Join [absPath c; out])) as [content|e|] eqn:Er.
    + rewrite (Rel_Join (absPath c) out) by done. apply lookup_insert_eq.
    + destruct Hi as [->|[_ ->]]; done.
    + destruct Hi as [->|[_ ->]]; done.
  - rewrite getFileInfo_other by (rewrite ?(Rel_Join (absPath c) f) by done; congruence || done).
    destruct Hi as [->|[Hi ->]]; [by left|right]. apply elem_of_cons in Hi as [->|Hi]; done.
Qed.


End mtimes.

(** ** Old logs *)

(** [n] characters of words. *)
Fixpoint words (n : nat) (s : string) (k : string → bool) : bool :=
  match n, s with
  | O, _ => k s
  | S n, String a s => re_word a && words n s k
  | S _, EmptyString => false
  end.

Definition then_text (l s : string) (k : string → bool) : bool := HasPrefix s l && k (str_drop (String.length l) s).

(** [^execution-\w{8}-\w{4}-\w{4}-\w{4}-\w{12}.dump$] *)
Definition dump_name (name : string) : bool :=
  then_text "execution-" name (λ s, words 8 s (λ s, then_text "-" s (λ s, words 4 s (λ s, then_text "-" s (λ s, words 4 s (λ s,
    then_text "-" s (λ s, words 4 s (λ s, then_text "-" s (λ s, words 12 s (λ s,
      match s with String a s => re_dot a && (s =? "dump")%string | EmptyString => false end)))))))))).

Definition log_file_name (name : string) : bool :=
  HasPrefix name "reproxy" || HasPrefix name "rewrapper" || HasPrefix name "bootstrap" || dump_name name.

(** What is deleted is chosen first; a file that cannot be removed stays. *)
Definition old_logs (now d : Z) (dir : string) (w : world) (names : list string) : list string :=
  List.filter (λ name,
    is_ok (OS.Stat (files w) (Join [dir; name])) && log_file_name name && (ModTime w (Join [dir; name]) <? now - d)%Z) names.

Definition DeleteOldLogFiles (now d : Z) (dir : string) (w : world) : world :=
  match LogFile.ReadDir (files w) dir with
  | Ok names =>
      {| files := foldl OS.try_Remove (files w) ((λ name, Join [dir; name]) <$> old_logs now d dir w names); times := times w; fmc := fmc w |}
  | _ => w
  end.

(** Old logs are gone and nothing else is touched. *)
Lemma DeleteOldLogFiles_spec now d dir w names :
  LogFile.ReadDir (files w) dir = Ok names →
  (∀ name c m, name ∈ names → log_file_name name = true → (ModTime w (Join [dir; name]) < now - d)%Z →
     files (DeleteOldLogFiles now d dir w) !! Join [dir; name] ≠ Some (NFile c m)) ∧
  (∀ p, (∀ name, name ∈ names → p = Join [dir; name] → log_file_name name = false ∨ (now - d ≤ ModTime w p)%Z) →
     files (DeleteOldLogFiles now d dir w) !! p = files w !! p).
Proof.
  intros E. unfold DeleteOldLogFiles. rewrite E. cbn [files].
  destruct (OS.try_Removes_spec ((λ name, Join [dir; name]) <$> old_logs now d dir w names) (files w)) as [H1 H2].
  assert (∀ p, p ∉ (λ name, Join [dir; name]) <$> old_logs now d dir w names ∨
    ∃ name, name ∈ names ∧ p = Join [dir; name] ∧ log_file_name name = true ∧ (ModTime w p < now - d)%Z) as Hsel.
  { intros p. destruct (decide (p ∈ (λ name, Join [dir; name]) <$> old_logs now d dir w names)) as [Hp|Hp]; [right|by left].
    apply list_elem_of_fmap in Hp as (name & -> & Hp). unfold old_logs in Hp. apply list_elem_of_In, filter_In in Hp as [Hin Hb].
    apply andb_true_iff in Hb as [[_ Hl]%andb_true_iff Ht]. exists name. split; [by apply list_elem_of_In|]. split; [done|]. split; [done|lia]. }
  split.
  - intros name c m Hin Hl Ht Hfile.
    destruct (decide (Join [dir; name] ∈ (λ name, Join [dir; name]) <$> old_logs now d dir w names)) as [Hp|Hp]; [by apply (H2 _ c m Hp)|].
    rewrite H1 in Hfile by done. apply Hp, list_elem_of_fmap. exists name. split; [done|]. unfold old_logs.
    apply list_elem_of_In, filter_In. split; [by apply list_elem_of_In|]. rewrite Hl.
    assert (is_ok (OS.Stat (files w) (Join [dir; name])) = true) as ->.
    { unfold OS.Stat. rewrite Hfile. by destruct (OS.is_dir (files w) (Join [dir; name])). }
    cbn [andb]. by apply Z.ltb_lt.
  - intros p Hp. destruct (Hsel p) as [Hn|(name & Hin & -> & Hl & Ht)]; [by apply H1|]. destruct (Hp name Hin eq_refl); [congruence|lia].
Qed.

(** ** On concrete files *)

Module Concrete.

Definition c : command := {| ExecRoot := "/r"; WorkingDir := "w"; OutputFiles := ["a.o"; "d/b.o"; "new.o"]; OutputDirs := [] |}.
Definition before : world := {|
  files := {[ "/r" := NDir; "/r/w" := NDir; "/r/w/d" := NDir; "/r/w/a.o" := NFile "old" 420; "/r/w/d/b.o" := NFile "same" 420 ]};
  times := {[ "/r/w/a.o" := 100%Z; "/r/w/d/b.o" := 200%Z ]}; fmc := ∅ |}.
Definition after : world := {|
  files := {[ "/r" := NDir; "/r/w" := NDir; "/r/w/d" := NDir; "/r/w/a.o" := NFile "new" 420; "/r/w/d/b.o" := NFile "same" 420;
              "/r/w/new.o" := NFile "x" 420 ]};
  times := {[ "/r/w/a.o" := 900%Z; "/r/w/d/b.o" := 901%Z; "/r/w/new.o" := 902%Z ]}; fmc := ∅ |}.

Definition restored : world :=
  (restoreUnchangedOutputMtimes c (Ok [("a.o", "new"); ("d/b.o", "same"); ("new.o", "x")]) (getPreExecOutsInfo id c before) after).2.

Example restored_times :
  (ModTime restored "/r/w/a.o", ModTime restored "/r/w/d/b.o", ModTime restored "/r/w/new.o") = (900, 200, 902)%Z.
Proof. vm_compute. reflexivity. Qed.

(** A time that cannot be set ends the loop: the outputs after it lose their
    times too. *)
Example others_lost :
  let w := {| files := delete "/r/w/a.o" (files before); times := times after; fmc := ∅ |} in
  let pre := getPreExecOutsInfo id c before in
  ModTime (restoreUnchangedOutputMtimes c (Ok [("a.o", "old"); ("d/b.o", "same")]) pre w).2 "/r/w/d/b.o" = 901%Z ∧
  ModTime (restoreUnchangedOutputMtimes c (Ok [("d/b.o", "same"); ("a.o", "old")]) pre w).2 "/r/w/d/b.o" = 200%Z.
Proof. split; vm_compute; reflexivity. Qed.

Example names :
  log_file_name "execution-0a1b2c3d-0000-1111-2222-0123456789ab.dump" = true ∧
  log_file_name "execution-id.dump" = false ∧ log_file_name "reproxy.INFO" = true ∧ log_file_name "my-reproxy.INFO" = false.
Proof. split_and!; reflexivity. Qed.

End Concrete.


End Mtimes.
