(* ===== verification/IgnoreMismatch.v ===== *)
(** * Mismatches that are ignored: [internal/pkg/ignoremismatch]

    The rules of a configuration file take mismatches out of the records of
    actions that were run in compare mode, before the records are aggregated
    (Stats.v) and written (LogFile.v). *)
From S2P Require Import Prelude GoStrings GoPath GoFS GoFloat Stats.
Import Stats.

Module IgnoreMismatch.

(** ** The configuration *)

Record RegexPattern := { Expression : string; Inverted : bool }.

(** [ppb.Rule]: its specification is one of the kinds, or missing; that of an
    output path may lack its pattern. *)
Inductive RuleSpec := OutputFilePathRuleSpec (path_pattern : option RegexPattern).
Definition Rule : Type := option RuleSpec.

(** [outputFilePathRule], the one implementation of [ignoreRule]. *)
Record outputFilePathRule := { spec_PathPattern : option RegexPattern }.

Definition createFromRuleProto (rpb : Rule) : res outputFilePathRule :=
  match rpb with
  | Some (OutputFilePathRuleSpec p) => Ok {| spec_PathPattern := p |}
  | None => Fail (EMsg "couldn't find a rule implementation for rule spec")
  end.

Definition MismatchIgnorer : Type := list outputFilePathRule.

Fixpoint fromConfig (rules : list Rule) : res MismatchIgnorer :=
  match rules with
  | [] => Ok []
  | rpb :: rules =>
      match createFromRuleProto rpb with
      | Ok r => let? mi := fromConfig rules in Ok (r :: mi)
      | Fail _ => Fail (EMsg "failed to create rule")
      | Panic => Panic
      end
  end.

Section ignore.

(** [regexp.Compile], which may fail, and [MatchString]; the text form of the
    configuration. *)
Variables (compile : string → option (string → bool)) (Unmarshal : string → res (list Rule)).

Definition readMismatchIgnoreConfig (w : fs) (configPath : string) : res (list Rule) :=
  match OS.ReadFile w configPath with
  | Ok blob =>
      match Unmarshal blob with
      | Ok config => Ok config
      | Fail e => Fail (EMsg "failed to unmarshal text proto to MismatchIgnoreConfig proto")
      | Panic => Panic
      end
  | Fail e => Fail (EMsg "failed to read mismatch ignore config")
  | Panic => Panic
  end.

(** No path, no ignorer: [None] is the nil pointer. *)
Definition New (w : fs) (configPath : string) : res (option MismatchIgnorer) :=
  if (configPath =? "")%string then Ok None
  else match readMismatchIgnoreConfig w configPath with
       | Ok config => let? mi := fromConfig config in Ok (Some mi)
       | Fail e => Fail (EMsg "failed to create mismatch ignore config from file")
       | Panic => Panic
       end.

(** ** Rules *)

(** [outputFilePathRule.shouldIgnore]; [GetPathPattern()] of a specification
    without a pattern is nil, and its expression is looked at all the same. *)
Definition rule_shouldIgnore (r : outputFilePathRule) (m : Mismatch) : res bool :=
  match spec_PathPattern r with
  | None => Panic
  | Some p =>
      match compile (Expression p) with
      | None => Fail (EMsg "invalid regular expression")
      | Some re => Ok (negb (eqb (Inverted p) (re (mm_Path m))))
      end
  end.

(** The first rule that ignores the mismatch decides, one that fails is passed
    over. *)
Fixpoint shouldIgnore (mi : MismatchIgnorer) (m : Mismatch) : res bool :=
  match mi with
  | [] => Ok false
  | r :: mi =>
      match rule_shouldIgnore r m with
      | Ok true => Ok true
      | Ok false | Fail _ => shouldIgnore mi m
      | Panic => Panic
      end
  end.

(** The mismatches that stay and the number of the others. *)
Fixpoint filter_mismatches (mi : MismatchIgnorer) (ms : list Mismatch) (filtered : list Mismatch) (ignored : Z) :
    res (list Mismatch * Z) :=
  match ms with
  | [] => Ok (filtered, ignored)
  | m :: ms =>
      let? b := shouldIgnore mi m in
      if (b : bool) then filter_mismatches mi ms filtered (int32 (ignored + 1))
      else filter_mismatches mi ms (filtered ++ [m]) ignored
  end.

Definition with_Verification {T} (r : LogRecord T) (v : Verification) : LogRecord T := {|
  lr_CommandId := lr_CommandId r; lr_InvocationId := lr_InvocationId r; lr_Result := lr_Result r;
  lr_RemoteMetadata := lr_RemoteMetadata r;
  lr_LocalMetadata := (λ lm, {|
    lm_Result := lm_Result lm; lm_ExecutedLocally := lm_ExecutedLocally lm; lm_ValidCacheHit := lm_ValidCacheHit lm;
    lm_UpdatedCache := lm_UpdatedCache lm; lm_Verification := Some v; lm_EventTimes := lm_EventTimes lm;
    lm_RerunMetadata := lm_RerunMetadata lm; lm_Labels := lm_Labels lm |}) <$> lr_LocalMetadata r;
  lr_CompletionStatus := lr_CompletionStatus r |}.

(** The record is changed where it is; an empty list of mismatches is nil. *)
Definition ProcessLogRecord {T} (mi : option MismatchIgnorer) (r : LogRecord T) : res (LogRecord T) :=
  match mi, (lr_LocalMetadata r ≫= lm_Verification) with
  | Some mi, Some v =>
      match vf_Mismatches v with
      | [] => Ok r
      | ms =>
          let? fi := filter_mismatches mi ms [] 0 in
          Ok (with_Verification r {|
            vf_Mismatches := fi.1; vf_TotalMismatches := vf_TotalMismatches v;
            vf_TotalIgnoredMismatches := fi.2; vf_TotalVerified := vf_TotalVerified v |})
      end
  | _, _ => Ok r
  end.

(** ** What is ignored *)

(** A rule matches when its expression is valid and matches the path, or does
    not when it is inverted. *)
Definition rule_matches (r : outputFilePathRule) (m : Mismatch) : Prop :=
  ∃ p re, spec_PathPattern r = Some p ∧ compile (Expression p) = Some re ∧ Inverted p ≠ re (mm_Path m).

#[export] Instance rule_matches_dec r m : Decision (rule_matches r m).
Proof.
  unfold rule_matches. destruct (spec_PathPattern r) as [p|]; [|by right; intros (? & ? & ? & ?)].
  destruct (compile (Expression p)) as [re|] eqn:E; [|right; intros (? & ? & [= <-] & E' & _); congruence].
  destruct (bool_eq_dec (Inverted p) (re (mm_Path m))) as [Hb|Hb].
  - right. intros (? & ? & [= <-] & E' & H). rewrite E in E'. by injection E' as <-.
  - left. eauto.
Defined.

Definition ignored_by (mi : MismatchIgnorer) (m : Mismatch) : Prop := Exists (λ r, rule_matches r m) mi.

#[export] Instance ignored_by_dec mi m : Decision (ignored_by mi m).
Proof. unfold ignored_by. apply _. Defined.

(** Every rule has a pattern. *)
Definition complete (mi : MismatchIgnorer) : Prop := Forall (λ r, is_Some (spec_PathPattern r)) mi.

Lemma rule_shouldIgnore_spec r m :
  is_Some (spec_PathPattern r) → rule_shouldIgnore r m = Ok true ∧ rule_matches r m ∨
    (rule_shouldIgnore r m = Ok false ∨ ∃ e, rule_shouldIgnore r m = Fail e) ∧ ¬ rule_matches r m.
Proof.
  intros [p Hp]. unfold rule_shouldIgnore, rule_matches. rewrite Hp.
  destruct (compile (Expression p)) as [re|] eqn:E.
  2:{ right. split; [by right; eexists|]. intros (? & ? & [= <-] & E' & _). congruence. }
  destruct (eqb_spec (Inverted p) (re (mm_Path m))) as [Hb|Hb]; [right|left].
  - split; [by left|]. intros (? & ? & [= <-] & E' & H). rewrite E in E'. by injection E' as <-.
  - split; [done|]. eauto.
Qed.

Lemma shouldIgnore_spec mi m : complete mi → shouldIgnore mi m = Ok (bool_decide (ignored_by mi m)).
Proof.
  unfold ignored_by. induction 1 as [|r mi Hr _ IH]; cbn [shouldIgnore].
  { rewrite bool_decide_false; [done|]. by intros ?%Exists_nil. }
  rewrite (bool_decide_ext _ _ (Exists_cons _ _ _)).
  destruct (rule_shouldIgnore_spec r m Hr) as [[-> Hm]|[Hr' Hm]]; [by rewrite bool_decide_true by (by left)|].
  assert (shouldIgnore mi m = Ok (bool_decide (rule_matches r m ∨ Exists (λ r, rule_matches r m) mi))) as E.
  { rewrite IH. f_equal. apply bool_decide_ext. tauto. }
  by destruct Hr' as [->|[e ->]].
Qed.

Lemma filter_mismatches_spec mi ms filtered ignored :
  complete mi → (0 ≤ ignored)%Z → (ignored + Z.of_nat (length ms) < 2 ^ 31)%Z →
  filter_mismatches mi ms filtered ignored =
  Ok (filtered ++ filter (λ m, ¬ ignored_by mi m) ms, (ignored + Z.of_nat (length (filter (ignored_by mi) ms)))%Z).
Proof.
  intros Hc. revert filtered ignored. induction ms as [|m ms IH]; intros filtered ignored H0 Hl.
  { simpl. by rewrite app_nil_r, Z.add_0_r. }
  cbn [filter_mismatches length] in *. rewrite shouldIgnore_spec by done. cbn [mbind res_bind].
  rewrite !filter_cons. case_bool_decide as Hm.
  - rewrite (decide_False (P := ¬ _)), (decide_True (P := ignored_by mi m)) by tauto.
    rewrite int32_small by lia. rewrite IH by lia. cbn [length]. do 2 f_equal. lia.
  - rewrite (decide_True (P := ¬ _)), (decide_False (P := ignored_by mi m)) by tauto.
    rewrite IH by lia. by rewrite <- app_assoc.
Qed.

Definition mismatches {T} (r : LogRecord T) : list Mismatch :=
  default [] (vf_Mismatches <$> (lr_LocalMetadata r ≫= lm_Verification)).
Definition total_ignored {T} (r : LogRecord T) : Z :=
  default 0%Z (vf_TotalIgnoredMismatches <$> (lr_LocalMetadata r ≫= lm_Verification)).

(** What stays of the mismatches of a record are those that no rule matches,
    in order; the others are counted, and nothing else of the record changes. *)
Theorem ProcessLogRecord_spec {T} mi (r : LogRecord T) :
  complete mi → mismatches r ≠ [] → (Z.of_nat (length (mismatches r)) < 2 ^ 31)%Z →
  ∃ r', ProcessLogRecord (Some mi) r = Ok r' ∧
    mismatches r' = filter (λ m, ¬ ignored_by mi m) (mismatches r) ∧
    (total_ignored r' + Z.of_nat (length (mismatches r')))%Z = Z.of_nat (length (mismatches r)) ∧
    ∀ v, lr_LocalMetadata r ≫= lm_Verification = Some v → with_Verification r' v = r.
Proof.
  intros Hc Hne Hl. unfold ProcessLogRecord, mismatches, total_ignored in *.
  destruct r as [id inv rs rm [lm|] cs]; [|done]. cbn [lr_LocalMetadata mbind option_bind] in *.
  destruct (lm_Verification lm) as [v|] eqn:Ev; [|done].
  change (default [] (vf_Mismatches <$> Some v)) with (vf_Mismatches v) in *.
  rewrite <- (app_nil_l (filter _ _)). destruct (vf_Mismatches v) as [|m0 ms0]; [done|].
  rewrite filter_mismatches_spec by (done || lia). cbn [mbind res_bind]. eexists. split; [done|].
  cbn [with_Verification lr_LocalMetadata fmap option_fmap option_map lm_Verification default vf_Mismatches vf_TotalIgnoredMismatches fst snd].
  split; [done|]. split.
  - pose proof (Permutation_length (filter_app_complement (ignored_by mi) (m0 :: ms0))) as Hp.
    rewrite length_app in Hp. rewrite app_nil_l. cbn -[filter length Z.add]. lia.
  - intros ? [= <-]. unfold with_Verification. simpl. f_equal. destruct lm; simpl in *. by rewrite Ev.
Qed.

(** Without rules, without an ignorer, and without mismatches the record is as it
    was. *)
Lemma ProcessLogRecord_nil {T} (r : LogRecord T) mi :
  mi = None ∨ mismatches r = [] → ProcessLogRecord mi r = Ok r.
Proof.
  unfold ProcessLogRecord, mismatches. intros [->|H]; [done|]. destruct mi; [|done].
  destruct (lr_LocalMetadata r ≫= lm_Verification) as [v|]; [|done]. simpl in H. by rewrite H.
Qed.

(** An ignorer that [New] made comes from the file; a rule of an unknown kind
    refuses all of it. *)
Lemma New_spec w path mi :
  New w path = Ok (Some mi) →
  ∃ blob rules, OS.ReadFile w path = Ok blob ∧ Unmarshal blob = Ok rules ∧
    rules = (λ r, Some (OutputFilePathRuleSpec (spec_PathPattern r))) <$> mi.
Proof.
  unfold New, readMismatchIgnoreConfig. destruct (path =? "")%string; [done|].
  destruct (OS.ReadFile w path) as [blob|e|] eqn:Er; [|done..]. destruct (Unmarshal blob) as [rules|e|] eqn:Eu; [|done..].
  destruct (fromConfig rules) as [mi'|e|] eqn:Ec; cbn [mbind res_bind]; [|done..]. intros [= ->].
  exists blob, rules. split; [done|]. split; [done|]. clear Eu. revert mi Ec.
  induction rules as [|[[p]|] rules IH]; intros mi; cbn [fromConfig createFromRuleProto]; [by intros [= <-]| |done].
  destruct (fromConfig rules) as [mi'|e|]; cbn [mbind res_bind]; [|done..]. intros [= <-]. cbn. by rewrite <- IH.
Qed.

End ignore.

(** ** On concrete rules *)

Module Concrete.

(** A matcher that looks for a text; an opening bracket is not valid. *)
Definition compile (e : string) : option (string → bool) :=
  if (e =? "[")%string then None else Some (λ s, Contains s e).

Definition rule (e : string) (inverted : bool) : outputFilePathRule :=
  {| spec_PathPattern := Some {| Expression := e; Inverted := inverted |} |}.

Definition mm (path : string) : Mismatch := {| mm_Path := path; mm_NonDeterministic := false; mm_Ignored := false |}.

Definition record : LogRecord nat := {|
  lr_CommandId := "id"; lr_InvocationId := ""; lr_Result := None; lr_RemoteMetadata := None;
  lr_LocalMetadata := Some {|
    lm_Result := None; lm_ExecutedLocally := false; lm_ValidCacheHit := false; lm_UpdatedCache := false;
    lm_Verification := Some {| vf_Mismatches := mm <$> ["bar.o"; "baz.o"; "a/bar.d"];
      vf_TotalMismatches := 3; vf_TotalIgnoredMismatches := 0; vf_TotalVerified := 7 |};
    lm_EventTimes := []; lm_RerunMetadata := []; lm_Labels := ∅ |};
  lr_CompletionStatus := 2 |}.

Definition after (mi : MismatchIgnorer) : res (list string * Z) :=
  let? r := ProcessLogRecord compile (Some mi) record in Ok (mm_Path <$> mismatches r, total_ignored r).

Example filtered :
  after [rule "[" false; rule "bar" false] = Ok (["baz.o"], 2%Z) ∧
  after [rule "bar" true] = Ok (["bar.o"; "a/bar.d"], 1%Z) ∧ after [] = Ok (["bar.o"; "baz.o"; "a/bar.d"], 0%Z).
Proof. split_and!; vm_compute; reflexivity. Qed.

(** A rule without a pattern is accepted, and the first mismatch ends the
    process. *)
Example pattern_missing :
  fromConfig [Some (OutputFilePathRuleSpec None)] = Ok [{| spec_PathPattern := None |}] ∧
  after [{| spec_PathPattern := None |}] = Panic.
Proof. split; vm_compute; reflexivity. Qed.

(** A record that is processed again loses the count of the first time. *)
Example processed_twice :
  (let? r := ProcessLogRecord compile (Some [rule "bar" false]) record in
   let? r := ProcessLogRecord compile (Some [rule "bar" false]) r in Ok (total_ignored r)) = Ok 0%Z.
Proof. vm_compute. reflexivity. Qed.

End Concrete.

Lemma ProcessLogRecord_spec_witness :
  ∃ r', ProcessLogRecord Concrete.compile (Some [Concrete.rule "bar" false]) Concrete.record = Ok r' ∧
    (total_ignored r' + Z.of_nat (length (mismatches r')))%Z = 3%Z.
Proof.
  destruct (ProcessLogRecord_spec Concrete.compile [Concrete.rule "bar" false] Concrete.record) as (r' & E & _ & H & _).
  - constructor; [eexists; reflexivity|constructor].
  - discriminate.
  - reflexivity.
  - exists r'. split; [exact E|exact H].
Defined.

End IgnoreMismatch.
