(* ===== verification/Trace.v ===== *)
(** * Traces of a log: [cmd/rpl2trace/rpl2trace.go],
      [cmd/rpl2cloudtrace/rpl2cloudtrace.go]

    The records of a log become events of a trace for a viewer, where those that
    overlap go to different lanes, or spans that are sent in batches to a
    service. *)
From S2P Require Import Prelude GoStrings GoPath GoNet Stats.
From Stdlib Require Import Ascii.
Import Stats.

Module Trace.

(** ** Times

    A time is that of Stats.v: nanoseconds since the zero time. *)

(** The interval of an event; either end may be missing. *)
Record interval := { iv_From : option Z; iv_To : option Z }.

Definition UnixNano (t : Z) : Z := int64 (t - 62135596800 * 1000000000).

Definition extend_start (start from : Z) : Z := if IsZero start || (from <? start)%Z then from else start.
Definition extend_end (fin to : Z) : Z := if IsZero fin || (fin <? to)%Z then to else fin.

(** The ends of those events that have both. *)
Definition complete (kv : string * interval) : option (Z * Z) :=
  match iv_From kv.2, iv_To kv.2 with Some f, Some t => Some (f, t) | _, _ => None end.

(** ** Events for a viewer *)

Definition localTID : Z := 1.
Definition remoteTID : Z := 2.

Section rpl2trace.

(** What is told of a record besides its target. *)
Context {A : Type}.

Record args := { target : string; about : A }.

Record event := {
  Name : string;
  Cat : string;
  Phase : string;
  Timestamp : Z;
  Dur : Z;
  Pid : nat;
  Tid : Z;
  Args : args
}.

Definition one_event (cat key : string) (pid : nat) (etid : Z) (a : args) (from dur : Z) : event := {|
  Name := cat +:+ ":" +:+ key; Cat := key; Phase := "X"; Timestamp := Z.quot (UnixNano from) 1000;
  Dur := Z.quot dur 1000; Pid := pid; Tid := etid; Args := a |}.

(** One round of the loop over the events, in the order of the map. *)
Definition convert_step (cat : string) (pid : nat) (tid : Z) (a : args) (level : Z)
    (acc : list event * Z * Z) (kv : string * interval) : list event * Z * Z :=
  let '(events, start, fin) := acc in
  match complete kv with
  | None => acc
  | Some (from, to) =>
      let start := extend_start start from in
      let fin := extend_end fin to in
      let dur := Sub to from in
      if (dur <? 1000)%Z then (events, start, fin)
      else
        let etid := if HasPrefix kv.1 "Server" then (tid + 1)%Z else tid in
        (if (etid <=? level)%Z then events ++ [one_event cat kv.1 pid etid a from dur] else events, start, fin)
  end.

Definition convertEventTime (cat : string) (pid : nat) (tid : Z) (ets : list (string * interval)) (a : args) (level : Z) :
    list event * Z * Z :=
  let '(events, start, fin) := foldl (convert_step cat pid tid a level) ([], 0%Z, 0%Z) ets in
  (if negb (IsZero start) && (tid <=? level)%Z
   then events ++ [{| Name := target a +:+ " - " +:+ cat; Cat := cat; Phase := "X"; Timestamp := Z.quot (UnixNano start) 1000;
                      Dur := Z.quot (Sub fin start) 1000; Pid := pid; Tid := tid; Args := a |}]
   else events, start, fin).

(** The parts of a record: its outputs and directory, the event times of its
    metadata with what is told of them. *)
Record log_record := {
  OutputFiles : list string;
  WorkingDirectory : string;
  Remote : option (list (string * interval) * A);
  Local : option (list (string * interval) * A);
  About : A
}.

Definition output_of (log : log_record) : string :=
  TrimPrefix (match OutputFiles log with o :: _ => o | [] => "???" end) (WorkingDirectory log).

Definition remote_events (log : log_record) (level : Z) : list event * Z * Z :=
  match Remote log with
  | Some (ets, a) =>
      if (remoteTID <=? level)%Z
      then convertEventTime "Remote" 0 remoteTID ets {| target := output_of log; about := a |} level else ([], 0%Z, 0%Z)
  | None => ([], 0%Z, 0%Z)
  end.

(** The comparisons with the times of the local events, which are zero when
    there are none. *)
Definition with_local (log : log_record) (level : Z) (acc : list event * Z * Z) : list event * Z * Z :=
  let '(events, pfrom, pto) := acc in
  match Local log with
  | Some (ets, a) =>
      let '(evs, lfrom, lto) := convertEventTime "Local" 0 localTID ets {| target := output_of log; about := a |} level in
      (events ++ evs, if IsZero pfrom || (lfrom <? pfrom)%Z then lfrom else pfrom,
       if IsZero pto || (pto <? lto)%Z then lto else pto)
  | None => acc
  end.

Definition convertLogRecord (log : log_record) (level : Z) : list event * Z * Z :=
  let '(events, pfrom, pto) := with_local log level (remote_events log level) in
  (if (level =? 0)%Z
   then events ++ [{| Name := output_of log; Cat := "Command Request"; Phase := "X"; Timestamp := Z.quot (UnixNano pfrom) 1000;
                      Dur := Z.quot (Sub pto pfrom) 1000; Pid := 0; Tid := 0;
                      Args := {| target := output_of log; about := About log |} |}]
   else events, pfrom, pto).

(** *** Lanes *)

(** The first lane that is free goes on, or a new one is opened. *)
Definition place (running : list Z) (from to : Z) : nat * list Z :=
  match list_find (λ r, (r < from)%Z) running with
  | Some (i, _) => (S i, <[i := to]> running)
  | None => (S (length running), running ++ [to])
  end.

Definition with_pid (pid : nat) (e : event) : event := {|
  Name := Name e; Cat := Cat e; Phase := Phase e; Timestamp := Timestamp e; Dur := Dur e; Pid := pid; Tid := Tid e;
  Args := Args e |}.

Fixpoint place_records (running : list Z) (logs : list log_record) (level : Z) : list event :=
  match logs with
  | [] => []
  | log :: logs =>
      let '(evs, from, to) := convertLogRecord log level in
      let '(pid, running) := place running from to in
      (with_pid pid <$> evs) ++ place_records running logs level
  end.

(** The function that [sort.Slice] compares with. *)
Definition less (a b : event) : bool :=
  if (Timestamp a =? Timestamp b)%Z then (Dur b <=? Dur a)%Z else (Timestamp a <? Timestamp b)%Z.

(** Its order is not strict: what [sort.Slice] makes of it is some
    permutation. *)
Variable sort_Slice : (event → event → bool) → list event → list event.

Definition convertLogRecords (logs : list log_record) (level : Z) : list event :=
  sort_Slice less (place_records [] logs level).

(** ** The times of a record *)

Definition extend (se ft : Z * Z) : Z * Z := (extend_start se.1 ft.1, extend_end se.2 ft.2).

Lemma convert_step_times cat pid tid a level acc kv :
  ((convert_step cat pid tid a level acc kv).1.2, (convert_step cat pid tid a level acc kv).2) =
  from_option (extend (acc.1.2, acc.2)) (acc.1.2, acc.2) (complete kv).
Proof. destruct acc as [[evs s] e]. unfold convert_step. destruct (complete kv) as [[f t]|]; [|done]. by destruct (Sub t f <? 1000)%Z. Qed.

Lemma convertEventTime_times cat pid tid ets a level :
  ((convertEventTime cat pid tid ets a level).1.2, (convertEventTime cat pid tid ets a level).2) =
  foldl extend (0%Z, 0%Z) (omap complete ets).
Proof.
  unfold convertEventTime.
  assert (∀ acc, ((foldl (convert_step cat pid tid a level) acc ets).1.2, (foldl (convert_step cat pid tid a level) acc ets).2) =
    foldl extend (acc.1.2, acc.2) (omap complete ets)) as H.
  { induction ets as [|kv ets IH]; intros acc; [done|]. cbn [foldl omap]. rewrite IH, convert_step_times.
    simpl. by destruct (complete kv). }
  specialize (H ([], 0%Z, 0%Z)). by destruct (foldl _ _ ets) as [[evs s] e].
Qed.

(** Times after the zero time, and no interval that ends before it starts. *)
Definition sane (fts : list (Z * Z)) : Prop := Forall (λ ft, (0 < ft.1 ≤ ft.2)%Z) fts.

Lemma extend_bounds fts s e :
  sane fts → (0 < s ≤ e)%Z →
  let se := foldl extend (s, e) fts in
  (0 < se.1 ≤ se.2)%Z ∧ (se.1 = s ∨ se.1 ∈ fts.*1) ∧ (se.2 = e ∨ se.2 ∈ fts.*2) ∧ (se.1 ≤ s ∧ e ≤ se.2)%Z ∧
  ∀ ft, ft ∈ fts → (se.1 ≤ ft.1 ∧ ft.2 ≤ se.2)%Z.
Proof.
  intros Hf. revert s e. induction Hf as [|[f t] fts Hft Hf IH]; intros s e Hs; simpl.
  { split; [done|]. split; [by left|]. split; [by left|]. split; [lia|]. by intros ? ?%elem_of_nil. }
  assert (extend (s, e) (f, t) = (Z.min s f, Z.max e t)) as ->.
  { unfold extend, extend_start, extend_end, IsZero. simpl. rewrite !bool_decide_false by lia. simpl.
    f_equal; [destruct (Z.ltb_spec f s)|destruct (Z.ltb_spec e t)]; lia. }
  simpl in Hft. destruct (IH (Z.min s f) (Z.max e t)) as (H1 & H2 & H3 & H4 & H5); [lia|]. split; [done|].
  split; [destruct H2 as [->|H2]; [destruct (Z.min_spec s f) as [[_ ->]|[_ ->]]; [by left|right; by left]|right; by right]|].
  split; [destruct H3 as [->|H3]; [destruct (Z.max_spec e t) as [[_ ->]|[_ ->]]; [right; by left|by left]|right; by right]|].
  split; [lia|]. intros ft [->|Hin]%elem_of_cons; [simpl; lia|by apply H5].
Qed.

(** What the loop computes: nothing of nothing, or the earliest start and the
    latest end. *)
Lemma times_spec fts :
  sane fts →
  let se := foldl extend (0%Z, 0%Z) fts in
  (fts = [] ∧ se = (0%Z, 0%Z)) ∨
  (0 < se.1 ≤ se.2)%Z ∧ se.1 ∈ fts.*1 ∧ se.2 ∈ fts.*2 ∧ ∀ ft, ft ∈ fts → (se.1 ≤ ft.1 ∧ ft.2 ≤ se.2)%Z.
Proof.
  intros Hf. destruct Hf as [|[f t] fts Hft Hf]; [by left|right]. simpl in Hft. cbn [foldl].
  change (extend (0%Z, 0%Z) (f, t)) with (f, t).
  destruct (extend_bounds fts f t Hf Hft) as (H1 & H2 & H3 & H4 & H5). split; [done|].
  split; [destruct H2 as [->|H2]; [by left|by right]|]. split; [destruct H3 as [->|H3]; [by left|by right]|].
  intros ft [->|Hin]%elem_of_cons; [simpl; lia|by apply H5].
Qed.

(** The order in which the map is visited does not matter to the times. *)
Lemma times_order fts fts' :
  sane fts → fts ≡ₚ fts' → foldl extend (0%Z, 0%Z) fts = foldl extend (0%Z, 0%Z) fts'.
Proof.
  intros Hf Hp. assert (sane fts') as Hf' by (unfold sane in *; by rewrite <- Hp).
  pose proof (times_spec fts Hf) as H. pose proof (times_spec fts' Hf') as H'. cbn zeta in H, H'.
  destruct (foldl extend (0%Z, 0%Z) fts) as [s e], (foldl extend (0%Z, 0%Z) fts') as [s' e']. cbn [fst snd] in *.
  destruct H as [[-> E]|(_ & Hs & He & Hb)].
  { apply Permutation_nil_l in Hp as <-. destruct H' as [[_ E']|(_ & Hs & _)]; [congruence|]. by apply elem_of_nil in Hs. }
  destruct H' as [[-> _]|(_ & Hs' & He' & Hb')].
  { apply Permutation_nil_r in Hp as ->. by apply elem_of_nil in Hs. }
  apply list_elem_of_fmap in Hs as ([f1 t1] & -> & H1), He as ([f2 t2] & -> & H2), Hs' as ([f3 t3] & -> & H3),
    He' as ([f4 t4] & -> & H4). cbn [fst snd] in *.
  rewrite Hp in H1, H2. rewrite <- Hp in H3, H4. apply Hb' in H1, H2. apply Hb in H3, H4. simpl in *. f_equal; lia.
Qed.

(** *** Lanes do not overlap *)

Definition sane_record (log : log_record) : Prop :=
  sane (omap complete (default [] (fst <$> Remote log))) ∧ sane (omap complete (default [] (fst <$> Local log))).

(** From when to when a record is shown. *)
Definition span (level : Z) (log : log_record) : Z * Z :=
  ((convertLogRecord log level).1.2, (convertLogRecord log level).2).

Lemma convertEventTime_ordered cat pid tid ets a level :
  sane (omap complete ets) →
  (0 ≤ (convertEventTime cat pid tid ets a level).1.2 ≤ (convertEventTime cat pid tid ets a level).2)%Z.
Proof.
  intros H. pose proof (convertEventTime_times cat pid tid ets a level) as E.
  destruct (times_spec _ H) as [[_ E']|(H1 & _)]; rewrite <- E in *; [injection E' as -> ->|simpl in *]; lia.
Qed.

Lemma span_ordered level log : sane_record log → (0 ≤ (span level log).1 ≤ (span level log).2)%Z.
Proof.
  intros [Hr Hl]. unfold span, convertLogRecord.
  assert (0 ≤ (remote_events log level).1.2 ≤ (remote_events log level).2)%Z as H1.
  { unfold remote_events. destruct (Remote log) as [[ets a]|]; [|done]. destruct (remoteTID <=? level)%Z; [|done].
    by apply convertEventTime_ordered. }
  assert (0 ≤ (with_local log level (remote_events log level)).1.2 ≤ (with_local log level (remote_events log level)).2)%Z as H2.
  { destruct (remote_events log level) as [[evs s] e]. unfold with_local. destruct (Local log) as [[ets a]|]; [|done].
    pose proof (convertEventTime_ordered "Local" 0 localTID ets {| target := output_of log; about := a |} level Hl) as H3.
    destruct (convertEventTime _ _ _ _ _ _) as [[evs' s'] e']. cbn [fst snd] in *. unfold IsZero.
    do 2 case_bool_decide; simpl; try destruct (Z.ltb_spec s' s); try destruct (Z.ltb_spec e e'); lia. }
  destruct (with_local log level (remote_events log level)) as [[evs s] e]. exact H2.
Qed.

(** The lanes that records with these spans get. *)
Fixpoint lanes (running : list Z) (spans : list (Z * Z)) : list nat :=
  match spans with
  | [] => []
  | ft :: spans => (place running ft.1 ft.2).1 :: lanes (place running ft.1 ft.2).2 spans
  end.

Lemma place_records_lanes running logs level :
  place_records running logs level =
  concat (zip_with (λ pid log, with_pid pid <$> (convertLogRecord log level).1.1) (lanes running (span level <$> logs)) logs).
Proof.
  revert running. induction logs as [|log logs IH]; intros running; [done|].
  rewrite fmap_cons. cbn [place_records lanes zip_with concat].
  destruct (convertLogRecord log level) as [[evs from] to] eqn:E.
  assert (span level log = (from, to)) as -> by (unfold span; by rewrite E).
  cbn [fst snd]. destruct (place running from to) as [pid running']. by rewrite IH.
Qed.

(** After a placement its lane is taken until the end of the record, and the
    others are as they were. *)
Lemma place_spec running from to :
  let '(p, running') := place running from to in
  running' !! (p - 1) = Some to ∧ p ≠ 0 ∧ (∀ r, running !! (p - 1) = Some r → (r < from)%Z) ∧
  ∀ q, q ≠ p - 1 → running' !! q = running !! q.
Proof.
  unfold place. destruct (list_find _ running) as [[i r]|] eqn:E.
  - apply list_find_Some in E as (Hi & Hr & _). replace (S i - 1) with i by lia.
    split; [apply list_lookup_insert_eq; by eapply lookup_lt_Some|]. split; [done|]. split; [congruence|].
    intros q Hq. by apply list_lookup_insert_ne.
  - replace (S (length running) - 1) with (length running) by lia.
    split; [by rewrite list_lookup_middle|]. split; [done|]. split; [intros r Hr%lookup_lt_Some; lia|].
    intros q Hq. destruct (decide (q < length running)); [by apply lookup_app_l|].
    rewrite !lookup_ge_None_2; [done|lia|rewrite length_app; simpl; lia].
Qed.

(** A record that is placed starts after what its lane held at first. *)
Lemma lanes_after running spans j p f t r :
  Forall (λ ft, (ft.1 ≤ ft.2)%Z) spans →
  lanes running spans !! j = Some p → spans !! j = Some (f, t) → running !! (p - 1) = Some r → (r < f)%Z.
Proof.
  intros Hs. revert running j r. induction Hs as [|[f0 t0] spans H0 Hs IH]; intros running j r; [done|]. cbn [lanes fst snd] in *.
  pose proof (place_spec running f0 t0) as Hp. destruct (place running f0 t0) as [q running']. destruct Hp as (P1 & P2 & P3 & P4).
  destruct j as [|j]; cbn; [intros [= <-] [= <- <-] Hr; by apply P3|]. intros Hj Hft Hr.
  destruct (decide (p - 1 = q - 1)) as [E|E].
  - pose proof (IH running' j t0 Hj Hft ltac:(by rewrite E)). rewrite E in Hr. specialize (P3 _ Hr). lia.
  - apply (IH running' j r Hj Hft). by rewrite P4.
Qed.

Lemma lanes_apart running spans i j p f1 t1 f2 t2 :
  Forall (λ ft, (ft.1 ≤ ft.2)%Z) spans → i < j →
  lanes running spans !! i = Some p → lanes running spans !! j = Some p →
  spans !! i = Some (f1, t1) → spans !! j = Some (f2, t2) → (t1 < f2)%Z.
Proof.
  intros Hs. revert running i j. induction Hs as [|[f0 t0] spans H0 Hs IH]; intros running i j Hij; [done|].
  cbn [lanes fst snd]. pose proof (place_spec running f0 t0) as Hp. destruct (place running f0 t0) as [q running'].
  destruct Hp as (P1 & _). destruct j as [|j]; [lia|]. destruct i as [|i]; cbn.
  - intros [= ->] Hj [= <- <-] Hft. by apply (lanes_after running' spans j p f2 t2).
  - apply IH. lia.
Qed.

Context (sort_perm : ∀ l, sort_Slice less l ≡ₚ l).

(** The trace has the events of every record, all in the lane of the record,
    and two records in the same lane do not overlap: the one that comes later
    in the log starts after the other has ended. *)
Theorem lanes_disjoint logs level :
  Forall sane_record logs →
  let spans := span level <$> logs in
  let pids := lanes [] spans in
  convertLogRecords logs level ≡ₚ
    concat (zip_with (λ pid log, with_pid pid <$> (convertLogRecord log level).1.1) pids logs) ∧
  ∀ i j p f1 t1 f2 t2, i < j → pids !! i = Some p → pids !! j = Some p →
    spans !! i = Some (f1, t1) → spans !! j = Some (f2, t2) → (t1 < f2)%Z.
Proof.
  intros Hs. split; [unfold convertLogRecords; by rewrite sort_perm, place_records_lanes|].
  intros i j p f1 t1 f2 t2 Hij. apply lanes_apart; [|done]. apply Forall_fmap. eapply Forall_impl; [exact Hs|].
  intros log Hlog. unfold compose. by apply span_ordered.
Qed.

End rpl2trace.
#[global] Arguments args : clear implicits.
#[global] Arguments event : clear implicits.
#[global] Arguments log_record : clear implicits.

(** *** On concrete records *)

Module Concrete.

Definition second : Z := 1000000000.
(** A second of the year 2024. *)
Definition at_second (s : Z) : Z := (63839000000 + s) * second.

Definition times (l : list (string * Z * Z)) : list (string * interval) :=
  (λ '(k, f, t), (k, {| iv_From := Some (at_second f); iv_To := Some (at_second t) |})) <$> l.

Definition record (out : string) (remote local : option (list (string * Z * Z))) : log_record nat := {|
  OutputFiles := [out]; WorkingDirectory := "out/"; Remote := (λ l, (times l, 1)) <$> remote;
  Local := (λ l, (times l, 2)) <$> local; About := 3 |}.

Definition logs : list (log_record nat) :=
  [record "out/a.o" (Some [("ServerWorker", 2, 4)]%Z) (Some [("ProxyExecution", 0, 5); ("LERC", 1, 3)]%Z);
   record "out/b.o" None (Some [("ProxyExecution", 3, 8)]%Z);
   record "out/c.o" None (Some [("ProxyExecution", 6, 7)]%Z)].

(** Three records in two lanes. *)
Example two_lanes : lanes [] (span 3 <$> logs) = [1; 2; 1].
Proof. vm_compute. reflexivity. Qed.

(** Remote times and a record of local metadata without any: the record starts
    at the zero time. *)
Example local_without_times : span 3 (record "out/a.o" (Some [("Execute", 2, 4)]%Z) (Some [])) = (0%Z, at_second 4).
Proof. vm_compute. reflexivity. Qed.

(** An event is less than itself. *)
Example less_itself : less (one_event "Local" "k" 0 1 {| target := "t"; about := 0 |} (at_second 1) second)
  (one_event "Local" "k" 0 1 {| target := "t"; about := 0 |} (at_second 1) second) = true.
Proof. vm_compute. reflexivity. Qed.

Lemma logs_sane : Forall sane_record logs.
Proof. repeat constructor; simpl; intros E; discriminate E. Qed.

End Concrete.

Lemma lanes_disjoint_witness :
  (∃ evs, convertLogRecords (λ _ l, l) Concrete.logs 3 ≡ₚ evs) ∧ (Concrete.at_second 5 < Concrete.at_second 6)%Z.
Proof.
  destruct (lanes_disjoint (λ _ l, l) (λ l, reflexivity l) Concrete.logs 3 Concrete.logs_sane) as [H1 H2].
  split; [eexists; exact H1|].
  apply (H2 0 2 1 (Concrete.at_second 0) (Concrete.at_second 5) (Concrete.at_second 6) (Concrete.at_second 7)); [lia|vm_compute; reflexivity..].
Defined.

End Trace.
