(* ===== verification/CloudTrace.v ===== *)
(** * Spans of a log: [cmd/rpl2cloudtrace/rpl2cloudtrace.go]

    The records of a log become traces of a service: a span for the command and
    one for each of its events, sent in batches. *)
From S2P Require Import Prelude GoStrings GoPath GoNet Labels Stats Trace.
From Stdlib Require Import Ascii.
Import Filepath Trace.

Module CloudTrace.

(** ** Values *)

Record TruncatableString := { Value : string; TruncatedByteCount : Z }.

Definition truncatableString (s : string) (limit : nat) : TruncatableString :=
  let n := String.length s in
  if (n <? limit)%nat then {| Value := s; TruncatedByteCount := 0 |}
  else {| Value := str_take limit s; TruncatedByteCount := int32 (Z.of_nat n - Z.of_nat limit) |}.

(** The dynamic values: texts, booleans, integers of any width, and others. *)
Inductive value := VString (s : string) | VBool (b : bool) | VInt (z : Z) | VOther.

Inductive AttributeValue := StringValue (s : TruncatableString) | BoolValue (b : bool) | IntValue (z : Z).

Definition attrValue (v : value) : AttributeValue :=
  match v with
  | VString s => StringValue (truncatableString s 256)
  | VBool b => BoolValue b
  | VInt z => IntValue (int64 z)
  | VOther => IntValue 0
  end.

(** [cpb.CommandResultStatus_Value] with the names of its values. *)
Inductive ResultStatus := UNKNOWN | SUCCESS | CACHE_HIT | NON_ZERO_EXIT | TIMEOUT | INTERRUPTED | REMOTE_ERROR | LOCAL_ERROR.

Definition status_String (s : ResultStatus) : string :=
  match s with
  | UNKNOWN => "UNKNOWN" | SUCCESS => "SUCCESS" | CACHE_HIT => "CACHE_HIT" | NON_ZERO_EXIT => "NON_ZERO_EXIT"
  | TIMEOUT => "TIMEOUT" | INTERRUPTED => "INTERRUPTED" | REMOTE_ERROR => "REMOTE_ERROR" | LOCAL_ERROR => "LOCAL_ERROR"
  end.

Inductive code := OK | Canceled | Unknown | DeadlineExceeded | Internal.

Record Status := { Code : code; Message : string }.

Definition statusCode (s : ResultStatus) : Status := {|
  Code := match s with
          | SUCCESS | CACHE_HIT => OK
          | NON_ZERO_EXIT | REMOTE_ERROR | LOCAL_ERROR => Internal
          | TIMEOUT => DeadlineExceeded
          | INTERRUPTED => Canceled
          | UNKNOWN => Unknown
          end;
  Message := status_String s |}.

(** ** Hexadecimal texts *)

Definition hex_digit (n : nat) : ascii :=
  ascii_of_nat (if (n <? 10)%nat then 48 + n else 87 + n).

(** [hex.EncodeToString] *)
Fixpoint EncodeToString (s : string) : string :=
  match s with
  | EmptyString => ""
  | String a s =>
      let n := nat_of_ascii a in
      String (hex_digit (n / 16)) (String (hex_digit (n mod 16)) (EncodeToString s))
  end.

Definition hex_value (a : ascii) : option nat :=
  let n := nat_of_ascii a in
  if (48 <=? n)%nat && (n <=? 57)%nat then Some (n - 48)
  else if (97 <=? n)%nat && (n <=? 102)%nat then Some (n - 87)
  else if (65 <=? n)%nat && (n <=? 70)%nat then Some (n - 55)
  else None.

(** [hex.DecodeString]: pairs of digits, or an error. *)
Fixpoint DecodeString (s : string) : res string :=
  match s with
  | EmptyString => Ok ""
  | String a s =>
      match hex_value a, s with
      | None, _ => Fail (EMsg "encoding/hex: invalid byte")
      | Some _, EmptyString => Fail (EMsg "encoding/hex: odd length hex string")
      | Some h, String b s =>
          match hex_value b with
          | None => Fail (EMsg "encoding/hex: invalid byte")
          | Some l => let? t := DecodeString s in Ok (String (ascii_of_nat (h * 16 + l)) t)
          end
      end
  end.

(** [copy(dst[:], src)] *)
Fixpoint copy_bytes (dst src : string) : string :=
  match dst, src with
  | String _ dst, String b src => String b (copy_bytes dst src)
  | _, _ => dst
  end.

(** ** Traces *)

Record traceContext := { projectID : string; traceID : string; tc_res : gmap string AttributeValue }.

(** [rand.Read] gives 16 bytes, or fails. *)
Definition newTraceContext (rand : res string) (project execID : string) (r : gmap string AttributeValue) : res traceContext :=
  let? id := rand in
  let id := if (execID =? "")%string then id
            else match DecodeString (Net.ReplaceAll execID "-" "") with Ok b => copy_bytes id b | _ => id end in
  Ok {| projectID := project; traceID := id; tc_res := r |}.

(** Those of the record overwrite those of the trace. *)
Definition attrs (tc : traceContext) (m : gmap string AttributeValue) : gmap string AttributeValue := m ∪ tc_res tc.

Section spans.

(** [sha256.Sum256], 32 bytes. *)
Variable Sum256 : string → string.

Definition span_id (name : string) : string := str_take 8 (Sum256 name).

Definition span_name (tc : traceContext) (id : string) : string :=
  Join ["projects"; projectID tc; "traces"; EncodeToString (traceID tc); "spans"; EncodeToString id].

(** The kind of a span that is internal, or not given. *)
Inductive kind := SPAN_KIND_UNSPECIFIED | INTERNAL.

Record Span := {
  Name : string;
  SpanId : string;
  ParentSpanId : string;
  DisplayName : TruncatableString;
  StartTime : Z;
  EndTime : Z;
  Attributes : gmap string AttributeValue;
  SpanStatus : Status;
  SpanKind : kind
}.

(** The thresholds of the flags. *)
Variables (spanThreshold traceThreshold : Z).

Definition event_span (cat key : string) (tc : traceContext) (parent : string) (a : gmap string AttributeValue) (st : Status)
    (from to : Z) : Span :=
  let id := span_id (cat +:+ "." +:+ key) in {|
    Name := span_name tc id; SpanId := EncodeToString id; ParentSpanId := parent;
    DisplayName := truncatableString ("reproxy." +:+ cat +:+ "." +:+ key) 128; StartTime := from; EndTime := to;
    Attributes := a; SpanStatus := st; SpanKind := INTERNAL |}.

Definition convert_step (cat : string) (tc : traceContext) (parent : string) (a : gmap string AttributeValue) (st : Status)
    (acc : list Span * Z * Z) (kv : string * interval) : list Span * Z * Z :=
  let '(spans, start, fin) := acc in
  match complete kv with
  | None => acc
  | Some (from, to) =>
      (if (Stats.Sub to from <? spanThreshold)%Z then spans else spans ++ [event_span cat kv.1 tc parent a st from to],
       extend_start start from, extend_end fin to)
  end.

Definition convertEventTime (cat : string) (tc : traceContext) (parent : string) (ets : list (string * interval))
    (a : gmap string AttributeValue) (st : Status) : list Span * Z * Z :=
  foldl (convert_step cat tc parent a st) ([], 0%Z, 0%Z) ets.

Record remote_metadata := {
  ActionDigest : string;
  rm_Status : ResultStatus;
  rm_ExitCode : Z;
  CacheHit : bool;
  NumInputFiles : Z;
  NumInputDirectories : Z;
  TotalInputBytes : Z;
  NumOutputFiles : Z;
  NumOutputDirectories : Z;
  TotalOutputBytes : Z;
  rm_EventTimes : list (string * interval)
}.

Record local_metadata := {
  lm_Status : ResultStatus;
  lm_ExitCode : Z;
  ExecutedLocally : bool;
  ValidCacheHit : bool;
  UpdatedCache : bool;
  LabelMap : gmap string string;
  lm_EventTimes : list (string * interval)
}.

Record log_record := {
  OutputFiles : list string;
  WorkingDirectory : string;
  CommandId : string;
  InvocationId : string;
  CorrelatedInvocationsId : string;
  ToolName : string;
  ToolVersion : string;
  ExecutionId : string;
  RemoteMetadata : option remote_metadata;
  LocalMetadata : option local_metadata;
  ResStatus : ResultStatus;
  ResExitCode : Z;
  ResMsg : string
}.

Definition remote_attrs (rm : remote_metadata) : gmap string AttributeValue :=
  attrValue <$> list_to_map [
    ("action_digest", VString (ActionDigest rm)); ("status", VString (status_String (rm_Status rm)));
    ("exit_code", VInt (rm_ExitCode rm)); ("cache_hit", VBool (CacheHit rm));
    ("num_input_files", VInt (NumInputFiles rm)); ("num_input_directories", VInt (NumInputDirectories rm));
    ("total_input_bytes", VInt (TotalInputBytes rm)); ("num_output_files", VInt (NumOutputFiles rm));
    ("num_output_directories", VInt (NumOutputDirectories rm)); ("total_output_bytes", VInt (TotalOutputBytes rm))].

Definition local_attrs (lm : local_metadata) : gmap string AttributeValue :=
  attrValue <$> list_to_map [
    ("status", VString (status_String (lm_Status lm))); ("exit_code", VInt (lm_ExitCode lm));
    ("executed_locally", VBool (ExecutedLocally lm)); ("valid_cache_hit", VBool (ValidCacheHit lm));
    ("updated_cache", VBool (UpdatedCache lm)); ("labels", VString (Labels.ToKey (LabelMap lm)))].

Definition command_attrs (r : log_record) : gmap string AttributeValue :=
  attrValue <$> list_to_map [
    ("output", VString (TrimPrefix (match OutputFiles r with o :: _ => o | [] => "???" end) (WorkingDirectory r)));
    ("command_id", VString (CommandId r)); ("invocation_id", VString (InvocationId r));
    ("correlated_invocations_id", VString (CorrelatedInvocationsId r)); ("tool_name", VString (ToolName r));
    ("tool_version", VString (ToolVersion r)); ("execution_id", VString (ExecutionId r)); ("exit_code", VInt (ResExitCode r))].

(** The comparisons that widen the times of the command by those of a part,
    which are zero when it has no events. *)
Definition widen (acc part : list Span * Z * Z) : list Span * Z * Z :=
  let '(spans, pfrom, pto) := acc in
  let '(sps, from, to) := part in
  (spans ++ sps, if Stats.IsZero pfrom || (from <? pfrom)%Z then from else pfrom,
   if Stats.IsZero pto || (pto <? to)%Z then to else pto).

Definition command_span (tc : traceContext) (r : log_record) (pfrom pto : Z) : Span :=
  let id := span_id "RunCommand" in
  let st := statusCode (ResStatus r) in {|
    Name := span_name tc id; SpanId := EncodeToString id; ParentSpanId := "";
    DisplayName := truncatableString "reproxy.RunCommand" 128; StartTime := pfrom; EndTime := pto;
    Attributes := attrs tc (command_attrs r);
    SpanStatus := if (ResMsg r =? "")%string then st
                  else {| Code := Code st; Message := Message st +:+ ": " +:+ ResMsg r |};
    SpanKind := SPAN_KIND_UNSPECIFIED |}.

(** A record whose command is too short has no spans at all. *)
Definition convertLogRecord (r : log_record) (tc : traceContext) : list Span :=
  let parent := EncodeToString (span_id "RunCommand") in
  let acc := ([], 0%Z, 0%Z) in
  let acc := match RemoteMetadata r with
             | Some rm => widen acc (convertEventTime "Remote" tc parent (rm_EventTimes rm)
                            (attrs tc (remote_attrs rm)) (statusCode (rm_Status rm)))
             | None => acc
             end in
  let acc := match LocalMetadata r with
             | Some lm => widen acc (convertEventTime "Local" tc parent (lm_EventTimes lm)
                            (attrs tc (local_attrs lm)) (statusCode (lm_Status lm)))
             | None => acc
             end in
  let '(spans, pfrom, pto) := acc in
  if (Stats.Sub pto pfrom <? traceThreshold)%Z then [] else spans ++ [command_span tc r pfrom pto].

(** ** Batches *)

Variable batchSize : nat.
(** Whether the service takes batch number [n], and the random bytes for record
    number [n]. *)
Variables (accepts : nat → bool) (rand : nat → res string).
Variables (project : string) (resources : gmap string AttributeValue).

Definition export_error : error := EMsg "failed to export spans".

(** The batches that were sent, the spans that are returned, and the error. *)
Definition result : Type := list (list Span) * list Span * option error.

Definition send (sent : list (list Span)) (spans batch : list Span) (k : list (list Span) → list Span → result) : result :=
  if accepts (length sent) then k (sent ++ [batch]) (spans ++ batch) else (sent ++ [batch], spans, Some export_error).

Fixpoint convert_records (i : nat) (sent : list (list Span)) (spans batch : list Span) (logs : list log_record) : result :=
  match logs with
  | [] =>
      match batch with
      | [] => (sent, spans, None)
      | _ => send sent spans batch (λ sent spans, (sent, spans, None))
      end
  | r :: logs =>
      match newTraceContext (rand i) project (ExecutionId r) resources with
      | Ok tc =>
          let batch := batch ++ convertLogRecord r tc in
          if (batchSize <? length batch)%nat
          then send sent spans batch (λ sent spans, convert_records (S i) sent spans [] logs)
          else convert_records (S i) sent spans batch logs
      | Fail e => (sent, spans, Some e)
      | Panic => (sent, spans, None)
      end
  end.

Definition convert (logs : list log_record) : result := convert_records 0 [] [] [] logs.

(** ** The spans of a record *)

(** A span of a part with these times, under [parent]. *)
Definition within (parent : string) (from to : Z) (sp : Span) : Prop :=
  ParentSpanId sp = parent ∧ (from ≤ StartTime sp ≤ EndTime sp)%Z ∧ (EndTime sp ≤ to)%Z.

Lemma convertEventTime_spec cat tc parent ets a st :
  let r := convertEventTime cat tc parent ets a st in
  (r.1.2, r.2) = foldl extend (0%Z, 0%Z) (omap complete ets) ∧
  ∀ sp, sp ∈ r.1.1 → ParentSpanId sp = parent ∧ (StartTime sp, EndTime sp) ∈ omap complete ets.
Proof.
  unfold convertEventTime.
  assert (∀ done acc, (∀ sp, sp ∈ acc.1.1 → ParentSpanId sp = parent ∧ (StartTime sp, EndTime sp) ∈ omap complete done) →
    let r := foldl (convert_step cat tc parent a st) acc ets in
    (r.1.2, r.2) = foldl extend (acc.1.2, acc.2) (omap complete ets) ∧
    ∀ sp, sp ∈ r.1.1 → ParentSpanId sp = parent ∧ (StartTime sp, EndTime sp) ∈ omap complete (done ++ ets)) as H.
  { induction ets as [|kv ets IH]; intros don [[sps s] e] Hacc; [rewrite app_nil_r; by split|]. cbn [foldl].
    destruct (IH (don ++ [kv]) (convert_step cat tc parent a st (sps, s, e) kv)) as [H1 H2].
    - intros sp. unfold convert_step. rewrite omap_app, elem_of_app. simpl. destruct (complete kv) as [[f t]|] eqn:E.
      + destruct (Stats.Sub t f <? spanThreshold)%Z; cbn [fst snd].
        { intros Hsp%Hacc. split; [apply Hsp|left; apply Hsp]. }
        intros [Hsp%Hacc| ->%list_elem_of_singleton]%elem_of_app; [split; [apply Hsp|left; apply Hsp]|].
        split; [done|right]. simpl. by left.
      + intros Hsp%Hacc. split; [apply Hsp|left; apply Hsp].
    - split; [|intros sp Hsp; specialize (H2 sp Hsp); by rewrite <- app_assoc in H2].
      rewrite H1. unfold convert_step. simpl. by destruct (complete kv) as [[f t]|]. }
  specialize (H [] ([], 0%Z, 0%Z)). apply H. by intros ? ?%elem_of_nil.
Qed.

(** The times and spans of a part: all of its spans lie between its times, which
    are zero only when it has none. *)
Lemma convertEventTime_within cat tc parent ets a st :
  sane (omap complete ets) →
  let r := convertEventTime cat tc parent ets a st in
  (0 ≤ r.1.2 ≤ r.2)%Z ∧ Forall (within parent r.1.2 r.2) r.1.1 ∧ (r.1.2 = 0 ∨ r.2 = 0 → r.1.1 = [])%Z.
Proof.
  intros Hs r. destruct (convertEventTime_spec cat tc parent ets a st) as [E H]. fold r in E, H.
  pose proof (times_spec _ Hs) as Ht. cbv zeta in Ht. rewrite <- E in Ht. cbn [fst snd] in Ht.
  destruct Ht as [[En E0]|(H1 & _ & _ & H2)].
  - injection E0 as -> ->. assert (r.1.1 = []) as ->; [|by split].
    destruct r.1.1 as [|sp l]; [done|]. destruct (H sp ltac:(by left)) as [_ Hin]. rewrite En in Hin. by apply elem_of_nil in Hin.
  - split; [lia|]. split; [|lia]. apply Forall_forall. intros sp Hsp. destruct (H sp Hsp) as [Hp Hin].
    split; [done|]. pose proof (H2 _ Hin) as [? ?]. unfold sane in Hs. rewrite Forall_forall in Hs. pose proof (Hs _ Hin). simpl in *. lia.
Qed.

Lemma within_mono parent from to from' to' sps :
  (from' ≤ from)%Z → (to ≤ to')%Z → Forall (within parent from to) sps → Forall (within parent from' to') sps.
Proof. intros H1 H2 H. eapply Forall_impl; [exact H|]. intros sp (Hp & ? & ?). split; [done|]. lia. Qed.

Lemma widen_within parent acc part :
  (0 ≤ acc.1.2 ≤ acc.2)%Z → Forall (within parent acc.1.2 acc.2) acc.1.1 → (acc.1.2 = 0 ∨ acc.2 = 0 → acc.1.1 = [])%Z →
  (0 ≤ part.1.2 ≤ part.2)%Z → Forall (within parent part.1.2 part.2) part.1.1 → (part.1.2 = 0 ∨ part.2 = 0 → part.1.1 = [])%Z →
  let r := widen acc part in (0 ≤ r.1.2 ≤ r.2)%Z ∧ Forall (within parent r.1.2 r.2) r.1.1.
Proof.
  destruct acc as [[sps p] q], part as [[sps' s] e]. cbn [fst snd]. intros H1 H2 H3 K1 K2 K3. unfold widen, Stats.IsZero. cbn [fst snd].
  rewrite Forall_app. destruct (bool_decide_reflect (p = 0%Z)) as [->|Hp]; destruct (bool_decide_reflect (q = 0%Z)) as [->|Hq]; cbn [orb].
  - rewrite H3 by lia. split; [lia|]. split; [done|exact K2].
  - rewrite H3 by lia. split; [destruct (Z.ltb_spec q e); lia|]. split; [done|].
    eapply within_mono; [reflexivity| |exact K2]. destruct (Z.ltb_spec q e); lia.
  - lia.
  - destruct (Z.ltb_spec s p), (Z.ltb_spec q e); (split; [lia|]; split; [eapply within_mono; [| |exact H2]|eapply within_mono; [| |exact K2]]; lia).
Qed.

Definition sane_record (r : log_record) : Prop :=
  sane (omap complete (default [] (rm_EventTimes <$> RemoteMetadata r))) ∧
  sane (omap complete (default [] (lm_EventTimes <$> LocalMetadata r))).

(** The trace of a record is a tree of two levels: nothing, when the command
    was short, or a span for the command and spans of events that have it as
    their parent and lie within its time. *)
Theorem convertLogRecord_tree r tc :
  sane_record r →
  convertLogRecord r tc = [] ∨
  ∃ children root, convertLogRecord r tc = children ++ [root] ∧ ParentSpanId root = "" ∧
    Forall (within (SpanId root) (StartTime root) (EndTime root)) children.
Proof.
  intros [Hr Hl]. unfold convertLogRecord. set (parent := EncodeToString (span_id "RunCommand")).
  set (acc1 := match RemoteMetadata r with Some rm => _ | None => _ end).
  assert ((0 ≤ acc1.1.2 ≤ acc1.2)%Z ∧ Forall (within parent acc1.1.2 acc1.2) acc1.1.1 ∧
    (acc1.1.2 = 0 ∨ acc1.2 = 0 → acc1.1.1 = [])%Z) as (A1 & A2 & A3).
  { unfold acc1. destruct (RemoteMetadata r) as [rm|]; [|done].
    pose proof (convertEventTime_within "Remote" tc parent (rm_EventTimes rm) (attrs tc (remote_attrs rm))
      (statusCode (rm_Status rm)) Hr) as H. cbv zeta in H. destruct (convertEventTime _ _ _ _ _ _) as [[sps s] e]. exact H. }
  clearbody acc1. set (acc2 := match LocalMetadata r with Some lm => _ | None => _ end).
  assert (Forall (within parent acc2.1.2 acc2.2) acc2.1.1) as B.
  { unfold acc2. destruct (LocalMetadata r) as [lm|]; [|exact A2].
    destruct (convertEventTime_within "Local" tc parent (lm_EventTimes lm) (attrs tc (local_attrs lm))
      (statusCode (lm_Status lm)) Hl) as (K1 & K2 & K3). by apply widen_within. }
  clearbody acc2. destruct acc2 as [[sps pfrom] pto]. destruct (_ <? traceThreshold)%Z; [by left|right].
  exists sps, (command_span tc r pfrom pto). split; [done|]. split; [done|exact B].
Qed.

(** ** All spans are sent *)

(** The spans of the records from number [i] on. *)
Fixpoint all_spans (i : nat) (logs : list log_record) : list Span :=
  match logs with
  | [] => []
  | r :: logs =>
      match newTraceContext (rand i) project (ExecutionId r) resources with
      | Ok tc => convertLogRecord r tc ++ all_spans (S i) logs
      | _ => []
      end
  end.

(** What was accepted is what is returned; a batch that was refused is the last
    one. *)
Definition accounted (r : result) : Prop :=
  let '(sent, spans, err) := r in
  (∃ ok, spans = concat ok ∧ (sent = ok ∧ err ≠ Some export_error ∨ ∃ b, sent = ok ++ [b] ∧ err = Some export_error)).

Context (rand_error : ∀ i, rand i ≠ Fail export_error).

Lemma convert_records_spec i sent spans batch logs :
  spans = concat sent →
  let r := convert_records i sent spans batch logs in
  accounted r ∧
  ((∀ n, accepts n = true) → (∀ i, is_ok (rand i) = true) → r.2 = None ∧ r.1.2 = spans ++ batch ++ all_spans i logs).
Proof.
  revert i sent spans batch. induction logs as [|rec logs IH]; intros i sent spans batch Hsp; cbn [convert_records all_spans].
  - destruct batch as [|b batch].
    { split; [exists sent; split; [done|by left]|]. intros _ _. by rewrite !app_nil_r. }
    unfold send. destruct (accepts (length sent)) eqn:Ea.
    + split; [exists (sent ++ [b :: batch]); split; [by rewrite concat_app, Hsp; simpl; rewrite app_nil_r|by left]|].
      intros _ _. by rewrite app_nil_r.
    + split; [exists sent; split; [done|right; by eexists]|]. intros Ha _. by rewrite Ha in Ea.
  - assert (∀ tc, newTraceContext (rand i) project (ExecutionId rec) resources = Ok tc → is_ok (rand i) = true) as Hok
      by (unfold newTraceContext; by destruct (rand i)).
    assert (∀ e, newTraceContext (rand i) project (ExecutionId rec) resources = Fail e → rand i = Fail e) as Herr
      by (unfold newTraceContext; destruct (rand i); intros e0; simpl; congruence).
    destruct (newTraceContext _ _ _ _) as [tc|e|] eqn:Et.
    + destruct (batchSize <? _)%nat.
      * unfold send. destruct (accepts (length sent)) eqn:Ea.
        { destruct (IH (S i) (sent ++ [batch ++ convertLogRecord rec tc]) (spans ++ batch ++ convertLogRecord rec tc) []) as [H1 H2];
            [by rewrite concat_app, Hsp; simpl; rewrite app_nil_r|]. split; [exact H1|]. intros Ha Hr.
          destruct (H2 Ha Hr) as [-> ->]. split; [done|]. by rewrite <- !app_assoc. }
        split; [exists sent; split; [done|right; by eexists]|]. intros Ha _. by rewrite Ha in Ea.
      * destruct (IH (S i) sent spans (batch ++ convertLogRecord rec tc) Hsp) as [H1 H2]. split; [exact H1|]. intros Ha Hr.
        destruct (H2 Ha Hr) as [-> ->]. split; [done|]. by rewrite <- !app_assoc.
    + split; [exists sent; split; [done|left; split; [done|]]|].
      * intros [= ->]. by destruct (rand_error i (Herr _ eq_refl)).
      * intros _ Hr. specialize (Hr i). by rewrite (Herr _ eq_refl) in Hr.
    + split; [exists sent; split; [done|by left]|]. intros _ Hr. exfalso. specialize (Hr i).
      unfold newTraceContext in Et. by destruct (rand i).
Qed.

(** Every span of every record is sent once and in order, and what is returned is
    what the service took. *)
Lemma convert_spec logs :
  accounted (convert logs) ∧
  ((∀ n, accepts n = true) → (∀ i, is_ok (rand i) = true) →
   (convert logs).2 = None ∧ concat (convert logs).1.1 = all_spans 0 logs).
Proof.
  unfold convert. destruct (convert_records_spec 0 [] [] [] logs eq_refl) as [H1 H2]. split; [done|]. intros Ha Hr.
  destruct (H2 Ha Hr) as [E1 E2]. split; [done|]. destruct (convert_records _ _ _ _ _) as [[sent sps] err]. cbn [fst snd] in *.
  subst err. destruct H1 as (ok & -> & [[-> _]|(b & _ & Hb)]); [done|discriminate Hb].
Qed.

End spans.

(** ** On concrete records *)

Module Concrete.

Definition record (remote local : option (list (string * Z * Z))) : log_record := {|
  OutputFiles := ["out/a.o"]; WorkingDirectory := "out/"; CommandId := "c"; InvocationId := "i";
  CorrelatedInvocationsId := ""; ToolName := "t"; ToolVersion := "v"; ExecutionId := "0a0B-ff";
  RemoteMetadata := (λ l, {| ActionDigest := "d/1"; rm_Status := SUCCESS; rm_ExitCode := 0; CacheHit := true; NumInputFiles := 2;
    NumInputDirectories := 1; TotalInputBytes := 7; NumOutputFiles := 1; NumOutputDirectories := 0; TotalOutputBytes := 3;
    rm_EventTimes := Trace.Concrete.times l |}) <$> remote;
  LocalMetadata := (λ l, {| lm_Status := SUCCESS; lm_ExitCode := 0; ExecutedLocally := false; ValidCacheHit := false;
    UpdatedCache := false; LabelMap := ∅; lm_EventTimes := Trace.Concrete.times l |}) <$> local;
  ResStatus := SUCCESS; ResExitCode := 0; ResMsg := "" |}.

Definition sha (s : string) : string := s +:+ "--------------------------------".
Definition spans (r : log_record) (execID : string) : list Span :=
  match newTraceContext (Ok "0123456789abcdef") "p" execID ∅ with
  | Ok tc => convertLogRecord sha 1000 1000000000 r tc
  | _ => []
  end.

Definition shape (sps : list Span) : list (string * Z * Z) :=
  (λ sp, (Value (DisplayName sp), Z.quot (StartTime sp) 1000000000, Z.quot (EndTime sp) 1000000000)) <$> sps.

Example shapes :
  shape (spans (record (Some [("Execute", 2, 4)]%Z) (Some [("ProxyExecution", 0, 5)]%Z)) "") =
    [("reproxy.Remote.Execute", 63839000002, 63839000004); ("reproxy.Local.ProxyExecution", 63839000000, 63839000005);
     ("reproxy.RunCommand", 63839000000, 63839000005)]%Z ∧
  shape (spans (record (Some [("Execute", 2, 4)]%Z) (Some [])) "") =
    [("reproxy.Remote.Execute", 63839000002, 63839000004); ("reproxy.RunCommand", 0, 63839000004)]%Z ∧
  shape (spans (record None (Some [("ProxyExecution", 3, 3)]%Z)) "") = [].
Proof. split_and!; vm_compute; reflexivity. Qed.

(** The trace is named after the execution, as far as its identifier goes. *)
Example trace_ids :
  (TraceId ← Some (EncodeToString (copy_bytes "0123456789abcdef" (match DecodeString (Net.ReplaceAll "0a0B-ff" "-" "") with Ok b => b | _ => "" end)));
   Some TraceId) = Some "0a0bff33343536373839616263646566" ∧
  DecodeString "abc" = Fail (EMsg "encoding/hex: odd length hex string").
Proof. split; vm_compute; reflexivity. Qed.

Lemma record_sane : sane_record (record (Some [("Execute", 2, 4)]%Z) (Some [("ProxyExecution", 0, 5)]%Z)).
Proof. split; repeat constructor; simpl; intros E; discriminate E. Qed.

End Concrete.

Lemma convertLogRecord_tree_witness :
  ∃ children root,
    convertLogRecord Concrete.sha 1000 1000000000 (Concrete.record (Some [("Execute", 2, 4)]%Z) (Some [("ProxyExecution", 0, 5)]%Z))
      {| projectID := "p"; traceID := "0123456789abcdef"; tc_res := ∅ |} = children ++ [root] ∧ ParentSpanId root = "".
Proof.
  destruct (convertLogRecord_tree Concrete.sha 1000 1000000000
    (Concrete.record (Some [("Execute", 2, 4)]%Z) (Some [("ProxyExecution", 0, 5)]%Z))
    {| projectID := "p"; traceID := "0123456789abcdef"; tc_res := ∅ |} Concrete.record_sane) as [E|(c & r & E & H & _)].
  - vm_compute in E. discriminate E.
  - exists c, r. split; [exact E|exact H].
Defined.

End CloudTrace.
