(* ===== verification/Monitoring.v ===== *)
(** * Metrics: [internal/pkg/monitoring/monitoring.go]

    The views that are registered once, with the slices of their keys, and what
    is recorded of actions and builds. *)
From S2P Require Import Prelude GoStrings GoPath GoFS GoFloat Labels Stats LogFile CloudTrace.
Import CloudTrace.

Module Monitoring.

(** ** Slices

    A slice is a part of an array that others may share.  [append] writes to the
    array when its capacity allows. *)
Record slice := { array : nat; len : nat; cap : nat }.

Definition key : Type := string.
Notation heap := (list (list key)).

Definition cells (h : heap) (s : slice) : list key := default [] (h !! array s).
Definition read (h : heap) (s : slice) : list key := take (len s) (cells h s).

(** The capacity of a new array: twice the old one while that is below 256
    elements, or what is needed.  Rounding up to the sizes of the allocator
    leaves powers of two as they are; what it adds to others is not used. *)
Definition grow (old needed : nat) : nat := if (2 * old <? needed)%nat then needed else 2 * old.

Definition append (h : heap) (s : slice) (ks : list key) : heap * slice :=
  let n := len s + length ks in
  if (n <=? cap s)%nat
  then (<[array s := take (len s) (cells h s) ++ ks ++ drop n (cells h s)]> h, {| array := array s; len := n; cap := cap s |})
  else let c := grow (cap s) n in
       (h ++ [read h s ++ ks ++ replicate (c - n) ""], {| array := length h; len := n; cap := c |}).

(** ** Views *)

Definition osFamilyKey : key := "os_family".
Definition versionKey : key := "reclient_version".
Definition labelsKey : key := "action_labels".
Definition statusKey : key := "status".
Definition remoteStatusKey : key := "remote_status".
Definition exitCodeKey : key := "exit_code".
Definition remoteExitCodeKey : key := "remote_exit_code".
Definition remoteDisabledKey : key := "remote_disabled".

Inductive measure := ActionLatency | ActionCount | BuildCacheHitRatio | BuildLatency | BuildCount
  | BootstrapStartupLatency | BootstrapShutdownLatency.

#[export] Instance measure_eq_dec : EqDecision measure.
Proof. solve_decision. Defined.

Definition action_keys : list key :=
  [labelsKey; osFamilyKey; versionKey; statusKey; remoteStatusKey; exitCodeKey; remoteExitCodeKey; remoteDisabledKey].
Definition build_keys : list key := [osFamilyKey; versionKey; remoteDisabledKey].
Definition status_keys : list key := [osFamilyKey; versionKey; statusKey; remoteDisabledKey].

(** The views in the order of the code, with the keys that are added to those of
    the labels. *)
Definition views_of : list (measure * list key) :=
  [(ActionLatency, action_keys); (ActionCount, action_keys); (BuildCacheHitRatio, build_keys); (BuildLatency, build_keys);
   (BuildCount, status_keys); (BootstrapStartupLatency, status_keys); (BootstrapShutdownLatency, status_keys)].

Section views.

(** [tag.NewKey], which refuses some names, and [view.Register]. *)
Variable NewKey : string → res key.
Variable Register : list (measure * list key) → res unit.

(** The keys of the labels, in the order of the map, one append for each; those
    before a bad one are kept. *)
Fixpoint static_keys (h : heap) (keys : slice) (staticKeys : gmap key string) (labels : list (string * string)) :
    res (heap * slice) * gmap key string :=
  match labels with
  | [] => (Ok (h, keys), staticKeys)
  | (lbl, val) :: labels =>
      match NewKey lbl with
      | Ok k => let '(h, keys) := append h keys [k] in static_keys h keys (<[k := val]> staticKeys) labels
      | Fail e => (Fail e, staticKeys)
      | Panic => (Panic, staticKeys)
      end
  end.

Fixpoint make_views (h : heap) (keys : slice) (vs : list (measure * list key)) : heap * list (measure * slice) :=
  match vs with
  | [] => (h, [])
  | (m, ks) :: vs =>
      let '(h, s) := append h keys ks in
      let '(h, l) := make_views h keys vs in (h, (m, s) :: l)
  end.

(** What is registered is read when all slices are made. *)
Definition registered (h : heap) (vs : list (measure * slice)) : list (measure * list key) :=
  (λ v, (v.1, read h v.2)) <$> vs.

Definition SetupViews (staticKeys : gmap key string) (labels : list (string * string)) : res unit * gmap key string :=
  if negb (bool_decide (staticKeys = ∅)) then (Fail (EMsg "views were already setup, cannot overwrite"), staticKeys)
  else
    match static_keys [[]] {| array := 0; len := 0; cap := 0 |} staticKeys labels with
    | (Ok (h, keys), staticKeys) =>
        let '(h, vs) := make_views h keys views_of in (Register (registered h vs), staticKeys)
    | (Fail e, staticKeys) => (Fail e, staticKeys)
    | (Panic, staticKeys) => (Panic, staticKeys)
    end.

End views.

(** ** Recording *)

Inductive measurement :=
  | MActionCount (n : Z) | MActionLatency (ms : float64) | MBuildCacheHitRatio (x : float64) | MBuildLatency (x : float64)
  | MBuildCount (n : Z) | MBootstrapStartupLatency (ms : Z) | MBootstrapShutdownLatency (ms : Z).

Record metadata := { EventTimes : gmap string LogFile.TimeInterval; LabelMap : gmap string string }.

Record log_record := {
  LocalMetadata : option metadata;
  Result : ResultStatus * Z;
  RemoteResult : ResultStatus * Z
}.

Record build_stats := {
  NumRecords : Z;
  CacheHitRatio : float64;
  Latency : float64;
  FatalExit : bool;
  ProxyInfo : list LogFile.ProxyInfo
}.

Section export.

Context {ctx : Type}.
(** [tag.New] with a mutator for each label. *)
Variable tag_New : ctx → gmap key string → ctx * option error.
(** [command.TimeFromProto] *)
Variable TimeFromProto : option Z → Z.
Variables (GOOS reclientVersion : string).

(** An error is logged. *)
Definition tagsContext (c : ctx) (labels : gmap key string) : ctx := (tag_New c labels).1.

Definition recordWithTags (c : ctx) (labels : gmap key string) (val : measurement) : list (ctx * measurement) :=
  [(tagsContext c labels, val)].

Definition makeActionTags (r : log_record) (remoteDisabled : bool) : gmap key string := list_to_map [
  (labelsKey, Labels.ToKey (default ∅ (LabelMap <$> LocalMetadata r)));
  (statusKey, status_String (Result r).1);
  (remoteDisabledKey, if remoteDisabled then "true" else "false");
  (remoteStatusKey, status_String (RemoteResult r).1);
  (exitCodeKey, pretty (Result r).2);
  (remoteExitCodeKey, pretty (RemoteResult r).2)].

Definition action_latency (r : log_record) : float64 :=
  match default ∅ (EventTimes <$> LocalMetadata r) !! Stats.ProxyExecution with
  | Some t =>
      let from := TimeFromProto (LogFile.From t) in
      let to := TimeFromProto (LogFile.To t) in
      if negb (Stats.IsZero from) && negb (Stats.IsZero to) then float64_of_int (Stats.Milliseconds (Stats.Sub to from)) else Stats.float_zero
  | None => Stats.float_zero
  end.

(** [e] is there or nil. *)
Definition ExportActionMetrics (e : bool) (staticKeys : gmap key string) (c : ctx) (r : log_record) (remoteDisabled : bool) :
    list (ctx * measurement) :=
  if negb e then []
  else
    let c := tagsContext c staticKeys in
    let c := tagsContext c (<[osFamilyKey := GOOS]> {[ versionKey := reclientVersion ]}) in
    recordWithTags c (makeActionTags r remoteDisabled) (MActionCount 1) ++
    recordWithTags c (makeActionTags r remoteDisabled) (MActionLatency (action_latency r)).

Fixpoint remoteDisabledFlagValue (infos : list LogFile.ProxyInfo) : string :=
  match infos with
  | [] => "false"
  | pi :: infos =>
      match LogFile.Flags pi !! "remote_disabled" with
      | None => remoteDisabledFlagValue infos
      | Some sv => match ParseBool sv with Ok true => "true" | _ => remoteDisabledFlagValue infos end
      end
  end.

Definition event_millis (t : LogFile.TimeInterval) : Z :=
  Stats.Milliseconds (Stats.Sub (TimeFromProto (LogFile.To t)) (TimeFromProto (LogFile.From t))).

Definition info_metrics (c : ctx) (pi : LogFile.ProxyInfo) : list (ctx * measurement) :=
  (match LogFile.EventTimes pi !! "BootstrapStartup" with
   | Some t => recordWithTags c ∅ (MBootstrapStartupLatency (event_millis t))
   | None => []
   end) ++
  (match LogFile.EventTimes pi !! "BootstrapShutdown" with
   | Some t => recordWithTags c ∅ (MBootstrapShutdownLatency (event_millis t))
   | None => []
   end).

Definition ExportBuildMetrics (staticKeys : gmap key string) (c : ctx) (sp : build_stats) : list (ctx * measurement) :=
  let c := tagsContext c staticKeys in
  let c := tagsContext c (<[osFamilyKey := GOOS]> (<[versionKey := reclientVersion]>
    {[ remoteDisabledKey := remoteDisabledFlagValue (ProxyInfo sp) ]})) in
  if (NumRecords sp =? 0)%Z then []
  else
    recordWithTags c ∅ (MBuildCacheHitRatio (CacheHitRatio sp)) ++
    recordWithTags c ∅ (MBuildLatency (Latency sp)) ++
    recordWithTags c {[ statusKey := if FatalExit sp then "FAILURE" else "SUCCESS" ]} (MBuildCount 1) ++
    concat (info_metrics c <$> ProxyInfo sp).

End export.

(** [MonitoredResource]: [hostname] is what the system answers, [uuid] a fresh
    name. *)
Definition MonitoredResource (project namespace : string) (hostname : res string) (uuid : string) : string * gmap string string :=
  let hn := match hostname with Ok hn => if (hn =? "")%string then "unknown-" +:+ uuid else hn | _ => "unknown-" +:+ uuid end in
  ("generic_node", list_to_map [("project_id", project); ("namespace", namespace); ("location", "us-central1-a"); ("node_id", hn)]).

(** ** Old logs *)

Definition failureFiles : list string :=
  ["reproxy.FATAL"; "bootstrap.FATAL"; "rewrapper.FATAL"; "reproxy.exe.FATAL"; "bootstrap.exe.FATAL"; "rewrapper.exe.FATAL"].

(** What cannot be removed stays. *)
Definition CleanLogDir (w : fs) (logDir : string) : fs :=
  foldl OS.try_Remove w ((λ f, Filepath.Join [logDir; f]) <$> failureFiles).

(** ** Every view has its keys *)

(** The slice is a part of its array. *)
Definition wf (h : heap) (s : slice) : Prop :=
  array s < length h ∧ len s ≤ cap s ∧ length (cells h s) = cap s.

Lemma cells_lookup h s : array s < length h → h !! array s = Some (cells h s).
Proof. intros [x Hx]%lookup_lt_is_Some. unfold cells. by rewrite Hx. Qed.

Lemma read_length h s : wf h s → length (read h s) = len s.
Proof. intros (_ & H1 & H2). unfold read. rewrite length_take. lia. Qed.

(** What [append] gives, and what it does to others. *)
Lemma append_spec h s ks :
  wf h s →
  let r := append h s ks in
  wf r.1 r.2 ∧ len r.2 = len s + length ks ∧ read r.1 r.2 = read h s ++ ks ∧ length h ≤ length r.1 ∧ wf r.1 s ∧
  (∀ t, array t < length h → array t ≠ array s → cells r.1 t = cells h t) ∧
  (∀ t, array t = array s → len t ≤ len s → read r.1 t = read h t).
Proof.
  intros (Ha & Hl & Hc). unfold append. destruct (Nat.leb_spec (len s + length ks) (cap s)) as [Hn|Hn]; cbn [fst snd len].
  - assert (∀ t, array t = array s → cells (<[array s := take (len s) (cells h s) ++ ks ++ drop (len s + length ks) (cells h s)]> h) t =
      take (len s) (cells h s) ++ ks ++ drop (len s + length ks) (cells h s)) as Hcells.
    { intros t Ht. unfold cells at 1. by rewrite Ht, list_lookup_insert_eq by done. }
    assert (length (take (len s) (cells h s) ++ ks ++ drop (len s + length ks) (cells h s)) = cap s) as Hlen.
    { rewrite !length_app, length_take, length_drop. lia. }
    split_and!; try (unfold wf; cbn [array len cap]; rewrite ?length_insert, Hcells by done; lia).
    + done.
    + unfold read. rewrite Hcells by done. cbn [len]. rewrite app_assoc, take_app_le by (rewrite length_app, length_take; lia).
      apply take_ge. rewrite length_app, length_take. lia.
    + by rewrite length_insert.
    + intros t _ Hne. unfold cells at 1. by rewrite list_lookup_insert_ne by congruence.
    + intros t Ht Hlt. unfold read. rewrite Hcells by done. rewrite take_app_le by (rewrite length_take; lia).
      rewrite take_take. unfold cells. rewrite Ht. f_equal. lia.
  - assert (∀ t, array t < length h → cells (h ++ [read h s ++ ks ++ replicate (grow (cap s) (len s + length ks) - (len s + length ks)) ""]) t = cells h t) as Hold.
    { intros t Ht. unfold cells. by rewrite lookup_app_l. }
    pose proof (read_length h s ltac:(by split_and!)) as Hr.
    assert (len s + length ks ≤ grow (cap s) (len s + length ks)) as Hg by (unfold grow; destruct (Nat.ltb_spec (2 * cap s) (len s + length ks)); lia).
    assert (cells (h ++ [read h s ++ ks ++ replicate (grow (cap s) (len s + length ks) - (len s + length ks)) ""])
      {| array := length h; len := len s + length ks; cap := grow (cap s) (len s + length ks) |} =
      read h s ++ ks ++ replicate (grow (cap s) (len s + length ks) - (len s + length ks)) "") as Hnew.
    { unfold cells. cbn [array]. by rewrite list_lookup_middle. }
    split_and!.
    + unfold wf. cbn [array len cap]. rewrite Hnew, !length_app, length_replicate. simpl. lia.
    + done.
    + unfold read at 1. rewrite Hnew. cbn [len]. rewrite app_assoc. apply take_app_length'. rewrite length_app. lia.
    + rewrite length_app. lia.
    + unfold wf. rewrite Hold, length_app by done. lia.
    + intros t Ht _. by apply Hold.
    + intros t Ht _. unfold read. rewrite Hold by lia. done.
Qed.
(** The capacity after [n] appends of one element. *)
Fixpoint keys_cap (n : nat) : nat :=
  match n with
  | O => O
  | S m => if (n <=? keys_cap m)%nat then keys_cap m else grow (keys_cap m) n
  end.

Lemma static_keys_spec NewKey h keys static labels ks :
  wf h keys → cap keys = keys_cap (len keys) → Forall2 (λ l k, NewKey l.1 = Ok k) labels ks →
  ∃ h' keys', (static_keys NewKey h keys static labels).1 = Ok (h', keys') ∧
    wf h' keys' ∧ len keys' = len keys + length ks ∧ cap keys' = keys_cap (len keys') ∧ read h' keys' = read h keys ++ ks.
Proof.
  intros Hw Hc H. revert h keys static Hw Hc. induction H as [|[lbl val] k labels ks Hk _ IH]; intros h keys static Hw Hc.
  - exists h, keys. simpl. rewrite app_nil_r, Nat.add_0_r. by split_and!.
  - simpl in Hk. cbn [static_keys]. rewrite Hk. destruct (append_spec h keys [k] Hw) as (W & L & R & _). cbv zeta in *.
    assert (cap (append h keys [k]).2 = keys_cap (S (len keys))) as C.
    { unfold append. cbn [length keys_cap]. rewrite <- Hc, Nat.add_1_r. by destruct (S (len keys) <=? cap keys)%nat. }
    destruct (append h keys [k]) as [h1 keys1]. cbn [fst snd] in *. simpl in L.
    destruct (IH h1 keys1 (<[k := val]> static) W) as (h' & keys' & E & W' & L' & C' & R').
    { rewrite C. f_equal. lia. }
    exists h', keys'. split_and!; [done|done|simpl; lia|done|]. by rewrite R', R, <- app_assoc.
Qed.

(** The views that fit into the array of the keys all have the same keys [K]. *)
Definition alike (keys : slice) (K : list key) (vs : list (measure * list key)) : Prop :=
  Forall (λ v, len keys + length v.2 ≤ cap keys → v.2 = K) vs.

(** A slice that no later view touches, or that was made from the array of the
    keys with [K]. *)
Definition settled (h : heap) (keys : slice) (K : list key) (t : slice) : Prop :=
  array t < length h ∧
  (array t = array keys → len t = len keys + length K ∧ len t ≤ cap keys ∧ read h t = read h keys ++ K).

Lemma append_settled h keys K ks t :
  wf h keys → (len keys + length ks ≤ cap keys → ks = K) → settled h keys K t →
  settled (append h keys ks).1 keys K t ∧ read (append h keys ks).1 t = read h t.
Proof.
  intros Hw Hk [Ht Hs]. destruct (append_spec h keys ks Hw) as (W & L & R & Hlen & _ & Hne & Hle). cbv zeta in *.
  assert (read (append h keys ks).1 keys = read h keys) as Hkeys by (apply Hle; lia).
  assert (read (append h keys ks).1 t = read h t) as E.
  { destruct (decide (array t = array keys)) as [Heq|Heq]; [|unfold read; by rewrite Hne].
    destruct (Hs Heq) as (H1 & H2 & H3). unfold append. destruct (Nat.leb_spec (len keys + length ks) (cap keys)) as [Hn|Hn]; cbn [fst].
    - rewrite <- (Hk Hn) in *. rewrite H3. rewrite <- R. unfold append. rewrite (proj2 (Nat.leb_le _ _) Hn). cbn [fst snd].
      unfold read, cells. cbn [array len]. by rewrite Heq, H1.
    - unfold read, cells. by rewrite lookup_app_l by lia. }
  split; [|done]. split; [lia|]. intros Heq. destruct (Hs Heq) as (H1 & H2 & H3). by rewrite E, Hkeys.
Qed.

Lemma make_views_spec K h keys vs :
  wf h keys → alike keys K vs →
  let r := make_views h keys vs in
  registered r.1 r.2 = (λ v, (v.1, read h keys ++ v.2)) <$> vs ∧
  ∀ t, settled h keys K t → read r.1 t = read h t.
Proof.
  intros Hw H. revert h Hw. induction H as [|[m ks] vs Hk _ IH]; intros h Hw; [done|].
  simpl in Hk. cbn [make_views]. pose proof (append_spec h keys ks Hw) as (W & L & R & Hlen & Hwk & _ & Hle). cbv zeta in *.
  pose proof (append_settled h keys K ks) as HS.
  assert (settled (append h keys ks).1 keys K (append h keys ks).2) as Hnew.
  { split; [apply W|]. intros Heq. rewrite R. rewrite Hle by done || lia. unfold append in Heq |- *.
    destruct (Nat.leb_spec (len keys + length ks) (cap keys)) as [Hn|Hn]; cbn [fst snd array len] in *; [rewrite <- (Hk Hn); by split_and!|].
    destruct Hw as (? & _). lia. }
  destruct (append h keys ks) as [h1 s]. cbn [fst snd] in *. destruct (IH h1 Hwk) as [E1 E2].
  destruct (make_views h1 keys vs) as [h2 l]. cbn [fst snd] in *. split.
  - unfold registered in *. rewrite !fmap_cons. cbn [fst snd]. rewrite E1, E2, R, Hle by (done || lia). done.
  - intros t Ht. destruct (HS t Hw Hk Ht) as [Ht1 Ht2]. by rewrite E2.
Qed.

Lemma keys_cap_room n : n ≤ 8 ∨ 13 ≤ n ≤ 16 → keys_cap n < n + 4.
Proof. intros H. assert (n ≤ 16) as Hn by lia. do 17 (destruct n as [|n]; [vm_compute; lia|]). lia. Qed.

(** With at most eight labels, or with 13 to 16 of them, every view is
    registered with the keys of the labels and its own, although all the slices
    are made from one. *)
Theorem SetupViews_keys NewKey Register labels ks :
  length labels ≤ 8 ∨ 13 ≤ length labels ≤ 16 → Forall2 (λ l k, NewKey l.1 = Ok k) labels ks →
  (SetupViews NewKey Register ∅ labels).1 = Register ((λ v, (v.1, ks ++ v.2)) <$> views_of).
Proof.
  intros Hn H. pose proof (Forall2_length _ _ _ H) as Hl.
  destruct (static_keys_spec NewKey [[]] {| array := 0; len := 0; cap := 0 |} ∅ labels ks) as (h & keys & E & W & L & C & R); [..|done|].
  { unfold wf. simpl. lia. } { done. }
  unfold SetupViews. rewrite bool_decide_true by done. cbn [negb].
  destruct (static_keys _ _ _ _ _) as [[[h' keys']|e|] st]; cbn [fst] in E; [|done..]. injection E as -> ->.
  simpl in L. rewrite L, <- Hl in C. pose proof (keys_cap_room (length labels) Hn) as Hc.
  assert (alike keys build_keys views_of) as Ha by (repeat constructor; cbn [fst snd length action_keys build_keys status_keys]; done || lia).
  destruct (make_views_spec build_keys h keys views_of W Ha) as [E _]. destruct (make_views h keys views_of) as [h2 vs].
  cbn [fst snd] in *. rewrite E, R. done.
Qed.
(** ** What is recorded *)

(** A proxy ran with remote execution disabled. *)
Definition disabled (pi : LogFile.ProxyInfo) : bool :=
  match LogFile.Flags pi !! "remote_disabled" with
  | Some sv => match ParseBool sv with Ok v => v | _ => false end
  | None => false
  end.

Lemma remoteDisabledFlagValue_spec infos :
  remoteDisabledFlagValue infos = if existsb disabled infos then "true" else "false".
Proof.
  induction infos as [|pi infos IH]; [done|]. cbn [remoteDisabledFlagValue existsb]. unfold disabled at 1.
  destruct (LogFile.Flags pi !! "remote_disabled") as [sv|]; [|done]. by destruct (ParseBool sv) as [[]|e|].
Qed.

(** Only the named logs are touched; they are removed unless they are
    directories. *)
Lemma CleanLogDir_spec w logDir :
  (∀ q, q ∉ (λ f, Filepath.Join [logDir; f]) <$> failureFiles → CleanLogDir w logDir !! q = w !! q) ∧
  (∀ f c m, f ∈ failureFiles → CleanLogDir w logDir !! Filepath.Join [logDir; f] ≠ Some (NFile c m)).
Proof.
  destruct (OS.try_Removes_spec ((λ f, Filepath.Join [logDir; f]) <$> failureFiles) w) as [H1 H2]. split; [exact H1|].
  intros f c m Hf. apply H2, list_elem_of_fmap. by exists f.
Qed.

(** Nothing is recorded of a build without records; otherwise one of each, and a
    latency for every proxy that has the event. *)
Lemma ExportBuildMetrics_count {ctx} tag_New TimeFromProto GOOS version static (c : ctx) sp :
  length (ExportBuildMetrics tag_New TimeFromProto GOOS version static c sp) =
    if (NumRecords sp =? 0)%Z then 0
    else 3 + sum_list ((λ pi, (if bool_decide (is_Some (LogFile.EventTimes pi !! "BootstrapStartup")) then 1 else 0) +
                              (if bool_decide (is_Some (LogFile.EventTimes pi !! "BootstrapShutdown")) then 1 else 0)) <$> ProxyInfo sp).
Proof.
  unfold ExportBuildMetrics. destruct (NumRecords sp =? 0)%Z; [done|]. rewrite !length_app. cbn [recordWithTags length].
  rewrite !Nat.add_assoc. cbn [Nat.add]. do 3 f_equal.
  match goal with |- context [info_metrics _ _ ?x] => generalize x; intros c' end.
  induction (ProxyInfo sp) as [|pi l IH]; [done|]. rewrite !fmap_cons. cbn [concat sum_list]. rewrite length_app, IH. f_equal.
  unfold info_metrics. rewrite length_app.
  destruct (LogFile.EventTimes pi !! "BootstrapStartup"), (LogFile.EventTimes pi !! "BootstrapShutdown"); reflexivity.
Qed.

(** ** On concrete labels *)

Module Concrete.

Definition labels (n : nat) : list (string * string) := (λ i, (pretty i, "v")) <$> seq 0 n.
Definition new_key (s : string) : res key := if (s =? "")%string then Fail (EMsg "invalid key") else Ok s.

(** The views that a number of labels leads to, without the keys of the
    labels. *)
Definition views_for (n : nat) : list (measure * list key) :=
  let r := static_keys new_key [[]] {| array := 0; len := 0; cap := 0 |} ∅ (labels n) in
  match r.1 with
  | Ok (h, keys) => let '(h, vs) := make_views h keys views_of in (λ v, (v.1, drop n v.2)) <$> registered h vs
  | _ => []
  end.

(** With nine labels the views of the builds lose the key that tells whether
    remote execution was disabled, and get one that is never set. *)
Example nine_labels :
  views_for 8 = views_of ∧
  views_for 9 !! 2 = Some (BuildCacheHitRatio, [osFamilyKey; versionKey; statusKey]) ∧
  views_for 9 !! 3 = Some (BuildLatency, [osFamilyKey; versionKey; statusKey]).
Proof. split_and!; vm_compute; reflexivity. Qed.

(** With seventeen those of the actions lose half of theirs. *)
Example seventeen_labels :
  views_for 16 = views_of ∧
  views_for 17 !! 0 = Some (ActionLatency,
    [osFamilyKey; versionKey; statusKey; remoteDisabledKey; remoteStatusKey; exitCodeKey; remoteExitCodeKey; remoteDisabledKey]).
Proof. split; vm_compute; reflexivity. Qed.

(** A bad label leaves those before it: no later call can set up anything. *)
Example bad_label :
  let r := SetupViews new_key (λ _, Ok ()) ∅ [("a", "1"); ("", "2")] in
  r.1 = Fail (EMsg "invalid key") ∧
  (SetupViews new_key (λ _, Ok ()) r.2 [("a", "1")]).1 = Fail (EMsg "views were already setup, cannot overwrite").
Proof. split; vm_compute; reflexivity. Qed.

End Concrete.

Lemma SetupViews_keys_witness :
  (SetupViews Concrete.new_key (λ vs, if bool_decide (vs = (λ v, (v.1, ["a"; "b"] ++ v.2)) <$> views_of) then Ok () else Panic)
     ∅ [("a", "1"); ("b", "2")]).1 = Ok ().
Proof.
  rewrite (SetupViews_keys _ _ _ ["a"; "b"]); [|left; simpl; lia|by repeat constructor].
  by rewrite bool_decide_true.
Defined.

End Monitoring.
