(* ===== verification/ReproxyStatus.v ===== *)
(** * The status of running proxies: [internal/pkg/reproxystatus],
      [internal/pkg/ipc/dial_posix.go]

    How the sockets of proxies are found, the text that is shown of a proxy, and
    the trackers that keep connections to one proxy or to all that are found. *)
From S2P Require Import Prelude GoStrings GoNet Logger.
From Stdlib Require Import Ascii.
Import Logger.

Module ReproxyStatus.

(** ** Sockets *)

Definition lsofOutputPrefix : string := "n/".

(** The first word of the line that is a path. *)
Definition parseSocketLine (line : string) : string :=
  match List.find (λ s, HasPrefix s lsofOutputPrefix) (Split line " ") with
  | Some s => TrimLeft s "n"
  | None => ""
  end.

Definition socket_step (acc : list string * list string) (line : string) : list string * list string :=
  let '(sockets, seenSockets) := acc in
  let socket := parseSocketLine line in
  if negb (socket =? "")%string && negb (mem socket seenSockets)
  then (sockets ++ ["unix://" +:+ socket], socket :: seenSockets) else acc.

Definition parseSockets (lsofOutput : string) : list string := (foldl socket_step ([], []) (Split lsofOutput "010")).1.

(** How the command ends: with its output, with an exit code, or it could not be
    run at all. *)
Inductive lsof_outcome := Output (s : string) | ExitError (code : Z) | NotRun (e : error).

(** There is no output with exit code 1; an error of another type fails the
    assertion on its type. *)
Definition GetAllReproxySockets (o : lsof_outcome) : res (list string) :=
  match o with
  | Output s => Ok (parseSockets s)
  | ExitError c => if (c =? 1)%Z then Ok [] else Fail (EMsg "exit status")
  | NotRun _ => Panic
  end.

(** [stat] tells whether the path is there. *)
Definition Exists (stat : string → bool) (address : string) : bool :=
  if HasPrefix address "unix://" then stat (TrimPrefix address "unix://") else true.

(** ** Texts *)

Definition CompletionStatus_String (s : CompletionStatus) : string :=
  match s with
  | STATUS_UNKNOWN => "STATUS_UNKNOWN" | STATUS_CACHE_HIT => "STATUS_CACHE_HIT"
  | STATUS_REMOTE_EXECUTION => "STATUS_REMOTE_EXECUTION" | STATUS_LOCAL_FALLBACK => "STATUS_LOCAL_FALLBACK"
  | STATUS_LOCAL_EXECUTION => "STATUS_LOCAL_EXECUTION" | STATUS_RACING_LOCAL => "STATUS_RACING_LOCAL"
  | STATUS_RACING_REMOTE => "STATUS_RACING_REMOTE" | STATUS_REMOTE_FAILURE => "STATUS_REMOTE_FAILURE"
  | STATUS_LOCAL_FAILURE => "STATUS_LOCAL_FAILURE" | STATUS_NON_ZERO_EXIT => "STATUS_NON_ZERO_EXIT"
  | STATUS_TIMEOUT => "STATUS_TIMEOUT" | STATUS_INTERRUPTED => "STATUS_INTERRUPTED"
  end.

(** [lpb.CompletionStatus_value] *)
Definition status_value (name : string) : option nat :=
  CompletionStatus_value <$> List.find (λ s, (CompletionStatus_String s =? name)%string) all_statuses.

(** A status that is not known comes after all others. *)
Definition ordinal (name : string) : nat := default (length all_statuses) (status_value name).

Definition by_ordinal (a b : string) : Prop := ordinal a ≤ ordinal b.
#[export] Instance by_ordinal_dec a b : Decision (by_ordinal a b) := le_dec (ordinal a) (ordinal b).

(** [keys] are those of the map, in the order in which it gives them. *)
Definition sortByOrdinal (keys : list string) : list string := merge_sort by_ordinal keys.

Definition status_text (stats : gmap string Z) (status : string) : option string :=
  let cnt := default 0%Z (stats !! status) in
  if (0 <? cnt)%Z
  then Some (Itoa cnt +:+ " " +:+ ToLower (Net.ReplaceAll (TrimPrefix status "STATUS_") "_" " ") +:+ (if (1 <? cnt)%Z then "s" else ""))
  else None.

Definition CompletedActionsSummary (keys : list string) (stats : gmap string Z) : string :=
  Join (omap (status_text stats) (sortByOrdinal keys)) ", ".

Record GetStatusSummaryResponse := {
  CompletedActionStats : gmap string Z;
  RunningActions : Z;
  Qps : Z
}.

(** No response: what the getters give on nil. *)
Definition no_response : GetStatusSummaryResponse := {| CompletedActionStats := ∅; RunningActions := 0; Qps := 0 |}.

Record Summary := { Addr : string; Resp : option GetStatusSummaryResponse; Err : option error }.

Definition stats_of (s : Summary) : gmap string Z := CompletedActionStats (default no_response (Resp s)).

Inductive color := Magenta | Red | Yellow | Green.

Section texts.

(** The escape sequences of a color, and the text of an error. *)
Variable paint : color → string → string.
Variable Error : error → string.

Definition count (s : Summary) (st : CompletionStatus) : Z := default 0%Z (stats_of s !! CompletionStatus_String st).

Definition overallStatuses (s : Summary) : list string :=
  let statuses :=
    (if (0 <? count s STATUS_REMOTE_FAILURE)%Z || (0 <? count s STATUS_LOCAL_FAILURE)%Z then [paint Magenta "had errors"] else []) ++
    (if (0 <? count s STATUS_NON_ZERO_EXIT)%Z then [paint Red "had failed actions"] else []) ++
    (if (0 <? count s STATUS_LOCAL_FALLBACK)%Z then [paint Yellow "had local fallbacks"] else []) in
  match statuses with [] => [paint Green "is OK"] | _ => statuses end.

(** The number of all actions, an [int32]. *)
Definition totalCompleted (keys : list string) (stats : gmap string Z) : Z :=
  foldl (λ t k, int32 (t + default 0%Z (stats !! k))) 0%Z keys.

Definition format_int (z : Z) : string := if (z <? 0)%Z then "-" +:+ Itoa (- z) else Itoa z.

Definition completedActions (keys : list string) (s : Summary) : string :=
  let t := totalCompleted keys (stats_of s) in
  if (t =? 0)%Z then "0" else format_int t +:+ " (" +:+ CompletedActionsSummary keys (stats_of s) +:+ ")".

Definition newline : string := String "010" "".

Definition HumanReadable (keys : list string) (s : Summary) : string :=
  let name := if (Addr s =? "")%string then "Reproxy" else "Reproxy(" +:+ Addr s +:+ ")" in
  match Err s with
  | Some e => name +:+ " was not reachable" +:+ newline +:+ paint Red (Error e) +:+ newline
  | None =>
      name +:+ " " +:+ Join (overallStatuses s) ", " +:+ newline +:+
      "Actions completed: " +:+ completedActions keys s +:+ newline +:+
      "Actions in progress: " +:+ format_int (RunningActions (default no_response (Resp s))) +:+ newline +:+
      "QPS: " +:+ format_int (Qps (default no_response (Resp s))) +:+ newline
  end.

(** [keys_of] gives the keys of a map in some order. *)
Variable keys_of : gmap string Z → list string.

Definition PrintSummaries (sums : list Summary) : string :=
  match sums with
  | [] => paint Red "Reproxy is not running" +:+ newline
  | _ => foldr (λ s t, HumanReadable (keys_of (stats_of s)) s +:+ newline +:+ t) "" sums
  end.

End texts.

(** ** Trackers *)

Section trackers.

(** A connection to a proxy. *)
Context {client : Type}.

(** What is outside: how an address is dialled, and what the proxy answers. *)
Record env := {
  DialContext : string → res client;
  GetStatusSummary : client → option GetStatusSummaryResponse * option error;
  lsof : lsof_outcome
}.

Definition ask (e : env) (addr : string) (c : client) : Summary :=
  let '(resp, err) := GetStatusSummary e c in {| Addr := addr; Resp := resp; Err := err |}.

(** *** One address *)

Definition dial_failed (e : error) : error := EWrap "failed to dial reproxy" e.

(** The client of the tracker is made by the first call that succeeds. *)
Definition fetch_single (e : env) (addr : string) (cl : option client) : res (list Summary) * option client :=
  match cl with
  | Some c => (Ok [ask e addr c], cl)
  | None =>
      match DialContext e addr with
      | Ok c => (Ok [ask e addr c], Some c)
      | Fail err => (Ok [{| Addr := addr; Resp := None; Err := Some (dial_failed err) |}], None)
      | Panic => (Panic, None)
      end
  end.

(** *** All sockets *)

(** Nil maps until the first call. *)
Record SocketReproxyTracker := {
  clients : option (gmap string client);
  dialErrors : option (gmap string error)
}.

Definition new_tracker : SocketReproxyTracker := {| clients := None; dialErrors := None |}.

(** One address: the old connection, or a new one. *)
Definition connect (e : env) (oldClients : gmap string client) (acc : gmap string client * gmap string error) (addr : string) :
    gmap string client * gmap string error :=
  match oldClients !! addr with
  | Some c => (<[addr := c]> acc.1, acc.2)
  | None =>
      match DialContext e addr with
      | Ok c => (<[addr := c]> acc.1, acc.2)
      | Fail err => (acc.1, <[addr := dial_failed err]> acc.2)
      | Panic => acc
      end
  end.

(** A write to a map of errors that was never made panics. *)
Definition updateClients (e : env) (rt : SocketReproxyTracker) : res SocketReproxyTracker :=
  let old := default ∅ (clients rt) in
  match GetAllReproxySockets (lsof e) with
  | Ok addrs =>
      let r := foldl (connect e old) (∅, ∅) addrs in Ok {| clients := Some r.1; dialErrors := Some r.2 |}
  | Fail err =>
      match dialErrors rt with
      | None => Panic
      | Some errs => Ok {| clients := Some old; dialErrors := Some (<["" := EWrap "error finding reproxy sockets" err]> errs) |}
      end
  | Panic => Panic
  end.

Definition by_addr (a b : Summary) : Prop := String.le (Addr a) (Addr b).
#[export] Instance by_addr_dec a b : Decision (by_addr a b) := decide_rel String.le (Addr a) (Addr b).

Definition error_summary (kv : string * error) : Summary := {| Addr := kv.1; Resp := None; Err := Some kv.2 |}.

(** The answers come in any order, and so do the keys of the map of errors:
    [arrive] is a permutation. *)
Definition FetchAllStatusSummaries (arrive : list Summary → list Summary) (e : env) (rt : SocketReproxyTracker) :
    res (list Summary * SocketReproxyTracker) :=
  let? rt := updateClients e rt in
  let answers := (λ kv, ask e kv.1 kv.2) <$> map_to_list (default ∅ (clients rt)) in
  let errors := error_summary <$> map_to_list (default ∅ (dialErrors rt)) in
  Ok (merge_sort by_addr (arrive answers ++ arrive errors), rt).

(** ** What a tracker lists *)

(** The summary of an address: from the connection there is, from a new one, or
    the error. *)
Definition summary_of (e : env) (old : gmap string client) (addr : string) : Summary :=
  match old !! addr with
  | Some c => ask e addr c
  | None =>
      match DialContext e addr with
      | Ok c => ask e addr c
      | Fail err => error_summary (addr, dial_failed err)
      | Panic => error_summary (addr, EMsg "")
      end
  end.

Context (e : env) (old : gmap string client) (Hdial : ∀ addr, DialContext e addr ≠ Panic).

(** The connection of an address after the update, if there is one. *)
Definition client_of (addr : string) : option client :=
  match old !! addr with
  | Some c => Some c
  | None => match DialContext e addr with Ok c => Some c | _ => None end
  end.

Lemma connect_spec addrs :
  NoDup addrs →
  let r := foldl (connect e old) (∅, ∅) addrs in
  (∀ a, r.1 !! a = if bool_decide (a ∈ addrs) then client_of a else None) ∧
  (∀ a, a ∉ addrs → r.2 !! a = None) ∧
  ((λ kv, ask e kv.1 kv.2) <$> map_to_list r.1) ++ (error_summary <$> map_to_list r.2) ≡ₚ summary_of e old <$> addrs.
Proof using Hdial.
  induction addrs as [|a addrs IH] using rev_ind; intros Hn.
  - cbn. split_and!; [|done|by rewrite !map_to_list_empty]. intros a. by rewrite lookup_empty, bool_decide_false by apply not_elem_of_nil.
  - apply NoDup_app in Hn as (Hn & Ha & _). destruct (IH Hn) as (H1 & H2 & H3). clear IH.
    assert (a ∉ addrs) as Hnin by (intros H; apply (Ha a H); by left).
    rewrite foldl_app. simpl. destruct (foldl (connect e old) (∅, ∅) addrs) as [cs es]. cbn [fst snd] in *.
    assert (cs !! a = None) as Hc by (by rewrite H1, bool_decide_false).
    assert (∀ c, client_of a = Some c → ∀ x, <[a := c]> cs !! x = if bool_decide (x ∈ addrs ++ [a]) then client_of x else None) as Hins.
    { intros c Ec x. destruct (decide (a = x)) as [<-|Hne].
      - by rewrite lookup_insert_eq, bool_decide_true by (apply elem_of_app; right; by left).
      - rewrite lookup_insert_ne, H1 by done. rewrite (bool_decide_ext (x ∈ addrs ++ [a]) (x ∈ addrs)); [done|].
        rewrite elem_of_app, list_elem_of_singleton. naive_solver. }
    unfold connect. rewrite fmap_app. change (summary_of e old <$> [a]) with [summary_of e old a].
    pose proof (eq_refl (summary_of e old a)) as Es. unfold summary_of at 2 in Es. pose proof (eq_refl (client_of a)) as Ec. unfold client_of at 2 in Ec.
    specialize (Hdial a). destruct (old !! a) as [c|] eqn:Eo; [|destruct (DialContext e a) as [c|err|] eqn:Ed; [| |done]]; cbn [fst snd].
    + split; [by apply Hins|]. split; [intros x Hx; apply H2; intros Hx'; apply Hx, elem_of_app; by left|].
      rewrite map_to_list_insert, fmap_cons by done. cbn [app]. rewrite H3, Es. by rewrite Permutation_cons_append.
    + split; [by apply Hins|]. split; [intros x Hx; apply H2; intros Hx'; apply Hx, elem_of_app; by left|].
      rewrite map_to_list_insert, fmap_cons by done. cbn [app]. rewrite H3, Es. by rewrite Permutation_cons_append.
    + split.
      { intros x. rewrite H1. destruct (decide (x = a)) as [->|Hne].
        - rewrite bool_decide_false by done. rewrite bool_decide_true by (apply elem_of_app; right; by left). done.
        - rewrite (bool_decide_ext (x ∈ addrs ++ [a]) (x ∈ addrs)); [done|]. rewrite elem_of_app, list_elem_of_singleton. naive_solver. }
      split.
      { intros x Hx. rewrite not_elem_of_app, not_elem_of_cons in Hx. rewrite lookup_insert_ne by naive_solver. apply H2. naive_solver. }
      rewrite map_to_list_insert, fmap_cons by (by apply H2). rewrite <- Permutation_middle, H3, Es. by rewrite Permutation_cons_append.
Qed.

End trackers.

Arguments env : clear implicits.
Arguments SocketReproxyTracker : clear implicits.

(** Every socket is listed once. *)
Lemma parseSockets_NoDup s : NoDup (parseSockets s).
Proof.
  unfold parseSockets.
  assert (∀ lines acc, NoDup acc.1 → (∀ x, x ∈ acc.1 → ∃ y, x = "unix://" +:+ y ∧ y ∈ acc.2) →
    NoDup (foldl socket_step acc lines).1) as H; [|apply H; [by constructor|by intros x ?%elem_of_nil]].
  induction lines as [|l lines IH]; intros [ss seen] Hn Hs; [done|]. cbn [foldl]. cbn [fst snd] in *. apply IH; unfold socket_step; cbv zeta; generalize (parseSocketLine l); intros socket.
  - destruct (_ && _) eqn:E; [|done]. apply andb_true_iff in E as [_ E]. cbn [fst]. apply NoDup_app. split; [done|].
    split; [|apply NoDup_singleton]. intros x Hx ->%list_elem_of_singleton. destruct (Hs _ Hx) as (y & Ey & Hy).
    apply str_app_inj in Ey as ->. apply mem_spec in Hy. by rewrite Hy in E.
  - destruct (_ && _); [|done]. cbn [fst snd]. intros x [(y & -> & Hy)%Hs| ->%list_elem_of_singleton]%elem_of_app; eexists;
      (split; [done|]); [by right|by left].
Qed.

Lemma Sorted_addrs l : Sorted by_addr l → StronglySorted String.le (Addr <$> l).
Proof.
  intros H. apply Sorted_StronglySorted; [apply _|]. induction H as [|x l Hs IH Hx]; [constructor|]. simpl. constructor; [done|].
  inversion Hx; subst; constructor. done.
Qed.

#[local] Instance by_addr_total : Total by_addr.
Proof. intros a b. unfold by_addr. apply (total String.le). Qed.

(** After the sockets were found, every one is listed once, in the order of
    the addresses, whatever the order of the answers: with the answer on the
    connection that was kept from before or is new, or with the error of the
    dial.  The connections of other addresses are dropped. *)
Theorem FetchAllStatusSummaries_spec {client} (arrive : list Summary → list Summary) (e : env client) rt output :
  (∀ l, arrive l ≡ₚ l) → (∀ addr, DialContext e addr ≠ Panic) → lsof e = Output output →
  ∃ cs es,
    FetchAllStatusSummaries arrive e rt =
      Ok (summary_of e (default ∅ (clients rt)) <$> sort_Strings (parseSockets output), {| clients := Some cs; dialErrors := Some es |}) ∧
    ∀ addr, cs !! addr = if bool_decide (addr ∈ parseSockets output) then client_of e (default ∅ (clients rt)) addr else None.
Proof.
  intros Harr Hd Hl. unfold FetchAllStatusSummaries, updateClients. rewrite Hl. cbn [GetAllReproxySockets].
  set (old := default ∅ (clients rt)). destruct (connect_spec e old Hd (parseSockets output) (parseSockets_NoDup output)) as (H1 & _ & H3).
  destruct (foldl (connect e old) (∅, ∅) (parseSockets output)) as [cs es]. cbn [fst snd] in *. exists cs, es. split; [|done].
  rewrite bind_Ok. cbn [clients dialErrors default]. f_equal. f_equal.
  set (l := merge_sort by_addr _). assert (l ≡ₚ summary_of e old <$> parseSockets output) as Hp.
  { unfold l. rewrite merge_sort_Permutation, !Harr. exact H3. }
  assert (∀ a, Addr (summary_of e old a) = a) as Ha.
  { intros a. unfold summary_of, ask. destruct (old !! a) as [c|]; [by destruct (GetStatusSummary e c)|].
    destruct (DialContext e a) as [c|err|]; [by destruct (GetStatusSummary e c)|done..]. }
  assert (Addr <$> l = sort_Strings (parseSockets output)) as <-.
  { apply (StronglySorted_unique String.le); [apply Sorted_addrs, Sorted_merge_sort; apply _|apply sort_Strings_sorted|].
    rewrite sort_Strings_perm, Hp, <- list_fmap_compose. rewrite (list_fmap_ext _ id); [by rewrite list_fmap_id|]. intros i a _. apply Ha. }
  rewrite <- list_fmap_compose. symmetry. etransitivity; [|apply list_fmap_id]. apply Forall_fmap_ext_1, Forall_forall. intros s Hs.
  rewrite Hp in Hs. apply list_elem_of_fmap in Hs as (a & -> & _). simpl. by rewrite Ha.
Qed.

(** Without an answer from the sockets everything that is known stays, and is
    asked again; there must have been an answer before. *)
Lemma FetchAll_not_found {client} arrive (e : env client) rt c :
  lsof e = ExitError c → c ≠ 1%Z →
  match dialErrors rt with
  | None => FetchAllStatusSummaries arrive e rt = Panic
  | Some errs =>
      ∃ sums rt', FetchAllStatusSummaries arrive e rt = Ok (sums, rt') ∧ clients rt' = Some (default ∅ (clients rt)) ∧
        dialErrors rt' = Some (<["" := EWrap "error finding reproxy sockets" (EMsg "exit status")]> errs)
  end.
Proof.
  intros Hl Hc. unfold FetchAllStatusSummaries, updateClients. rewrite Hl. cbn [GetAllReproxySockets].
  destruct (Z.eqb_spec c 1); [done|]. destruct (dialErrors rt) as [errs|]; [|done]. rewrite bind_Ok. by repeat eexists.
Qed.

(** The summary of known statuses does not depend on the order of the map. *)
Lemma ordinal_lt k : ordinal k < length all_statuses → ∃ s, k = CompletionStatus_String s ∧ ordinal k = CompletionStatus_value s.
Proof.
  unfold ordinal, status_value. destruct (List.find _ all_statuses) as [s|] eqn:E; simpl; [|lia].
  apply List.find_some in E as [_ E%String.eqb_eq]. intros _. by exists s.
Qed.

Lemma ordinal_inj k1 k2 : ordinal k1 < length all_statuses → ordinal k1 = ordinal k2 → k1 = k2.
Proof.
  intros H1 H2. destruct (ordinal_lt k1 H1) as (s1 & -> & E1). destruct (ordinal_lt k2 ltac:(lia)) as (s2 & -> & E2).
  f_equal. rewrite E1, E2 in H2. by destruct s1, s2.
Qed.

Lemma CompletedActionsSummary_order keys1 keys2 stats :
  keys1 ≡ₚ keys2 → Forall (λ k, ordinal k < length all_statuses) keys1 →
  CompletedActionsSummary keys1 stats = CompletedActionsSummary keys2 stats.
Proof.
  intros Hp Hk. unfold CompletedActionsSummary, sortByOrdinal. do 2 f_equal.
  assert (Total by_ordinal) by (intros a b; unfold by_ordinal; lia).
  assert (Transitive by_ordinal) by (intros a b c; unfold by_ordinal; lia).
  apply (Sorted_unique_strong by_ordinal); [|by apply Sorted_merge_sort..|by rewrite !merge_sort_Permutation].
  intros k1 k2 H1 _ L1 L2. rewrite merge_sort_Permutation in H1. rewrite Forall_forall in Hk.
  apply ordinal_inj; [by apply Hk|]. unfold by_ordinal in *. lia.
Qed.

(** ** On concrete proxies *)

Module Concrete.

Definition lines (l : list string) : string := Join l newline.
Definition response : GetStatusSummaryResponse := {|
  CompletedActionStats := {[ "STATUS_REMOTE_EXECUTION" := 3%Z; "STATUS_LOCAL_FALLBACK" := 1%Z; "STATUS_CACHE_HIT" := 0%Z ]};
  RunningActions := 2; Qps := 7 |}.

(** A client is named after its address. *)
Definition world (o : lsof_outcome) : env string := {|
  DialContext := λ a, if HasSuffix a "bad" then Fail (EMsg "refused") else Ok a;
  GetStatusSummary := λ c, if HasSuffix c "gone" then (None, Some (EMsg "gone")) else (Some response, None);
  lsof := o |}.

Definition output : string := lines ["p1"; "f4"; "n/tmp/b.sock type=STREAM"; "n/tmp/a.sock"; "n/tmp/b.sock"; "ntype=STREAM"; "n/tmp/bad"].

Example sockets : parseSockets output = ["unix:///tmp/b.sock"; "unix:///tmp/a.sock"; "unix:///tmp/bad"].
Proof. vm_compute. reflexivity. Qed.

(** A path ends at its first space. *)
Example space_in_path : parseSocketLine "n/tmp/my dir/a.sock" = "/tmp/my".
Proof. reflexivity. Qed.

(** When the sockets cannot be listed the first time, the write to a nil map ends
    the process; when the command is missing, the assertion on its error does. *)
Example first_call_panics :
  FetchAllStatusSummaries id (world (ExitError 127)) new_tracker = Panic ∧
  FetchAllStatusSummaries id (world (NotRun (EMsg "not found"))) new_tracker = Panic.
Proof. split; reflexivity. Qed.

Example text :
  HumanReadable (λ _ s, s) (λ _, "error") ["STATUS_LOCAL_FALLBACK"; "STATUS_CACHE_HIT"; "STATUS_REMOTE_EXECUTION"]
    {| Addr := "a"; Resp := Some response; Err := None |} =
  lines ["Reproxy(a) had local fallbacks"; "Actions completed: 4 (3 remote executions, 1 local fallback)"; "Actions in progress: 2"; "QPS: 7"; ""].
Proof. vm_compute. reflexivity. Qed.

(** Two statuses that are not known are shown in either order. *)
Example unknown_statuses :
  let stats := {[ "A" := 1%Z; "B" := 1%Z ]} in
  CompletedActionsSummary ["A"; "B"] stats = "1 a, 1 b" ∧ CompletedActionsSummary ["B"; "A"] stats = "1 b, 1 a".
Proof. split; vm_compute; reflexivity. Qed.

End Concrete.

Lemma FetchAllStatusSummaries_spec_witness :
  ∃ sums rt, FetchAllStatusSummaries (@rev _) (Concrete.world (Output Concrete.output))
      {| clients := Some {[ "unix:///tmp/a.sock" := "gone" ]}; dialErrors := None |} = Ok (sums, rt) ∧
    Addr <$> sums = ["unix:///tmp/a.sock"; "unix:///tmp/b.sock"; "unix:///tmp/bad"] ∧
    Err <$> sums = [Some (EMsg "gone"); None; Some (dial_failed (EMsg "refused"))].
Proof.
  destruct (FetchAllStatusSummaries_spec (@rev _) (Concrete.world (Output Concrete.output))
    {| clients := Some {[ "unix:///tmp/a.sock" := "gone" ]}; dialErrors := None |} Concrete.output) as (cs & es & E & _).
  - intros l. symmetry. apply Permutation_rev.
  - intros addr. simpl. by destruct (HasSuffix addr "bad").
  - reflexivity.
  - eexists _, _. split; [exact E|]. split; vm_compute; reflexivity.
Defined.

End ReproxyStatus.
