(* ===== verification/StatsOut.v ===== *)
(** * Where the statistics go: [stats.go], [auxiliary.go] and [metricsuploader]

    The statistics of a build are written to two files, summed up in a line, and
    reshaped into a row of a table ([internal/pkg/stats/stats.go]).  The messages
    that workers attach to an action become flat maps
    ([internal/pkg/auxiliary/auxiliary.go]).  [cmd/metricsuploader/main.go] sends
    everything to its places.  Protocol buffers and JSON texts are parameters; a
    value of JSON is a tree. *)
From S2P Require Import Prelude GoStrings GoPath GoFS Logger ReproxyStatus CollectLogs.
From Stdlib Require Import Ascii.

Module StatsOut.

(** ** Values of JSON

    The entries of an object are in the order in which a loop over it meets
    them. *)
Inductive json := JObj (m : list (string * json)) | JArr (l : list json) | JVal (text : string) | JNull.

Definition get (k : string) (m : list (string * json)) : option json := snd <$> List.find (λ kv, (kv.1 =? k)%string) m.

Fixpoint set (k : string) (v : json) (m : list (string * json)) : list (string * json) :=
  match m with
  | [] => [(k, v)]
  | (k', v') :: m => if (k' =? k)%string then (k, v) :: m else (k', v') :: set k v m
  end.

(** *** A flat map *)

Definition new_prefix (prefix k : string) : string := if (prefix =? "")%string then k else prefix +:+ "." +:+ k.

(** [print] is the text that [fmt] makes of a value. *)
Fixpoint flatJSON (print : json → string) (data : json) (prefix : string) : gmap string string :=
  match data with
  | JObj value => foldl (λ result kv, flatJSON print kv.2 (new_prefix prefix kv.1) ∪ result) ∅ value
  | _ => {[prefix := print data]}
  end.

(** [FlatRawMsg]: bytes that are no message give an empty one. *)
Definition FlatRawMsg (print : json → string) (msgToJSON : string → json) (rawMsg : string) : gmap string string :=
  flatJSON print (msgToJSON rawMsg) "".

(** *** A row *)

Definition mapToArr (mRaw : json) : json :=
  match mRaw with
  | JObj m => JArr ((λ kv, JObj [("key", JVal kv.1); ("value", kv.2)]) <$> m)
  | _ => JNull
  end.

Definition reshape (pi : list (string * json)) (k : string) : list (string * json) :=
  match get k pi with Some JNull | None => pi | Some v => set k (mapToArr v) pi end.

(** The fields of the proxies that are maps. *)
Definition map_fields : list string := ["event_times"; "metrics"; "flags"; "bq_stats"].

(** A type assertion that fails is a panic. *)
Definition reshape_info (piRaw : json) : res json :=
  match piRaw with JObj pi => Ok (JObj (foldl reshape pi map_fields)) | _ => Panic end.

Fixpoint reshape_all (pis : list json) : res (list json) :=
  match pis with
  | [] => Ok []
  | p :: pis => let? p := reshape_info p in let? pis := reshape_all pis in Ok (p :: pis)
  end.

(** [Save], given the JSON text of the statistics as an object. *)
Definition Save (out : list (string * json)) : res (list (string * json)) :=
  match get "proxy_info" out with
  | None => Ok out
  | Some (JArr pis) => let? pis := reshape_all pis in Ok (set "proxy_info" (JArr pis) out)
  | Some _ => Panic
  end.

(** ** A line for people, and files *)

(** A statistic by its name, and its counts by value in their order. *)
Record Stat := { Name : string; CountsByValue : list (string * Z) }.

Definition counts (st : Stat) : gmap string Z := foldl (λ m kv, <[kv.1 := int32 kv.2]> m) ∅ (CountsByValue st).

(** [keys] is the order of the map. *)
Fixpoint CompletionStats (keys : gmap string Z → list string) (s : list Stat) : string :=
  match s with
  | [] => ""
  | st :: s => if (Name st =? "CompletionStatus")%string
               then ReproxyStatus.CompletedActionsSummary (keys (counts st)) (counts st)
               else CompletionStats keys s
  end.

Definition AggregatedMetricsFileBaseName : string := "rbe_metrics".

(** [Format] and [Marshal] of the statistics.  The errors of the writes are
    dropped. *)
Definition WriteStats {P} (Format : P → string) (Marshal : P → res string) (sPb : P) (outputdir : string) : ST fs unit := λ f,
  match OS.MkdirAll f outputdir with
  | Ok f =>
      let path := Filepath.Join [outputdir; AggregatedMetricsFileBaseName] in
      match OS.Create f (path +:+ ".txt") with
      | Ok f1 =>
          let f1 := match OS.Write f1 (path +:+ ".txt") (Format sPb) with Ok f => f | _ => f1 end in
          match Marshal sPb with
          | Ok blob =>
              match OS.Create f1 (path +:+ ".pb") with
              | Ok f2 => (Ok tt, match OS.Write f2 (path +:+ ".pb") blob with Ok f => f | _ => f2 end)
              | Fail e => (Fail e, f1)
              | Panic => (Panic, f1)
              end
          | Fail e => (Fail e, f1)
          | Panic => (Panic, f1)
          end
      | Fail e => (Fail e, f)
      | Panic => (Panic, f)
      end
  | Fail e => (Fail e, f)
  | Panic => (Panic, f)
  end.

(** [WriteFromRecords]: no records leave empty statistics; an error ends the
    process. *)
Definition WriteFromRecords {R P} (empty : P) (NewFromRecords : list R → P) (Format : P → string) (Marshal : P → res string)
    (recs : option (list R)) (outputDir : string) : ST fs unit :=
  WriteStats Format Marshal (match recs with Some recs => NewFromRecords recs | None => empty end) outputDir.

(** ** Flat maps are exact

    The value at a path of an object. *)
Fixpoint at_path (data : json) (ks : list string) : option json :=
  match ks with
  | [] => match data with JObj _ => None | _ => Some data end
  | k :: ks => match data with JObj m => get k m ≫= λ v, at_path v ks | _ => None end
  end.

(** The key of a path below a prefix. *)
Definition key_of (prefix : string) (ks : list string) : string := foldl new_prefix prefix ks.

Definition dotless (k : string) : Prop := k ≠ "" ∧ contains_char "." k = false.

(** Objects with keys of their own, none of them empty or with a dot. *)
Fixpoint well_keyed (data : json) : Prop :=
  match data with
  | JObj m => NoDup m.*1 ∧ Forall dotless m.*1 ∧ foldr (λ kv P, well_keyed kv.2 ∧ P) True m
  | _ => True
  end.

Lemma foldr_Forall {A} (P : A → Prop) l : foldr (λ a Q, P a ∧ Q) True l ↔ Forall P l.
Proof. induction l as [|a l IH]; simpl; [split; [constructor|done]|]. by rewrite Forall_cons, IH. Qed.

Lemma get_Some k m v : NoDup m.*1 → get k m = Some v ↔ (k, v) ∈ m.
Proof.
  unfold get. induction m as [|[k' v'] m IH]; simpl; intros Hn; [split; [done|by intros ?%elem_of_nil]|].
  apply NoDup_cons in Hn as [Hk Hn]. rewrite elem_of_cons. destruct (String.eqb_spec k' k) as [->|Hne]; simpl.
  - split; [intros [= ->]; by left|]. intros [[= ->]|Hin]; [done|]. exfalso. apply Hk, list_elem_of_fmap. by exists (k, v).
  - rewrite IH by done. split; [by right|]. intros [[= -> _]|Hin]; done.
Qed.

Lemma key_of_cons prefix k ks : key_of prefix (k :: ks) = key_of (new_prefix prefix k) ks.
Proof. done. Qed.

Lemma new_prefix_nonempty prefix k : k ≠ "" → new_prefix prefix k ≠ "".
Proof. unfold new_prefix. destruct (String.eqb_spec prefix ""); [done|]. by destruct prefix. Qed.

Lemma key_of_split prefix ks :
  Forall dotless ks → ks ≠ [] →
  Split (key_of prefix ks) "." = (if (prefix =? "")%string then [] else Split prefix ".") ++ ks.
Proof.
  revert prefix. induction ks as [|k ks IH]; intros prefix H Hn; [done|]. apply Forall_cons in H as [[Hk Hd] H].
  rewrite key_of_cons. destruct ks as [|k' ks].
  - unfold key_of. simpl. unfold new_prefix. destruct (String.eqb_spec prefix "") as [->|_]; [by rewrite Split_none|].
    change (prefix +:+ "." +:+ k) with (prefix +:+ String "." k). by rewrite Split_app, (Split_none k).
  - rewrite IH by done. pose proof (new_prefix_nonempty prefix k Hk) as Hne. apply String.eqb_neq in Hne as ->.
    unfold new_prefix. destruct (String.eqb_spec prefix "") as [->|_]; [by rewrite Split_none|].
    change (prefix +:+ "." +:+ k) with (prefix +:+ String "." k). rewrite Split_app, (Split_none k) by done. by rewrite <- app_assoc.
Qed.

(** Different paths below one prefix have different keys. *)
Lemma key_of_head prefix k1 ks1 k2 ks2 :
  Forall dotless (k1 :: ks1) → Forall dotless (k2 :: ks2) → key_of prefix (k1 :: ks1) = key_of prefix (k2 :: ks2) → k1 = k2.
Proof.
  intros H1 H2 E. pose proof (key_of_split prefix _ H1) as E1. rewrite E, key_of_split in E1 by done.
  apply app_inv_head_iff in E1; [by injection E1|done].
Qed.

Lemma at_path_dotless ks data v : well_keyed data → at_path data ks = Some v → Forall dotless ks.
Proof.
  revert data. induction ks as [|k ks IH]; intros data Hw; [constructor|]. destruct data as [m| | |]; try done. simpl.
  destruct (get k m) as [x|] eqn:E; [|done]. simpl. destruct Hw as (Hn & Hd & Hf). apply get_Some in E; [|done].
  rewrite (foldr_Forall (λ kv, well_keyed kv.2)), Forall_forall in Hf. intros H. constructor.
  - rewrite Forall_forall in Hd. apply Hd, list_elem_of_fmap. by exists (k, x).
  - by apply (IH x (Hf _ E)).
Qed.

Lemma json_ind' (P : json → Prop) :
  (∀ m, Forall (λ kv, P kv.2) m → P (JObj m)) → (∀ d, match d with JObj _ => True | _ => P d end) → ∀ d, P d.
Proof.
  intros Ho Hl. fix IH 1. intros d. destruct d as [m|l|t|]; [|exact (Hl (JArr l))|exact (Hl (JVal t))|exact (Hl JNull)].
  apply Ho. induction m as [|[k v] m IHm]; constructor; [apply IH|apply IHm].
Qed.

Lemma foldl_union {A} (f : A → gmap string string) l r q v :
  (∀ a b, a ∈ l → b ∈ l → is_Some (f a !! q) → is_Some (f b !! q) → a = b) →
  foldl (λ r a, f a ∪ r) r l !! q = Some v ↔ (∃ a, a ∈ l ∧ f a !! q = Some v) ∨ (r !! q = Some v ∧ ∀ a, a ∈ l → f a !! q = None).
Proof.
  revert r. induction l as [|a l IH]; intros r Hd; simpl.
  - split; [intros H; right; split; [done|by intros a ?%elem_of_nil]|]. intros [(a & ?%elem_of_nil & _)|[H _]]; done.
  - rewrite IH by (intros; apply Hd; try done; by right). rewrite lookup_union_Some_raw. split.
    + intros [(b & Hb & H)|[[H|[H1 H2]] H3]]; [left; exists b; split; [by right|done]|left; exists a; split; [by left|done]|].
      right. split; [done|]. intros b [->|Hb]%elem_of_cons; [done|by apply H3].
    + intros [(b & [->|Hb]%elem_of_cons & H)|[H1 H2]].
      * destruct (decide (Exists (λ b, is_Some (f b !! q)) l)) as [(b & Hb & Hs)%Exists_exists|Hne].
        { left. exists b. split; [done|]. by rewrite (Hd b a) by (try done; by (left + right)). }
        right. split; [by left|]. intros b Hb. destruct (f b !! q) eqn:E; [|done]. exfalso. apply Hne, Exists_exists. exists b. by rewrite E.
      * left. by exists b.
      * right. split; [right; split; [apply H2; by left|done]|]. intros b Hb. apply H2. by right.
Qed.

(** The flat map has the values of the object at all paths, and nothing else. *)
Lemma flatJSON_spec print data :
  well_keyed data → ∀ prefix q v,
  flatJSON print data prefix !! q = Some v ↔ ∃ ks x, at_path data ks = Some x ∧ q = key_of prefix ks ∧ v = print x.
Proof.
  revert data. refine (json_ind' _ _ _); [intros m IH Hw prefix q v|intros d].
  - destruct Hw as (Hn & Hd & Hf). rewrite (foldr_Forall (λ kv, well_keyed kv.2)) in Hf. rewrite Forall_forall in IH, Hf.
    pose proof (proj1 (Forall_forall _ _) Hd) as Hd0.
    assert (∀ kv, kv ∈ m → dotless kv.1) as Hd' by (intros kv Hkv; apply Hd0, list_elem_of_fmap; by exists kv).
    cbn [flatJSON]. rewrite (foldl_union (λ kv, flatJSON print kv.2 (new_prefix prefix kv.1))).
    + rewrite lookup_empty. split.
      * intros [([k x] & Hin & H)|[? _]]; [|done]. apply (IH _ Hin (Hf _ Hin)) in H as (ks & y & Hy & -> & ->).
        exists (k :: ks), y. split_and!; [|done|done]. simpl. apply get_Some in Hin; [|done]. by rewrite Hin.
      * intros ([|k ks] & y & Hy & -> & ->); [done|]. simpl in Hy. destruct (get k m) as [x|] eqn:E; [|done].
        apply get_Some in E; [|done]. left. exists (k, x). split; [done|]. apply (IH _ E (Hf _ E)). by exists ks, y.
    + intros [k1 x1] [k2 x2] H1 H2 [v1 E1] [v2 E2]. apply (IH _ H1 (Hf _ H1)) in E1 as (ks1 & y1 & A1 & Q1 & _).
      apply (IH _ H2 (Hf _ H2)) in E2 as (ks2 & y2 & A2 & Q2 & _). assert (k1 = k2) as ->.
      { apply (key_of_head prefix k1 ks1 k2 ks2); [..|rewrite !key_of_cons; cbn [fst snd] in Q1, Q2; congruence].
        - constructor; [apply (Hd' _ H1)|by eapply at_path_dotless; [apply (Hf _ H1)|]].
        - constructor; [apply (Hd' _ H2)|by eapply at_path_dotless; [apply (Hf _ H2)|]]. }
      apply get_Some in H1, H2; [|done..]. congruence.
  - assert (∀ e, (∀ ks, at_path e ks = match ks with [] => Some e | _ => None end) → ∀ prefix q v, ({[prefix := print e]} : gmap string string) !! q = Some v ↔
      ∃ ks x, at_path e ks = Some x ∧ q = key_of prefix ks ∧ v = print x) as H.
    { clear. intros e He prefix q v. rewrite lookup_singleton_Some. split.
      - intros [<- <-]. exists [], e. by rewrite He.
      - intros ([|k ks] & x & Hx & -> & ->); rewrite He in Hx; [|done]. by injection Hx as <-. }
    destruct d; [done|intros _; apply H; by intros []..].
Qed.

(** So it does not depend on the order in which the loops meet the entries. *)
Theorem flatJSON_order print d1 d2 prefix :
  well_keyed d1 → well_keyed d2 → (∀ ks, at_path d1 ks = at_path d2 ks) → flatJSON print d1 prefix = flatJSON print d2 prefix.
Proof.
  intros H1 H2 H. apply map_eq. intros q. apply option_eq. intros v. rewrite !flatJSON_spec by done. by setoid_rewrite H.
Qed.

(** ** Rows keep what they are made of *)

Lemma get_set k k' v m : get k (set k' v m) = if decide (k = k') then Some v else get k m.
Proof.
  unfold get. induction m as [|[k0 v0] m IH]; simpl.
  - destruct (String.eqb_spec k' k) as [->|Hne]; simpl; case_decide; congruence.
  - destruct (String.eqb_spec k0 k') as [->|Hne]; simpl; destruct (String.eqb_spec k' k) as [->|Hne2]; simpl; try (case_decide; congruence);
    destruct (String.eqb_spec k0 k) as [->|Hne3]; simpl; case_decide; try congruence; by rewrite IH, ?decide_True, ?decide_False.
Qed.

(** A field that is a map becomes a list of its entries. *)
Definition as_list (v : option json) : option json := match v with Some JNull | None => v | Some v => Some (mapToArr v) end.

Lemma get_reshape k k' pi : get k (reshape pi k') = if decide (k = k') then as_list (get k pi) else get k pi.
Proof.
  unfold reshape, as_list. destruct (get k' pi) as [[]|] eqn:E; rewrite ?get_set; case_decide as Hk; try done; subst; by rewrite E.
Qed.

Lemma reshape_info_spec pi : ∃ pi', reshape_info (JObj pi) = Ok (JObj pi') ∧
  ∀ k, get k pi' = if decide (k ∈ map_fields) then as_list (get k pi) else get k pi.
Proof.
  eexists. split; [reflexivity|]. intros k. unfold map_fields. cbn [foldl]. rewrite !get_reshape.
  destruct (decide (k ∈ _)) as [H|H].
  - rewrite !elem_of_cons, elem_of_nil in H. destruct H as [->|[->|[->|[->|[]]]]]; done.
  - rewrite !elem_of_cons in H. repeat (rewrite decide_False by naive_solver). done.
Qed.

(** A row differs from the statistics in the maps of the proxies alone. *)
Theorem Save_spec out out' :
  Save out = Ok out' →
  (∀ k, k ≠ "proxy_info" → get k out' = get k out) ∧
  match get "proxy_info" out with
  | Some (JArr pis) => ∃ pis', get "proxy_info" out' = Some (JArr pis') ∧
      Forall2 (λ p p', ∃ m m', p = JObj m ∧ p' = JObj m' ∧
        ∀ k, get k m' = if decide (k ∈ map_fields) then as_list (get k m) else get k m) pis pis'
  | Some _ => False
  | None => out' = out
  end.
Proof.
  unfold Save. destruct (get "proxy_info" out) as [[m|pis|t|]|] eqn:E; try done; [|by intros [= <-]].
  assert (∀ pis r, reshape_all pis = Ok r → Forall2 (λ p p', ∃ m m', p = JObj m ∧ p' = JObj m' ∧
    ∀ k, get k m' = if decide (k ∈ map_fields) then as_list (get k m) else get k m) pis r) as H.
  { clear. induction pis as [|p pis IH]; intros r; cbn [reshape_all]; [intros [= <-]; constructor|].
    destruct p as [m|l|t|]; try done. destruct (reshape_info_spec m) as (m' & -> & Hm). cbn [mbind res_bind].
    destruct (reshape_all pis) as [r'|e|]; [|done..]. intros [= <-]. constructor; [by exists m, m'|by apply IH]. }
  destruct (reshape_all pis) as [r|e|] eqn:Er; [|done..]. cbn [mbind res_bind]. intros [= <-]. split.
  - intros k Hk. rewrite get_set. by case_decide.
  - exists r. rewrite get_set, decide_True by done. split; [done|by apply H].
Qed.

(** ** The files *)

(** A success leaves both files, whole. *)
Lemma WriteStats_spec {P} (Format : P → string) Marshal (sPb : P) dir f u f' :
  WriteStats Format Marshal sPb dir f = (Ok u, f') →
  let path := Filepath.Join [dir; AggregatedMetricsFileBaseName] in
  OS.ReadFile f' (path +:+ ".txt") = Ok (Format sPb) ∧ ∃ blob, Marshal sPb = Ok blob ∧ OS.ReadFile f' (path +:+ ".pb") = Ok blob.
Proof.
  unfold WriteStats. destruct (OS.MkdirAll f dir) as [f0|e|]; [|done..].
  set (path := Filepath.Join [dir; AggregatedMetricsFileBaseName]).
  destruct (OS.Create f0 (path +:+ ".txt")) as [f1|e|] eqn:E1; [|done..].
  assert (∀ f p f1 c, OS.Create f p = Ok f1 → ∃ f2, OS.Write f1 p c = Ok f2 ∧ OS.WriteFile f p c = Ok f2) as Hw.
  { clear. intros f p f1 c E. unfold OS.WriteFile. rewrite E. cbn [mbind res_bind]. unfold OS.Create in E.
    destruct (OS.is_dir f p); [done|]. destruct (negb _); [done|]. injection E as <-. unfold OS.Write. rewrite lookup_insert_eq. by eexists. }
  destruct (Hw _ _ _ (Format sPb) E1) as (f2 & -> & H2). destruct (Marshal sPb) as [blob|e|]; [|done..].
  destruct (OS.Create f2 (path +:+ ".pb")) as [f3|e|] eqn:E3; [|done..]. destruct (Hw _ _ _ blob E3) as (f4 & -> & H4).
  intros [= _ <-]. split; [|exists blob; split; [done|by eapply OS.WriteFile_ReadFile]].
  apply OS.WriteFile_ReadFile, OS.ReadFile_file in H2 as (Hp & m & H2). apply OS.ReadFile_file. split; [done|]. exists m.
  rewrite (OS.WriteFile_other _ _ _ _ _ H4); [done|].
  intros E%(f_equal (str_drop (String.length path))). by rewrite !str_drop_app in E.
Qed.

(** ** The uploader *)

Section uploader.

Context {P C : Type}.
Variable Format : P → string.
Variable Marshal : P → res string.
Variable Unmarshal : string → res P.
Variable with_logs : P → list CollectLogs.LogDirectory → P.
Variable EvalSymlinks Abs : string → res string.

Record flags := {
  metricsProject : string;
  metricsTable : string;
  outputDir : string;
  logPath : string;
  log_dir : option string;
  uploadLogs : bool
}.

(** What the services answer; a client that could not be made is nil. *)
Record uploader_services := {
  monitoring : res unit;
  connect : res C;
  upload : option C → list string → string → res (list CollectLogs.LogDirectory);
  client_close : option C → res unit;
  big_query : P → res unit
}.

Definition getLogDir (fl : flags) : string := default "" (log_dir fl).

(** [proxyLogDir] is set by no flag here, so it is empty, and the path of the
    flag is kept. *)
Definition proxyLogDir : list string := [].

(** The statistics with their log directories, and the deferred close. *)
Definition upload_logs (fl : flags) (sv : uploader_services) (s : P) : res (P * option (option C)) :=
  if uploadLogs fl then
    let logDirs := CollectLogs.DeduplicateDirs EvalSymlinks Abs (proxyLogDir ++ [getLogDir fl; outputDir fl]) in
    if (0 <? length logDirs)%nat then
      let grpcClient := match connect sv with Ok c => Some c | _ => None end in
      let path := if (0 <? length proxyLogDir)%nat then "" else logPath fl in
      match upload sv grpcClient logDirs path with
      | Ok ldgs => Ok (with_logs s ldgs, Some grpcClient)
      | Fail _ => Ok (with_logs s [], Some grpcClient)
      | Panic => Panic
      end
    else Ok (s, None)
  else Ok (s, None).

(** [log.Fatalf] is a failure. *)
Definition uploader_main (fl : flags) (sv : uploader_services) : ST fs unit := λ f,
  if (metricsProject fl =? "")%string then (Fail (EMsg "--metrics_project is required."), f)
  else
    match OS.ReadFile f (Filepath.Join [outputDir fl; AggregatedMetricsFileBaseName +:+ ".pb"]) with
    | Ok bytes =>
        match Unmarshal bytes with
        | Ok s =>
            match upload_logs fl sv s with
            | Ok (s, deferred) =>
                let '(r, f) := WriteStats Format Marshal s (outputDir fl) f in
                match r with
                | Panic => (Panic, f)
                | _ =>
                    let closed := match deferred with Some c => client_close sv c | None => Ok tt end in
                    match (if (metricsTable fl =? "")%string then Ok tt else big_query sv s), closed with
                    | Panic, _ | _, Panic => (Panic, f)
                    | _, _ => (Ok tt, f)
                    end
                end
            | Fail e => (Fail e, f)
            | Panic => (Panic, f)
            end
        | _ => (Fail (EMsg "Failed to parse rbe_metrics.pb"), f)
        end
    | _ => (Fail (EMsg "Error reading rbe_metrics.pb file"), f)
    end.

(** Without a client the deferred close of nil decides: if it panics, the
    uploader never ends well, although everything else was done. *)
Lemma main_without_client fl sv f e u :
  uploadLogs fl = true → connect sv = Fail e → client_close sv None = Panic →
  CollectLogs.DeduplicateDirs EvalSymlinks Abs [getLogDir fl; outputDir fl] ≠ [] → (uploader_main fl sv f).1 ≠ Ok u.
Proof using Type.
  intros H1 H2 H3 H4. unfold uploader_main, upload_logs. rewrite H1, H2. cbn [app proxyLogDir].
  destruct (_ =? "")%string; [done|]. destruct (OS.ReadFile _ _); [|done..]. destruct (Unmarshal _); [|done..].
  destruct (CollectLogs.DeduplicateDirs _ _ _) as [|d l]; [done|]. cbn [length Nat.ltb Nat.leb].
  destruct (upload sv None _ _); [..|done]; (destruct (WriteStats _ _ _ _ _) as [[] f']; rewrite ?H3; repeat case_match; done).
Qed.

End uploader.

(** ** Concrete values *)

Module Concrete.

Definition text (j : json) : string := match j with JVal t => t | JArr _ => "[]" | _ => "" end.

Example flat :
  flatJSON text (JObj [("a", JVal "1"); ("b", JObj [("c", JVal "2"); ("d", JVal "3")])]) "" =
    {["a" := "1"; "b.c" := "2"; "b.d" := "3"]} ∧
  flatJSON text (JArr [JVal "1"]) "" = {["" := "[]"]}.
Proof. split; vm_compute; reflexivity. Qed.

(** With a dot in a key the order of the entries decides. *)
Example dotted_keys :
  flatJSON text (JObj [("a.b", JVal "1"); ("a", JObj [("b", JVal "2")])]) "" = {["a.b" := "2"]} ∧
  flatJSON text (JObj [("a", JObj [("b", JVal "2")]); ("a.b", JVal "1")]) "" = {["a.b" := "1"]}.
Proof. split; vm_compute; reflexivity. Qed.

Example row :
  Save [("num_records", JVal "1"); ("proxy_info", JArr [JObj [("flags", JObj [("f", JVal "x")]); ("metrics", JNull)]])] =
  Ok [("num_records", JVal "1");
      ("proxy_info", JArr [JObj [("flags", JArr [JObj [("key", JVal "f"); ("value", JVal "x")]]); ("metrics", JNull)]])].
Proof. reflexivity. Qed.

Example summary :
  CompletionStats (λ m, (map_to_list m).*1) [{| Name := "x"; CountsByValue := [] |};
    {| Name := "CompletionStatus"; CountsByValue := [("STATUS_REMOTE_EXECUTION", 2); ("STATUS_CACHE_HIT", 1)]%Z |}] =
  "1 cache hit, 2 remote executions".
Proof. vm_compute. reflexivity. Qed.

End Concrete.

End StatsOut.
