(* ===== verification/Bootstrap.v ===== *)
(** * Starting and stopping the proxy: [internal/pkg/bootstrap],
      [internal/pkg/reproxypid], [cmd/bootstrap]

    The pid file of a proxy; the shutdown, whose goroutines are a transition
    system; the start, a program over the calls it makes; and the command that
    uses both. *)
From S2P Require Import Prelude GoStrings GoPath GoNet GoFS GoEffects.
From Stdlib Require Import Ascii.
Import Filepath Net Effects.

Module Bootstrap.

(** ** Pid files *)

Definition Proxyname : string := "reproxy".

Record File := { Pid : Z; fp : string }.

(** The directory of the path is made, even to read. *)
Definition pathForServerAddr (tmpDir : string) (w : fs) (serverAddr : string) : res (string * fs) :=
  let? address :=
    if HasPrefix serverAddr "unix://" then Ok (TrimPrefix serverAddr "unix://" +:+ ".pid")
    else let? hp := SplitHostPort serverAddr in Ok (Filepath.Join [tmpDir; Proxyname +:+ "_" +:+ hp.2 +:+ ".pid"]) in
  match OS.MkdirAll w (Dir address) with
  | Ok w => Ok (address, w)
  | Fail e => Fail (EWrap "failed to create dir for pid file" e)
  | Panic => Panic
  end.

Definition WriteFile (tmpDir : string) (w : fs) (serverAddr : string) (pid : Z) : res fs :=
  let? aw := pathForServerAddr tmpDir w serverAddr in
  match OS.WriteFile aw.2 aw.1 (Itoa pid) with
  | Ok w => Ok w
  | Fail e => Fail (EWrap "failed to persist the pid file" e)
  | Panic => Panic
  end.

(** The error of the path is dropped: the file without a name is read, which
    there is not. *)
Definition ReadFile (tmpDir : string) (w : fs) (serverAddr : string) : res File :=
  let aw := match pathForServerAddr tmpDir w serverAddr with Ok aw => aw | _ => ("", w) end in
  match OS.ReadFile aw.2 aw.1 with
  | Ok contents =>
      match ParseInt contents 10 64 with
      | Ok pid => Ok {| Pid := pid; fp := aw.1 |}
      | Fail e => Fail (EWrap "cannot parse pid" e)
      | Panic => Panic
      end
  | Fail e => Fail (EWrap "failed to read pid file" e)
  | Panic => Panic
  end.

Definition Delete (w : fs) (f : File) : fs := OS.try_Remove w (fp f).

(** What was written for a proxy is found again. *)
Lemma pid_file_roundtrip tmpDir w serverAddr pid w' :
  (0 ≤ pid < 2 ^ 63)%Z → WriteFile tmpDir w serverAddr pid = Ok w' →
  ∃ p, ReadFile tmpDir w' serverAddr = Ok {| Pid := pid; fp := p |} ∧ w' !! p ≠ None.
Proof.
  intros Hpid H. unfold WriteFile in H. destruct (pathForServerAddr tmpDir w serverAddr) as [[p w1]|e|] eqn:Ep; [|done..].
  cbn [mbind res_bind fst snd] in H. destruct (OS.WriteFile w1 p (Itoa pid)) as [w2|e|] eqn:Ew; [|done..]. injection H as ->.
  assert (∀ q, q ∈ OS.ancestors (String.length (Dir p) + 1) (Dir p) → w' !! q = Some NDir) as Hd.
  { intros q Hq. unfold pathForServerAddr in Ep. inv_bind. destruct (OS.MkdirAll w (Dir _)) as [w3|e|] eqn:Em; [|done..].
    simplify_eq. pose proof (OS.MkdirAll_dirs _ _ _ _ Em Hq) as Hq1. rewrite (OS.WriteFile_other _ _ _ _ _ Ew); [done|].
    intros ->. by apply (OS.WriteFile_not_dir _ _ _ _ Ew). }
  assert (pathForServerAddr tmpDir w' serverAddr = Ok (p, w')) as Ep'.
  { unfold pathForServerAddr in *. destruct (if HasPrefix serverAddr "unix://" then _ else _) as [a|e|] eqn:Ea; [|done..].
    cbn [mbind res_bind] in *. destruct (OS.MkdirAll w (Dir a)) as [w3|e|]; [|done..]. injection Ep as -> ->. by rewrite OS.MkdirAll_id. }
  exists p. unfold ReadFile. rewrite Ep'. cbn [fst snd]. rewrite (OS.WriteFile_ReadFile _ _ _ _ Ew), ParseInt_Itoa by done.
  split; [done|]. pose proof (OS.WriteFile_ReadFile _ _ _ _ Ew) as Hr. unfold OS.ReadFile, OS.Stat in Hr.
  destruct (OS.is_dir w' p); [done|]. by destruct (w' !! p).
Qed.

(** ** Shutdown *)

Section shutdown.

Context {Stats : Type}.

(** What is done before the goroutines: the process to wait for, or an error.
    [exists_] tells whether a process is there. *)
Definition shutdown_begin (tmpDir : string) (exists_ : Z → res bool) (w : fs) (serverAddr : string) : res File * fs :=
  match ReadFile tmpDir w serverAddr with
  | Ok pf =>
      match exists_ (Pid pf) with
      | Ok true => (Ok pf, w)
      | Ok false => (Fail (EMsg "Reproxy is not running; nothing to shutdown"), Delete w pf)
      | Fail e => (Fail (EWrap "Failed to check whether the reproxy process is alive" e), w)
      | Panic => (Panic, w)
      end
  | Fail e => (Fail (EWrap "Error reading reproxy pid file" e), w)
  | Panic => (Panic, w)
  end.

(** The goroutine that polls: between two checks, at a check, or with an answer
    that it offers on its channel. *)
Inductive poller := Polling | Sleeping | Offering (d : option error) | PollEnded.
(** The goroutine of the request. *)
Inductive request := Calling | SendingStats (st : Stats) | RequestEnded.
(** The caller: in its first select, in the second, or back. *)
Inductive caller := Selecting | LastLook (err : option error) | Returned (st : option Stats) (err : option error).

Record state := {
  pidFile : bool;
  alive : bool;
  ctxDone : bool;
  poll : poller;
  rpc : request;
  main : caller
}.

Inductive label :=
  (** the proxy, and the clock *)
  | Die | RemovesItsFile | Timeout
  (** [sendShutdownRPC] *)
  | RpcFails | RpcStats (st : Stats)
  (** [PollForDeath] *)
  | CheckFails (e : error) | CheckAlive | CheckDead | Tick | Stop
  (** [shutdownReproxy] *)
  | GetStats | GetDead | GetDone | LastStats | LastNone.

Definition check_failed (e : error) : error := EWrap "Failed to check whether the reproxy process is alive" e.
Definition still_running : error := EWrap "Reproxy process still running" EDeadlineExceeded.

Definition with_main (s : state) (p : poller) (r : request) (m : caller) : state :=
  {| pidFile := pidFile s; alive := alive s; ctxDone := ctxDone s; poll := p; rpc := r; main := m |}.
Definition with_world (s : state) (file al dn : bool) (p : poller) : state :=
  {| pidFile := file; alive := al; ctxDone := dn; poll := p; rpc := rpc s; main := main s |}.

(** A process that is gone does not come back.  A receive takes what the other
    goroutine offers. *)
Definition step (async : bool) (s : state) (l : label) : option state :=
  match l with
  | Die => if alive s then Some (with_world s (pidFile s) false (ctxDone s) (poll s)) else None
  | RemovesItsFile => if alive s then Some (with_world s false true (ctxDone s) (poll s)) else None
  | Timeout => if ctxDone s then None else Some (with_world s (pidFile s) (alive s) true (poll s))
  | RpcFails => match rpc s with Calling => Some (with_main s (poll s) RequestEnded (main s)) | _ => None end
  | RpcStats st => match rpc s with Calling => Some (with_main s (poll s) (SendingStats st) (main s)) | _ => None end
  | CheckFails e => match poll s with Polling => Some (with_main s (Offering (Some e)) (rpc s) (main s)) | _ => None end
  | CheckAlive => match poll s with Polling => if alive s then Some (with_main s Sleeping (rpc s) (main s)) else None | _ => None end
  | CheckDead =>
      match poll s with
      | Polling => if alive s then None else Some (with_world s false false (ctxDone s) (Offering None))
      | _ => None
      end
  | Tick => match poll s with Sleeping => Some (with_main s Polling (rpc s) (main s)) | _ => None end
  | Stop => match poll s with Sleeping => if ctxDone s then Some (with_main s PollEnded (rpc s) (main s)) else None | _ => None end
  | GetStats =>
      match main s, rpc s with
      | Selecting, SendingStats st => if async then Some (with_main s (poll s) RequestEnded (Returned (Some st) None)) else None
      | _, _ => None
      end
  | GetDead =>
      match main s, poll s with
      | Selecting, Offering d => Some (with_main s PollEnded (rpc s) (LastLook (check_failed <$> d)))
      | _, _ => None
      end
  | GetDone =>
      match main s with
      | Selecting => if ctxDone s then Some (with_main s (poll s) (rpc s) (LastLook (Some still_running))) else None
      | _ => None
      end
  | LastStats =>
      match main s, rpc s with
      | LastLook err, SendingStats st => Some (with_main s (poll s) RequestEnded (Returned (Some st) err))
      | _, _ => None
      end
  | LastNone =>
      match main s, rpc s with
      | LastLook _, SendingStats _ => None
      | LastLook err, _ => Some (with_main s (poll s) (rpc s) (Returned None err))
      | _, _ => None
      end
  end.

Fixpoint steps (async : bool) (s : state) (ls : list label) : option state :=
  match ls with [] => Some s | l :: ls => step async s l ≫= λ s, steps async s ls end.

(** The goroutines start when the process was seen. *)
Definition begun (s : state) : Prop := poll s = Polling ∧ rpc s = Calling ∧ main s = Selecting.

(** *** What a shutdown reports *)

Definition gone (s : state) : Prop := alive s = false ∧ pidFile s = false.

(** The announced deaths are real, and so is the error of the caller. *)
Definition honest (async : bool) (s : state) : Prop :=
  (poll s = Offering None → gone s) ∧
  match main s with
  | Selecting => True
  | LastLook None => gone s
  | LastLook (Some e) => e = still_running ∧ ctxDone s = true ∨ ∃ e', e = check_failed e'
  | Returned st None => gone s ∨ async = true ∧ is_Some st
  | Returned _ (Some e) => e = still_running ∧ ctxDone s = true ∨ ∃ e', e = check_failed e'
  end.

Lemma step_honest async s l s' : honest async s → step async s l = Some s' → honest async s'.
Proof.
  intros [H1 H2] E. unfold honest, gone in *. destruct s as [file al dn p r m]. cbn [pidFile alive ctxDone poll rpc main] in *.
  destruct l; cbn [step pidFile alive ctxDone poll rpc main with_main with_world] in E.
  all: repeat case_match; simplify_eq/=; (split; [naive_solver|]); try (match goal with d : option error |- _ => destruct d end); naive_solver.
Qed.

(** C31: a shutdown that reports no error has seen the proxy gone, its pid file
    too, or, when it does not wait, has the statistics; an error means that the
    time was over or that the process could not be checked. *)
Theorem shutdown_reports async s ls s' st err :
  begun s → steps async s ls = Some s' → main s' = Returned st err →
  match err with
  | None => gone s' ∨ async = true ∧ is_Some st
  | Some e => e = still_running ∧ ctxDone s' = true ∨ ∃ e', e = check_failed e'
  end.
Proof.
  intros (Hp & _ & Hm) E Hr. assert (honest async s) as H by (split; [congruence|by rewrite Hm]).
  clear Hp Hm. revert s E H. induction ls as [|l ls IH]; intros s E H; simpl in E.
  - injection E as ->. destruct H as [_ H]. by rewrite Hr in H.
  - destruct (step async s l) as [s1|] eqn:E1; [|done]. simpl in E. by eapply IH, step_honest.
Qed.

(** The caller comes back, by its own steps, once the time is over. *)
Lemma shutdown_returns async s :
  ∃ ls s' st err, length ls ≤ 3 ∧ steps async s ls = Some s' ∧ main s' = Returned st err.
Proof.
  destruct s as [file al dn p r [|err|st err]].
  - destruct dn, r as [|st|];
      [exists [GetDone; LastNone]|exists [GetDone; LastStats]|exists [GetDone; LastNone]
      |exists [Timeout; GetDone; LastNone]|exists [Timeout; GetDone; LastStats]|exists [Timeout; GetDone; LastNone]];
      eexists _, _, _; (split; [simpl; lia|]); (split; [reflexivity|]); reflexivity.
  - destruct r as [|st|]; [exists [LastNone]|exists [LastStats]|exists [LastNone]];
      eexists _, _, _; (split; [simpl; lia|]); (split; [reflexivity|]); reflexivity.
  - exists [], {| pidFile := file; alive := al; ctxDone := dn; poll := p; rpc := r; main := Returned st err |}, st, err.
    split; [simpl; lia|done].
Qed.

End shutdown.

Arguments state : clear implicits.
Arguments label : clear implicits.

(** ** Start *)

Inductive system_call :=
  | ShutDownProxy (serverAddr : string) (shutdownSeconds : Z)
  | Getenv (k : string)
  | Environ
  (** the process, with its environment if that is not inherited *)
  | Start (env : option (list string))
  | WritePid (pid : Z)
  (** a look at the channel of the exit of the process *)
  | StartupErr
  (** a dial of at most 50 milliseconds: whether the connection is ready *)
  | DialContextWithBlock (serverAddr : string)
  | AddProxyEvents
  | Kill.

Definition answer (c : system_call) : Type :=
  match c with
  | ShutDownProxy _ _ => option error
  | Getenv _ => string
  | Environ => list string
  | Start _ => res Z
  | WritePid _ => option error
  | StartupErr => option (option error)
  | DialContextWithBlock _ => res bool
  | AddProxyEvents => option error
  | Kill => unit
  end.

#[local] Notation prog := (prog answer).
#[local] Notation trace := (list (event answer)).

Section start.

Context (serverAddr : string).

Definition failed_to_start : error := EMsg "proxy failed to start".

(** One round without news of the process. *)
Definition dial_round (next : prog (res unit)) : prog (res unit) :=
  r ← call (DialContextWithBlock serverAddr);
  match r with
  | Ok true => _ ← call AddProxyEvents; Ret (Ok ())
  | _ => next
  end.

(** The rounds that are left after the process ended without an error: its exit
    is told once. *)
Fixpoint dial_rounds (n : nat) : prog (res unit) :=
  match n with
  | O => Ret (Fail failed_to_start)
  | S n => dial_round (dial_rounds n)
  end.

(** Each round adds 50 milliseconds, unless it was told of the exit. *)
Fixpoint wait_rounds (n : nat) : prog (res unit) :=
  match n with
  | O => Ret (Fail failed_to_start)
  | S m =>
      x ← call StartupErr;
      match x with
      | Some (Some e) => Ret (Fail e)
      | Some None => dial_rounds n
      | None => dial_round (wait_rounds m)
      end
  end.

(** The rounds while [i < waitMillis], in steps of 50. *)
Definition rounds (waitSeconds : Z) : nat := Z.to_nat ((waitSeconds * 1000 + 49) / 50).

Definition after_start (waitSeconds pid : Z) : prog (res unit) :=
  e ← call (WritePid pid);
  match e with
  | Some e => Ret (Fail e)
  | None => wait_rounds (rounds waitSeconds)
  end.

(** A process that was started is killed when an error is returned. *)
Definition startProxy (waitSeconds shutdownSeconds : Z) : prog (res unit) :=
  _ ← call (ShutDownProxy serverAddr shutdownSeconds);
  httpProxy ← call (Getenv "RBE_HTTP_PROXY");
  env ← (if (httpProxy =? "")%string then Ret None
         else environ ← call Environ; Ret (Some (environ ++ ["https_proxy=" +:+ httpProxy; "http_proxy=" +:+ httpProxy])));
  s ← call (Start env);
  match s with
  | Ok pid =>
      r ← after_start waitSeconds pid;
      match r with
      | Ok _ => Ret r
      | _ => _ ← call Kill; Ret r
      end
  | Fail e => Ret (Fail e)
  | Panic => Ret Panic
  end.

(** *** What a start leaves *)

Definition is_kill (e : event answer) : bool := match ev_call e with Kill => true | _ => false end.
Definition is_dial (e : event answer) : bool := match ev_call e with DialContextWithBlock _ => true | _ => false end.
Definition is_ready (e : event answer) : bool :=
  match e with Event (DialContextWithBlock _) (Ok true) => true | _ => false end.
Definition is_started (e : event answer) : bool :=
  match e with Event (Start _) (Ok _) => true | _ => false end.

Definition dials (tr : trace) : nat := length (List.filter is_dial tr).

Lemma dials_app t1 t2 : dials (t1 ++ t2) = dials t1 + dials t2.
Proof. unfold dials. by rewrite List.filter_app, length_app. Qed.

(** Some part of a start in which nothing is killed: it succeeds when and only
    when the proxy answers, and dials at most [n] times. *)
Definition tries (n : nat) (p : prog (res unit)) : Prop :=
  ∀ tr r, exec p tr r →
    existsb is_kill tr = false ∧ existsb is_started tr = false ∧ dials tr ≤ n ∧ is_ok r = existsb is_ready tr ∧ r ≠ Panic.

Lemma exec_call_bind {A} c (k : answer c → prog A) tr r :
  exec (call c ≫= k) tr r → ∃ x t, tr = Event c x :: t ∧ exec (k x) t r.
Proof. intros (x & t & t' & -> & ->%exec_call1 & H)%exec_bind. by exists x, t'. Qed.

Lemma dial_round_tries n next : tries n next → tries (S n) (dial_round next).
Proof.
  intros Hn tr r (a & t & -> & H)%exec_call_bind. destruct a as [[]|e|].
  1: { apply exec_call_bind in H as (x & t' & -> & [-> ->]%exec_Ret). split_and!; try done. unfold dials. simpl. lia. }
  all: destruct (Hn _ _ H) as (H1 & H2 & H3 & H4 & H5); split_and!; try done; unfold dials in *; simpl; lia.
Qed.

Lemma failed_tries e n : tries n (Ret (Fail e)).
Proof. intros tr r [-> ->]%exec_Ret. split_and!; try done. unfold dials. simpl. lia. Qed.

Lemma dial_rounds_tries n : tries n (dial_rounds n).
Proof. induction n as [|n IH]; [apply failed_tries|]. by apply dial_round_tries. Qed.

(** An event of another kind does not matter. *)
Lemma call_tries {c} n (k : answer c → prog (res unit)) :
  (∀ x, is_kill (Event c x) || is_dial (Event c x) || is_started (Event c x) || is_ready (Event c x) = false) →
  (∀ x, tries n (k x)) → tries n (call c ≫= k).
Proof.
  intros Hc Hk tr r (a & t & -> & H)%exec_call_bind. destruct (Hk _ _ _ H) as (H1 & H2 & H3 & H4 & H5). specialize (Hc a).
  rewrite !orb_false_iff in Hc. destruct Hc as [[[Hc1 Hc2] Hc3] Hc4]. unfold dials in *. cbn [existsb List.filter].
  rewrite Hc1, Hc2, Hc3, Hc4, H1, H2. by split_and!.
Qed.

Lemma wait_rounds_tries n : tries n (wait_rounds n).
Proof.
  induction n as [|n IH]; [apply failed_tries|]. cbn [wait_rounds]. apply call_tries; [done|].
  intros [[e|]|]; [apply failed_tries|apply dial_rounds_tries|by apply dial_round_tries].
Qed.

Lemma after_start_tries waitSeconds pid : tries (rounds waitSeconds) (after_start waitSeconds pid).
Proof. apply call_tries; [done|]. intros [e|]; [apply failed_tries|apply wait_rounds_tries]. Qed.

Lemma rounds_le waitSeconds : Z.of_nat (rounds waitSeconds) = (Z.max 0 waitSeconds * 20)%Z.
Proof.
  unfold rounds. destruct (Z.leb_spec 0 waitSeconds).
  - replace (waitSeconds * 1000 + 49)%Z with (waitSeconds * 20 * 50 + 49)%Z by lia. rewrite Z.div_add_l by lia.
    rewrite Z2Nat.id by (assert (49 / 50 = 0)%Z as -> by reflexivity; lia). assert (49 / 50 = 0)%Z as -> by reflexivity. lia.
  - assert ((waitSeconds * 1000 + 49) / 50 < 0)%Z by (apply Z.div_lt_upper_bound; lia). lia.
Qed.

End start.

(** C32: a start ends after at most twenty dials for each second that it may
    wait, and succeeds when and only when the proxy has answered; a proxy that
    was started and did not answer is killed, one that answered is not. *)
Theorem startProxy_spec serverAddr waitSeconds shutdownSeconds tr r :
  exec (startProxy serverAddr waitSeconds shutdownSeconds) tr r →
  is_ok r = existsb is_ready tr ∧
  existsb is_kill tr = existsb is_started tr && negb (is_ok r) ∧
  (Z.of_nat (dials tr) ≤ Z.max 0 waitSeconds * 20)%Z.
Proof.
  intros H. rewrite <- rounds_le. unfold startProxy in H.
  assert (∃ (h t : trace) env (s : res Z), tr = h ++ Event (Start env : system_call) (s : answer (Start env)) :: t ∧ dials h = 0 ∧ existsb is_kill h = false ∧
    existsb is_started h = false ∧ existsb is_ready h = false ∧
    exec (match s with
          | Ok pid => r ← after_start serverAddr waitSeconds pid;
                      match r with Ok _ => Ret r | _ => _ ← call Kill; Ret r end
          | Fail e => Ret (Fail e)
          | Panic => Ret Panic
          end) t r) as (h & t & env & s & -> & Hd & Hk & Hs & Hr & Ht).
  { apply exec_call_bind in H as (x & t & -> & H). apply exec_call_bind in H as (hp & t' & -> & H).
    destruct (hp =? "")%string.
    - apply exec_call_bind in H as (s & t2 & -> & H). by eexists [_; _], _, _, _.
    - apply exec_call_bind in H as (en & t1 & -> & H). apply exec_call_bind in H as (s & t2 & -> & H). by eexists [_; _; _], _, _, _. }
  clear H. rewrite !existsb_app, dials_app, Hd, Hk, Hs, Hr. change (Event (Start env) s :: t) with ([Event (Start env) s] ++ t).
  rewrite !existsb_app, dials_app. destruct s as [pid|e|]; [|inv_exec; split_and!; done || (unfold dials; simpl; lia)..].
  apply exec_bind in Ht as (r0 & t1 & t2 & -> & H1 & H2). destruct (after_start_tries _ _ _ _ _ H1) as (K1 & K2 & K3 & K4 & K5).
  rewrite !existsb_app, dials_app, K1, K2, <- K4. destruct r0 as [[]|e|]; [| |done].
  - destruct H2 as [-> ->]. split_and!; try done. unfold dials in *. simpl. lia.
  - apply exec_call_bind in H2 as (x & t' & -> & [-> ->]%exec_Ret). split_and!; try done. unfold dials in *. simpl. lia.
Qed.

(** ** The command *)

Section command.

(** The statistics, apart from what is set here, and the information on a proxy. *)
Context {S P : Type}.

Record build_stats := { inner : S; ProxyInfo : list P; FatalExit : bool; ToolVersion : string }.

Definition failureFiles : list string :=
  ["reproxy.FATAL"; "bootstrap.FATAL"; "rewrapper.FATAL"; "reproxy.exe.FATAL"; "bootstrap.exe.FATAL"; "rewrapper.exe.FATAL"].

(** What cannot be removed stays. *)
Definition cleanFatalLogs (w : fs) (logDir : string) : fs :=
  foldl OS.try_Remove w ((λ f, Filepath.Join [logDir; f]) <$> failureFiles).

(** [dir_size] is the size of a directory, which is not empty for the code. *)
Variable dir_size : Z.
Definition Size (n : node) : Z := match n with NFile c _ => Z.of_nat (String.length c) | NDir => dir_size end.

Definition fatalLogsExist (w : fs) (logDir : string) : bool :=
  existsb (λ f, match OS.Stat w (Filepath.Join [logDir; f]) with Ok n => (0 <? Size n)%Z | _ => false end) failureFiles.

Record flags := {
  fastLogCollection : bool;
  asyncReproxyShutdown : bool;
  outputDir : string;
  logDir : string;
  logPath : string;
  proxyLogDir : list string;
  metricsProject : string;
  metricsUploader : string;
  cfg : string;
  credentialsHelper : string
}.

(** Without the fast collection of logs the shutdown is waited for. *)
Definition async_shutdown (o : flags) : bool := fastLogCollection o && asyncReproxyShutdown o.

(** The arguments of the proxy. *)
Definition reproxy_args (o : flags) : list string :=
  (if (cfg o =? "")%string then [] else ["--cfg=" +:+ cfg o]) ++
  (if fastLogCollection o then ["--wait_for_shutdown_rpc=true"] else []) ++
  (if (credentialsHelper o =? "")%string then [] else ["--use_external_auth_token=true"]).

Definition uploader_args (o : flags) (token : option string) : list string :=
  (if (cfg o =? "")%string then [] else ["--cfg=" +:+ cfg o]) ++
  match token with Some t => ["--oauth_token=" +:+ t; "--use_external_auth_token=true"] | None => [] end.

(** How a shutdown ends: at once, without an output directory, with a write of
    the statistics, and with the start of the uploader. *)
Record world := {
  w_fs : fs;
  (** the answer of the proxy, and the records of the log *)
  shutdown_answer : option build_stats * option error;
  parsed_logs : build_stats;
  (** whether the uploader starts *)
  uploader_starts : bool
}.

Inductive outcome := Nothing | Stats_written (s : build_stats) (uploader : option (list string)).

(** [version] is that of the code.  The process of an uploader that did not start
    is nil, and its number is logged. *)
Definition shutdown_main (o : flags) (w : world) (spi : P) (version : string) (token : option string) : res outcome :=
  let s := (shutdown_answer w).1 in
  if (outputDir o =? "")%string then Fail (EMsg "Must provide an output directory.")
  else
    let from_log := negb (fastLogCollection o) || bool_decide (s = None) in
    if from_log && (logPath o =? "")%string && bool_decide (proxyLogDir o = []) then Ok Nothing
    else
      let s := if from_log then parsed_logs w else default (parsed_logs w) s in
      let s := {| inner := inner s; ProxyInfo := ProxyInfo s ++ [spi]; FatalExit := fatalLogsExist (w_fs w) (logDir o); ToolVersion := version |} in
      if (metricsProject o =? "")%string then Ok (Stats_written s None)
      else if uploader_starts w then Ok (Stats_written s (Some (uploader_args o token))) else Panic.

(** The exit code of a start: that of the proxy when it ended by itself, or 1. *)
Definition bootstrapReproxy (exit_status : error → option Z) (r : res unit) : Z :=
  match r with
  | Ok _ => 0
  | Fail e => default 1%Z (exit_status e)
  | Panic => 2
  end.

End command.

Arguments build_stats : clear implicits.
Arguments world : clear implicits.
Arguments outcome : clear implicits.

(** ** On concrete runs *)

Module Concrete.

Definition s0 : state nat := {| pidFile := true; alive := true; ctxDone := false; poll := Polling; rpc := Calling; main := Selecting |}.

(** The proxy answers and ends; its file goes with it. *)
Definition clean : list (label nat) := [RpcStats 7; CheckAlive; Die; Tick; CheckDead; GetDead; LastStats].

(** After a timeout the pid file is still there, although it is said to be
    removed always. *)
Example file_left :
  (λ s : state nat, (main s, pidFile s, alive s)) <$> steps false s0 [CheckAlive; RpcFails; Timeout; GetDone; LastNone] =
  Some (Returned None (Some still_running), true, true).
Proof. reflexivity. Qed.

(** Two servers with the same port share a pid file. *)
Example same_port :
  fst <$> pathForServerAddr "/tmp" ∅ "127.0.0.1:8000" = Ok "/tmp/reproxy_8000.pid" ∧
  fst <$> pathForServerAddr "/tmp" ∅ "[::1]:8000" = Ok "/tmp/reproxy_8000.pid".
Proof. split; vm_compute; reflexivity. Qed.

(** An address that is not one is reported as a missing file. *)
Example bad_address : ReadFile "/tmp" ∅ "nowhere" = Fail (EWrap "failed to read pid file" ENotExist).
Proof. vm_compute. reflexivity. Qed.

Definition started (pid : Z) : trace := [
  Event (ShutDownProxy "unix:///s" 60) (Some (EMsg "no pid file")); Event (Getenv "RBE_HTTP_PROXY") "";
  Event (Start None) (Ok pid); Event (WritePid pid) None].

(** The proxy ends without an error, and another one answers. *)
Definition exit_then_ready : trace :=
  started 5 ++ [Event StartupErr None; Event (DialContextWithBlock "unix:///s") (Fail EDeadlineExceeded);
    Event StartupErr (Some None); Event (DialContextWithBlock "unix:///s") (Ok true); Event AddProxyEvents None].

Example exit_ready_exec : exec (startProxy "unix:///s" 1 60) exit_then_ready (Ok ()).
Proof. repeat (eexists _, _; split; [reflexivity|]). by split. Qed.

(** The uploader that cannot be started ends the command. *)
Example uploader_missing :
  shutdown_main 4096 {| fastLogCollection := true; asyncReproxyShutdown := true; outputDir := "/out"; logDir := "/log"; logPath := "";
      proxyLogDir := []; metricsProject := "p"; metricsUploader := ""; cfg := ""; credentialsHelper := "" |}
    {| w_fs := ∅; shutdown_answer := (Some {| inner := 3; ProxyInfo := []; FatalExit := false; ToolVersion := "" |}, None);
       parsed_logs := {| inner := 0; ProxyInfo := []; FatalExit := false; ToolVersion := "" |}; uploader_starts := false |} 9 "v" None = Panic.
Proof. vm_compute. reflexivity. Qed.

End Concrete.

Lemma shutdown_reports_witness :
  ∃ s', steps false Concrete.s0 Concrete.clean = Some s' ∧ main s' = Returned (Some 7) None ∧ (gone s' ∨ false = true ∧ is_Some (Some 7)).
Proof.
  eexists. split; [reflexivity|]. split; [reflexivity|].
  apply (shutdown_reports false Concrete.s0 Concrete.clean _ (Some 7) None); [by split_and!|reflexivity|reflexivity].
Defined.

Lemma startProxy_spec_witness :
  is_ok (Ok ()) = existsb is_ready Concrete.exit_then_ready ∧
  existsb is_kill Concrete.exit_then_ready = existsb is_started Concrete.exit_then_ready && negb (is_ok (Ok ())) ∧
  (Z.of_nat (dials Concrete.exit_then_ready) ≤ Z.max 0 1 * 20)%Z.
Proof. apply (startProxy_spec "unix:///s" 1 60 Concrete.exit_then_ready (Ok ())). exact Concrete.exit_ready_exec. Defined.

End Bootstrap.
