(* ===== verification/ReproxyMain.v ===== *)
(** * The process of the proxy: [cmd/reproxy/main.go]

    The flags that [main] refuses, and what it does with the server of
    [Lifecycle.v]: the two goroutines that start it up, the signals and the calls
    of [Shutdown] that end it, the graceful stop of the listener, and the exit.
    A label is one atomic step of one goroutine. *)
From S2P Require Import Prelude GoStrings GoFloat Lifecycle FailEarly Logger.
From Stdlib Require Import Ascii.

Module ReproxyMain.

(** ** Flags *)

Record flags := {
  localResourceFraction : float64;
  failEarlyMinActionCount : Z;
  failEarlyMinFallbackRatio : float64;
  failEarlyWindow : Z;
  racingBias : float64
}.

Definition zero : float64 := float64_of_int 0.

(** The message with which the process exits. *)
Definition verifyFlags (f : flags) : option string :=
  if fgt zero (localResourceFraction f) || fgt (localResourceFraction f) (float64_of_int 1) then Some "Invalid local_resource_fraction"
  else if (failEarlyMinActionCount f <? 0)%Z then Some "Invalid fail_early_min_action_acount"
  else if fgt zero (failEarlyMinFallbackRatio f) then Some "Invalid fail_early_min_fallback_ratio"
  else if (failEarlyWindow f <? 0)%Z then Some "Invalid fail_early_window"
  else if fgt zero (racingBias f) || fgt (racingBias f) (float64_of_int 10) then Some "Invalid racing_bias"
  else if (failEarlyMinActionCount f =? 0)%Z && fgt (failEarlyMinFallbackRatio f) zero
       then Some "fail_early_min_fallback_ratio is set while fail_early_min_action_count is disabled"
  else if (0 <? failEarlyMinActionCount f)%Z && feq (failEarlyMinFallbackRatio f) zero
       then Some "fail_early_min_action_count is set while fail_early_min_fallback_ratio is disabled"
  else None.

(** ** The process *)

(** The goroutine that waits for signals: in its loop, after it, inside
    [GracefulStop], waiting for the cleanup, done. *)
Inductive main_phase := MLoop | MLeft | MStopping | MWaitCleanup | MDone.

#[export] Instance main_phase_eq_dec : EqDecision main_phase.
Proof. solve_decision. Defined.

(** A call of [Shutdown]. *)
Inductive rpc := RArrived | RWaiting | RAnswered.

#[export] Instance rpc_eq_dec : EqDecision rpc.
Proof. solve_decision. Defined.

Record proxy := {
  srv : Lifecycle.Server;
  ip_done : bool;
  rc_done : bool;
  (** a signal is in the channel, which holds one *)
  sigs : bool;
  sigCnt : nat;
  shutdownCmd : bool;
  drain_called : bool;
  rpcs : list rpc;
  main : main_phase;
  serving : bool
}.

Definition with_srv (s : proxy) (sv : Lifecycle.Server) (ip rc : bool) : proxy := {|
  srv := sv; ip_done := ip; rc_done := rc; sigs := sigs s; sigCnt := sigCnt s; shutdownCmd := shutdownCmd s;
  drain_called := drain_called s; rpcs := rpcs s; main := main s; serving := serving s |}.

Definition with_main (s : proxy) (m : main_phase) (sg : bool) (n : nat) (called sv : bool) : proxy := {|
  srv := srv s; ip_done := ip_done s; rc_done := rc_done s; sigs := sg; sigCnt := n; shutdownCmd := shutdownCmd s;
  drain_called := called; rpcs := rpcs s; main := m; serving := sv |}.

Definition with_rpc (s : proxy) (i : nat) (r : rpc) (cmd called : bool) : proxy := {|
  srv := srv s; ip_done := ip_done s; rc_done := rc_done s; sigs := sigs s; sigCnt := sigCnt s; shutdownCmd := cmd;
  drain_called := called; rpcs := <[i := r]> (rpcs s); main := main s; serving := serving s |}.

(** [main], with [n] calls of [RunCommand] and [m] of [Shutdown] to come. *)
Definition start (waitForShutdownRPC : bool) (n m : nat) : proxy := {|
  srv := Lifecycle.Init n; ip_done := false; rc_done := false; sigs := false;
  sigCnt := if waitForShutdownRPC then 3 else 1; shutdownCmd := false; drain_called := false;
  rpcs := replicate m RArrived; main := MLoop; serving := true |}.

(** [DrainAndReleaseResources] returns when its body is done, for all callers. *)
Definition drained (s : proxy) : bool := Lifecycle.waited (Lifecycle.phase (srv s)).

(** The listener takes calls until it is stopped. *)
Definition accepting (s : proxy) : bool := bool_decide (main s = MLoop) || bool_decide (main s = MLeft).

Definition command_open (c : Lifecycle.command_phase) : bool :=
  match c with Lifecycle.WaitForStarted | Lifecycle.Entered | Lifecycle.Running _ => true | _ => false end.
Definition arrived (c : option Lifecycle.command_phase) : bool := match c with Some Lifecycle.Arrived => true | _ => false end.
Definition rpc_open (r : rpc) : bool := match r with RWaiting => true | _ => false end.

(** No call is being served. *)
Definition idle (s : proxy) : bool :=
  negb (existsb command_open (Lifecycle.commands (srv s))) && negb (existsb rpc_open (rpcs s)).

Inductive label :=
  (** the input processor and the client, or the error of making them *)
  | LInitIP (r : nat * nat + error)
  | LInitRC (r : nat * nat + error)
  (** a step of the drain, and of a command *)
  | LDrain
  | LCommand (i : nat) (ctx_done : bool)
  (** a signal arrives, is taken; the shutdown command is seen *)
  | LSignal
  | LTakeSignal
  | LSeeShutdown
  (** a call of [Shutdown] *)
  | LShutdown (i : nat)
  (** the rest of [main] *)
  | LGracefulStop
  | LStopped
  | LCleanup
  | LServed.

Definition lift (s : proxy) (ip rc : bool) (r : res Lifecycle.Server) : res proxy := let? sv := r in Ok (with_srv s sv ip rc).

Definition Shutdown (s : proxy) (i : nat) : option (res proxy) :=
  r ← rpcs s !! i;
  match r with
  | RArrived =>
      if accepting s then
        (* the first call closes the channel, the others wait for it *)
        Some (Ok (with_rpc s i RWaiting true true))
      else None
  | RWaiting => if drained s then Some (Ok (with_rpc s i RAnswered (shutdownCmd s) (drain_called s))) else None
  | RAnswered => None
  end.

Definition init_label (mk : nat → nat → Lifecycle.label) (r : nat * nat + error) : Lifecycle.label :=
  match r with inl (x, c) => mk x c | inr e => Lifecycle.LSetStartupErr e end.

Definition step (s : proxy) (l : label) : option (res proxy) :=
  match l with
  | LInitIP r => if ip_done s then None else fmap (M:=option) (lift s true (rc_done s)) (Lifecycle.step (srv s) (init_label Lifecycle.LSetInputProcessor r))
  | LInitRC r => if rc_done s then None else fmap (M:=option) (lift s (ip_done s) true) (Lifecycle.step (srv s) (init_label Lifecycle.LSetREClient r))
  | LDrain => if drain_called s then fmap (M:=option) (lift s (ip_done s) (rc_done s)) (Lifecycle.step (srv s) Lifecycle.LDrain) else None
  | LCommand i ctx_done =>
      if accepting s || negb (arrived (Lifecycle.commands (srv s) !! i))
      then fmap (M:=option) (lift s (ip_done s) (rc_done s)) (Lifecycle.step (srv s) (Lifecycle.LCommand i ctx_done)) else None
  | LSignal => Some (Ok (with_main s (main s) true (sigCnt s) (drain_called s) (serving s)))
  | LTakeSignal =>
      if bool_decide (main s = MLoop) && sigs s
      then Some (Ok (with_main s (if bool_decide (sigCnt s = 1) then MLeft else MLoop) false (sigCnt s - 1) true (serving s))) else None
  | LSeeShutdown =>
      if bool_decide (main s = MLoop) && shutdownCmd s
      then Some (Ok (with_main s MLeft (sigs s) 0 (drain_called s) (serving s))) else None
  | LShutdown i => Shutdown s i
  | LGracefulStop => if bool_decide (main s = MLeft) then Some (Ok (with_main s MStopping (sigs s) (sigCnt s) (drain_called s) (serving s))) else None
  | LStopped =>
      if bool_decide (main s = MStopping) && idle s
      then Some (Ok (with_main s MWaitCleanup (sigs s) (sigCnt s) (drain_called s) (serving s))) else None
  | LCleanup =>
      if bool_decide (main s = MWaitCleanup) && Lifecycle.cleanupDone (srv s)
      then Some (Ok (with_main s MDone (sigs s) (sigCnt s) (drain_called s) (serving s))) else None
  | LServed => if accepting s || negb (serving s) then None
               else Some (Ok (with_main s (main s) (sigs s) (sigCnt s) (drain_called s) false))
  end.

(** A schedule: labels that are blocked are skipped. *)
Fixpoint run (s : proxy) (tr : list label) : res proxy :=
  match tr with
  | [] => Ok s
  | l :: tr => match step s l with None => run s tr | Some r => let? s := r in run s tr end
  end.

Definition exited (s : proxy) : bool := bool_decide (main s = MDone) && negb (serving s).

(** ** What the steps of the server change *)

Definition has (a : option nat) (e : option error) : Prop := is_Some a ∨ is_Some e.

(** Startup fields that are set stay set, and the cleanup stays done. *)
Record keeps (sv sv' : Lifecycle.Server) : Prop := {
  k_ip : is_Some (Lifecycle.InputProcessor sv) → is_Some (Lifecycle.InputProcessor sv');
  k_rc : is_Some (Lifecycle.REClient sv) → is_Some (Lifecycle.REClient sv');
  k_err : is_Some (Lifecycle.startErr sv) → is_Some (Lifecycle.startErr sv');
  k_done : Lifecycle.cleanupDone sv = true → Lifecycle.cleanupDone sv' = true
}.

Lemma maybe_same sv sv' :
  Lifecycle.maybeUnblockStartup sv = Ok sv' →
  Lifecycle.InputProcessor sv' = Lifecycle.InputProcessor sv ∧ Lifecycle.REClient sv' = Lifecycle.REClient sv ∧
  Lifecycle.startErr sv' = Lifecycle.startErr sv ∧ Lifecycle.phase sv' = Lifecycle.phase sv ∧
  Lifecycle.commands sv' = Lifecycle.commands sv ∧ Lifecycle.cleanupDone sv' = Lifecycle.cleanupDone sv.
Proof.
  unfold Lifecycle.maybeUnblockStartup. destruct (Lifecycle.started sv); [by intros [= <-]|].
  destruct (Lifecycle.ready sv); [|by intros [= <-]]. simpl. by intros [= <-].
Qed.

Ltac startup_cases sv :=
  let e := fresh "e" in let Ee := fresh "Ee" in let H := fresh in
  destruct (Lifecycle.startErr sv) as [e|] eqn:Ee;
    [intros [= <-]; simpl; rewrite ?Ee
    |intros [= H]; apply maybe_same in H as (-> & -> & -> & -> & -> & ->); simpl; rewrite ?Ee]; naive_solver.

Lemma SetInputProcessor_spec sv x c sv' :
  Lifecycle.SetInputProcessor sv x c = Ok sv' →
  has (Lifecycle.InputProcessor sv') (Lifecycle.startErr sv') ∧ Lifecycle.REClient sv' = Lifecycle.REClient sv ∧
  Lifecycle.startErr sv' = Lifecycle.startErr sv ∧ Lifecycle.phase sv' = Lifecycle.phase sv ∧
  Lifecycle.commands sv' = Lifecycle.commands sv ∧ Lifecycle.cleanupDone sv' = Lifecycle.cleanupDone sv.
Proof. unfold Lifecycle.SetInputProcessor, has. startup_cases sv. Qed.

Lemma SetREClient_spec sv x c sv' :
  Lifecycle.SetREClient sv x c = Ok sv' →
  has (Lifecycle.REClient sv') (Lifecycle.startErr sv') ∧ Lifecycle.InputProcessor sv' = Lifecycle.InputProcessor sv ∧
  Lifecycle.startErr sv' = Lifecycle.startErr sv ∧ Lifecycle.phase sv' = Lifecycle.phase sv ∧
  Lifecycle.commands sv' = Lifecycle.commands sv ∧ Lifecycle.cleanupDone sv' = Lifecycle.cleanupDone sv.
Proof. unfold Lifecycle.SetREClient, has. startup_cases sv. Qed.

Lemma SetStartupErr_spec sv e sv' :
  Lifecycle.SetStartupErr sv e = Ok sv' →
  is_Some (Lifecycle.startErr sv') ∧ Lifecycle.InputProcessor sv' = Lifecycle.InputProcessor sv ∧ Lifecycle.REClient sv' = Lifecycle.REClient sv ∧
  Lifecycle.phase sv' = Lifecycle.phase sv ∧ Lifecycle.commands sv' = Lifecycle.commands sv ∧
  Lifecycle.cleanupDone sv' = Lifecycle.cleanupDone sv.
Proof. unfold Lifecycle.SetStartupErr. startup_cases sv. Qed.

(** How far a command and the drain still have to go. *)
Definition cmd_rank (c : Lifecycle.command_phase) : nat :=
  match c with
  | Lifecycle.Arrived => 4 | Lifecycle.WaitForStarted => 3 | Lifecycle.Entered => 2 | Lifecycle.Running _ => 1
  | Lifecycle.Returned | Lifecycle.Rejected _ => 0
  end.

Definition phase_rank (p : Lifecycle.drain_phase) : nat :=
  match p with
  | Lifecycle.NotCalled => 5 | Lifecycle.WaitingStarted => 4 | Lifecycle.Closing => 3 | Lifecycle.WaitingActions => 2
  | Lifecycle.CleaningUp => 1 | Lifecycle.Finished => 0
  end.

Lemma drain_keeps sv sv' : Lifecycle.inv sv → Lifecycle.step sv Lifecycle.LDrain = Some (Ok sv') →
  keeps sv sv' ∧ Lifecycle.commands sv' = Lifecycle.commands sv ∧
  phase_rank (Lifecycle.phase sv') < phase_rank (Lifecycle.phase sv).
Proof.
  intros Hi H. destruct (Lifecycle.drain_inv _ _ Hi H) as (s1 & [= <-] & _ & (E1 & E2 & E3) & _).
  assert (Lifecycle.commands sv' = Lifecycle.commands sv ∧ phase_rank (Lifecycle.phase sv') < phase_rank (Lifecycle.phase sv) ∧
    (Lifecycle.cleanupDone sv = true → Lifecycle.cleanupDone sv' = true)) as (Hc & Hr & Hd).
  { simpl in H. unfold Lifecycle.DrainAndReleaseResources in H. destruct (Lifecycle.phase sv), (Lifecycle.started sv), (Lifecycle.drain sv);
      repeat case_match; simplify_eq/=; try (split_and!; [done|lia|done]); destruct (Lifecycle.cleanupDone sv); simplify_eq/=; (split_and!; [done|lia|done]). }
  split; [|done]. split; rewrite ?E1, ?E2, ?E3; done.
Qed.

Lemma command_keeps sv i b sv' : Lifecycle.inv sv → Lifecycle.step sv (Lifecycle.LCommand i b) = Some (Ok sv') →
  keeps sv sv' ∧ Lifecycle.phase sv' = Lifecycle.phase sv ∧
  ∃ c c', Lifecycle.commands sv !! i = Some c ∧ Lifecycle.commands sv' = <[i := c']> (Lifecycle.commands sv) ∧
    (c ≠ Lifecycle.Arrived → command_open c = true) ∧ cmd_rank c' < cmd_rank c.
Proof.
  intros Hi H. destruct (Lifecycle.command_inv _ _ _ _ Hi H) as (s1 & [= <-] & _ & (E1 & E2 & E3) & _).
  simpl in H. unfold Lifecycle.RunCommand in H. destruct (Lifecycle.commands sv !! i) as [c|] eqn:Ec; [|done]. simpl in H.
  assert (∃ c' w, sv' = Lifecycle.with_command sv i c' w ∧ (c ≠ Lifecycle.Arrived → command_open c = true) ∧
    cmd_rank c' < cmd_rank c) as (c' & w & -> & Ho & Hr).
  { destruct c; repeat case_match; simplify_eq/=; do 2 eexists; (split; [reflexivity|]); (split; [done|simpl; lia]). }
  split; [by split|]. split; [done|]. exists c, c'. by split_and!.
Qed.
(** ** The invariant *)

Record inv (given : list nat) (s : proxy) : Prop := {
  i_srv : Lifecycle.inv (srv s);
  i_cleanup : Lifecycle.ran (srv s) ++ Lifecycle.pending (srv s) ≡ₚ given;
  i_ip : if ip_done s then has (Lifecycle.InputProcessor (srv s)) (Lifecycle.startErr (srv s)) else Lifecycle.InputProcessor (srv s) = None;
  i_rc : if rc_done s then has (Lifecycle.REClient (srv s)) (Lifecycle.startErr (srv s)) else Lifecycle.REClient (srv s) = None;
  i_loop : main s = MLoop → 0 < sigCnt s;
  i_asked : main s ≠ MLoop → drain_called s = true;
  i_cmd : shutdownCmd s = true → drain_called s = true;
  i_called : drain_called s = false → Lifecycle.phase (srv s) = Lifecycle.NotCalled;
  i_idle : main s = MWaitCleanup ∨ main s = MDone → idle s = true;
  i_done : main s = MDone → Lifecycle.cleanupDone (srv s) = true;
  i_served : serving s = false → main s = MStopping ∨ main s = MWaitCleanup ∨ main s = MDone
}.

(** The cleanup functions that a label hands over. *)
Definition hands (l : label) : list nat :=
  match l with LInitIP (inl (_, c)) | LInitRC (inl (_, c)) => [c] | _ => [] end.

Lemma main_inv_start w n m : inv [] (start w n m).
Proof.
  split; simpl; try done.
  - apply Lifecycle.inv_Init.
  - by destruct w; lia.
  - by intros [?|?].
Qed.

(** The part of the invariant that a step of the server has to show anew. *)
Record srv_ok (s : proxy) (sv' : Lifecycle.Server) (ip rc : bool) : Prop := {
  o_ip : if ip then has (Lifecycle.InputProcessor sv') (Lifecycle.startErr sv') else Lifecycle.InputProcessor sv' = None;
  o_rc : if rc then has (Lifecycle.REClient sv') (Lifecycle.startErr sv') else Lifecycle.REClient sv' = None;
  o_called : drain_called s = false → Lifecycle.phase sv' = Lifecycle.NotCalled;
  o_idle : main s = MWaitCleanup ∨ main s = MDone → Lifecycle.commands sv' = Lifecycle.commands (srv s);
  o_done : Lifecycle.cleanupDone (srv s) = true → Lifecycle.cleanupDone sv' = true
}.

Lemma lift_inv given s l ip rc r :
  inv given s → Lifecycle.step (srv s) l = Some r →
  (Lifecycle.started (srv s) = true → is_Some (Lifecycle.startErr (srv s)) ∨ Lifecycle.is_ip l = 0 ∧ Lifecycle.is_rc l = 0) →
  (∀ sv', r = Ok sv' → srv_ok s sv' ip rc) →
  ∃ s', lift s ip rc r = Ok s' ∧ inv (given ++ Lifecycle.given l) s'.
Proof.
  intros [H1 H2 H3 H4 H5 H6 H7 H8 H9 H10 H11] Hst Hl Ho.
  destruct (Lifecycle.step_inv _ _ _ H1 Hst) as (sv' & -> & Hi & _ & _ & Hp). destruct (Ho sv' eq_refl) as [O1 O2 O3 O4 O5].
  eexists. split; [reflexivity|]. split; simpl; try done.
  - rewrite (Hp Hl), app_assoc. by apply Permutation_app_tail.
  - intros Hm. unfold idle in *. simpl. rewrite (O4 Hm). by apply H9.
  - intros Hm. by apply O5, H10.
Qed.

Lemma has_keeps_ip sv sv' : keeps sv sv' → has (Lifecycle.InputProcessor sv) (Lifecycle.startErr sv) → has (Lifecycle.InputProcessor sv') (Lifecycle.startErr sv').
Proof. intros [] [?|?]; [left|right]; auto. Qed.
Lemma has_keeps_rc sv sv' : keeps sv sv' → has (Lifecycle.REClient sv) (Lifecycle.startErr sv) → has (Lifecycle.REClient sv') (Lifecycle.startErr sv').
Proof. intros [] [?|?]; [left|right]; auto. Qed.

(** What is set, given which of the two goroutines are done. *)
Lemma started_err given s :
  inv given s → ip_done s && rc_done s = false → Lifecycle.started (srv s) = true → is_Some (Lifecycle.startErr (srv s)).
Proof.
  intros H Hd Hs. rewrite (Lifecycle.inv_started _ (i_srv _ _ H)) in Hs. unfold Lifecycle.ready in Hs.
  rewrite orb_true_iff, andb_true_iff, !bool_decide_eq_true in Hs. destruct Hs as [|[H1 H2]]; [done|].
  pose proof (i_ip _ _ H) as Hi. pose proof (i_rc _ _ H) as Hr. destruct (ip_done s), (rc_done s); try done.
  - rewrite Hr in H2. by destruct H2.
  - rewrite Hi in H1. by destruct H1.
  - rewrite Hi in H1. by destruct H1.
Qed.

Lemma init_ip_inv given s x r' :
  inv given s → ip_done s = false → Lifecycle.step (srv s) (init_label Lifecycle.LSetInputProcessor x) = Some r' →
  ∃ s', lift s true (rc_done s) r' = Ok s' ∧ inv (given ++ hands (LInitIP x)) s'.
Proof.
  intros H Hd Hst. replace (hands (LInitIP x)) with (Lifecycle.given (init_label Lifecycle.LSetInputProcessor x)) by (by destruct x as [[]|]).
  eapply lift_inv; [done|done| |].
  - intros Hs. left. eapply started_err; [done| |done]. by rewrite Hd.
  - intros sv' ->. pose proof (i_rc _ _ H) as Hr. pose proof (i_called _ _ H) as Hc. destruct x as [[y c]|e]; simpl in Hst; injection Hst as E.
    + apply SetInputProcessor_spec in E as (E1 & E2 & E3 & E4 & E5 & E6). rewrite E3 in E1. split; rewrite ?E2, ?E3, ?E4, ?E5, ?E6; done.
    + apply SetStartupErr_spec in E as (E1 & E2 & E3 & E4 & E5 & E6). split; rewrite ?E2, ?E3, ?E4, ?E5, ?E6; try done; [by right|].
      destruct (rc_done s); [by right|done].
Qed.

Lemma init_rc_inv given s x r' :
  inv given s → rc_done s = false → Lifecycle.step (srv s) (init_label Lifecycle.LSetREClient x) = Some r' →
  ∃ s', lift s (ip_done s) true r' = Ok s' ∧ inv (given ++ hands (LInitRC x)) s'.
Proof.
  intros H Hd Hst. replace (hands (LInitRC x)) with (Lifecycle.given (init_label Lifecycle.LSetREClient x)) by (by destruct x as [[]|]).
  eapply lift_inv; [done|done| |].
  - intros Hs. left. eapply started_err; [done| |done]. by rewrite Hd, andb_false_r.
  - intros sv' ->. pose proof (i_ip _ _ H) as Hr. pose proof (i_called _ _ H) as Hc. destruct x as [[y c]|e]; simpl in Hst; injection Hst as E.
    + apply SetREClient_spec in E as (E1 & E2 & E3 & E4 & E5 & E6). rewrite E3 in E1. split; rewrite ?E2, ?E3, ?E4, ?E5, ?E6; done.
    + apply SetStartupErr_spec in E as (E1 & E2 & E3 & E4 & E5 & E6). split; rewrite ?E2, ?E3, ?E4, ?E5, ?E6; try done; [|by right].
      destruct (ip_done s); [by right|done].
Qed.

(** A step that hands nothing over and keeps what startup has set. *)
Lemma other_ok given s sv' :
  inv given s → keeps (srv s) sv' → Lifecycle.InputProcessor sv' = Lifecycle.InputProcessor (srv s) →
  Lifecycle.REClient sv' = Lifecycle.REClient (srv s) →
  (drain_called s = false → Lifecycle.phase sv' = Lifecycle.NotCalled) →
  (main s = MWaitCleanup ∨ main s = MDone → Lifecycle.commands sv' = Lifecycle.commands (srv s)) →
  srv_ok s sv' (ip_done s) (rc_done s).
Proof.
  intros H Hk E1 E2 Hp Hc. pose proof (i_ip _ _ H) as Hi. pose proof (i_rc _ _ H) as Hr. split; [| |done|done|apply (k_done _ _ Hk)].
  - destruct (ip_done s); [by eapply has_keeps_ip|by rewrite E1].
  - destruct (rc_done s); [by eapply has_keeps_rc|by rewrite E2].
Qed.

Lemma drain_step_inv given s r :
  inv given s → drain_called s = true → Lifecycle.step (srv s) Lifecycle.LDrain = Some r →
  ∃ s', lift s (ip_done s) (rc_done s) r = Ok s' ∧ inv (given ++ []) s'.
Proof.
  intros H Hd Hst. change [] with (Lifecycle.given Lifecycle.LDrain). eapply lift_inv; [done|done|by right|].
  intros sv' ->. destruct (drain_keeps _ _ (i_srv _ _ H) Hst) as (Hk & Hc & _).
  destruct (Lifecycle.drain_inv _ _ (i_srv _ _ H) Hst) as (s1 & [= <-] & _ & (E1 & E2 & E3) & _).
  eapply other_ok; try done. by rewrite Hd.
Qed.

Lemma idle_no_open s i c : idle s = true → Lifecycle.commands (srv s) !! i = Some c → command_open c = false.
Proof.
  unfold idle. intros [H _]%andb_true_iff Hi. apply negb_true_iff in H. destruct (command_open c) eqn:E; [|done].
  rewrite <- H. symmetry. apply existsb_exists. exists c. split; [|done]. by eapply list_elem_of_In, list_elem_of_lookup_2.
Qed.

Lemma command_step_inv given s i b r :
  inv given s → accepting s || negb (arrived (Lifecycle.commands (srv s) !! i)) = true →
  Lifecycle.step (srv s) (Lifecycle.LCommand i b) = Some r →
  ∃ s', lift s (ip_done s) (rc_done s) r = Ok s' ∧ inv (given ++ []) s'.
Proof.
  intros H Ha Hst. change [] with (Lifecycle.given (Lifecycle.LCommand i b)). eapply lift_inv; [done|done|by right|].
  intros sv' ->. destruct (command_keeps _ _ _ _ (i_srv _ _ H) Hst) as (Hk & Hp & c & c' & Hi & Hc & Ho & _).
  destruct (Lifecycle.command_inv _ _ _ _ (i_srv _ _ H) Hst) as (s1 & [= <-] & _ & (E1 & E2 & E3) & _).
  eapply other_ok; try done.
  - intros Hd. rewrite Hp. by apply (i_called _ _ H).
  - intros Hm. exfalso. pose proof (idle_no_open s i c (i_idle _ _ H Hm) Hi) as Hn. rewrite Hi in Ha.
    assert (accepting s = false) as Hacc by (unfold accepting; by destruct Hm as [-> | ->]). rewrite Hacc in Ha.
    assert (c ≠ Lifecycle.Arrived) as Hne by (intros ->; done). rewrite (Ho Hne) in Hn. done.
Qed.

Lemma Shutdown_inv given s i r : inv given s → Shutdown s i = Some r → ∃ s', r = Ok s' ∧ inv given s'.
Proof.
  intros H Hst. unfold Shutdown in Hst. destruct (rpcs s !! i) as [[]|] eqn:Ei; [..|done]; simpl in Hst.
  - destruct (accepting s) eqn:Ea; [|done]. injection Hst as <-. eexists. split; [done|]. 
    destruct H as [H1 H2 H3 H4 H5 H6 H7 H8 H9 H10 H11]. split; simpl; try done.
    unfold accepting in Ea. intros [E|E]; rewrite E in Ea; done.
  - destruct (drained s); [|done]. injection Hst as <-. eexists. split; [done|]. 
    destruct H as [H1 H2 H3 H4 H5 H6 H7 H8 H9 H10 H11]. split; simpl; try done.
    intros Hm. exfalso. specialize (H9 Hm). unfold idle in H9. apply andb_true_iff in H9 as [_ H9%negb_true_iff].
    assert (existsb rpc_open (rpcs s) = true); [|congruence]. apply existsb_exists. exists RWaiting. split; [|done].
    by eapply list_elem_of_In, list_elem_of_lookup_2.
  - done.
Qed.

(** No step panics, and all keep the invariant. *)
Lemma process_step_inv given s l r : inv given s → step s l = Some r → ∃ s', r = Ok s' ∧ inv (given ++ hands l) s'.
Proof.
  intros H Hst. destruct l as [x|x| |i b| | | |i| | | |]; cbn [step hands] in *.
  - destruct (ip_done s) eqn:Hd; [done|]. apply fmap_Some in Hst as (r' & E & ->). by apply init_ip_inv.
  - destruct (rc_done s) eqn:Hd; [done|]. apply fmap_Some in Hst as (r' & E & ->). by apply init_rc_inv.
  - destruct (drain_called s) eqn:Hd; [|done]. apply fmap_Some in Hst as (r' & E & ->). by apply drain_step_inv.
  - destruct (accepting s || _) eqn:Ha; [|done]. apply fmap_Some in Hst as (r' & E & ->). by eapply command_step_inv.
  - injection Hst as <-. eexists. split; [done|]. rewrite app_nil_r. destruct H. by split.
  - destruct (bool_decide (main s = MLoop)) eqn:Em; [|done]. apply bool_decide_eq_true in Em. destruct (sigs s); [|done].
    injection Hst as <-. eexists. split; [done|]. rewrite app_nil_r. destruct H as [H1 H2 H3 H4 H5 H6 H7 H8 H9 H10 H11].
    specialize (H5 Em). destruct (bool_decide (sigCnt s = 1)) eqn:E1; [|apply bool_decide_eq_false in E1]; split; simpl; try done; try lia.
    1,3: intros [|]; done.
    1,2: intros Hs; destruct (H11 Hs) as [|[|]]; congruence.
  - destruct (bool_decide (main s = MLoop)) eqn:Em; [|done]. apply bool_decide_eq_true in Em. destruct (shutdownCmd s) eqn:Ec; [|done].
    injection Hst as <-. eexists. split; [done|]. rewrite app_nil_r. destruct H as [H1 H2 H3 H4 H5 H6 H7 H8 H9 H10 H11].
    split; simpl; try done; [by intros _; apply H7|by intros [|]|]. intros Hs; destruct (H11 Hs) as [|[|]]; congruence.
  - rewrite app_nil_r. by eapply Shutdown_inv.
  - destruct (bool_decide (main s = MLeft)) eqn:Em; [|done]. apply bool_decide_eq_true in Em. injection Hst as <-. eexists. split; [done|].
    rewrite app_nil_r. destruct H as [H1 H2 H3 H4 H5 H6 H7 H8 H9 H10 H11]. split; simpl; try done; [..|by left].
    + intros _. apply H6. by rewrite Em.
    + by intros [|].
  - destruct (bool_decide (main s = MStopping)) eqn:Em; [|done]. apply bool_decide_eq_true in Em. destruct (idle s) eqn:Ei; [|done].
    injection Hst as <-. eexists. split; [done|]. rewrite app_nil_r. destruct H as [H1 H2 H3 H4 H5 H6 H7 H8 H9 H10 H11].
    split; simpl; try done; [|by right; left]. intros _. apply H6. by rewrite Em.
  - destruct (bool_decide (main s = MWaitCleanup)) eqn:Em; [|done]. apply bool_decide_eq_true in Em.
    destruct (Lifecycle.cleanupDone (srv s)) eqn:Ed; [|done].
    injection Hst as <-. eexists. split; [done|]. rewrite app_nil_r. destruct H as [H1 H2 H3 H4 H5 H6 H7 H8 H9 H10 H11].
    split; simpl; try done; [..|by right; right].
    + intros _. apply H6. by rewrite Em.
    + intros _. apply H9. by left.
  - destruct (accepting s) eqn:Ea; [done|]. destruct (serving s); [|done]. simpl in Hst. injection Hst as <-. eexists. split; [done|].
    rewrite app_nil_r. destruct H as [H1 H2 H3 H4 H5 H6 H7 H8 H9 H10 H11]. split; simpl; try done. intros _.
    unfold accepting in Ea. destruct (main s); try done; eauto.
Qed.

(** The steps of a schedule that were made. *)
Fixpoint made (s : proxy) (tr : list label) : list label :=
  match tr with
  | [] => []
  | l :: tr => match step s l with None => made s tr | Some (Ok s') => l :: made s' tr | Some _ => [] end
  end.

Lemma main_run_inv given s tr : inv given s → ∃ s', run s tr = Ok s' ∧ inv (given ++ (made s tr ≫= hands)) s'.
Proof.
  revert given s. induction tr as [|l tr IH]; intros given s H; cbn [run made]; [exists s; by rewrite app_nil_r|].
  destruct (step s l) as [r|] eqn:E; [|by apply IH]. destruct (process_step_inv _ _ _ _ H E) as (s1 & -> & H1).
  rewrite bind_Ok. destruct (IH _ _ H1) as (s2 & E2 & H2). exists s2. split; [done|]. by rewrite bind_cons, app_assoc.
Qed.

(** ** The way to the exit *)

Definition rpc_rank (r : rpc) : nat := match r with RArrived => 2 | RWaiting => 1 | RAnswered => 0 end.
Definition main_rank (m : main_phase) : nat := match m with MLoop => 4 | MLeft => 3 | MStopping => 2 | MWaitCleanup => 1 | MDone => 0 end.
Definition rank_bool (b : bool) : nat := if b then 0 else 1.

Definition left (s : proxy) : nat :=
  rank_bool (ip_done s) + rank_bool (rc_done s) + phase_rank (Lifecycle.phase (srv s)) +
  sum_list_with cmd_rank (Lifecycle.commands (srv s)) + sum_list_with rpc_rank (rpcs s) + main_rank (main s) +
  rank_bool (negb (serving s)).

Lemma init_left sv mk x sv' :
  mk = Lifecycle.LSetInputProcessor ∨ mk = Lifecycle.LSetREClient → Lifecycle.step sv (init_label mk x) = Some (Ok sv') →
  Lifecycle.phase sv' = Lifecycle.phase sv ∧ Lifecycle.commands sv' = Lifecycle.commands sv.
Proof.
  intros Hmk. destruct x as [[y c]|e]; simpl; [destruct Hmk as [-> | ->]; simpl|]; intros [= E].
  - by apply SetInputProcessor_spec in E as (_ & _ & _ & -> & -> & _).
  - by apply SetREClient_spec in E as (_ & _ & _ & -> & -> & _).
  - by apply SetStartupErr_spec in E as (_ & _ & _ & -> & -> & _).
Qed.

Lemma fmap_lift s ip rc (o : option (res Lifecycle.Server)) s' :
  fmap (M:=option) (lift s ip rc) o = Some (Ok s') → ∃ sv, o = Some (Ok sv) ∧ s' = with_srv s sv ip rc.
Proof. intros (r & -> & H)%fmap_Some. destruct r as [sv|e|]; try done. injection H as ->. by exists sv. Qed.

(** After the loop every step but the arrival of a signal leads on. *)
Lemma main_step_left given s l s' :
  inv given s → main s ≠ MLoop → l ≠ LSignal → step s l = Some (Ok s') → main s' ≠ MLoop ∧ left s' < left s.
Proof.
  intros H Hm Hl Hst. unfold left. destruct l as [x|x| |i b| | | |i| | | |]; cbn [step] in Hst; try done.
  - destruct (ip_done s) eqn:Hd; [done|]. apply fmap_lift in Hst as (sv & E & ->).
    destruct (init_left _ _ _ _ (or_introl eq_refl) E) as [E1 E2]. cbn. rewrite E1, E2. cbn. split; [done|lia].
  - destruct (rc_done s) eqn:Hd; [done|]. apply fmap_lift in Hst as (sv & E & ->).
    destruct (init_left _ _ _ _ (or_intror eq_refl) E) as [E1 E2]. cbn. rewrite E1, E2. cbn. split; [done|lia].
  - destruct (drain_called s); [|done]. apply fmap_lift in Hst as (sv & E & ->).
    destruct (drain_keeps _ _ (i_srv _ _ H) E) as (_ & E1 & E2). cbn. rewrite E1. split; [done|lia].
  - destruct (_ || _); [|done]. apply fmap_lift in Hst as (sv & E & ->).
    destruct (command_keeps _ _ _ _ (i_srv _ _ H) E) as (_ & E1 & c & c' & Hi & E2 & _ & Hr). cbn. rewrite E1, E2. split; [done|].
    pose proof (Lifecycle.sum_insert cmd_rank _ _ _ c' Hi). lia.
  - by rewrite bool_decide_false in Hst.
  - by rewrite bool_decide_false in Hst.
  - unfold Shutdown in Hst. destruct (rpcs s !! i) as [r|] eqn:Ei; [|done]. pose proof (λ y, Lifecycle.sum_insert rpc_rank _ _ _ y Ei) as Hs.
    simpl in Hst. destruct r; [destruct (accepting s)|destruct (drained s)|]; try done; injection Hst as <-; cbn; (split; [done|]).
    + specialize (Hs RWaiting). simpl in Hs. lia.
    + specialize (Hs RAnswered). simpl in Hs. lia.
  - case_bool_decide as Em; [|done]. injection Hst as <-. cbn. rewrite Em. simpl. split; [done|lia].
  - case_bool_decide as Em; [|done]. simpl in Hst. destruct (idle s); [|done]. injection Hst as <-. cbn. rewrite Em. simpl. split; [done|lia].
  - case_bool_decide as Em; [|done]. simpl in Hst. destruct (Lifecycle.cleanupDone _); [|done]. injection Hst as <-. cbn. rewrite Em. simpl. split; [done|lia].
  - destruct (accepting s); [done|]. destruct (serving s) eqn:Es; [|done]. injection Hst as <-. cbn. split; [done|lia].
Qed.

(** ** No deadlock *)

Definition can_step (s : proxy) : Prop := ∃ l s', l ≠ LSignal ∧ step s l = Some (Ok s').

Lemma can_by given s l r : inv given s → l ≠ LSignal → step s l = Some r → can_step s.
Proof. intros H Hl Hst. destruct (process_step_inv _ _ _ _ H Hst) as (s' & -> & _). by exists l, s'. Qed.

(** A command that is counted or waits can go on. *)
Lemma open_can given s i c : inv given s → Lifecycle.commands (srv s) !! i = Some c → command_open c = true → can_step s.
Proof.
  intros H Hi Hc. assert (is_Some (Lifecycle.step (srv s) (Lifecycle.LCommand i true))) as [r Hr].
  { simpl. unfold Lifecycle.RunCommand. rewrite Hi. simpl. destruct c; try done; by eexists. }
  eapply (can_by _ _ (LCommand i true)); [done|done|]. cbn [step]. rewrite Hi.
  replace (arrived (Some c)) with false by (by destruct c). rewrite orb_true_r. rewrite Hr. done.
Qed.

Lemma drain_can given s : inv given s → drain_called s = true → drained s = false ∨ Lifecycle.cleanupDone (srv s) = false → can_step s.
Proof.
  intros H Hd Hn. pose proof (i_srv _ _ H) as Hv.
  assert (is_Some (Lifecycle.step (srv s) Lifecycle.LDrain) → can_step s) as Hgo.
  { intros [r Hr]. eapply (can_by _ _ LDrain); [done|done|]. cbn [step]. by rewrite Hd, Hr. }
  simpl in Hgo. unfold Lifecycle.DrainAndReleaseResources in Hgo. unfold drained in Hn. pose proof (Lifecycle.inv_done _ Hv) as Hdone.
  destruct (Lifecycle.phase (srv s)) eqn:Ep; try (apply Hgo; by eexists); simpl in Hn.
  - destruct (Lifecycle.started (srv s)) eqn:Es; [apply Hgo; by eexists|].
    assert (ip_done s = false ∨ rc_done s = false) as [E|E].
    + destruct (ip_done s) eqn:E1, (rc_done s) eqn:E2; auto. exfalso. pose proof (i_ip _ _ H) as Hi. pose proof (i_rc _ _ H) as Hr.
      rewrite E1 in Hi. rewrite E2 in Hr. rewrite (Lifecycle.inv_started _ Hv) in Es. unfold Lifecycle.ready in Es.
      apply orb_false_iff in Es as [F1%bool_decide_eq_false F2]. destruct Hi as [Hi|]; [|done]. destruct Hr as [Hr|]; [|done].
      by rewrite !bool_decide_true in F2.
    + eapply (can_by _ _ (LInitIP (inr ECanceled))); [done|done|]. cbn [step]. by rewrite E.
    + eapply (can_by _ _ (LInitRC (inr ECanceled))); [done|done|]. cbn [step]. by rewrite E.
  - case_bool_decide as Ew; [apply Hgo; by eexists|]. rewrite (Lifecycle.inv_wg _ Hv) in Ew.
    assert (∃ i c, Lifecycle.commands (srv s) !! i = Some c ∧ Lifecycle.counted c ≠ 0) as (i & c & Hi & Hc).
    { revert Ew. generalize (Lifecycle.commands (srv s)) as cs. induction cs as [|c cs IH]; [done|]. simpl. intros Ew.
      destruct (decide (Lifecycle.counted c = 0)) as [E|E]; [|by exists 0, c]. destruct IH as (i & c' & Hi & Hc); [lia|]. by exists (S i), c'. }
    eapply open_can; [done|exact Hi|]. by destruct c.
  - rewrite Hdone in Hn. by destruct Hn.
Qed.

Lemma existsb_lookup {A} (f : A → bool) l : existsb f l = true → ∃ i x, l !! i = Some x ∧ f x = true.
Proof. intros (x & Hin & Hx)%existsb_exists. apply list_elem_of_In, list_elem_of_lookup_1 in Hin as [i Hi]. by exists i, x. Qed.

Lemma stop_progress given s : inv given s → main s ≠ MLoop → exited s = false → can_step s.
Proof.
  intros H Hm He. pose proof (i_asked _ _ H Hm) as Hd. unfold exited in He.
  destruct (main s) eqn:Em; [done|..].
  { eapply (can_by _ _ LGracefulStop); [done|done|]. cbn [step]. by rewrite Em. }
  all: assert (accepting s = false) as Ha by (unfold accepting; by rewrite Em).
  all: destruct (serving s) eqn:Es; [eapply (can_by _ _ LServed); [done|done|]; cbn [step]; by rewrite Ha, Es|].
  - destruct (idle s) eqn:Ei; [eapply (can_by _ _ LStopped); [done|done|]; cbn [step]; by rewrite Em, Ei|].
    unfold idle in Ei. apply andb_false_iff in Ei as [Ei|Ei]; apply negb_false_iff, existsb_lookup in Ei as (i & x & Hi & Hx).
    + by eapply open_can.
    + destruct x; try done. destruct (drained s) eqn:Er; [|eapply drain_can; eauto].
      eapply (can_by _ _ (LShutdown i)); [done|done|]. cbn [step]. unfold Shutdown. rewrite Hi. simpl. by rewrite Er.
  - destruct (Lifecycle.cleanupDone (srv s)) eqn:Ec; [|eapply drain_can; eauto].
    eapply (can_by _ _ LCleanup); [done|done|]. cbn [step]. by rewrite Em, Ec.
  - done.
Qed.



(** ** Settings that [main] works out *)

(** The address of the dependency scanner; a failure is fatal.  The number of
    timeouts that are allowed grows with the processors. *)
Definition scanner_address (binaryRelToAbs : string → res string) (depsScannerAddress : string) : res string :=
  if (depsScannerAddress =? "")%string then Fail (EMsg "--depsscanner_address must be specified")
  else if (depsScannerAddress =? "execrel://")%string then
    match binaryRelToAbs "scandeps_server" with
    | Ok p => Ok ("exec://" +:+ p)
    | _ => Fail (EMsg "Specified --depsscanner_address=execrel:// but `scandeps_server` was not found in the same directory as `reproxy`")
    end
  else Ok depsScannerAddress.

Definition allowed_timeouts (numCPU : Z) : Z := int64 (FailEarly.AllowedIPTimeouts + int64 (numCPU * 2)).

Definition getLogDir (proxyLogDir : list string) (log_dir : option string) (tempDir : string) : string :=
  match proxyLogDir with
  | d :: _ => d
  | [] => match log_dir with Some v => if (v =? "")%string then tempDir else v | None => tempDir end
  end.

(** The temporary directory of downloads. *)
Definition download_tmp (racingTmp downloadTmp : string) : string := if (downloadTmp =? "")%string then racingTmp else downloadTmp.

Inductive auth_used := ExternalTokenAuth | ApplicationDefaultCredsAuth | OtherAuth.

(** [Text] is what [Error] says. *)
Record InitError := { Err : error; AuthUsed : auth_used; Text : string }.

Definition newline : string := String (ascii_of_nat 10) "".

Definition formatAuthError (ce : InitError) : error :=
  if errors_Is (Err ce) ECanceled then Err ce
  else
    let errMsg := "Unable to authenticate with RBE" +:+
      match AuthUsed ce with
      | ExternalTokenAuth => ", externally provided auth token was invalid"
      | ApplicationDefaultCredsAuth =>
          ", try restarting the build after running the following command:" +:+ newline +:+
          "    gcloud auth application-default login --disable-quota-project" +:+ newline +:+
          "If this is a headless machine, use:" +:+ newline +:+
          "    gcloud auth application-default login --no-launch-browser --disable-quota-project"
      | OtherAuth => ""
      end in
    EMsg (errMsg +:+ newline +:+ Text ce).

Section logger.

Context {L I : Type}.
(** The inserter of the table, and the two ways to a log: a new file in a
    directory, and the file of a name with a format. *)
Variable NewInserter : string → string → res I.
Variable New : Logger.Format → string → option (I * Z) → res L.
Variable NewFromFormatFile : string → option (I * Z) → res L.

Record log_flags := {
  bqProjectID : string;
  bqTableSpec : string;
  bqBatchMB : Z;
  proxyLogDir : list string;
  logFormat : string;
  logPath : string
}.

(** The upload is left out if it cannot be made. *)
Definition bq_spec (f : log_flags) : option (I * Z) :=
  if negb (bqProjectID f =? "")%string && negb (bqTableSpec f =? "")%string then
    match NewInserter (bqTableSpec f) (bqProjectID f) with Ok c => Some (c, bqBatchMB f) | _ => None end
  else None.

(** The descriptor of the auxiliary messages has no influence on the log. *)
Definition initializeLogger (f : log_flags) : res (option L) :=
  match proxyLogDir f with
  | d :: _ =>
      match Logger.ParseFormat (logFormat f) with
      | Ok format => match New format d (bq_spec f) with
                     | Ok l => Ok (Some l)
                     | Fail _ => Fail (EMsg "error initializing logger")
                     | Panic => Panic
                     end
      | Fail _ => Fail (EMsg "error initializing logger")
      | Panic => Panic
      end
  | [] =>
      if (logPath f =? "")%string then Ok None
      else match NewFromFormatFile (logPath f) (bq_spec f) with
           | Ok l => Ok (Some l)
           | Fail _ => Fail (EMsg "error initializing log file")
           | Panic => Panic
           end
  end.

(** A directory for logs goes before the name of one, whatever its format. *)
Lemma initializeLogger_dir f d ds l :
  proxyLogDir f = d :: ds → initializeLogger f = Ok l → ∃ format x, Logger.ParseFormat (logFormat f) = Ok format ∧ New format d (bq_spec f) = Ok x ∧ l = Some x.
Proof using Type.
  unfold initializeLogger. intros ->. destruct (Logger.ParseFormat (logFormat f)) as [format|e|]; [|done..].
  destruct (New format d (bq_spec f)) as [x|e|] eqn:E; [|done..]. intros [= <-]. by exists format, x.
Qed.

End logger.

(** Flags that are accepted turn the fail-early mechanism fully on or fully
    off. *)
Lemma verifyFlags_fail_early f :
  verifyFlags f = None →
  (0 ≤ failEarlyMinActionCount f)%Z ∧ (0 ≤ failEarlyWindow f)%Z ∧
  (failEarlyMinActionCount f = 0%Z → fgt (failEarlyMinFallbackRatio f) zero = false) ∧
  (feq (failEarlyMinFallbackRatio f) zero = true → failEarlyMinActionCount f = 0%Z).
Proof.
  unfold verifyFlags. destruct (_ || _); [done|]. destruct (Z.ltb_spec (failEarlyMinActionCount f) 0); [done|].
  destruct (fgt zero (failEarlyMinFallbackRatio f)); [done|]. destruct (Z.ltb_spec (failEarlyWindow f) 0); [done|].
  destruct (_ || _); [done|]. destruct (Z.eqb_spec (failEarlyMinActionCount f) 0), (fgt (failEarlyMinFallbackRatio f) zero),
    (Z.ltb_spec 0 (failEarlyMinActionCount f)), (feq (failEarlyMinFallbackRatio f) zero); intros E; try done; try (split_and!; (done || lia)).
Qed.

(** ** Concrete runs *)

Module Concrete.

Definition ratio (n d : Z) : flags := {|
  localResourceFraction := float64_of_int 1; failEarlyMinActionCount := 10; failEarlyMinFallbackRatio := float64_lit n d;
  failEarlyWindow := 0; racingBias := float64_lit 3 4 |}.

(** A ratio above one is accepted, although the message asks for one in [0,1]. *)
Example accepted : verifyFlags (ratio 1 2) = None ∧ verifyFlags (ratio 3 1) = None ∧
  verifyFlags (ratio 0 1) = Some "fail_early_min_action_count is set while fail_early_min_fallback_ratio is disabled" ∧
  verifyFlags (ratio (-1) 2) = Some "Invalid fail_early_min_fallback_ratio".
Proof. split_and!; vm_compute; reflexivity. Qed.

(** One command and one call of [Shutdown]; the client cannot be made, since the
    shutdown cancels it. *)
Definition shut_down : list label :=
  [LInitIP (inl (1, 10)); LCommand 0 false; LShutdown 0; LDrain; LDrain; LSeeShutdown; LGracefulStop; LStopped;
   LInitRC (inr ECanceled); LDrain; LDrain; LCommand 0 false; LDrain; LShutdown 0; LServed; LStopped; LDrain; LCleanup].

Example shut_down_exits :
  (λ s, (exited s, Lifecycle.ran (srv s), rpcs s, Lifecycle.commands (srv s))) <$> run (start false 1 1) shut_down =
  Ok (true, [10], [RAnswered], [Lifecycle.Rejected ECanceled]).
Proof. vm_compute. reflexivity. Qed.

(** With [--wait_for_shutdown_rpc] one signal drains the server and no more. *)
Example one_signal :
  (λ s, (main s, sigCnt s, Lifecycle.cleanupDone (srv s))) <$>
    run (start true 0 0) [LInitIP (inl (1, 10)); LInitRC (inl (2, 20)); LSignal; LTakeSignal; LDrain; LDrain; LDrain; LDrain; LDrain; LSeeShutdown] =
  Ok (MLoop, 2, true).
Proof. vm_compute. reflexivity. Qed.

(** Two signals at once are one. *)
Example signals_merge :
  (λ s, (main s, sigCnt s)) <$> run (start true 0 0) [LSignal; LSignal; LTakeSignal; LTakeSignal] = Ok (MLoop, 2).
Proof. vm_compute. reflexivity. Qed.

Definition stopping : proxy := Eval vm_compute in
  match run (start false 1 1) (take 6 shut_down) with Ok s => s | _ => start false 0 0 end.

End Concrete.


End ReproxyMain.
