(* ===== verification/Request.v ===== *)
(** * Requests: [RunCommand] of [internal/pkg/reproxy/server.go]

    The handler validates a request, prepares the command and the action, runs
    it (ServerRun.v), logs it (Logger.v) and builds the response.  One handler
    is followed here from its entry past the startup barrier (Lifecycle.v) to
    its return. *)
From S2P Require Import Prelude GoStrings GoPath PathTranslator GoFS Command Labels Action Logger.
From Stdlib Require Import Ascii.
Import Filepath PathTranslator Action Logger.

Module Request.

(** ** The platform of the command *)

Definition osFamilyKey : string := "OSFamily".
Definition poolKey : string := "Pool".
Definition labelKeyPrefix : string := "label:".
Definition platformVersionKey : string := "reproxy-version".
Definition cacheSiloKey : string := "cache-silo".

Definition knownOSFamilies : gmap string string := {[ "linux" := "Linux"; "windows" := "Windows" ]}.

Definition isWindowsCross (goos : string) (platformProperty : gmap string string) : bool :=
  if negb (goos =? "windows")%string then false
  else match platformProperty !! osFamilyKey with
       | None => false
       | Some os => negb (os =? "Windows")%string
       end.

(** The platform with the family of the machine, unless the request chooses
    its workers. *)
Definition setPlatformOSFamily (goos : string) (platform : gmap string string) : gmap string string :=
  match platform !! osFamilyKey, platform !! poolKey with
  | Some _, _ | _, Some _ => platform
  | None, None =>
      if existsb (λ kv, HasPrefix kv.1 labelKeyPrefix) (map_to_list platform) then platform
      else match knownOSFamilies !! goos with
           | None => platform
           | Some osFamily => <[osFamilyKey := osFamily]> platform
           end
  end.

(** ** Requests and responses *)

(** [ppb.ProxyExecutionOptions].  The getters of a nil message give the zero
    value of each field. *)
Record ProxyExecutionOptions := {
  eo_ExecutionStrategy : ExecutionStrategy;
  eo_CompareWithLocal : bool;
  eo_NumLocalReruns : Z;
  eo_NumRemoteReruns : Z;
  eo_NumRetriesIfMismatched : Z;
  eo_ReclientTimeout : Z;
  eo_LogEnvironment : bool;
  eo_IncludeActionLog : bool;
  eo_DownloadRegex : string;
  eo_EnableAtomicDownloads : bool;
  eo_RemoteExecutionOptions : option RemoteExecutionOptions;
  eo_LocalExecutionOptions : option LocalExecutionOptions
}.

Definition zero_options : ProxyExecutionOptions := {|
  eo_ExecutionStrategy := UNSPECIFIED; eo_CompareWithLocal := false; eo_NumLocalReruns := 0;
  eo_NumRemoteReruns := 0; eo_NumRetriesIfMismatched := 0; eo_ReclientTimeout := 0;
  eo_LogEnvironment := false; eo_IncludeActionLog := false; eo_DownloadRegex := "";
  eo_EnableAtomicDownloads := false; eo_RemoteExecutionOptions := None; eo_LocalExecutionOptions := None |}.

(** [req_Command] is the command that [command.FromProto] gives.  The event
    times of the request are left out. *)
Record RunRequest := {
  req_Command : option Command;
  req_Labels : gmap string string;
  req_ExecutionOptions : option ProxyExecutionOptions;
  req_ToolchainInputs : list string;
  req_Environment : list string
}.

Definition GetExecutionOptions (r : RunRequest) : ProxyExecutionOptions :=
  default zero_options (req_ExecutionOptions r).

(** What the log keeps of an action. *)
Record LoggedAction := { la_Record : nat; la_Result : Result; la_Status : CompletionStatus }.

Record RemoteFallbackInfo := { fb_ExitCode : Z; fb_ResultStatus : option ResultStatus; fb_Output : string }.

Record RunResponse := {
  resp_ExecutionId : string;
  resp_Result : Result;
  resp_Output : string;
  RemoteFallback : option RemoteFallbackInfo;
  ActionLog : option LoggedAction
}.

Record server_options := {
  KeepLastRecords : nat;
  CacheSilo : string;
  VersionCacheSilo : bool;
  ReclientVersion : string;
  DownloadTmp : string;
  maxThreads : Z
}.

(** The state of the server that a handler reads and writes. *)
Record server := mkServer {
  s_Logger : Logger;
  s_records : list LoggedAction;
  numActiveActions : Z;
  activeActions : gset string
}.

Definition with_Logger (f : Logger → Logger) (s : server) : server :=
  mkServer (f (s_Logger s)) (s_records s) (numActiveActions s) (activeActions s).

Section Request.

Context {ctx : Type} {Sdk : SDK}.
Notation action := (action (ctx := ctx)).

Variable opts : server_options.
(** [runtime.GOOS], the SDK's validation and default values, SHA-256, and the
    identifier of this proxy. *)
Variable goos : string.
Variable Validate : Command → option error.
Variable FillDefaultFieldValues : Command → Command.
Variable sha256_hex : string → string.
Variable invocationID : string.
(** [runAction] of ServerRun.v and, in compare mode, the reruns; [None] when they
    panic. *)
Variable run : action → option action.
(** The texts of a status and of an error. *)
Variable status_string : ResultStatus → string.
Variable error_string : error → string.

Definition InvalidArgument (msg : string) : error := EMsg ("InvalidArgument: " +:+ msg).
Definition Unavailable (msg : string) : error := EMsg ("Unavailable: " +:+ msg).

(** The identifiers that the handler sets first. *)
Definition identify (executionID : string) (c : Command) : Command :=
  with_Identifiers c {|
    CommandID := CommandID (cmd_Identifiers c); InvocationID := InvocationID (cmd_Identifiers c);
    ToolName := "re-client"; ToolVersion := ReclientVersion opts; ExecutionID := executionID |}.

Definition default_InvocationID (c : Command) : Command :=
  let i := cmd_Identifiers c in
  if (InvocationID i =? "")%string then
    with_Identifiers c {| CommandID := CommandID i; InvocationID := invocationID; ToolName := ToolName i;
                          ToolVersion := ToolVersion i; ExecutionID := ExecutionID i |}
  else c.

Definition addLabelDigestToCommandID (lbls : gmap string string) (c : Command) : Command :=
  let i := cmd_Identifiers c in
  with_Identifiers c {|
    CommandID := Labels.Labels.ToDigest sha256_hex lbls +:+ "-" +:+ CommandID i;
    InvocationID := InvocationID i; ToolName := ToolName i; ToolVersion := ToolVersion i;
    ExecutionID := ExecutionID i |}.

(** The platform: the version of the proxy for actions whose local results are
    cached, the silo, and the family of the operating system. *)
Definition request_platform (eo : ProxyExecutionOptions) (platform : gmap string string) : gmap string string :=
  let caches_local := bool_decide (eo_ExecutionStrategy eo = LOCAL) &&
                      negb (GetDoNotCache (eo_LocalExecutionOptions eo)) in
  let p := if caches_local || VersionCacheSilo opts
           then <[platformVersionKey := ReclientVersion opts]> platform else platform in
  let p := if (CacheSilo opts =? "")%string then p else <[cacheSiloKey := CacheSilo opts]> p in
  setPlatformOSFamily goos p.

Definition prepare_command (req : RunRequest) (c : Command) : Command :=
  let c := addLabelDigestToCommandID (req_Labels req) (FillDefaultFieldValues (default_InvocationID c)) in
  with_Platform c (request_platform (GetExecutionOptions req) (Platform c)).

Definition numRemoteRerun (eo : ProxyExecutionOptions) : Z :=
  if bool_decide (eo_NumRemoteReruns eo = 0%Z) then eo_NumRetriesIfMismatched eo else eo_NumRemoteReruns eo.

(** The toolchains with the wrapper of the remote command. *)
Definition request_toolchains (req : RunRequest) (c : Command) : list string :=
  let rw := GetRemoteWrapper (eo_RemoteExecutionOptions (GetExecutionOptions req)) in
  if (rw =? "")%string then req_ToolchainInputs req
  else req_ToolchainInputs req ++ [RelToExecRoot (ExecRoot c) (WorkingDir c) rw].

Definition new_action (req : RunRequest) (c : Command) : action :=
  let eo := GetExecutionOptions req in {|
  a_cfg := {|
    lbls := req_Labels req; toolchainInputs := request_toolchains req c;
    lOpt := eo_LocalExecutionOptions eo; execStrategy := eo_ExecutionStrategy eo;
    compare := eo_CompareWithLocal eo;
    numLocalReruns := Z.to_nat (eo_NumLocalReruns eo); numRemoteReruns := Z.to_nat (numRemoteRerun eo);
    cmdEnvironment := req_Environment req; windowsCross := isWindowsCross goos (Platform c);
    downloadRegex := eo_DownloadRegex eo; downloadTmp := DownloadTmp opts;
    atomicDownloads := eo_EnableAtomicDownloads eo |};
  a_cmd := c; a_oe := ""; a_fallbackOE := ""; a_fallbackExitCode := 0; a_fallbackResultStatus := None;
  a_rec_local := Some empty_LocalMetadata; a_rec_remote := None;
  a_rOpt := eo_RemoteExecutionOptions eo; a_execContext := None; a_dFile := ""; a_depsFile := "";
  a_res := None; a_rawInOutFiles := None; a_digest := "" |}.

(** ** Logging *)

(** The result that is logged: that of the action, or else one of those in its
    record. *)
Definition logged_result (a : action) : option Result :=
  match a_res a with
  | Some r => Some r
  | None => match (l ← a_rec_local a; lm_Result l) with
            | Some r => Some r
            | None => m ← a_rec_remote a; rm_Result m
            end
  end.

(** [s.records = append(...)], bounded by [KeepLastRecords] *)
Definition keep_record (r : LoggedAction) (records : list LoggedAction) : list LoggedAction :=
  if bool_decide (0 < KeepLastRecords opts) then
    let records := records ++ [r] in
    if bool_decide (KeepLastRecords opts < length records) then tail records else records
  else records.

(** [logRecord] of the record [lr] at the time [now].  The sample of the
    forecast (Forecast.v) is left out. *)
Definition logRecord (now : Z) (lr : nat) (a : action) (s : server) : res (LoggedAction * server) :=
  let? r := or_panic (logged_result a) in
  let executedLocally := default false (ExecutedLocally <$> a_rec_local a) in
  let st := getCompletionStatus (Status r) executedLocally (execStrategy (a_cfg a)) in
  let la := {| la_Record := lr; la_Result := r; la_Status := st |} in
  Ok (la, mkServer (Log now lr st (s_Logger s)) (keep_record la (s_records s)) (numActiveActions s) (activeActions s)).

(** ** The response *)

(** The recorded output of a stream is nil when nothing was written to it. *)
Definition toResponse (c : Command) (r : Result) (output : string) (fb : RemoteFallbackInfo)
    (log : option LoggedAction) : RunResponse := {|
  resp_ExecutionId := ExecutionID (cmd_Identifiers c);
  resp_Result := r;
  resp_Output := output;
  RemoteFallback :=
    if negb (fb_Output fb =? "")%string || bool_decide (fb_ExitCode fb ≠ 0%Z) then Some fb else None;
  ActionLog := log |}.

Definition respond (executionID : string) (a : action) (r : Result) (log : option LoggedAction) : RunResponse :=
  let fb out := {| fb_ExitCode := a_fallbackExitCode a; fb_ResultStatus := a_fallbackResultStatus a; fb_Output := out |} in
  if negb (IsOk r) && bool_decide (Status r ≠ NonZeroExitResultStatus) && (a_oe a =? "")%string then
    let msg := match res_Err r with
               | Some e => "reclient[" +:+ executionID +:+ "]: " +:+ status_string (Status r) +:+ ": " +:+
                           error_string e +:+ String "010" ""
               | None => ""
               end in
    toResponse (a_cmd a) r msg (fb "") log
  else toResponse (a_cmd a) r (a_oe a) (fb (a_fallbackOE a)) log.

(** ** The handler *)

Definition too_few_reruns (eo : ProxyExecutionOptions) : bool :=
  eo_CompareWithLocal eo && bool_decide (eo_NumLocalReruns eo + numRemoteRerun eo < 2)%Z.

(** [a.rOpt.AcceptCached = false], when the experimental cache misses strike. *)
Definition cache_miss (miss : bool) (a : action) : res action :=
  if miss then
    match a_rOpt a with
    | None => Panic
    | Some o => Ok (set_rOpt (Some {|
        ro_AcceptCached := false; ro_DoNotCache := ro_DoNotCache o; ro_DownloadOutputs := ro_DownloadOutputs o;
        ro_PreserveUnchangedOutputMtime := ro_PreserveUnchangedOutputMtime o;
        ro_Wrapper := ro_Wrapper o; ro_CanonicalizeWorkingDir := ro_CanonicalizeWorkingDir o |}) a)
    end
  else Ok a.

(** An admitted action: it is run, logged and answered. *)
Definition answer (executionID : string) (lr : nat) (t1 : Z) (miss : bool) (req : RunRequest) (c : Command)
    (s : server) : res (RunResponse * server) :=
  let s := mkServer (s_Logger s) (s_records s) (numActiveActions s + 1) ({[executionID]} ∪ activeActions s) in
  let? a := cache_miss miss (new_action req c) in
  let? a := or_panic (run a) in
  let? (la, s) := logRecord t1 lr a s in
  let? r := or_panic (a_res a) in
  Ok (respond executionID a r (if eo_IncludeActionLog (GetExecutionOptions req) then Some la else None),
      mkServer (s_Logger s) (s_records s) (numActiveActions s - 1) (activeActions s ∖ {[executionID]})).

(** [executionID] is the fresh identifier of the action and [lr] its fresh log
    record; [t0] and [t1] are the times at which the start and the end of the
    action are applied to the log, and [miss] is whether the experimental cache
    misses strike. *)
Definition RunCommand (executionID : string) (lr : nat) (t0 t1 : Z) (miss : bool) (req : RunRequest)
    : ST server RunResponse := λ s,
  let eo := GetExecutionOptions req in
  match req_Command req with
  | None => (Fail (InvalidArgument "no command provided in the request"), s)
  | Some c =>
      let c := identify executionID c in
      match Validate c with
      | Some e => (Fail (InvalidArgument (error_string e)), s)
      | None =>
          let c := prepare_command req c in
          match (if eo_LogEnvironment eo then sliceToMap (req_Environment req) env_separator else Ok ∅) with
          | Fail e => (Fail e, s)
          | Panic => (Panic, s)
          | Ok _ =>
              let s := with_Logger (LogActionStart t0 lr) s in
              if too_few_reruns eo then (Fail (InvalidArgument "Invalid number of reruns"), s)
              else if bool_decide (eo_ReclientTimeout eo ≤ 0)%Z
              then (Fail (InvalidArgument "Invalid reclient_timeout set"), s)
              else if bool_decide (maxThreads opts ≤ numActiveActions s)%Z
              then (Fail (Unavailable "high num of in-flight actions"), s)
              else
                match answer executionID lr t1 miss req c s with
                | Ok (resp, s) => (Ok resp, s)
                | Fail e => (Fail e, s)
                | Panic => (Panic, s)
                end
          end
      end
  end.

(** ** Properties *)

Lemma sliceToMap_no_fail l sep e : sliceToMap l sep ≠ Fail e.
Proof.
  unfold sliceToMap. apply (foldl_invariant (λ r : res (gmap string string), r ≠ Fail e)); [done|].
  intros [m| |] item _ H; simpl; [|done..]. by destruct (SplitN2 item sep) as [k [v|]].
Qed.

(** The last [KeepLastRecords] records are kept. *)
Lemma keep_record_last r rs :
  length rs ≤ KeepLastRecords opts →
  keep_record r rs = drop (S (length rs) - KeepLastRecords opts) (rs ++ [r]) ∧
  length (keep_record r rs) ≤ KeepLastRecords opts.
Proof.
  intros Hl. unfold keep_record. rewrite length_app. simpl.
  destruct (decide (KeepLastRecords opts = 0)) as [E|E].
  - rewrite E in *. rewrite bool_decide_false by lia. destruct rs; [done|simpl in Hl; lia].
  - rewrite bool_decide_true by lia. case_bool_decide as Hb.
    + replace (S (length rs) - KeepLastRecords opts) with 1 by lia.
      destruct rs as [|x rs]; [simpl in *; lia|]. simpl in *. rewrite length_app. simpl. split; [done|lia].
    + replace (S (length rs) - KeepLastRecords opts) with 0 by lia. rewrite length_app. simpl. split; [done|lia].
Qed.

(** The checks after the start of the action was logged. *)
Definition rejected (req : RunRequest) (s : server) : bool :=
  let eo := GetExecutionOptions req in
  too_few_reruns eo || bool_decide (eo_ReclientTimeout eo ≤ 0)%Z ||
  bool_decide (maxThreads opts ≤ numActiveActions s)%Z.

Lemma logRecord_Ok now lr a s la s' :
  logRecord now lr a s = Ok (la, s') →
  s' = mkServer (Log now lr (la_Status la) (s_Logger s)) (keep_record la (s_records s)) (numActiveActions s)
         (activeActions s) ∧ la_Record la = lr.
Proof. unfold logRecord. intros H. inv_bind. simplify_eq. done. Qed.

Lemma log_round_trip t0 t1 lr st l :
  l_open l = true → lr ∉ open_records l →
  open_records (Log t1 lr st (LogActionStart t0 lr l)) = open_records l ∧
  aggregated (Log t1 lr st (LogActionStart t0 lr l)) = aggregated l ++ [lr].
Proof.
  intros Ho Hl. unfold LogActionStart. rewrite Ho. unfold apply_start. rewrite bool_decide_false by done.
  unfold Log. cbn [l_open]. rewrite Ho. unfold apply_end. cbn [open_records]. rewrite bool_decide_true by set_solver.
  simpl. split; [set_solver|done].
Qed.

Lemma started_open t0 lr l :
  l_open l = true → lr ∉ open_records l →
  lr ∈ open_records (LogActionStart t0 lr l) ∧
  runningActions (LogActionStart t0 lr l) = int32 (runningActions l + 1).
Proof.
  intros Ho Hl. unfold LogActionStart. rewrite Ho. unfold apply_start. rewrite bool_decide_false by done.
  simpl. split; [set_solver|done].
Qed.

Lemma answer_no_fail id lr t1 miss req c s e : answer id lr t1 miss req c s ≠ Fail e.
Proof.
  unfold answer, logRecord.
  destruct (cache_miss miss _) as [a|e'|] eqn:E; simpl; [| |done].
  2:{ unfold cache_miss in E. destruct miss; [|done]. by destruct (a_rOpt _). }
  destruct (run a) as [a'|]; simpl; [|done]. destruct (logged_result a'); simpl; [|done].
  by destruct (a_res a').
Qed.

Lemma answer_Ok id lr t0 t1 miss req c s resp s' :
  l_open (s_Logger s) = true → lr ∉ open_records (s_Logger s) → id ∉ activeActions s →
  length (s_records s) ≤ KeepLastRecords opts →
  answer id lr t1 miss req c (with_Logger (LogActionStart t0 lr) s) = Ok (resp, s') →
  open_records (s_Logger s') = open_records (s_Logger s) ∧
  aggregated (s_Logger s') = aggregated (s_Logger s) ++ [lr] ∧
  numActiveActions s' = numActiveActions s ∧ activeActions s' = activeActions s ∧
  ∃ la, la_Record la = lr ∧
    s_records s' = drop (S (length (s_records s)) - KeepLastRecords opts) (s_records s ++ [la]).
Proof.
  intros Ho Hl Hid Hk H. unfold answer in H. inv_bind. destruct r1 as [la s1]. inv_bind.
  apply logRecord_Ok in Hr1 as [-> Hla]. simplify_eq. cbn [s_Logger s_records numActiveActions activeActions with_Logger].
  destruct (log_round_trip t0 t1 (la_Record la) (la_Status la) (s_Logger s) Ho Hl) as [-> ->].
  split_and!; [done|done|lia|set_solver|]. exists la. split; [done|].
  apply (keep_record_last la (s_records s) Hk).
Qed.

(** C4: how a request ends.  One without a valid command changes nothing.  One
    that is rejected later, because it asks for too few reruns, has no timeout or
    finds too many actions in flight, has already been logged as started and
    never ends: it stays among the running actions for good.  One that is
    answered is logged exactly once, as the last of the records that are kept,
    and leaves the actions in flight as they were. *)
Theorem RunCommand_accounting id lr t0 t1 miss req s :
  l_open (s_Logger s) = true → lr ∉ open_records (s_Logger s) → id ∉ activeActions s →
  length (s_records s) ≤ KeepLastRecords opts →
  let out := RunCommand id lr t0 t1 miss req s in
  (∀ c, req_Command req = Some c → Validate (identify id c) = None → rejected req s = true →
    out.1 = Panic ∨ (∃ e, out.1 = Fail e) ∧ lr ∈ open_records (s_Logger out.2) ∧
      runningActions (s_Logger out.2) = int32 (runningActions (s_Logger s) + 1)) ∧
  (∀ e, out.1 = Fail e →
    out.2 = s ∨ rejected req s = true ∧ out.2 = with_Logger (LogActionStart t0 lr) s) ∧
  (∀ resp, out.1 = Ok resp →
    rejected req s = false ∧
    open_records (s_Logger out.2) = open_records (s_Logger s) ∧
    aggregated (s_Logger out.2) = aggregated (s_Logger s) ++ [lr] ∧
    numActiveActions out.2 = numActiveActions s ∧ activeActions out.2 = activeActions s ∧
    ∃ la, la_Record la = lr ∧
      s_records out.2 = drop (S (length (s_records s)) - KeepLastRecords opts) (s_records s ++ [la])).
Proof.
  intros Ho Hl Hid Hk. cbv zeta. unfold RunCommand.
  destruct (req_Command req) as [c|]; [|split_and!; [done|by left|done]].
  destruct (Validate (identify id c)) as [e|] eqn:Hv; [split_and!; [naive_solver congruence|by left|done]|].
  destruct (if eo_LogEnvironment _ then _ else _) as [env|e|] eqn:Henv;
    [|exfalso; destruct (eo_LogEnvironment _); [by apply sliceToMap_no_fail in Henv|done]|split_and!; [by left|done|done]].
  pose proof (started_open t0 lr (s_Logger s) Ho Hl) as Hs.
  unfold rejected. cbn [numActiveActions with_Logger].
  destruct (too_few_reruns _); [split_and!; eauto; done|].
  destruct (bool_decide (_ ≤ 0)%Z); [split_and!; eauto; done|].
  destruct (bool_decide (maxThreads opts ≤ _)%Z); [split_and!; eauto; done|].
  destruct (answer _ _ _ _ _ _ _) as [[resp s']|e|] eqn:Ha; cbn [fst snd orb].
  - split_and!; [done|done|]. intros _ _. split; [done|]. by apply (answer_Ok _ _ _ _ _ _ _ _ _ _ Ho Hl Hid Hk Ha).
  - by apply answer_no_fail in Ha.
  - by split_and!.
Qed.

End Request.

(** ** A concrete server *)

Definition opts_example (threads : Z) : server_options := {|
  KeepLastRecords := 1; CacheSilo := "silo"; VersionCacheSilo := false; ReclientVersion := "v"; DownloadTmp := "";
  maxThreads := threads |}.

Definition req_example : RunRequest := {|
  req_Command := Some cmd_example; req_Labels := {[ "type" := "tool" ]};
  req_ExecutionOptions := Some {|
    eo_ExecutionStrategy := REMOTE; eo_CompareWithLocal := false; eo_NumLocalReruns := 0; eo_NumRemoteReruns := 0;
    eo_NumRetriesIfMismatched := 0; eo_ReclientTimeout := 3600; eo_LogEnvironment := true;
    eo_IncludeActionLog := true; eo_DownloadRegex := ""; eo_EnableAtomicDownloads := false;
    eo_RemoteExecutionOptions := None; eo_LocalExecutionOptions := None |};
  req_ToolchainInputs := []; req_Environment := ["PATH=/bin"] |}.

Definition run_example (a : action (ctx := ctx_ex)) : option (action (ctx := ctx_ex)) :=
  Some (set_res (Some {| Status := SuccessResultStatus; ExitCode := 0; res_Err := None |}) a).

Definition server_example : server :=
  mkServer newLogger [{| la_Record := 1; la_Result := {| Status := CacheHitResultStatus; ExitCode := 0; res_Err := None |};
                         la_Status := STATUS_CACHE_HIT |}] 0 ∅.

Definition RunCommand_example (threads : Z) : res RunResponse * server :=
  RunCommand (Sdk := sdk_example) (opts_example threads) "linux" (λ _, None) id id "inv" run_example
    (λ _, "status") (λ _, "error") "id" 2 10 20 false req_example server_example.

(** The action that is answered is the record that is kept; the one that is
    refused stays open. *)
Lemma RunCommand_accounting_witness :
  (aggregated (s_Logger (RunCommand_example 5).2) = [2] ∧ open_records (s_Logger (RunCommand_example 5).2) = ∅) ∧
  2 ∈ open_records (s_Logger (RunCommand_example 0).2).
Proof.
  split.
  - destruct (RunCommand_accounting (Sdk := sdk_example) (opts_example 5) "linux" (λ _, None) id id "inv" run_example
      (λ _, "status") (λ _, "error") "id" 2 10 20 false req_example server_example eq_refl
      (not_elem_of_empty 2) (not_elem_of_empty "id") (le_n 1)) as (_ & _ & H).
    destruct (H _ eq_refl) as (_ & Ho & Ha & _). split; [exact Ha|exact Ho].
  - destruct (RunCommand_accounting (Sdk := sdk_example) (opts_example 0) "linux" (λ _, None) id id "inv" run_example
      (λ _, "status") (λ _, "error") "id" 2 10 20 false req_example server_example eq_refl
      (not_elem_of_empty 2) (not_elem_of_empty "id") (le_n 1)) as (H & _ & _).
    destruct (H _ eq_refl eq_refl eq_refl) as [Hp|(_ & Ho & _)]; [discriminate Hp|exact Ho].
Defined.

End Request.
