(* ===== verification/Rewrapper.v ===== *)
(** * The command line client: [internal/pkg/rewrapper], [cmd/rewrapper]

    The client makes a request of a command and its flags, sends it to the
    proxy and ends with the exit code of the command.  The process is a program
    over the calls it makes; the flags are parsed when it begins. *)
From S2P Require Import Prelude GoStrings GoPath GoFloat ArgsScanner Command Action Logger Request GoEffects.
From Stdlib Require Import Ascii.
Import Filepath Effects.

Module Rewrapper.

(** ** Options and requests *)

(** Durations in nanoseconds. *)
Record CommandOptions := {
  CommandID : string;
  InvocationID : string;
  CorrelatedInvocationsID : string;
  ToolName : string;
  Labels : gmap string string;
  ExecRoot : string;
  WorkDir : string;
  OutputFiles : list string;
  OutputDirectories : list string;
  Inputs : list string;
  VirtualInputs : string;
  ToolchainInputs : list string;
  InputListPaths : list string;
  OutputListPaths : list string;
  EnvVarAllowlist : list string;
  ExecTimeout : Z;
  ReclientTimeout : Z;
  ExecStrategy : string;
  Compare : bool;
  Platform : gmap string string;
  RemoteAcceptCache : bool;
  RemoteUpdateCache : bool;
  DownloadOutputs : bool;
  DownloadRegex : string;
  EnableAtomicDownloads : bool;
  LogEnvironment : bool;
  StartTime : Z;
  NumRetriesIfMismatched : Z;
  NumLocalReruns : Z;
  NumRemoteReruns : Z;
  FailOnMismatch : bool;
  LocalWrapper : string;
  RemoteWrapper : string;
  PreserveSymlink : bool;
  CanonicalizeWorkingDir : bool;
  ActionLog : string;
  PreserveUnchangedOutputMtime : bool
}.

Definition with_dirs (o : CommandOptions) (execRoot workDir : string) (lbls : gmap string string) : CommandOptions := {|
  CommandID := CommandID o; InvocationID := InvocationID o; CorrelatedInvocationsID := CorrelatedInvocationsID o;
  ToolName := ToolName o; Labels := lbls; ExecRoot := execRoot; WorkDir := workDir; OutputFiles := OutputFiles o;
  OutputDirectories := OutputDirectories o; Inputs := Inputs o; VirtualInputs := VirtualInputs o;
  ToolchainInputs := ToolchainInputs o; InputListPaths := InputListPaths o; OutputListPaths := OutputListPaths o;
  EnvVarAllowlist := EnvVarAllowlist o; ExecTimeout := ExecTimeout o; ReclientTimeout := ReclientTimeout o;
  ExecStrategy := ExecStrategy o; Compare := Compare o; Platform := Platform o; RemoteAcceptCache := RemoteAcceptCache o;
  RemoteUpdateCache := RemoteUpdateCache o; DownloadOutputs := DownloadOutputs o; DownloadRegex := DownloadRegex o;
  EnableAtomicDownloads := EnableAtomicDownloads o; LogEnvironment := LogEnvironment o; StartTime := StartTime o;
  NumRetriesIfMismatched := NumRetriesIfMismatched o; NumLocalReruns := NumLocalReruns o;
  NumRemoteReruns := NumRemoteReruns o; FailOnMismatch := FailOnMismatch o; LocalWrapper := LocalWrapper o;
  RemoteWrapper := RemoteWrapper o; PreserveSymlink := PreserveSymlink o; CanonicalizeWorkingDir := CanonicalizeWorkingDir o;
  ActionLog := ActionLog o; PreserveUnchangedOutputMtime := PreserveUnchangedOutputMtime o |}.

(** The messages [VirtualInput] and [Command] of the SDK, as they are sent; a
    modification time that is not set is nil. *)
Record VirtualInput := { Path : string; Digest : string; Mtime : option Z; Filemode : Z }.

#[export] Instance VirtualInput_eq_dec : EqDecision VirtualInput.
Proof. solve_decision. Defined.

Record CommandMessage := {
  c_CommandId : string;
  c_InvocationId : string;
  c_CorrelatedInvocationsId : string;
  c_ToolName : string;
  c_ExecRoot : string;
  c_Inputs : list string;
  c_VirtualInputs : list VirtualInput;
  c_EnvironmentVariables : gmap string string;
  c_PreserveSymlinks : bool;
  c_OutputFiles : list string;
  c_OutputDirectories : list string;
  c_Args : list string;
  c_ExecutionTimeout : Z;
  c_WorkingDirectory : string;
  c_Platform : gmap string string
}.

Record RunRequest := {
  Command : CommandMessage;
  r_Labels : gmap string string;
  ExecutionOptions : Request.ProxyExecutionOptions;
  r_ToolchainInputs : list string;
  WrapperOverhead_From : Z;
  Environment : list string
}.

(** The parts of the response that the client reads; the action log counts the
    mismatches. *)
Record RunResponse := { Stdout : string; Stderr : string; ExitCode : option Z; ActionLog_Mismatches : option Z }.

(** ** Virtual inputs *)

Definition empty_input : VirtualInput := {| Path := ""; Digest := ""; Mtime := None; Filemode := 0 |}.

(** One property of a virtual input. *)
Definition set_property (vi : VirtualInput) (fp : string) : res VirtualInput :=
  if HasPrefix fp "path=" then
    Ok {| Path := TrimPrefix fp "path="; Digest := Digest vi; Mtime := Mtime vi; Filemode := Filemode vi |}
  else if HasPrefix fp "digest=" then
    Ok {| Path := Path vi; Digest := TrimPrefix fp "digest="; Mtime := Mtime vi; Filemode := Filemode vi |}
  else if HasPrefix fp "mtime=" then
    let m := TrimPrefix fp "mtime=" in
    let? nanos := (if (m =? "")%string then Ok 0%Z else ParseInt m 10 64) in
    Ok {| Path := Path vi; Digest := Digest vi; Mtime := Some nanos; Filemode := Filemode vi |}
  else if HasPrefix fp "filemode=" then
    let fm := TrimPrefix fp "filemode=" in
    if (fm =? "")%string then Ok vi
    else
      let? filemode := ParseInt fm 8 32 in
      Ok {| Path := Path vi; Digest := Digest vi; Mtime := Mtime vi; Filemode := (filemode mod 2 ^ 32)%Z |}
  else Ok vi.

Fixpoint set_properties (vi : VirtualInput) (l : list string) : res VirtualInput :=
  match l with [] => Ok vi | fp :: l => let? vi := set_property vi fp in set_properties vi l end.

Definition parse_input (file : string) : res VirtualInput :=
  let? vi := set_properties empty_input (Split file ",") in
  if (Path vi =? "")%string || (Digest vi =? "")%string
  then Fail (EMsg "invalid format provided for virtual input. path and digest are required") else Ok vi.

Fixpoint parse_inputs (files : list string) : res (list VirtualInput) :=
  match files with
  | [] => Ok []
  | file :: files =>
      if (file =? "")%string then parse_inputs files
      else let? vi := parse_input file in let? l := parse_inputs files in Ok (vi :: l)
  end.

Definition parseVirtualInputs (viFlag : string) : res (list VirtualInput) :=
  if (viFlag =? "")%string then Ok [] else parse_inputs (Split viFlag ";").

(** ** Making the request *)

Section request.

(** [os.ReadFile], [os.Getenv] and [os.Environ]. *)
Variables (ReadFile : string → res string) (Getenv : string → string) (Environ : list string).

Definition envVars (allowlist : list string) : gmap string string :=
  foldl (λ vars v, <[v := Getenv v]> vars) ∅ allowlist.

(** The paths of list files, after those of the flag. *)
Fixpoint add_lists (acc : list string) (paths : list string) : res (list string) :=
  match paths with
  | [] => Ok acc
  | p :: paths => let? more := Parse ReadFile p in add_lists (acc ++ more) paths
  end.

(** [int32(d.Seconds())]; the conversion of a number of seconds that is out of
    range is left to the machine by the language. *)
Definition seconds32 (d : Z) : Z := int32 (int64_of_float (Logger.Logger.Seconds d)).

(** [ppb.ExecutionStrategy_Value_value] *)
Definition strategy_value (s : string) : option Action.ExecutionStrategy :=
  if (s =? "UNSPECIFIED")%string then Some Action.UNSPECIFIED
  else if (s =? "LOCAL")%string then Some Action.LOCAL
  else if (s =? "REMOTE")%string then Some Action.REMOTE
  else if (s =? "REMOTE_LOCAL_FALLBACK")%string then Some Action.REMOTE_LOCAL_FALLBACK
  else if (s =? "RACING")%string then Some Action.RACING
  else None.

Definition strategy_of (opts : CommandOptions) : Action.ExecutionStrategy :=
  default Action.UNSPECIFIED (strategy_value (ToUpper (ExecStrategy opts))).

(** [DoNotCache] of the remote options: not set for local actions, which would
    never find their results in the cache. *)
Definition rDnc (opts : CommandOptions) : bool :=
  match strategy_of opts with
  | Action.LOCAL => if negb (RemoteUpdateCache opts) then false else negb (RemoteUpdateCache opts)
  | _ => negb (RemoteUpdateCache opts)
  end.

Definition execution_options (opts : CommandOptions) : Request.ProxyExecutionOptions := {|
  Request.eo_ExecutionStrategy := strategy_of opts;
  Request.eo_CompareWithLocal := Compare opts;
  Request.eo_NumLocalReruns := int32 (NumLocalReruns opts);
  Request.eo_NumRemoteReruns := int32 (NumRemoteReruns opts);
  Request.eo_NumRetriesIfMismatched := int32 (NumRetriesIfMismatched opts);
  Request.eo_ReclientTimeout := seconds32 (ReclientTimeout opts);
  Request.eo_LogEnvironment := LogEnvironment opts;
  Request.eo_IncludeActionLog := negb (ActionLog opts =? "")%string || (Compare opts && FailOnMismatch opts);
  Request.eo_DownloadRegex := DownloadRegex opts;
  Request.eo_EnableAtomicDownloads := EnableAtomicDownloads opts;
  Request.eo_RemoteExecutionOptions := Some {|
    Action.ro_AcceptCached := RemoteAcceptCache opts;
    Action.ro_DoNotCache := rDnc opts;
    Action.ro_DownloadOutputs := DownloadOutputs opts;
    Action.ro_PreserveUnchangedOutputMtime := PreserveUnchangedOutputMtime opts;
    Action.ro_Wrapper := RemoteWrapper opts;
    Action.ro_CanonicalizeWorkingDir := CanonicalizeWorkingDir opts |};
  Request.eo_LocalExecutionOptions := Some {|
    Action.lo_AcceptCached := RemoteAcceptCache opts;
    Action.lo_DoNotCache := negb (RemoteUpdateCache opts);
    Action.lo_Wrapper := LocalWrapper opts |} |}.

Definition command_message (cmd : list string) (opts : CommandOptions) (inputs outputs : list string)
    (virtualinputs : list VirtualInput) : CommandMessage := {|
  c_CommandId := CommandID opts; c_InvocationId := InvocationID opts;
  c_CorrelatedInvocationsId := CorrelatedInvocationsID opts; c_ToolName := ToolName opts;
  c_ExecRoot := ExecRoot opts; c_Inputs := inputs; c_VirtualInputs := virtualinputs;
  c_EnvironmentVariables := envVars (EnvVarAllowlist opts); c_PreserveSymlinks := PreserveSymlink opts;
  c_OutputFiles := outputs; c_OutputDirectories := OutputDirectories opts; c_Args := cmd;
  c_ExecutionTimeout := seconds32 (ExecTimeout opts); c_WorkingDirectory := WorkDir opts;
  c_Platform := Platform opts |}.

Definition createRequest (cmd : list string) (opts : CommandOptions) : res RunRequest :=
  let? inputs := add_lists (Inputs opts) (InputListPaths opts) in
  let? outputs := add_lists (OutputFiles opts) (OutputListPaths opts) in
  let? virtualinputs := parseVirtualInputs (VirtualInputs opts) in
  Ok {| Command := command_message cmd opts inputs outputs virtualinputs;
        r_Labels := Labels opts;
        ExecutionOptions := execution_options opts;
        r_ToolchainInputs := ToolchainInputs opts;
        WrapperOverhead_From := StartTime opts;
        Environment := Environ |}.

(** ** The process *)

Inductive call :=
  | Start (cmd : list string)
  | Wait
  | Exists (addr : string)
  | Dial (addr : string)
  | Getwd
  | EvalSymlinks (path : string)
  | Since (t : Z)
  | Send (r : RunRequest)
  | WriteFile (path : string).

(** [Wait] answers with the exit code, if the process ended with an error. *)
Definition answer (c : call) : Type :=
  match c with
  | Start _ => option error
  | Wait => option Z
  | Exists _ => bool
  | Dial _ => option error
  | Getwd => res string
  | EvalSymlinks _ => res string
  | Since _ => Z
  | Send _ => res RunResponse
  | WriteFile _ => option error
  end.

#[local] Notation prog := (prog answer).

(** The end of the process: its exit code and what it printed of the
    response. *)
Record outcome := { code : Z; out : string; err : string }.

Definition exit (n : Z) : prog outcome := Ret {| code := n; out := ""; err := "" |}.
(** [log.Exitf] and [log.Exit]. *)
Definition Exitf : prog outcome := exit 1.

(** What is retried: the proxy gets no more calls once the time is over. *)
Definition attempt (st dialTimeout : Z) (req : RunRequest) : prog (res RunResponse) :=
  Call (Since st) (λ d, if (dialTimeout <? d)%Z
                       then Ret (Fail (EMsg "dial_timeout expired before being able to connect to reproxy"))
                       else Call (Send req) Ret).

(** [retry.WithPolicy] of the SDK runs the attempt until it succeeds or fails
    for good; [shouldRetry] is part of it. *)
Variable WithPolicy : prog (res RunResponse) → prog (res RunResponse).

Definition RunCommand (st dialTimeout : Z) (cmd : list string) (opts : CommandOptions) : prog (res RunResponse) :=
  match createRequest cmd opts with
  | Ok req => WithPolicy (attempt st dialTimeout req)
  | Fail e => Ret (Fail e)
  | Panic => Ret Panic
  end.

Definition execStrategies : list string := ["local"; "remote"; "remote_local_fallback"; "racing"].
Definition execStrategyValid (opts : CommandOptions) : bool := mem (ExecStrategy opts) execStrategies.

(** Offline mode.  The error that is looked at after the wait is the one of the
    start. *)
Definition offline (cmd : list string) : prog outcome :=
  Call (Start cmd) (λ r, match r with
  | Some _ => exit 1
  | None => Call Wait (λ _, exit 0)
  end).

(** [filepath.Abs] *)
Definition Abs (path : string) : prog (res string) :=
  if IsAbs path then Ret (Ok (Clean path)) else Call Getwd (λ wd, Ret (let? wd := wd in Ok (Join [wd; path]))).

(** The exec root, the directory of the command under it and the labels. *)
Definition set_dirs (wd : string) (opts : CommandOptions) : prog (option CommandOptions) :=
  let execRoot := if (ExecRoot opts =? "")%string then wd else ExecRoot opts in
  (if IsAbs execRoot then Ret (Ok execRoot) else Abs execRoot) ≫= λ execRoot,
  Ret match execRoot with
      | Ok execRoot =>
          let lbls := if bool_decide (Labels opts = ∅) then {[ "type" := "tool" ]} else Labels opts in
          match Rel execRoot wd with
          | Ok workDir => if HasPrefix workDir ".." then None else Some (with_dirs opts execRoot workDir lbls)
          | _ => None
          end
      | _ => None
      end.

(** What is left to do with a response. *)
Definition finish (opts : CommandOptions) (resp : RunResponse) : prog outcome :=
  let ending :=
    if FailOnMismatch opts &&
       match ActionLog_Mismatches resp with Some n => (0 <? n)%Z | None => false end
    then Exitf
    else Ret {| code := default 0%Z (ExitCode resp); out := Stdout resp; err := Stderr resp |} in
  if negb (ActionLog opts =? "")%string && bool_decide (is_Some (ActionLog_Mismatches resp))
  then Call (WriteFile (ActionLog opts)) (λ _, ending) else ending.

Definition connected (st dialTimeout : Z) (cmd : list string) (opts : CommandOptions) : prog outcome :=
  Call Getwd (λ wd, match wd with
  | Ok wd => Call (EvalSymlinks wd) (λ wd, match wd with
      | Ok wd =>
          set_dirs wd opts ≫= λ o,
          match o with
          | None => Exitf
          | Some opts =>
              if (NumRemoteReruns opts <? 0)%Z || (NumLocalReruns opts <? 0)%Z then Exitf
              else RunCommand st dialTimeout cmd opts ≫= λ r,
                   match r with Ok resp => finish opts resp | _ => Exitf end
          end
      | _ => Exitf
      end)
  | _ => Exitf
  end).

Definition main (st dialTimeout : Z) (offlineMode : bool) (serverAddr : string) (cmd : list string)
    (opts : CommandOptions) : prog outcome :=
  match cmd with
  | [] => Exitf
  | _ =>
      if offlineMode then offline cmd
      else if negb (execStrategyValid opts) then Exitf
      else if FailOnMismatch opts && negb (Compare opts) then Exitf
      else if (serverAddr =? "")%string then Exitf
      else Call (Exists serverAddr) (λ b,
        if negb b then exit 1
        else Call (Dial serverAddr) (λ r, match r with
             | Some _ => Exitf
             | None => connected st dialTimeout cmd opts
             end))
  end.

End request.

(** ** Directories *)

(** A process whose working directory is not absolute does not exist. *)
Definition getwd_absolute (tr : list (event answer)) : Prop :=
  ∀ wd, Event Getwd (Ok wd) ∈ tr → IsAbs wd = true.

Lemma set_dirs_spec wd opts tr o :
  IsAbs wd = true → getwd_absolute tr → exec (set_dirs wd opts) tr (Some o) →
  Join [ExecRoot o; WorkDir o] = Clean wd ∧ IsAbs (ExecRoot o) = true ∧ HasPrefix (WorkDir o) ".." = false ∧ Labels o ≠ ∅.
Proof.
  intros Hwd Hg H. unfold set_dirs in H. apply exec_bind in H as (r & t1 & t2 & -> & H1 & [-> H]).
  set (er := if (ExecRoot opts =? "")%string then wd else ExecRoot opts) in *.
  destruct r as [er'|?|]; [|done..].
  assert (IsAbs er' = true) as Habs.
  { destruct (IsAbs er) eqn:E; [destruct H1 as [_ [= ->]]; exact E|]. unfold Abs in H1. rewrite E in H1.
    destruct H1 as (a & t & -> & -> & Ha). destruct a as [wd'|?|]; [|done..]. injection Ha as ->.
    apply IsAbs_Join2, Hg. rewrite app_nil_r. by apply list_elem_of_singleton. }
  destruct (Join_Rel er' wd Habs Hwd) as (wk & E & _ & Hj). rewrite E in H.
  destruct (HasPrefix wk "..") eqn:Hp; [done|]. injection H as ->. simpl. split; [done|]. split; [done|]. split; [done|].
  case_bool_decide; [apply insert_non_empty|done].
Qed.

(** ** What the proxy is asked *)

(** The strategy is one that the proxy knows, the action has labels, its
    directory is under the exec root, the reruns are not negative; a local
    action can be found in the remote cache, and nothing is uploaded when the
    flag says so. *)
Definition valid_request (opts : CommandOptions) (r : RunRequest) : Prop :=
  let eo := ExecutionOptions r in
  Request.eo_ExecutionStrategy eo ≠ Action.UNSPECIFIED ∧ r_Labels r ≠ ∅ ∧
  HasPrefix (c_WorkingDirectory (Command r)) ".." = false ∧
  (0 ≤ Request.eo_NumLocalReruns eo)%Z ∧ (0 ≤ Request.eo_NumRemoteReruns eo)%Z ∧
  (Request.eo_ExecutionStrategy eo = Action.LOCAL →
   (Action.ro_DoNotCache <$> Request.eo_RemoteExecutionOptions eo) = Some false) ∧
  Action.GetDoNotCache (Request.eo_LocalExecutionOptions eo) = negb (RemoteUpdateCache opts) ∧
  (RemoteUpdateCache opts = true →
   (Action.ro_DoNotCache <$> Request.eo_RemoteExecutionOptions eo) = Some false).

Definition sends (P : RunRequest → Prop) (c : call) : Prop := match c with Send r => P r | _ => True end.

Section client.

Variables (ReadFile : string → res string) (Getenv : string → string) (Environ : list string).
Variable WithPolicy : prog answer (res RunResponse) → prog answer (res RunResponse).

(** The retries only make the calls of what they retry, and their success is
    that of one attempt. *)
Context (WithPolicy_calls : ∀ P p, all_calls P p → all_calls P (WithPolicy p)).
Context (WithPolicy_Ok : ∀ p tr x, exec (WithPolicy p) tr (Ok x) →
  ∃ t1 t2 t3, tr = t1 ++ t2 ++ t3 ∧ exec p t2 (Ok x)).

Lemma strategy_known opts : execStrategyValid opts = true → strategy_of opts ≠ Action.UNSPECIFIED.
Proof.
  unfold execStrategyValid, strategy_of. rewrite mem_spec. unfold execStrategies.
  rewrite !elem_of_cons, elem_of_nil. by intros [->|[->|[->|[->|[]]]]].
Qed.

Lemma createRequest_valid opts o cmd r :
  createRequest ReadFile Getenv Environ cmd o = Ok r → execStrategyValid opts = true →
  (∃ er wd lbls, o = with_dirs opts er wd lbls ∧ HasPrefix wd ".." = false ∧ lbls ≠ ∅) →
  (0 ≤ NumLocalReruns opts < 2 ^ 31)%Z → (0 ≤ NumRemoteReruns opts < 2 ^ 31)%Z →
  valid_request opts r.
Proof.
  intros H Hs (er & wd & lbls & -> & Hwd & Hl) H1 H2. unfold createRequest in H. inv_bind. subst r.
  unfold valid_request. simpl. rewrite !int32_small by lia.
  assert (strategy_of (with_dirs opts er wd lbls) = strategy_of opts) as -> by done.
  pose proof (strategy_known _ Hs) as Hk. split_and!; try done; try lia.
  - unfold rDnc. change (strategy_of (with_dirs opts er wd lbls)) with (strategy_of opts). intros ->.
    by destruct (RemoteUpdateCache (with_dirs opts er wd lbls)).
  - unfold rDnc. change (RemoteUpdateCache (with_dirs opts er wd lbls)) with (RemoteUpdateCache opts). intros ->.
    by destruct (strategy_of _).
Qed.

Lemma set_dirs_rets wd opts :
  all_rets (λ r, match r with
    | Some o => ∃ er wk lbls, o = with_dirs opts er wk lbls ∧ HasPrefix wk ".." = false ∧ lbls ≠ ∅ | None => True end)
    (set_dirs wd opts).
Proof.
  unfold set_dirs. apply (all_rets_bind (λ _, True)).
  { destruct (IsAbs _) eqn:E; [exact I|]. unfold Abs. rewrite E. by intros x. }
  intros [er|e|] _; try done. cbn [all_rets]. destruct (Rel er wd) as [wk|e|]; [|done..].
  destruct (HasPrefix wk "..") eqn:Hp; [done|]. eexists er, wk, _. split; [done|]. split; [done|].
  case_bool_decide; [apply insert_non_empty|done].
Qed.

Lemma set_dirs_calls P wd opts : (∀ c, (∀ r, c ≠ Send r) → P c) → all_calls P (set_dirs wd opts).
Proof.
  intros HP. unfold set_dirs. apply all_calls_bind; [|by intros [?|?|]].
  destruct (IsAbs _) eqn:E; [exact I|]. unfold Abs. rewrite E. split; [by apply HP|]. by intros x.
Qed.

Notation client_main := (main ReadFile Getenv Environ WithPolicy).


(** C14: online, the client ends with success only when the proxy answered a
    request with success, without mismatches when those are to fail it; what
    it prints is what the proxy answered. *)
Theorem main_success st dialTimeout serverAddr cmd opts tr o :
  exec (client_main st dialTimeout false serverAddr cmd opts) tr o → code o = 0%Z →
  ∃ r resp, Event (Send r) (Ok resp) ∈ tr ∧ default 0%Z (ExitCode resp) = 0%Z ∧
    out o = Stdout resp ∧ err o = Stderr resp ∧
    (FailOnMismatch opts = true → ∀ n, ActionLog_Mismatches resp = Some n → (n ≤ 0)%Z).
Proof.
  clear WithPolicy_calls. intros H Hc. unfold main, Exitf, exit in H. destruct cmd as [|x cmd]; [by destruct H as [_ ->]|].
  destruct (negb _); [by destruct H as [_ ->]|]. destruct (_ && _); [by destruct H as [_ ->]|].
  destruct (_ =? _)%string; [by destruct H as [_ ->]|]. destruct H as ([] & t1 & -> & H); [|by destruct H as [_ ->]].
  destruct H as ([e|] & t2 & -> & H); [by destruct H as [_ ->]|]. unfold connected, Exitf, exit in H.
  destruct H as ([wd|e|] & t3 & -> & H); [|by destruct H as [_ ->]..].
  destruct H as ([wd'|e|] & t4 & -> & H); [|by destruct H as [_ ->]..].
  apply exec_bind in H as (r & t5 & t6 & -> & H5 & H).
  pose proof (all_rets_exec _ _ _ _ (set_dirs_rets wd' opts) H5) as Hr.
  destruct r as [opts'|]; [|by destruct H as [_ ->]]. destruct (_ || _); [by destruct H as [_ ->]|].
  apply exec_bind in H as ([resp|e|] & t7 & t8 & -> & H7 & H); [|by destruct H as [_ ->]..].
  unfold RunCommand in H7. destruct (createRequest _ _ _ _ _) as [req|e|]; [|by destruct H7..].
  apply WithPolicy_Ok in H7 as (u1 & u2 & u3 & -> & d & u4 & -> & H7). destruct (_ <? _)%Z; [by destruct H7|].
  destruct H7 as (a & u5 & -> & -> & <-). exists req, resp.
  split; [set_solver|]. destruct Hr as (er & wk & lbls & -> & _). unfold finish, Exitf, exit in H.
  change (FailOnMismatch (with_dirs opts er wk lbls)) with (FailOnMismatch opts) in H.
  set (fails := FailOnMismatch opts && _) in H.
  assert (exec (if fails then Ret {| code := 1; out := ""; err := "" |}
    else Ret {| code := default 0%Z (ExitCode resp); out := Stdout resp; err := Stderr resp |} : prog answer outcome) [] o) as Ho.
  { destruct (_ && bool_decide _); [destruct H as (_ & t9 & _ & H)|]; destruct fails; destruct H as [_ ->]; done. }
  destruct fails eqn:Ef; destruct Ho as [_ ->]; [done|]. split; [exact Hc|]. split; [done|]. split; [done|].
  intros Hf n En. subst fails. rewrite Hf, En in Ef. by apply Z.ltb_ge in Ef.
Qed.

End client.

(** ** Virtual inputs *)

(** A virtual input as it is written on the command line: its path, its digest,
    its time in nanoseconds if it has one, and its mode in octal, "" for none. *)
Record vi_text := { t_path : string; t_digest : string; t_mtime : option Z; t_mode : string }.

Definition no_sep (s : string) : Prop := contains_char "," s = false ∧ contains_char ";" s = false.

Definition fields_of (x : vi_text) : list string :=
  ["path=" +:+ t_path x; "digest=" +:+ t_digest x] ++
  match t_mtime x with Some n => ["mtime=" +:+ Itoa n] | None => [] end ++ ["filemode=" +:+ t_mode x].

Definition text_of (x : vi_text) : string := GoStrings.Join (fields_of x) ",".

(** It can be read as [m]. *)
Definition reads (x : vi_text) (vi : VirtualInput) : Prop :=
  t_path x ≠ "" ∧ t_digest x ≠ "" ∧ no_sep (t_path x) ∧ no_sep (t_digest x) ∧ no_sep (t_mode x) ∧
  Path vi = t_path x ∧ Digest vi = t_digest x ∧ Mtime vi = t_mtime x ∧
  (∀ n, t_mtime x = Some n → (0 ≤ n < 2 ^ 63)%Z) ∧
  if (t_mode x =? "")%string then Filemode vi = 0%Z
  else ParseInt (t_mode x) 8 32 = Ok (Filemode vi) ∧ (0 ≤ Filemode vi)%Z.

Lemma digits_no_char c s : is_digit c = false → str_forallb is_digit s = true → contains_char c s = false.
Proof.
  intros Hc. induction s as [|a s IH]; [done|]. cbn [str_forallb contains_char]. intros [Ha Hs]%andb_prop.
  rewrite IH by done. destruct (Ascii.eqb_spec a c) as [->|]; [by rewrite Hc in Ha|done].
Qed.

Lemma Itoa_no_sep n : (0 ≤ n)%Z → no_sep (Itoa n).
Proof. intros H. pose proof (dec_digits_digits 19 n H). by split; apply digits_no_char. Qed.

Lemma fields_no_sep x vi : reads x vi → Forall no_sep (fields_of x).
Proof.
  intros (_ & _ & Hp & Hd & Hm & _ & _ & _ & Ht & _). unfold fields_of, no_sep in *.
  repeat (constructor; [rewrite !contains_char_app; split; simpl; naive_solver|]).
  destruct (t_mtime x) as [n|]; simpl; repeat constructor; rewrite !contains_char_app; simpl; try naive_solver.
  all: apply Itoa_no_sep; specialize (Ht n eq_refl); lia.
Qed.

Lemma text_no_semicolon x vi : reads x vi → contains_char ";" (text_of x) = false.
Proof.
  intros H%fields_no_sep. unfold text_of. induction H as [|f l [_ Hf] Hl IH]; [done|].
  destruct l as [|g l]; [done|]. rewrite Join_cons by done. by rewrite !contains_char_app, Hf, IH.
Qed.

Lemma parse_digits_nonneg base m acc s v : (0 ≤ base → 0 ≤ acc → parse_digits base m acc s = Ok v → 0 ≤ v)%Z.
Proof.
  intros Hb. revert acc. induction s as [|a s IH]; intros acc Ha; simpl; [by intros [= <-]|].
  destruct (digit_value a) as [d|] eqn:E; [|done]. assert (0 ≤ d)%Z as Hd.
  { unfold digit_value in E. repeat case_match; simplify_eq. apply andb_prop in H as [?%Nat.leb_le _]. lia. }
  destruct (_ <=? _)%Z; [done|]. destruct (_ <? _)%Z; [done|]. apply IH. nia.
Qed.

Lemma ParseInt_lt s base bits z : (0 ≤ base)%Z → (0 < bits)%Z → ParseInt s base bits = Ok z → (0 ≤ z → z < 2 ^ bits)%Z.
Proof.
  intros Hb0 Hb. unfold ParseInt. set (x := match s with EmptyString => (false, s) | _ => _ end). destruct x as [neg ds].
  destruct (ds =? "")%string; [done|]. destruct (parse_digits _ _ _ _) as [v|e|] eqn:E; [|done..].
  apply parse_digits_nonneg in E; [|done..].
  assert (2 ^ bits = 2 * 2 ^ (bits - 1))%Z as Hp by (rewrite <- Z.pow_succ_r by lia; f_equal; lia).
  pose proof (Z.pow_pos_nonneg 2 (bits - 1)). destruct neg; [destruct (Z.leb_spec v (2 ^ (bits - 1)))|destruct (Z.ltb_spec v (2 ^ (bits - 1)))];
    intros [= <-]; lia.
Qed.

Lemma set_mode vi s r :
  (if (s =? "")%string then Filemode r = 0%Z else ParseInt s 8 32 = Ok (Filemode r) ∧ (0 ≤ Filemode r)%Z) →
  Filemode vi = 0%Z →
  set_property vi ("filemode=" +:+ s) = Ok {| Path := Path vi; Digest := Digest vi; Mtime := Mtime vi; Filemode := Filemode r |}.
Proof.
  intros H H0. unfold set_property. change (HasPrefix ("filemode=" +:+ s) "path=") with false.
  change (HasPrefix ("filemode=" +:+ s) "digest=") with false. change (HasPrefix ("filemode=" +:+ s) "mtime=") with false.
  rewrite HasPrefix_app, TrimPrefix_app. cbv zeta iota. destruct (s =? "")%string.
  - rewrite H, <- H0. by destruct vi.
  - destruct H as [E Hp]. rewrite E. cbn [mbind res_bind]. repeat f_equal. apply Z.mod_small. split; [done|].
    by apply (ParseInt_lt s 8 32).
Qed.

Lemma set_time vi n :
  (0 ≤ n < 2 ^ 63)%Z →
  set_property vi ("mtime=" +:+ Itoa n) = Ok {| Path := Path vi; Digest := Digest vi; Mtime := Some n; Filemode := Filemode vi |}.
Proof.
  intros H. unfold set_property. change (HasPrefix ("mtime=" +:+ Itoa n) "path=") with false.
  change (HasPrefix ("mtime=" +:+ Itoa n) "digest=") with false. rewrite HasPrefix_app, TrimPrefix_app. cbv zeta iota.
  destruct (Itoa n =? "")%string eqn:E; [|by rewrite ParseInt_Itoa]. apply String.eqb_eq in E.
  by apply (dec_digits_nonempty 19 n) in E.
Qed.

Lemma parse_input_text x vi : reads x vi → parse_input (text_of x) = Ok vi.
Proof.
  intros H. pose proof (fields_no_sep _ _ H) as Hf. destruct H as (Hp & Hd & _ & _ & _ & E1 & E2 & E3 & Ht & Hm).
  unfold parse_input, text_of. rewrite Split_Join; [|done|eapply Forall_impl; [exact Hf|]; by intros ? []].
  unfold fields_of. cbn [app set_properties]. unfold set_property at 1. rewrite HasPrefix_app, TrimPrefix_app.
  cbn [mbind res_bind]. unfold set_property at 1. change (HasPrefix ("digest=" +:+ t_digest x) "path=") with false.
  rewrite HasPrefix_app, TrimPrefix_app. cbn [mbind res_bind Path Digest Mtime Filemode empty_input].
  destruct vi as [vp vd vt vm]; simpl in *. subst vp vd.
  apply String.eqb_neq in Hp, Hd. destruct (t_mtime x) as [n|]; subst vt; cbn [app set_properties].
  - rewrite set_time by by apply Ht. cbn [mbind res_bind]. rewrite (set_mode _ _ (Build_VirtualInput "" "" None vm)) by done.
    simpl. by rewrite Hp, Hd.
  - rewrite (set_mode _ _ (Build_VirtualInput "" "" None vm)) by done. simpl. by rewrite Hp, Hd.
Qed.

(** Virtual inputs written on the command line, with their times and their
    modes where they have them, are read back as they were, in order. *)
Theorem parseVirtualInputs_texts xs vis :
  Forall2 reads xs vis → parseVirtualInputs (GoStrings.Join (text_of <$> xs) ";") = Ok vis.
Proof.
  intros H. unfold parseVirtualInputs. destruct H as [|x vi xs vis Hx H]; [done|].
  assert (∀ x vi, reads x vi → text_of x ≠ "") as Hne.
  { intros y vy Hy E. apply parse_input_text in Hy. by rewrite E in Hy. }
  set (l := text_of <$> (x :: xs)).
  assert (Forall2 reads (x :: xs) (vi :: vis)) as Hall by by constructor.
  assert (Split (GoStrings.Join l ";") ";" = l) as El.
  { apply Split_Join; [done|]. subst l. apply Forall_fmap. apply Forall_forall. intros y (i & Hi)%list_elem_of_lookup.
    destruct (Forall2_lookup_l _ _ _ _ _ Hall Hi) as (vy & _ & Hy). by eapply text_no_semicolon. }
  destruct (GoStrings.Join l ";" =? "")%string eqn:E.
  { apply String.eqb_eq in E. rewrite E in El. subst l. simpl in El. injection El as El _. by destruct (Hne _ _ Hx). }
  rewrite El. subst l. clear E El Hx H. induction Hall as [|y vy ys vys Hy _ IH]; [done|]. cbn [fmap list_fmap parse_inputs].
  rewrite (proj2 (String.eqb_neq _ _) (Hne _ _ Hy)), (parse_input_text _ _ Hy). cbn [mbind res_bind].
  change (list_fmap vi_text string text_of ys) with (text_of <$> ys). by rewrite IH.
Qed.

(** ** On a concrete system *)

Module Concrete.

Definition opts : CommandOptions := {|
  CommandID := "id"; InvocationID := ""; CorrelatedInvocationsID := ""; ToolName := ""; Labels := ∅; ExecRoot := "/src";
  WorkDir := ""; OutputFiles := ["out/a.o"]; OutputDirectories := []; Inputs := ["a.c"];
  VirtualInputs := "path=v,digest=d/1,mtime=5;path=w,digest=e/2,filemode=644"; ToolchainInputs := [];
  InputListPaths := ["in.rsp"]; OutputListPaths := []; EnvVarAllowlist := ["LANG"]; ExecTimeout := 90000000000;
  ReclientTimeout := 3600000000000; ExecStrategy := "local"; Compare := true; Platform := ∅; RemoteAcceptCache := true;
  RemoteUpdateCache := false; DownloadOutputs := true; DownloadRegex := ""; EnableAtomicDownloads := true;
  LogEnvironment := false; StartTime := 7; NumRetriesIfMismatched := 0; NumLocalReruns := 1; NumRemoteReruns := 1;
  FailOnMismatch := true; LocalWrapper := ""; RemoteWrapper := ""; PreserveSymlink := false; CanonicalizeWorkingDir := false;
  ActionLog := ""; PreserveUnchangedOutputMtime := false |}.

Definition ReadFile (p : string) : res string :=
  if (p =? "in.rsp")%string then Ok "'b.h' c.h" else Fail ENotExist.
Definition Getenv (k : string) : string := "C".

(** A system whose proxy answers with a number of mismatches. *)
Definition system (mismatches : Z) (c : call) (s : unit) : answer c * unit :=
  (match c as c return answer c with
   | Start _ => None
   | Wait => Some 3%Z
   | Exists _ => true
   | Dial _ => None
   | Getwd => Ok "/src/out"
   | EvalSymlinks p => Ok p
   | Since _ => 0%Z
   | Send _ => Ok {| Stdout := "done"; Stderr := ""; ExitCode := Some 0%Z; ActionLog_Mismatches := Some mismatches |}
   | WriteFile _ => None
   end, tt).

(** Retries that make one attempt. *)
Definition once (p : prog answer (res RunResponse)) : prog answer (res RunResponse) := p.

Lemma once_calls (P : call → Prop) p : all_calls P p → all_calls P (once p).
Proof. done. Qed.

Lemma once_Ok p tr x : exec (once p) tr (Ok x) → ∃ t1 t2 t3, tr = t1 ++ t2 ++ t3 ∧ exec p t2 (Ok x).
Proof. intros H. exists [], tr, []. by rewrite app_nil_r. Qed.

Definition client (offlineMode : bool) (mismatches : Z) : outcome * list (event answer) * unit :=
  run (system mismatches) (main ReadFile Getenv [] once 0 100 offlineMode "unix:///s" ["cc"; "-c"; "a.c"] opts) tt.

Definition is_send (e : event answer) : option RunRequest := match ev_call e with Send r => Some r | _ => None end.
Definition sent (tr : list (event answer)) : list RunRequest := omap is_send tr.

Example client_ends :
  (client false 0).1.1 = {| code := 0; out := "done"; err := "" |} ∧ code (client false 2).1.1 = 1%Z.
Proof. split; vm_compute; reflexivity. Qed.

(** A local action that is not to be cached: the remote options do not say so,
    the local ones do. *)
Example client_request :
  (λ r, (c_Inputs (Command r), c_VirtualInputs (Command r), c_WorkingDirectory (Command r), c_ExecutionTimeout (Command r))) <$>
    sent (client false 0).1.2 =
  [(["a.c"; "b.h"; "c.h"],
    [{| Path := "v"; Digest := "d/1"; Mtime := Some 5%Z; Filemode := 0 |};
     {| Path := "w"; Digest := "e/2"; Mtime := None; Filemode := 420 |}], "out", 90%Z)].
Proof. vm_compute. reflexivity. Qed.

(** Offline, a command that fails ends the client with success. *)
Example offline_failure_lost : (client true 0).1.1 = {| code := 0; out := ""; err := "" |}.
Proof. vm_compute. reflexivity. Qed.

(** A strategy of the flag is taken in lower case; the values of the protocol are
    in upper case. *)
Example strategies :
  execStrategyValid opts = true ∧ strategy_of opts = Action.LOCAL ∧ strategy_value "local" = None.
Proof. split_and!; reflexivity. Qed.

End Concrete.


Lemma main_success_witness :
  ∃ r resp, Event (answer := answer) (Send r) (Ok resp) ∈ (Concrete.client false 0).1.2 ∧ default 0%Z (ExitCode resp) = 0%Z ∧
    "done" = Stdout resp.
Proof.
  destruct (main_success Concrete.ReadFile Concrete.Getenv [] Concrete.once Concrete.once_Ok 0 100 "unix:///s" ["cc"; "-c"; "a.c"] Concrete.opts
    (Concrete.client false 0).1.2 (Concrete.client false 0).1.1 (run_exec _ _ _) eq_refl) as (r & resp & H1 & H2 & H3 & _).
  exists r, resp. split; [exact H1|]. split; [exact H2|exact H3].
Defined.

Lemma parseVirtualInputs_texts_witness :
  parseVirtualInputs "path=v,digest=d/1,mtime=5,filemode=;path=w,digest=e/2,filemode=644" =
  Ok [{| Path := "v"; Digest := "d/1"; Mtime := Some 5%Z; Filemode := 0 |};
      {| Path := "w"; Digest := "e/2"; Mtime := None; Filemode := 420 |}].
Proof.
  apply (parseVirtualInputs_texts
    [{| t_path := "v"; t_digest := "d/1"; t_mtime := Some 5%Z; t_mode := "" |};
     {| t_path := "w"; t_digest := "e/2"; t_mtime := None; t_mode := "644" |}]).
  constructor; [|constructor; [|constructor]]; repeat split; try discriminate; simpl; try (injection H as <-); lia.
Defined.

End Rewrapper.
