(* ===== verification/Machines.v ===== *)
(** * The machines of an experiment: [experiments/internal/pkg/vm],
      [experiments/internal/pkg/gcs]

    A machine is one that is created for the experiment, or a workstation that is
    there already.  Everything that is done to it is a command that runs
    somewhere: the functions are programs over the calls that they make. *)
From S2P Require Import Prelude GoStrings GoEffects.
From Stdlib Require Import Ascii.
Import Effects.

Module Machines.

(** ** Calls

    [Exec] gives the combined output, or the error of a command that failed. *)
Inductive syscall :=
  | Exec (args : list string)
  | Sleep (seconds : Z)
  | MkdirTemp (pattern : string)
  | Mkdir (path : string)
  | RemoveAll (path : string)
  | FindBinary (pkg name : string)
  | ReadFile (path : string)
  (** [os.CreateTemp], [Write] and [Close] *)
  | CreateScript (dir pattern content : string).

Definition answer (c : syscall) : Type :=
  match c with
  | Exec _ | MkdirTemp _ | ReadFile _ | CreateScript _ _ _ => error + string
  | Mkdir _ | RemoveAll _ => option error
  | Sleep _ => unit
  | FindBinary _ _ => option string
  end.

Notation prog := (prog answer).

(** Go on after a success.  [Panic] stands for a call of [log.Fatal], too: it ends
    the process. *)
Definition andthen {A B} (p : prog (res A)) (k : A → prog (res B)) : prog (res B) :=
  p ≫= λ r, match r with Ok a => k a | Fail e => Ret (Fail e) | Panic => Ret Panic end.

Notation "'let^' x := p 'in' k" := (andthen p (λ x, k))
  (at level 100, x pattern, p at level 100, k at level 200, right associativity) : go_scope.

Definition fails {A} (msg : string) : prog (res A) := Ret (Fail (EMsg msg)).

(** A command whose failure is reported with a message of its own. *)
Definition exec_or (msg : string) (args : list string) : prog (res string) :=
  call (Exec args) ≫= λ r, Ret (match r with inl _ => Fail (EMsg msg) | inr oe => Ok oe end).

(** ** Settings *)

Record VMSettings := {
  zone : string;
  machine_type : string;
  image : string;
  image_project : string;
  image_os : Z;
  creation_flags : list string;
  system_disk_size : string;
  disk_image : string;
  disk_image_project : string;
  disk_type : string;
  ssh_key_path : string;
  ssh_user : string
}.

Record WSSettings := { address : string; ws_ssh_user : string; ws_ssh_key_path : string; use_sudo : bool }.

(** The [oneof] of a configuration. *)
Inductive settings := VmSettings (s : VMSettings) | WsSettings (s : WSSettings).

Record VM := { name : string; diskName : string; project : string; machine : settings }.

Definition safe_char (a : ascii) : bool :=
  let n := nat_of_ascii a in
  ((65 <=? n)%nat && (n <=? 90)%nat) || ((97 <=? n)%nat && (n <=? 122)%nat) || is_digit a || Ascii.eqb a "-".

Definition sanitizeName (name : string) : string :=
  ToLower (str_map (λ a, if safe_char a then a else "-"%char) name).

(** A configuration without settings is fatal. *)
Definition NewMachine (name project : string) (s : option settings) : res VM :=
  match s with
  | Some (VmSettings v) => Ok {| name := sanitizeName name; diskName := ""; project := project; machine := VmSettings v |}
  | Some (WsSettings w) => Ok {| name := address w; diskName := ""; project := project; machine := WsSettings w |}
  | None => Panic
  end.

Definition WINDOWS : Z := 1.

Definition mergeVal (base v : string) : string := if (v =? "")%string then base else v.
Definition mergeValEnum (base v : Z) : Z := if (v =? 0)%Z then base else v.

(** What the run says replaces what the base says; settings of different kinds
    are fatal.  The size of the system disk and the use of sudo stay those of the
    base. *)
Definition MergeSettings (base run : option settings) : res (option settings) :=
  match base, run with
  | None, _ => Panic
  | Some b, None => Ok (Some b)
  | Some (VmSettings b), Some (VmSettings r) => Ok (Some (VmSettings {|
      zone := mergeVal (zone b) (zone r);
      machine_type := mergeVal (machine_type b) (machine_type r);
      image := mergeVal (image b) (image r);
      image_project := mergeVal (image_project b) (image_project r);
      image_os := mergeValEnum (image_os b) (image_os r);
      creation_flags := creation_flags b ++ creation_flags r;
      system_disk_size := system_disk_size b;
      disk_image := mergeVal (disk_image b) (disk_image r);
      disk_image_project := mergeVal (disk_image_project b) (disk_image_project r);
      disk_type := mergeVal (disk_type b) (disk_type r);
      ssh_key_path := mergeVal (ssh_key_path b) (ssh_key_path r);
      ssh_user := mergeVal (ssh_user b) (ssh_user r) |}))
  | Some (WsSettings b), Some (WsSettings r) => Ok (Some (WsSettings {|
      address := mergeVal (address b) (address r);
      ws_ssh_user := mergeVal (ws_ssh_user b) (ws_ssh_user r);
      ws_ssh_key_path := mergeVal (ws_ssh_key_path b) (ws_ssh_key_path r);
      use_sudo := use_sudo b |}))
  | _, _ => Panic
  end.

(** ** Command lines *)

Definition gcePrefix (v : VM) : list string := ["gcloud"; "compute"; "--project=" +:+ project v].

Definition sshUser (v : VM) : string :=
  let u := match machine v with VmSettings s => ssh_user s | WsSettings s => ws_ssh_user s end in
  if (u =? "")%string then "" else u +:+ "@".

Definition sshKey (v : VM) : list string :=
  match machine v with
  | VmSettings s => if (ssh_key_path s =? "")%string then [] else ["--ssh-key-file=" +:+ ssh_key_path s]
  | WsSettings s => if (ws_ssh_key_path s =? "")%string then [] else ["-i" +:+ ws_ssh_key_path s]
  end.

Definition appendProxyArgs (cmd : list string) (proxyCmd : string) : list string :=
  if (proxyCmd =? "")%string then cmd else cmd ++ ["-o"; "ProxyCommand=" +:+ proxyCmd].

Definition sshPrefix (v : VM) : list string :=
  match machine v with
  | VmSettings s =>
      appendProxyArgs (gcePrefix v ++ ["ssh"; "--ssh-flag=-tt"; sshUser v +:+ name v; "--zone=" +:+ zone s] ++ sshKey v ++ ["--"]) ""
  | WsSettings _ => ["ssh"; sshUser v +:+ name v] ++ sshKey v
  end.

Definition scpPrefix (v : VM) : list string :=
  match machine v with
  | VmSettings s => gcePrefix v ++ ["scp"; "--zone=" +:+ zone s] ++ sshKey v ++ ["--"]
  | WsSettings _ => "scp" :: sshKey v
  end.

Definition IsVM (v : VM) : bool := match machine v with VmSettings _ => true | WsSettings _ => false end.

Definition Sudo (v : VM) (cmd : string) : string :=
  match machine v with
  | VmSettings _ => "sudo " +:+ cmd
  | WsSettings s => if use_sudo s then "sudo " +:+ cmd else cmd
  end.

(** ** What is done to a machine *)

Definition RunCommand (v : VM) (args : list string) : prog (res string) :=
  exec_or "failed to run command" (sshPrefix v ++ [Join args " "]).

(** The shell expands the names of files. *)
Definition bash (msg : string) (args : list string) : prog (res unit) :=
  let^ _ := exec_or msg ["/bin/bash"; "-c"; Join args " "] in Ret (Ok tt).

Definition remote (v : VM) (path : string) : string := sshUser v +:+ name v +:+ ":" +:+ path.

Definition CopyFilesToVM (v : VM) (src dest : string) : prog (res unit) :=
  bash "failed to copy files to VM" (scpPrefix v ++ [src; remote v dest]).

Definition CopyFilesFromVM (v : VM) (src dest : string) : prog (res unit) :=
  bash "failed to copy files from VM" (scpPrefix v ++ [remote v src; dest]).

Definition create_args (v : VM) (s : VMSettings) : list string :=
  gcePrefix v ++ ["instances"; "create"; name v; "--zone=" +:+ zone s; "--image=" +:+ image s;
    "--scopes=https://www.googleapis.com/auth/cloud-platform,https://www.googleapis.com/auth/userinfo.email";
    "--image-project=" +:+ image_project s; "--machine-type=" +:+ machine_type s;
    "--create-disk=name=" +:+ name v +:+ "-source-disk" +:+ ",image=" +:+ disk_image s +:+ ",image-project=" +:+
      disk_image_project s +:+ ",type=" +:+ (if (disk_type s =? "")%string then "pd-ssd" else disk_type s)] ++
  creation_flags s.

(** A step that is only done when something is configured. *)
Definition when (b : bool) (p : prog (res unit)) : prog (res unit) := if b then p else Ret (Ok tt).

Definition set (s : string) : bool := negb (s =? "")%string.

Definition discard {A} (p : prog (res A)) : prog (res unit) := let^ _ := p in Ret (Ok tt).

(** The machine comes back with the name of its disk. *)
Definition CreateWithDisk (v : VM) : prog (res VM) :=
  match machine v with
  | WsSettings _ => Ret (Ok v)
  | VmSettings s =>
      if negb (set (image s)) && negb (set (image_project s)) then fails "no boot image configuration found" else
      if negb (set (disk_image s)) && negb (set (disk_image_project s)) then fails "no disk image configuration found" else
      let^ _ := exec_or "failed to create VM" (create_args v s) in
      let^ _ := when (set (ssh_user s)) (discard (exec_or "failed to change VM metadata"
        (gcePrefix v ++ ["instances"; "add-metadata"; name v; "--zone=" +:+ zone s; "--metadata"; "enable-oslogin=false"]))) in
      let^ _ := when (set (system_disk_size s)) (discard (exec_or "failed to resize system disk size of VM"
        (gcePrefix v ++ ["disks"; "resize"; name v; "--size=" +:+ system_disk_size s; "--zone=" +:+ zone s; "--quiet"]))) in
      Ret (Ok {| name := name v; diskName := name v +:+ "-source-disk"; project := project v; machine := machine v |})
  end.

Fixpoint wait_rounds (v : VM) (seconds : list Z) : prog (res unit) :=
  match seconds with
  | [] => fails "VM did not startup in time"
  | i :: seconds =>
      call (Sleep i) ≫= λ _, RunCommand v ["echo"; "Hello"] ≫= λ r,
      match r with Ok _ => Ret (Ok tt) | Fail _ => wait_rounds v seconds | Panic => Ret Panic end
  end.

Definition waitUntilUp (v : VM) : prog (res unit) := wait_rounds v [10; 30; 60; 120]%Z.

Definition mountLinux (v : VM) : prog (res unit) :=
  let^ _ := RunCommand v ["sudo"; "mkdir"; "-p"; "/img"] in
  discard (RunCommand v ["sudo"; "mount"; "-o"; "discard,defaults"; "/dev/sdb"; "/img"]).

(** The disk of a Windows machine is there already. *)
Definition mountWin (v : VM) : prog (res unit) := Ret (Ok tt).

Definition Mount (v : VM) : prog (res unit) :=
  match machine v with
  | WsSettings _ => Ret (Ok tt)
  | VmSettings s =>
      if negb (set (disk_image s)) && negb (set (disk_image_project s)) then fails "no disk configuration found" else
      let^ _ := waitUntilUp v in
      if (image_os s =? WINDOWS)%Z then mountWin v else mountLinux v
  end.

Definition ImageDisk (v : VM) : prog (res unit) :=
  match machine v with
  | WsSettings _ => Ret (Ok tt)
  | VmSettings s =>
      if negb (set (disk_image s)) && negb (set (disk_image_project s)) then fails "no disk configuration found" else
      discard (exec_or "failed to create disk" (gcePrefix v ++ ["images"; "create"; name v +:+ "-" +:+ disk_image s;
        "--zone=" +:+ zone s; "--source-disk=" +:+ diskName v; "--source-disk-zone=" +:+ zone s]))
  end.

Definition delete_args (v : VM) (s : VMSettings) : list string :=
  gcePrefix v ++ ["instances"; "delete"; name v; "--zone=" +:+ zone s].

Definition Delete (v : VM) (dryRun : bool) : prog (res string) :=
  match machine v with
  | WsSettings _ => Ret (Ok "")
  | VmSettings s =>
      let^ _ := when (negb dryRun) (discard (exec_or "failed to delete VM" (delete_args v s))) in
      Ret (Ok (Join (delete_args v s) " "))
  end.

(** ** Storage *)

Definition gcs_Copy (src dest : string) : prog (res unit) :=
  discard (exec_or "failed to copy files" ["gcloud"; "storage"; "cp"; src; dest]).

Definition deleteEmpty (s : list string) : list string := filter (λ str, str ≠ "") s.

Definition gcs_List (dir : string) : prog (res (list string)) :=
  let^ oe := exec_or "failed to list dir" ["gcloud"; "storage"; "ls"; dir] in
  Ret (Ok (deleteEmpty (Split oe "010"))).

(** ** Which commands make and delete machines *)

Definition machine_command (what : string) (c : syscall) (n : string) : Prop :=
  match c with
  | Exec (a :: b :: _ :: d :: w :: m :: _) => a = "gcloud" ∧ b = "compute" ∧ d = "instances" ∧ w = what ∧ m = n
  | _ => False
  end.

Definition creates : syscall → string → Prop := machine_command "create".
Definition deletes : syscall → string → Prop := machine_command "delete".

Definition quiet (c : syscall) : Prop := ∀ n, ¬ creates c n ∧ ¬ deletes c n.

(** The call creates no other machine, and deletes none. *)
Definition creates_only (v : VM) (c : syscall) : Prop := ∀ n, (creates c n → n = name v ∧ IsVM v) ∧ ¬ deletes c n.

(** *** Calls along a program *)

Lemma all_calls_andthen {A B} P (p : prog (res A)) (k : A → prog (res B)) :
  all_calls P p → (∀ a, all_calls P (k a)) → all_calls P (andthen p k).
Proof. intros Hp Hk. apply all_calls_bind; [done|]. intros [a|err|]; [apply Hk|done|done]. Qed.

Lemma all_calls_exec_or P msg args : P (Exec args) → all_calls P (exec_or msg args).
Proof. intros H. apply all_calls_bind; [by split|done]. Qed.

Lemma all_calls_discard {A} P (p : prog (res A)) : all_calls P p → all_calls P (discard p).
Proof. intros H. by apply all_calls_andthen. Qed.

Lemma all_calls_when P b p : all_calls P p → all_calls P (when b p).
Proof. by destruct b. Qed.

Lemma quiet_no_exec c : match c with Exec _ => False | _ => True end → quiet c.
Proof. intros H n. destruct c; [done|..]; split; by intros []. Qed.

Lemma quiet_other a args : a ≠ "gcloud" → quiet (Exec (a :: args)).
Proof.
  intros Ha n. unfold creates, deletes, machine_command.
  split; destruct args as [|b [|c [|d [|w [|m args]]]]]; try (by intros []); by intros (? & _).
Qed.

Lemma quiet_ssh v l : quiet (Exec (sshPrefix v ++ l)).
Proof.
  unfold sshPrefix. destruct (machine v); [|by apply quiet_other].
  intros n. unfold creates, deletes, machine_command. split; simpl; by intros (_ & _ & ? & _).
Qed.

Lemma quiet_storage args : quiet (Exec ("gcloud" :: "storage" :: args)).
Proof.
  intros n. unfold creates, deletes, machine_command.
  split; destruct args as [|c [|d [|w [|m args]]]]; try (by intros []); by intros (_ & ? & _).
Qed.

Lemma RunCommand_quiet v args : all_calls quiet (RunCommand v args).
Proof. apply all_calls_exec_or, quiet_ssh. Qed.

Lemma CopyFilesToVM_quiet v src dest : all_calls quiet (CopyFilesToVM v src dest).
Proof. apply all_calls_andthen; [|done]. by apply all_calls_exec_or, quiet_other. Qed.

Lemma CopyFilesFromVM_quiet v src dest : all_calls quiet (CopyFilesFromVM v src dest).
Proof. apply all_calls_andthen; [|done]. by apply all_calls_exec_or, quiet_other. Qed.

Lemma gcs_Copy_quiet src dest : all_calls quiet (gcs_Copy src dest).
Proof. apply all_calls_discard, all_calls_exec_or, quiet_storage. Qed.

Lemma Mount_quiet v : all_calls quiet (Mount v).
Proof.
  unfold Mount. destruct (machine v); [|done]. destruct (_ && _); [done|]. apply all_calls_andthen.
  - unfold waitUntilUp. generalize [10; 30; 60; 120]%Z as l. induction l as [|i l IH]; [done|].
    split; [by apply quiet_no_exec|]. intros x. apply all_calls_bind; [apply RunCommand_quiet|]. by intros [|?|].
  - intros _. destruct (_ =? _)%Z; [done|]. unfold mountLinux.
    apply all_calls_andthen; [apply RunCommand_quiet|]. intros _. apply all_calls_discard, RunCommand_quiet.
Qed.

Lemma CreateWithDisk_creates v : all_calls (creates_only v) (CreateWithDisk v).
Proof.
  unfold CreateWithDisk. destruct (machine v) as [s|s] eqn:Em; [|done]. destruct (_ && _); [done|]. destruct (_ && _); [done|].
  apply all_calls_andthen; [|intros _; apply all_calls_andthen; [apply all_calls_when, all_calls_discard|intros _;
    apply all_calls_andthen; [apply all_calls_when, all_calls_discard|done]]]; apply all_calls_exec_or; intros n; unfold creates, deletes, machine_command, IsVM; rewrite Em; simpl; split; try done;
    by intros (? & ? & ? & ? & ?).
Qed.

Lemma CreateWithDisk_same v : all_rets (λ r, match r with Ok v' => name v' = name v ∧ machine v' = machine v | _ => True end) (CreateWithDisk v).
Proof.
  unfold CreateWithDisk. destruct (machine v) eqn:Em; [|done]. destruct (_ && _); [done|]. destruct (_ && _); [done|].
  unfold andthen. eapply (all_rets_bind (λ _, True)); [by intros []|]. intros [|?|] _; [|done..].
  eapply (all_rets_bind (λ _, True)); [destruct (set _); [by intros []|done]|]. intros [|?|] _; [|done..].
  eapply (all_rets_bind (λ _, True)); [destruct (set _); [by intros []|done]|]. by intros [|?|] _.
Qed.

(** The deletion of a machine that was created is a call for its name. *)
Lemma Delete_deletes v tr r :
  IsVM v → exec (Delete v false) tr r → Exists (λ ev, deletes (ev_call ev) (name v)) tr.
Proof.
  unfold Delete, IsVM. destruct (machine v) as [s|]; [|done]. intros _ H.
  destruct H as (x & tr' & -> & _). by constructor.
Qed.

End Machines.
