(* ===== verification/Experiment.v ===== *)
(** * Experiments: [experiments/internal/pkg/experiment]

    An experiment builds on several machines and keeps the results.  A
    configuration is that of the base with what a run adds; a run makes a
    directory for each machine, starts the machines, copies the inputs, builds as
    often as asked and fetches the outputs.  The functions that run on all
    machines at once run here one after the other, in any order: what they do to
    different machines does not meet.  The polling of a log while a script runs is
    left out. *)
From S2P Require Import Prelude GoStrings GoPath GoEffects Machines.
From Stdlib Require Import Ascii.
Import Filepath Effects Machines.

Module Experiment.

Definition nl : string := String "010" "".
Definition dquote : string := String "034" "".

(** ** Configurations *)

Record Input := { Source : string; Destination : string; VmDirect : bool }.
Record Environment := { Key : string; Value : string }.
Notation Command := (list string).

Record RunConfiguration := {
  rc_Name : string;
  MachineSettings : option settings;
  ReclientBinPath : string;
  ReclientDestination : string;
  NumMachines : Z;
  Inputs : list Input;
  SetupCommands : list Command;
  PreBuildCommands : list Command;
  PostBuildCommands : list Command;
  EnvironmentVars : list Environment;
  BuildCommand : option Command;
  Outputs : list string;
  TeardownCommands : list Command
}.

Definition mergeValUint32 (base v : Z) : Z := if (v =? 0)%Z then base else v.

(** The inner loop: every variable of that name gets the value. *)
Definition set_value (r e : Environment) : Environment :=
  if (Key e =? Key r)%string then {| Key := Key e; Value := Value r |} else e.

Definition merge_step (e : list Environment) (r : Environment) : list Environment :=
  let e' := set_value r <$> e in
  if existsb (λ b, (Key b =? Key r)%string) e then e' else e' ++ [r].

Definition mergeEnvironments (base run : list Environment) : list Environment :=
  match run, base with
  | [], _ => base
  | _, [] => run
  | _, _ => foldl merge_step base run
  end.

Definition applyConfig (base run : RunConfiguration) : res RunConfiguration :=
  let? ms := MergeSettings (MachineSettings base) (MachineSettings run) in
  Ok {|
    rc_Name := rc_Name run;
    MachineSettings := ms;
    ReclientBinPath := mergeVal (ReclientBinPath base) (ReclientBinPath run);
    ReclientDestination := mergeVal (ReclientDestination base) (ReclientDestination run);
    NumMachines := mergeValUint32 (NumMachines base) (NumMachines run);
    Inputs := Inputs base ++ Inputs run;
    SetupCommands := SetupCommands base ++ SetupCommands run;
    PreBuildCommands := PreBuildCommands base ++ PreBuildCommands run;
    PostBuildCommands := PostBuildCommands base ++ PostBuildCommands run;
    EnvironmentVars := mergeEnvironments (EnvironmentVars base) (EnvironmentVars run);
    BuildCommand := match BuildCommand run with Some c => Some c | None => BuildCommand base end;
    Outputs := Outputs base ++ Outputs run;
    TeardownCommands := TeardownCommands base ++ TeardownCommands run |}.

(** ** Scripts *)

Definition logFile : string := "/tmp/exp.log".
Definition timeFile : string := "/tmp/time.txt".
Definition trialFile : string := "/tmp/trial.txt".
Definition outDir : string := "outputs".
Definition reclientDir : string := "reclient".

Definition exportEnv (key value : string) : string :=
  "export " +:+ key +:+ "=" +:+ value +:+ nl +:+
  "echo " +:+ key +:+ "=${" +:+ key +:+ "} >> " +:+ logFile +:+ nl.

Definition exportEnvironmentVariables (expName : string) (rc : RunConfiguration) : string :=
  exportEnv "EXPNAME" expName +:+ exportEnv "RCNAME" (rc_Name rc) +:+
  exportEnv "RECLIENT_BIN_PATH" (ReclientBinPath rc) +:+ exportEnv "RECLIENT_DESTINATION" (ReclientDestination rc) +:+
  String.concat "" ((λ e, exportEnv (Key e) (Value e)) <$> EnvironmentVars rc).

Definition note (what text : string) : string :=
  "echo " +:+ dquote +:+ "`date`: " +:+ what +:+ ": " +:+ text +:+ dquote +:+ " >> " +:+ logFile +:+ nl.

Definition shell_header : string :=
  "#!/bin/bash" +:+ nl +:+ "set -e" +:+ nl +:+ "touch " +:+ logFile +:+ nl +:+ "chmod 666 " +:+ logFile +:+ nl +:+
  "touch " +:+ timeFile +:+ nl +:+ "chmod 666 " +:+ timeFile +:+ nl.

Definition has_su (cmd : Command) : bool := mem "su" cmd.

(** A command of the setup, which a change of the user makes longer. *)
Definition setup_args (cmd : Command) : Command := if has_su cmd then cmd ++ ["<<'EOSU'"] else cmd.

Definition setup_command (cmd : Command) : string :=
  let text := GoStrings.Join (setup_args cmd) " " in note "Will run" text +:+ text +:+ nl +:+ note "Finished" text.

Definition su_end (cmds : list Command) : string := if existsb has_su cmds then "EOSU" +:+ nl else "".

Definition setupScript_text (expName : string) (rc : RunConfiguration) : string :=
  shell_header +:+ "echo 0 > " +:+ trialFile +:+ nl +:+ "chmod 666 " +:+ trialFile +:+ nl +:+
  exportEnvironmentVariables expName rc +:+
  String.concat "" (setup_command <$> SetupCommands rc) +:+ su_end (SetupCommands rc).

(** A command before or after the build. *)
Definition build_step (cmd : Command) : string :=
  let text := GoStrings.Join cmd " " in
  let toAppend := if has_su cmd then "<<'EOSU'" else " >> " +:+ logFile +:+ " 2>&1 " in
  note "Will run" text +:+ text +:+ toAppend +:+ nl +:+ note "Finished" text.

(** Without a command to build the script cannot be made. *)
Definition buildScript_text (expName : string) (rc : RunConfiguration) : res string :=
  let? build := or_panic (BuildCommand rc) in
  let text := GoStrings.Join build " " in
  Ok (shell_header +:+ exportEnvironmentVariables expName rc +:+
      "trial=$(cat " +:+ trialFile +:+ ")" +:+ nl +:+ exportEnv "TRIAL" "${trial}" +:+
      "trial=$((trial + 1))" +:+ nl +:+ "echo ${trial} > " +:+ trialFile +:+ nl +:+
      String.concat "" (build_step <$> PreBuildCommands rc) +:+
      "START=`date +%s`" +:+ nl +:+ note "Will run" text +:+ text +:+ " >> " +:+ logFile +:+ " 2>&1 " +:+ nl +:+
      note "Finished" text +:+ "END=`date +%s`" +:+ nl +:+
      "echo " +:+ dquote +:+ "$((($END-$START)))s" +:+ dquote +:+ " > " +:+ timeFile +:+ nl +:+
      String.concat "" (build_step <$> PostBuildCommands rc) +:+
      su_end (PreBuildCommands rc ++ PostBuildCommands rc)).

(** ** The experiment *)

Record experiment := {
  exp_name : string;
  base_configuration : RunConfiguration;
  run_configurations : list RunConfiguration;
  num_trials : nat;
  baseDir : string;
  gcpProject : string;
  date : string;
  resBucket : string
}.

Record state := {
  vms : gmap string VM;
  tmpDir : gmap string string;
  runConfigs : gmap string RunConfiguration;
  setupScripts : gmap string string;
  buildScripts : gmap string string
}.

Definition initial : state :=
  {| vms := ∅; tmpDir := ∅; runConfigs := ∅; setupScripts := ∅; buildScripts := ∅ |}.

Definition with_vms (v : gmap string VM) (s : state) : state :=
  {| vms := v; tmpDir := tmpDir s; runConfigs := runConfigs s; setupScripts := setupScripts s; buildScripts := buildScripts s |}.
Definition with_config (n d : string) (rc : RunConfiguration) (s : state) : state :=
  {| vms := vms s; tmpDir := <[n := d]> (tmpDir s); runConfigs := <[n := rc]> (runConfigs s);
     setupScripts := setupScripts s; buildScripts := buildScripts s |}.
Definition with_setupScript (n p : string) (s : state) : state :=
  {| vms := vms s; tmpDir := tmpDir s; runConfigs := runConfigs s; setupScripts := <[n := p]> (setupScripts s);
     buildScripts := buildScripts s |}.
Definition with_buildScript (n p : string) (s : state) : state :=
  {| vms := vms s; tmpDir := tmpDir s; runConfigs := runConfigs s; setupScripts := setupScripts s;
     buildScripts := <[n := p]> (buildScripts s) |}.

Definition names {A} (m : gmap string A) : list string := (map_to_list m).*1.

Section run.

Variable e : experiment.
(** The order in which a loop over a map, or the goroutines of the machines, go. *)
Variable order : list string → list string.

(** A call whose error is reported as it is. *)
Definition checked (c : option error) : res unit := match c with Some e => Fail e | None => Ok tt end.

Definition mkdir (p : string) : prog (res unit) := call (Mkdir p) ≫= λ r, Ret (checked r).

(** A phase that changes the state gives it back in every case. *)
Definition phase : Type := state → prog (res unit * state).

Definition then_ (p q : phase) : phase := λ s,
  p s ≫= λ r, match r.1 with Ok _ => q r.2 | _ => Ret r end.

(** A phase that leaves the state as it is. *)
Definition reading (p : state → prog (res unit)) : phase := λ s, p s ≫= λ r, Ret (r, s).

(** *** Directories *)

Definition numbered (rc : RunConfiguration) (i : nat) : RunConfiguration :=
  {| rc_Name := rc_Name rc +:+ "-" +:+ Itoa (Z.of_nat i); MachineSettings := MachineSettings rc;
     ReclientBinPath := ReclientBinPath rc; ReclientDestination := ReclientDestination rc;
     NumMachines := (if (NumMachines rc =? 0)%Z then 1%Z else NumMachines rc); Inputs := Inputs rc;
     SetupCommands := SetupCommands rc; PreBuildCommands := PreBuildCommands rc; PostBuildCommands := PostBuildCommands rc;
     EnvironmentVars := EnvironmentVars rc; BuildCommand := BuildCommand rc; Outputs := Outputs rc;
     TeardownCommands := TeardownCommands rc |}.

Definition prep_one (rc : RunConfiguration) (i : nat) : phase := λ s,
  call (MkdirTemp (exp_name e)) ≫= λ r,
  match r with
  | inl err => Ret (Fail err, s)
  | inr dest =>
      match applyConfig (base_configuration e) (numbered rc i) with
      | Ok rc =>
          let s := with_config (rc_Name rc) dest rc s in
          (let^ _ := mkdir (Join [dest; outDir]) in mkdir (Join [dest; reclientDir])) ≫= λ r, Ret (r, s)
      | Fail err => Ret (Fail err, s)
      | Panic => Ret (Panic, s)
      end
  end.

Definition for_all {A} (f : A → phase) (l : list A) : phase :=
  foldr (λ a p, then_ (f a) p) (λ s, Ret (Ok tt, s)) l.

Definition machines_of (rc : RunConfiguration) : nat := if (NumMachines rc =? 0)%Z then 1 else Z.to_nat (NumMachines rc).

Definition prepRCs : phase :=
  for_all (λ rc, for_all (prep_one rc) (seq 0 (machines_of rc))) (run_configurations e).

(** *** On all machines

    All run, and the first error is that of the group. *)
Definition first_error (r1 r2 : res unit) : res unit :=
  match r1, r2 with Panic, _ => Panic | Ok _, _ => r2 | Fail _, Panic => Panic | Fail _, _ => r1 end.

Fixpoint on_each (f : RunConfiguration → phase) (rcs : list RunConfiguration) : phase := λ s,
  match rcs with
  | [] => Ret (Ok tt, s)
  | rc :: rcs =>
      f rc s ≫= λ r,
      match r.1 with
      | Panic => Ret r
      | _ => on_each f rcs r.2 ≫= λ r', Ret (first_error r.1 r'.1, r'.2)
      end
  end.

Definition runOnConfigs (f : RunConfiguration → phase) : phase := λ s,
  on_each f (omap (λ n, runConfigs s !! n) (order (names (runConfigs s)))) s.

Definition rcID (rc : RunConfiguration) : string := exp_name e +:+ "-" +:+ date e +:+ "-" +:+ rc_Name rc.

(** The machine is known before it is created. *)
Definition start_one (rc : RunConfiguration) : phase := λ s,
  match NewMachine (rcID rc) (gcpProject e) (MachineSettings rc) with
  | Ok v =>
      let s := with_vms (<[rc_Name rc := v]> (vms s)) s in
      CreateWithDisk v ≫= λ r,
      match r with
      | Ok v => Mount v ≫= λ r, Ret (r, with_vms (<[rc_Name rc := v]> (vms s)) s)
      | Fail err => Ret (Fail err, s)
      | Panic => Ret (Panic, s)
      end
  | Fail err => Ret (Fail err, s)
  | Panic => Ret (Panic, s)
  end.

Definition startVMs : phase := runOnConfigs start_one.

(** A function that needs the machine of the configuration. *)
Definition with_vm (rc : RunConfiguration) (f : VM → prog (res unit)) : phase :=
  reading (λ s, match vms s !! rc_Name rc with
                | Some v => f v
                | None => fails "could not find VM for run configuration"
                end).

Definition bucket (rc : RunConfiguration) : string :=
  "gs://" +:+ resBucket e +:+ "/" +:+ exp_name e +:+ "_" +:+ date e +:+ "/" +:+ rc_Name rc.

(** *** Inputs *)

Fixpoint retried (n : nat) (p : prog (res string)) : prog (res unit) :=
  match n with
  | O => fails "Error downloading input on remote machine"
  | S n => p ≫= λ r, match r with Ok _ => Ret (Ok tt) | Fail _ => retried n p | Panic => Ret Panic end
  end.

Definition copy_input (rc : RunConfiguration) (v : VM) (input : Input) : prog (res unit) :=
  let src := Join [baseDir e; Source input] in
  if VmDirect input then CopyFilesToVM v src (Destination input) else
  let gcsDest := bucket rc +:+ "/inputs/" +:+ Base (Destination input) in
  gcs_Copy src gcsDest ≫= λ _,
  let^ _ := retried 5 (RunCommand v ["gcloud"; "storage"; "cp"; gcsDest; Destination input]) in
  discard (RunCommand v ["chmod"; "+755"; Destination input]).

Fixpoint in_turn {A} (f : A → prog (res unit)) (l : list A) : prog (res unit) :=
  match l with [] => Ret (Ok tt) | a :: l => let^ _ := f a in in_turn f l end.

Definition copyInputs : phase :=
  runOnConfigs (λ rc, with_vm rc (λ v, in_turn (copy_input rc v) (Inputs rc))).

(** *** The binaries of the client *)

Definition reclientBinaries : list string := ["cmd/bootstrap"; "cmd/dumpstats"; "cmd/reproxy"; "cmd/rewrapper"].

Fixpoint find_binaries (bls : list string) : prog (res (list string)) :=
  match bls with
  | [] => Ret (Ok [])
  | bl :: bls =>
      call (FindBinary bl (default "" (Split bl "/" !! 1))) ≫= λ r,
      match r with
      | None => fails "Reclient binary not found"
      | Some p => let^ ps := find_binaries bls in Ret (Ok (p :: ps))
      end
  end.

Definition storage_path (path : string) : string :=
  let path := if HasPrefix path "gs://" then path else "gs://" +:+ path in
  if HasSuffix path "/*" then path else path +:+ "/*".

Definition copyReclientBinaries (path dest : string) : prog (res unit) :=
  if (path =? "local")%string
  then let^ ps := find_binaries reclientBinaries in in_turn (λ p, gcs_Copy p dest) ps
  else gcs_Copy (storage_path path) dest.

(** The directory is that of the configuration, empty without one. *)
Definition dir_of (rc : RunConfiguration) (s : state) : string := default "" (tmpDir s !! rc_Name rc).

Definition install (rc : RunConfiguration) (dest : string) (v : VM) : prog (res unit) :=
  let d := ReclientDestination rc in
  let^ _ := RunCommand v [Sudo v ("rm -rf " +:+ d) +:+ " && " +:+ Sudo v ("mkdir " +:+ d) +:+ " && " +:+
                          Sudo v ("chmod -R 777 " +:+ d)] in
  let^ _ := CopyFilesToVM v (dest +:+ "/*") d in
  discard (RunCommand v [Sudo v ("chmod -R 777 " +:+ d)]).

Definition download_one (rc : RunConfiguration) : phase := λ s,
  if (ReclientBinPath rc =? "")%string then Ret (Ok tt, s) else
  let dest := Join [dir_of rc s; reclientDir] in
  then_ (reading (λ _, copyReclientBinaries (ReclientBinPath rc) dest)) (with_vm rc (install rc dest)) s.

Definition downloadReclient : phase := runOnConfigs download_one.

(** *** Scripts on the machines *)

Definition write_script (pattern : string) (text : res string) (rc : RunConfiguration) (s : state) : prog (res string) :=
  match text with
  | Ok t => call (CreateScript (dir_of rc s) pattern t) ≫= λ r, Ret (match r with inl err => Fail err | inr p => Ok p end)
  | Fail err => Ret (Fail err)
  | Panic => Ret Panic
  end.

(** A script is written once for a configuration. *)
Definition script_once (old : state → gmap string string) (keep : string → string → state → state)
    (pattern : string) (text : RunConfiguration → res string) (rc : RunConfiguration) : phase := λ s,
  match old s !! rc_Name rc with
  | Some _ => Ret (Ok tt, s)
  | None =>
      write_script pattern (text rc) rc s ≫= λ r,
      Ret (match r with Ok p => (Ok tt, keep (rc_Name rc) p s) | Fail err => (Fail err, s) | Panic => (Panic, s) end)
  end.

Definition run_script (script : string) (v : VM) : prog (res unit) :=
  let base := Base script in
  let^ _ := CopyFilesToVM v script base in
  let^ _ := RunCommand v ["chmod +x " +:+ base] in
  discard (RunCommand v ["./" +:+ base]).

Definition runScripts (scripts : state → gmap string string) : phase :=
  runOnConfigs (λ rc s, with_vm rc (run_script (default "" (scripts s !! rc_Name rc))) s).

Definition on_maps (f : RunConfiguration → phase) : phase := λ s,
  for_all f (omap (λ n, runConfigs s !! n) (order (names (runConfigs s)))) s.

Definition runSetup : phase :=
  then_ (on_maps (script_once setupScripts with_setupScript "setup-*.sh" (λ rc, Ok (setupScript_text (exp_name e) rc))))
        (runScripts setupScripts).

Definition runBuilds : phase :=
  then_ (on_maps (script_once buildScripts with_buildScript "build-*.sh" (buildScript_text (exp_name e))))
        (runScripts buildScripts).

(** *** Outputs *)

Fixpoint all_ignored {A} (f : A → prog (res unit)) (l : list A) : prog (res unit) :=
  match l with
  | [] => Ret (Ok tt)
  | a :: l => f a ≫= λ r, match r with Panic => Ret Panic | _ => all_ignored f l end
  end.

Definition fetch_outputs (rc : RunConfiguration) (trial : nat) (dir : string) (v : VM) : prog (res unit) :=
  let out := Join [dir; outDir] in
  let^ _ := all_ignored (λ o, CopyFilesFromVM v o (out +:+ "/")) (Outputs rc) in
  let^ _ := CopyFilesFromVM v timeFile (out +:+ "/") in
  let^ _ := CopyFilesFromVM v logFile (out +:+ "/") in
  gcs_Copy (out +:+ "/*") (bucket rc +:+ "/" +:+ Itoa (Z.of_nat trial)).

Definition downloadOutputs (trial : nat) : phase :=
  runOnConfigs (λ rc s, with_vm rc (fetch_outputs rc trial (dir_of rc s)) s).

Definition tear_down (rc : RunConfiguration) (v : VM) : prog (res unit) :=
  let^ _ := RunCommand v [Sudo v "rm"; logFile; "&&"; Sudo v "rm"; timeFile] in
  in_turn (λ cmd, discard (RunCommand v cmd)) (TeardownCommands rc).

Definition tearDown : phase := runOnConfigs (λ rc, with_vm rc (tear_down rc)).

Definition removeAll (p : string) : prog (res unit) := call (RemoveAll p) ≫= λ r, Ret (checked r).

Definition dirs (s : state) : list string := omap (λ n, tmpDir s !! n) (order (names (tmpDir s))).

Definition cleanOutDirs : phase :=
  reading (λ s, in_turn (λ d, let od := Join [d; outDir] in let^ _ := removeAll od in mkdir od) (dirs s)).

(** *** The whole *)

Definition trial (i : nat) : phase :=
  then_ runBuilds (then_ (downloadOutputs i) (then_ tearDown cleanOutDirs)).

Definition body : phase :=
  then_ prepRCs (then_ startVMs (then_ copyInputs (then_ downloadReclient (then_ runSetup
    (for_all trial (seq 0 (num_trials e))))))).

Definition machines (s : state) : list VM := omap (λ n, vms s !! n) (order (names (vms s))).

(** Errors of the cleanup are dropped. *)
Definition cleanup (s : state) : prog (res unit) :=
  let^ _ := all_ignored (λ v, discard (Delete v false)) (machines s) in
  all_ignored removeAll (dirs s).

(** A machine that is not known is a nil pointer, whose name is asked for. *)
Definition tryDownloadLogFiles : phase :=
  runOnConfigs (λ rc s, match vms s !! rc_Name rc with
    | Some v => CopyFilesFromVM v logFile (Join [dir_of rc s; "exp.log"]) ≫= λ r,
                Ret (match r with Panic => Panic | _ => Ok tt end, s)
    | None => Ret (Panic, s)
    end).

(** [log.Fatal] and a panic end the process there. *)
Definition Run : prog (res unit) :=
  body initial ≫= λ r,
  match r.1 with
  | Ok _ => cleanup r.2 ≫= λ c, Ret (match c with Panic => Panic | _ => Ok tt end)
  | Fail err => tryDownloadLogFiles r.2 ≫= λ t, Ret (match t.1 with Panic => Panic | _ => Fail err end)
  | Panic => Ret Panic
  end.

End run.

(** ** Environments *)

Definition value_of (l : list Environment) (k : string) : option string :=
  last (omap (λ e, if (Key e =? k)%string then Some (Value e) else None) l).

Lemma value_of_snoc l e k : value_of (l ++ [e]) k = if (Key e =? k)%string then Some (Value e) else value_of l k.
Proof. unfold value_of. rewrite omap_app, last_app. simpl. by destruct (_ =? k)%string. Qed.

Lemma value_of_set r l k :
  value_of (set_value r <$> l) k =
  if (Key r =? k)%string then (if existsb (λ b, (Key b =? Key r)%string) l then Some (Value r) else None) else value_of l k.
Proof.
  induction l as [|e l IH] using rev_ind; [by destruct (_ =? k)%string|].
  rewrite fmap_app, existsb_app. simpl. rewrite !value_of_snoc, IH. unfold set_value.
  destruct (String.eqb_spec (Key r) k) as [->|Hr].
  - destruct (Key e =? k)%string eqn:Ee; simpl; rewrite ?Ee, ?orb_true_r, ?orb_false_r; done.
  - destruct (String.eqb_spec (Key e) (Key r)) as [E|]; simpl; [|done]. by rewrite E, (proj2 (String.eqb_neq _ _) Hr).
Qed.

Lemma merge_step_value l r k :
  value_of (merge_step l r) k = if (Key r =? k)%string then Some (Value r) else value_of l k.
Proof.
  unfold merge_step. destruct (existsb _ l) eqn:E.
  - rewrite value_of_set, E. done.
  - rewrite value_of_snoc, value_of_set, E. by destruct (_ =? k)%string.
Qed.

(** A variable has the value that the run gives it, where it does, and that of the
    base otherwise; a later setting of a name counts. *)
Theorem mergeEnvironments_value base run k :
  value_of (mergeEnvironments base run) k = match value_of run k with Some v => Some v | None => value_of base k end.
Proof.
  assert (∀ base, value_of (foldl merge_step base run) k =
    match value_of run k with Some v => Some v | None => value_of base k end) as H.
  { intros b. induction run as [|r run IH] using rev_ind; [done|].
    rewrite foldl_snoc, merge_step_value, value_of_snoc. by destruct (_ =? k)%string. }
  destruct run as [|r run], base as [|b base]; try apply H; cbn [mergeEnvironments]; by destruct (value_of (r :: run) k).
Qed.

(** ** Phases that make no machines *)

Definition preserves (R : state → state → Prop) (p : phase) : Prop :=
  ∀ s, all_calls quiet (p s) ∧ all_rets (λ r, R s r.2) (p s).

Section preserves.

Context (R : state → state → Prop) `{!Reflexive R, !Transitive R}.

Lemma preserves_then p q : preserves R p → preserves R q → preserves R (then_ p q).
Proof.
  intros Hp Hq s. destruct (Hp s) as [H1 H2]. split.
  - apply all_calls_bind; [done|]. intros [[a|err|] s']; [apply Hq|done..].
  - eapply all_rets_bind; [exact H2|]. intros [[a|err|] s'] Hr; simpl in *; [|done..].
    destruct (Hq s') as [_ H]. revert H. generalize (q s') as x. intros x.
    induction x as [a'|c k IH]; simpl; [by etransitivity|]. intros H y. by apply IH.
Qed.

Lemma preserves_for_all {A} (f : A → phase) l : (∀ a, a ∈ l → preserves R (f a)) → preserves R (for_all f l).
Proof.
  induction l as [|a l IH]; intros H; [by intros s; split; [done|simpl]|].
  apply preserves_then; [apply H; by left|]. apply IH. intros. apply H. by right.
Qed.

Lemma preserves_on_each f rcs : (∀ rc, preserves R (f rc)) → preserves R (on_each f rcs).
Proof.
  intros Hf. induction rcs as [|rc rcs IH]; [by intros s; split; [done|simpl]|]. intros s. destruct (Hf rc s) as [H1 H2]. simpl. split.
  - apply all_calls_bind; [done|]. intros [[a|err|] s']; try done; (apply all_calls_bind; [apply IH|done]).
  - eapply all_rets_bind; [exact H2|]. intros [r s'] Hr. simpl in Hr.
    assert (all_rets (λ r, R s r.2) (on_each f rcs s' ≫= λ r', Ret (first_error r r'.1, r'.2))) as H.
    { eapply all_rets_bind; [apply IH|]. intros r' H'. simpl. by etransitivity. }
    by destruct r.
Qed.

Lemma preserves_on_configs order f : (∀ rc, preserves R (f rc)) → preserves R (runOnConfigs order f).
Proof. intros H s. by apply preserves_on_each. Qed.

Lemma preserves_on_maps order f : (∀ rc, preserves R (f rc)) → preserves R (on_maps order f).
Proof. intros H s. by apply preserves_for_all. Qed.

Lemma preserves_reading p : (∀ s, all_calls quiet (p s)) → preserves R (reading p).
Proof.
  intros H s. split; [apply all_calls_bind; [apply H|done]|].
  eapply (all_rets_bind (λ _, True)); [|by intros ? _; simpl]. generalize (p s). intros q. by induction q; simpl.
Qed.

Lemma preserves_with_vm rc f : (∀ v, all_calls quiet (f v)) → preserves R (with_vm rc f).
Proof. intros H. apply preserves_reading. intros s. by destruct (vms s !! rc_Name rc). Qed.

End preserves.

(** *** The programs of the phases *)

Lemma in_turn_quiet {A} (f : A → prog (res unit)) l : (∀ a, all_calls quiet (f a)) → all_calls quiet (in_turn f l).
Proof. intros H. induction l as [|a l IH]; [done|]. by apply all_calls_andthen. Qed.

Lemma all_ignored_calls {A} P (f : A → prog (res unit)) l : (∀ a, all_calls P (f a)) → all_calls P (all_ignored f l).
Proof. intros H. induction l as [|a l IH]; [done|]. apply all_calls_bind; [done|]. by intros [|?|]. Qed.

Lemma no_exec_quiet {A} c (k : answer c → prog A) :
  match c with Exec _ => False | _ => True end → (∀ x, all_calls quiet (k x)) → all_calls quiet (Call c k).
Proof. intros H Hk. split; [by apply quiet_no_exec|done]. Qed.

Lemma copy_input_quiet e rc v i : all_calls quiet (copy_input e rc v i).
Proof.
  unfold copy_input. destruct (VmDirect i); [apply CopyFilesToVM_quiet|]. apply all_calls_bind; [apply gcs_Copy_quiet|].
  intros _. apply all_calls_andthen; [|intros _; apply all_calls_discard, RunCommand_quiet].
  generalize 5 as n. intros n. induction n as [|n IH]; [done|]. apply all_calls_bind; [apply RunCommand_quiet|]. by intros [|?|].
Qed.

Lemma find_binaries_quiet l : all_calls quiet (find_binaries l).
Proof.
  induction l as [|bl l IH]; [done|]. apply no_exec_quiet; [done|]. intros [p|]; [|done]. by apply all_calls_andthen.
Qed.

Lemma copyReclientBinaries_quiet p d : all_calls quiet (copyReclientBinaries p d).
Proof.
  unfold copyReclientBinaries. case_if; [|apply gcs_Copy_quiet]. apply all_calls_andthen; [apply find_binaries_quiet|].
  intros ps. apply in_turn_quiet. intros a. apply gcs_Copy_quiet.
Qed.

Lemma install_quiet rc d v : all_calls quiet (install rc d v).
Proof.
  apply all_calls_andthen; [apply RunCommand_quiet|]. intros _. apply all_calls_andthen; [apply CopyFilesToVM_quiet|].
  intros _. apply all_calls_discard, RunCommand_quiet.
Qed.

Lemma run_script_quiet p v : all_calls quiet (run_script p v).
Proof.
  apply all_calls_andthen; [apply CopyFilesToVM_quiet|]. intros _. apply all_calls_andthen; [apply RunCommand_quiet|].
  intros _. apply all_calls_discard, RunCommand_quiet.
Qed.

Lemma fetch_outputs_quiet e rc n d v : all_calls quiet (fetch_outputs e rc n d v).
Proof.
  apply all_calls_andthen; [apply all_ignored_calls; intros o; apply CopyFilesFromVM_quiet|]. intros _.
  apply all_calls_andthen; [apply CopyFilesFromVM_quiet|]. intros _.
  apply all_calls_andthen; [apply CopyFilesFromVM_quiet|]. intros _. apply gcs_Copy_quiet.
Qed.

Lemma tear_down_quiet rc v : all_calls quiet (tear_down rc v).
Proof.
  apply all_calls_andthen; [apply RunCommand_quiet|]. intros _. apply in_turn_quiet. intros c.
  apply all_calls_discard, RunCommand_quiet.
Qed.

(** ** Machines are made by one phase *)

Definition same_machines (s s' : state) : Prop := vms s' = vms s ∧ runConfigs s' = runConfigs s.

#[local] Instance same_refl : Reflexive same_machines.
Proof. by intros s. Qed.
#[local] Instance same_trans : Transitive same_machines.
Proof. intros s1 s2 s3 [H1 H2] [H3 H4]. split; congruence. Qed.

(** A configuration is kept under its name. *)
Definition keyed (s : state) : Prop := ∀ n rc, runConfigs s !! n = Some rc → rc_Name rc = n.

Definition prepared (s s' : state) : Prop := vms s' = vms s ∧ (keyed s → keyed s').

#[local] Instance prepared_refl : Reflexive prepared.
Proof. by intros s. Qed.
#[local] Instance prepared_trans : Transitive prepared.
Proof. intros s1 s2 s3 [H1 H2] [H3 H4]. split; [congruence|auto]. Qed.

Lemma mkdir_quiet p : all_calls quiet (mkdir p).
Proof. by apply no_exec_quiet. Qed.

Lemma prep_one_preserves e rc i : preserves prepared (prep_one e rc i).
Proof.
  intros s. split.
  - apply no_exec_quiet; [done|]. intros [err|dest]; [done|]. destruct (applyConfig _ _) as [rc'|?|]; [|done..].
    apply all_calls_bind; [|done]. apply all_calls_andthen; [apply mkdir_quiet|]. intros _. apply mkdir_quiet.
  - intros [err|dest]; simpl; [done|]. destruct (applyConfig _ _) as [rc'|?|]; simpl; [|done..].
    assert (prepared s (with_config (rc_Name rc') dest rc' s)) as H.
    { split; [done|]. intros Hk n rc0. simpl. rewrite lookup_insert_Some. intros [[<- <-]|[_ Hn]]; [done|by apply Hk]. }
    intros [?|]; simpl; [exact H|]. by intros [?|].
Qed.

Lemma prepRCs_preserves e : preserves prepared (prepRCs e).
Proof.
  apply preserves_for_all; [apply _..|]. intros rc _. apply preserves_for_all; [apply _..|]. intros i _. apply prep_one_preserves.
Qed.

Lemma script_once_preserves old keep pattern text rc :
  (∀ n p s, same_machines s (keep n p s)) → preserves same_machines (script_once old keep pattern text rc).
Proof.
  intros Hk s. unfold script_once. destruct (old s !! rc_Name rc); [done|]. unfold write_script.
  destruct (text rc) as [t|err|]; [|done..]. split; [by apply no_exec_quiet|]. intros [err|p]; simpl; [done|apply Hk].
Qed.

Lemma runScripts_preserves order scripts : preserves same_machines (runScripts order scripts).
Proof.
  apply preserves_on_configs; [apply _..|]. intros rc s. apply (preserves_with_vm same_machines). intros v. apply run_script_quiet.
Qed.

(** What follows the start of the machines. *)
Definition rest (e : experiment) (order : list string → list string) : phase :=
  then_ (copyInputs e order) (then_ (downloadReclient order) (then_ (runSetup e order)
    (for_all (trial e order) (seq 0 (num_trials e))))).

Lemma trial_preserves e order i : preserves same_machines (trial e order i).
Proof.
  apply preserves_then; [apply _..| |apply preserves_then; [apply _..| |apply preserves_then; [apply _..| |]]].
  - apply preserves_then; [apply _..| |apply runScripts_preserves].
    apply preserves_on_maps; [apply _..|]. intros rc. by apply script_once_preserves.
  - apply preserves_on_configs; [apply _..|]. intros rc s. apply (preserves_with_vm same_machines). intros v. apply fetch_outputs_quiet.
  - apply preserves_on_configs; [apply _..|]. intros rc. apply preserves_with_vm; [apply _|]. intros v. apply tear_down_quiet.
  - apply preserves_reading; [apply _|]. intros s. apply in_turn_quiet. intros d.
    apply all_calls_andthen; [by apply no_exec_quiet|]. intros _. apply mkdir_quiet.
Qed.

Lemma rest_preserves e order : preserves same_machines (rest e order).
Proof.
  apply preserves_then; [apply _..| |apply preserves_then; [apply _..| |apply preserves_then; [apply _..| |]]].
  - apply preserves_on_configs; [apply _..|]. intros rc. apply preserves_with_vm; [apply _|]. intros v.
    apply in_turn_quiet. intros i. apply copy_input_quiet.
  - apply preserves_on_configs; [apply _..|]. intros rc s. unfold download_one. case_if; [done|].
    apply preserves_then; [apply _..| |].
    + apply preserves_reading; [apply _|]. intros s'. apply copyReclientBinaries_quiet.
    + apply preserves_with_vm; [apply _|]. intros v. apply install_quiet.
  - apply preserves_then; [apply _..| |apply runScripts_preserves].
    apply preserves_on_maps; [apply _..|]. intros rc. by apply script_once_preserves.
  - apply preserves_for_all; [apply _..|]. intros i _. apply trial_preserves.
Qed.

(** *** The start *)

(** A machine was created along the trace. *)
Definition created (tr : list (event answer)) (n : string) : Prop := ∃ ev, ev ∈ tr ∧ creates (ev_call ev) n.
Definition deleted (tr : list (event answer)) (n : string) : Prop := ∃ ev, ev ∈ tr ∧ deletes (ev_call ev) n.

Lemma created_app t1 t2 n : created (t1 ++ t2) n ↔ created t1 n ∨ created t2 n.
Proof. unfold created. setoid_rewrite elem_of_app. naive_solver. Qed.
Lemma deleted_app t1 t2 n : deleted (t1 ++ t2) n ↔ deleted t1 n ∨ deleted t2 n.
Proof. unfold deleted. setoid_rewrite elem_of_app. naive_solver. Qed.

Lemma quiet_trace {A} (p : prog A) tr a : all_calls quiet p → exec p tr a → ∀ n, ¬ created tr n ∧ ¬ deleted tr n.
Proof.
  intros Hp He n. pose proof (all_calls_exec _ _ _ _ Hp He) as H. rewrite Forall_forall in H.
  split; intros (ev & Hev & Hc); by destruct (H ev Hev n).
Qed.

(** The machine is one that is kept under the name of a configuration. *)
Definition kept (s : state) (k n : string) : Prop := ∃ v, vms s !! k = Some v ∧ name v = n ∧ IsVM v.

Lemma start_one_spec e rc s tr r :
  exec (start_one e rc s) tr r →
  (∀ k, k ≠ rc_Name rc → vms r.2 !! k = vms s !! k) ∧ runConfigs r.2 = runConfigs s ∧
  ∀ n, (created tr n → kept r.2 (rc_Name rc) n) ∧ ¬ deleted tr n.
Proof.
  unfold start_one. destruct (NewMachine _ _ _) as [v|err|] eqn:Ev.
  2, 3: intros [-> ->]; split_and!; try done; intros n; split; [intros (? & ?%elem_of_nil & _)|intros (? & ?%elem_of_nil & _)]; done.
  intros (c & t1 & t2 & -> & H1 & H2)%exec_bind.
  pose proof (all_calls_exec _ _ _ _ (CreateWithDisk_creates v) H1) as Hc. rewrite Forall_forall in Hc.
  pose proof (all_rets_exec _ _ _ _ (CreateWithDisk_same v) H1) as Hs.
  assert (∀ n, (created t1 n → n = name v ∧ IsVM v) ∧ ¬ deleted t1 n) as Hn.
  { intros n. split; intros (ev & Hev & He); by destruct (Hc ev Hev n) as [? ?]; auto. }
  destruct c as [v'|err|].
  2, 3: destruct H2 as [-> ->]; rewrite app_nil_r; simpl; split_and!; try done;
    [intros k Hk; by rewrite lookup_insert_ne|]; intros n; split; [|apply Hn]; intros [-> Hv]%Hn; exists v; simpl; by rewrite lookup_insert_eq.
  apply exec_bind in H2 as (m & u1 & u2 & -> & Hm & [-> ->]). rewrite app_nil_r. simpl. split_and!; [|done|].
  - intros k Hk. by rewrite !lookup_insert_ne.
  - intros n. destruct (quiet_trace _ _ _ (Mount_quiet v') Hm n) as [Q1 Q2]. destruct (Hn n) as [N1 N2]. split.
    + intros [[-> Hv]%N1|?]%created_app; [|done]. exists v'. simpl. rewrite lookup_insert_eq. destruct Hs as [Hs1 Hs2].
      split_and!; [done..|]. unfold IsVM in *. by rewrite Hs2.
    + by intros [?|?]%deleted_app.
Qed.

Lemma on_each_start e rcs : NoDup (rc_Name <$> rcs) → ∀ s tr r,
  exec (on_each (start_one e) rcs s) tr r →
  (∀ k, k ∉ rc_Name <$> rcs → vms r.2 !! k = vms s !! k) ∧ runConfigs r.2 = runConfigs s ∧
  ∀ n, (created tr n → ∃ k, kept r.2 k n) ∧ ¬ deleted tr n.
Proof.
  induction rcs as [|rc rcs IH]; simpl; intros Hnd s tr r.
  { intros [-> ->]. split_and!; [done..|]. intros n. split; by intros (? & ?%elem_of_nil & _). }
  apply NoDup_cons in Hnd as [Hni Hnd]. intros (r1 & t1 & t2 & -> & H1 & H2)%exec_bind.
  apply start_one_spec in H1 as (A1 & A2 & A3).
  assert (r1.1 = Panic ∧ t2 = [] ∧ r = r1 ∨ ∃ r2, exec (on_each (start_one e) rcs r1.2) t2 r2 ∧ r.2 = r2.2) as [(Hp & -> & ->)|(r2 & Hr2 & ->)].
  { destruct r1 as [[a|err|] s1]; simpl in H2 |- *; [right|right|left; by destruct H2];
      apply exec_bind in H2 as (r2 & u1 & u2 & -> & Hu & [-> ->]); rewrite app_nil_r; by exists r2. }
  - rewrite app_nil_r. split_and!; [intros k Hk; apply A1; set_solver|done|]. intros n. destruct (A3 n). eauto.
  - destruct (IH Hnd _ _ _ Hr2) as (B1 & B2 & B3). split_and!; [|congruence|].
    + intros k Hk. rewrite B1 by set_solver. apply A1. set_solver.
    + intros n. destruct (A3 n) as [A4 A5], (B3 n) as [B4 B5]. split.
      * intros [(v & Hv & Hv')%A4|?%B4]%created_app; [|done]. exists (rc_Name rc), v. by rewrite B1.
      * by intros [?|?]%deleted_app.
Qed.

Lemma keyed_NoDup s l : keyed s → NoDup l → NoDup (rc_Name <$> omap (λ n, runConfigs s !! n) l).
Proof.
  intros Hk. induction l as [|n l IH]; intros Hnd; [by apply NoDup_nil|]. apply NoDup_cons in Hnd as [Hn Hnd].
  csimpl. destruct (runConfigs s !! n) as [rc|] eqn:E; [|by apply IH]. csimpl. apply NoDup_cons. split; [|by apply IH].
  rewrite (Hk _ _ E). intros (rc' & Hn' & (m & Hm & Hrc)%list_elem_of_omap)%list_elem_of_fmap.
  apply Hk in Hrc. congruence.
Qed.

(** *** The end *)

Lemma all_ignored_exec {A} (f : A → prog (res unit)) l tr r :
  (∀ a, all_rets (λ r, r ≠ Panic) (f a)) → exec (all_ignored f l) tr r →
  r ≠ Panic ∧ ∀ a, a ∈ l → ∃ t ra, exec (f a) t ra ∧ ∀ ev, ev ∈ t → ev ∈ tr.
Proof.
  intros Hf. revert tr. induction l as [|a l IH]; intros tr; simpl.
  { intros [-> ->]. split; [done|]. by intros a ?%elem_of_nil. }
  intros (ra & t1 & t2 & -> & H1 & H2)%exec_bind. pose proof (all_rets_exec _ _ _ _ (Hf a) H1) as Hra.
  assert (exec (all_ignored f l) t2 r) as H by (by destruct ra). destruct (IH _ H) as [Hr Hl]. split; [done|].
  intros b [->|Hb]%elem_of_cons.
  - exists t1, ra. split; [done|]. intros ev Hev. apply elem_of_app. by left.
  - destruct (Hl b Hb) as (t & rb & He & Ht). exists t, rb. split; [done|]. intros ev Hev. apply elem_of_app. right. by apply Ht.
Qed.

Definition creates_none (c : syscall) : Prop := ∀ n, ¬ creates c n.

Lemma Delete_calls v : all_calls creates_none (discard (Delete v false)).
Proof.
  apply all_calls_discard. unfold Delete. destruct (machine v) as [s|]; [|done].
  apply all_calls_andthen; [|done]. apply all_calls_discard, all_calls_exec_or.
  intros n. unfold creates, machine_command. simpl. by intros (_ & _ & _ & ? & _).
Qed.

Lemma Delete_rets v : all_rets (λ r, r ≠ Panic) (discard (Delete v false)).
Proof. unfold Delete. destruct (machine v); [|done]. by intros []. Qed.

Lemma cleanup_spec order s tr r :
  (∀ l, order l ≡ₚ l) → exec (cleanup order s) tr r →
  r ≠ Panic ∧ ∀ n, ¬ created tr n ∧ ((∃ k, kept s k n) → deleted tr n).
Proof.
  intros Ho H.
  assert (all_calls creates_none (cleanup order s)) as Hc.
  { apply all_calls_andthen; [by apply all_ignored_calls; intros v; apply Delete_calls|]. intros _.
    apply all_ignored_calls. intros d. by split; [intros n []|]. }
  pose proof (all_calls_exec _ _ _ _ Hc H) as Hall. rewrite Forall_forall in Hall.
  apply exec_bind in H as (r1 & t1 & t2 & -> & H1 & H2). apply all_ignored_exec in H1 as [Hr1 H1]; [|apply Delete_rets].
  assert (r ≠ Panic) as Hr.
  { destruct r1 as [[]|err|]; [|destruct H2 as [_ ->]; done|done].
    apply all_ignored_exec in H2; [apply H2|]. intros d. by intros [?|]. }
  split; [done|]. intros n. split.
  - intros (ev & Hev & Hcr). by apply (Hall ev Hev n).
  - intros (k & v & Hv & <- & Hvm). apply deleted_app. left.
    destruct (H1 v) as (t & ra & He & Ht).
    { apply list_elem_of_omap. exists k. split; [|done]. rewrite Ho. apply list_elem_of_fmap. exists (k, v).
      split; [done|by apply elem_of_map_to_list]. }
    apply exec_bind in He as (rd & u1 & u2 & -> & Hd & _). apply (Delete_deletes v) in Hd; [|done].
    apply Exists_exists in Hd as (ev & Hev & Hdel). exists ev. split; [apply Ht, elem_of_app; by left|done].
Qed.

Lemma tryDownloadLogFiles_quiet order s : all_calls quiet (tryDownloadLogFiles order s).
Proof.
  assert (preserves (λ _ _, True) (tryDownloadLogFiles order)) as H; [|apply H].
  apply preserves_on_configs; [done|done|]. intros rc s'. split; destruct (vms s' !! rc_Name rc); try done.
  - apply all_calls_bind; [apply CopyFilesFromVM_quiet|done].
  - by intros [].
Qed.

(** What the body does to machines. *)
Lemma body_spec e order tr r :
  (∀ l, order l ≡ₚ l) → exec (body e order initial) tr r →
  ∀ n, (created tr n → ∃ k, kept r.2 k n) ∧ ¬ deleted tr n.
Proof.
  intros Ho H n. apply exec_bind in H as (r1 & t1 & t2 & -> & H1 & H2). destruct (prepRCs_preserves e initial) as [P1 P2].
  destruct (quiet_trace _ _ _ P1 H1 n) as [Q1 Q2]. apply (all_rets_exec _ _ _ _ P2) in H1 as [Hv1 Hk1].
  assert (keyed r1.2) as Hk by (by apply Hk1).
  destruct (decide (r1.1 = Ok tt)) as [E1|E1].
  2: { destruct r1 as [[[]|err|] s1]; [done| |]; destruct H2 as [-> ->]; rewrite app_nil_r; by split. }
  rewrite E1 in H2. apply exec_bind in H2 as (r2 & u1 & u2 & -> & H2 & H3).
  apply on_each_start in H2 as (_ & _ & H2).
  2: { apply keyed_NoDup; [done|]. rewrite Ho. apply NoDup_fst_map_to_list. }
  destruct (H2 n) as [S1 S2].
  assert ((¬ created u2 n ∧ ¬ deleted u2 n) ∧ vms r.2 = vms r2.2) as [[R1 R2] Hvms].
  { destruct (decide (r2.1 = Ok tt)) as [E2|E2].
    - rewrite E2 in H3. destruct (rest_preserves e order r2.2) as [P3 P4].
      split; [by eapply quiet_trace|]. apply (all_rets_exec _ _ _ _ P4 H3).
    - destruct r2 as [[[]|err|] s2]; [done| |]; destruct H3 as [-> ->]; (split; [|done]); split; by intros (? & ?%elem_of_nil & _). }
  rewrite !created_app, !deleted_app. split; [|tauto]. intros [?|[?|?]]; [done| |done].
  destruct (S1 H) as (k & v & Hv & Hv'). exists k, v. by rewrite Hvms.
Qed.

(** ** Properties *)


(** ** Examples *)

Module Concrete.

Definition machine_settings (size : string) (sudo : bool) (vm : bool) : settings :=
  if vm then VmSettings {| zone := "us-east1-a"; machine_type := "n1"; image := "ubuntu"; image_project := "p"; image_os := 0;
      creation_flags := []; system_disk_size := size; disk_image := "src"; disk_image_project := "p"; disk_type := "";
      ssh_key_path := ""; ssh_user := "user" |}
  else WsSettings {| address := "host"; ws_ssh_user := ""; ws_ssh_key_path := ""; use_sudo := sudo |}.

Definition configuration (n : string) (ms : option settings) (setup : list Command) : RunConfiguration := {|
  rc_Name := n; MachineSettings := ms; ReclientBinPath := ""; ReclientDestination := "/reclient"; NumMachines := 0;
  Inputs := []; SetupCommands := setup; PreBuildCommands := []; PostBuildCommands := [];
  EnvironmentVars := [{| Key := "A"; Value := n |}]; BuildCommand := Some ["make"; "all"]; Outputs := ["out.log"];
  TeardownCommands := [] |}.

Definition base : RunConfiguration := configuration "base" (Some (machine_settings "" false true)) [["apt"; "update"]].

Definition e : experiment := {|
  exp_name := "exp"; base_configuration := base; run_configurations := [configuration "fast_run" None []];
  num_trials := 2; baseDir := "/exp"; gcpProject := "proj"; date := "today"; resBucket := "results" |}.

(** Everything succeeds, but for the directories after the first [n]. *)
Definition world (c : syscall) (n : nat) : answer c * nat :=
  match c with
  | Exec _ => (inr "", n)
  | Sleep _ => (tt, n)
  | MkdirTemp p => match n with O => (inl (EMsg "no space"), O) | S n => (inr ("/tmp/" +:+ p), n) end
  | Mkdir _ | RemoveAll _ => (None, n)
  | FindBinary _ _ => (None, n)
  | ReadFile _ => (inr "", n)
  | CreateScript d p _ => (inr (d +:+ "/" +:+ p), n)
  end.

Definition outcome (e : experiment) (n : nat) : res unit := (run world (Run e id) n).1.1.

(** The commands of the machine, in order. *)
Definition commands (n : nat) : list (list string) :=
  omap (λ ev, match ev_call ev with Exec ("gcloud" :: "compute" :: _ :: args) => Some (take 3 args) | _ => None end)
    (run world (Run e id) n).1.2.

Example made_and_deleted :
  outcome e 1 = Ok tt ∧ head (commands 1) = Some ["instances"; "create"; "exp-today-fast-run-0"] ∧
  last (commands 1) = Some ["instances"; "delete"; "exp-today-fast-run-0"].
Proof. vm_compute. repeat split. Qed.

Definition two : experiment := {|
  exp_name := "exp"; base_configuration := base;
  run_configurations := [configuration "a" None []; configuration "b" None []];
  num_trials := 1; baseDir := "/exp"; gcpProject := "proj"; date := "today"; resBucket := "results" |}.

(** A failure before the machines are known ends in a nil pointer instead of in the
    error: the logs of all configurations are fetched. *)
Example early_failure_panics : outcome two 1 = Panic ∧ outcome two 0 = Fail (EMsg "no space").
Proof. vm_compute. split; reflexivity. Qed.

(** The run cannot set the size of the system disk, nor the use of sudo. *)
Example not_merged :
  MergeSettings (Some (machine_settings "10GB" false true)) (Some (machine_settings "99GB" false true)) =
    Ok (Some (machine_settings "10GB" false true)) ∧
  MergeSettings (Some (machine_settings "" false false)) (Some (machine_settings "" true false)) =
    Ok (Some (machine_settings "" false false)).
Proof. split; reflexivity. Qed.

(** Two changes of the user open two texts, of which one is closed. *)
Example one_end :
  su_end [["sudo"; "su"; "a"]; ["sudo"; "su"; "b"]] = "EOSU" +:+ nl ∧
  setup_args ["sudo"; "su"; "b"] = ["sudo"; "su"; "b"; "<<'EOSU'"].
Proof. split; reflexivity. Qed.

Example merged_environment :
  (λ rc, EnvironmentVars rc) <$> applyConfig base (configuration "r" None []) = Ok [{| Key := "A"; Value := "r" |}].
Proof. reflexivity. Qed.

Definition trace : list (event answer) := (run world (Run e id) 1).1.2.

End Concrete.


End Experiment.
