(* ===== verification/Results.v ===== *)
(** * The results of experiments: [experiments/internal/pkg/tabulator],
      [experiments/internal/pkg/perfgate], [experiments/internal/pkg/runner]

    The results that an experiment left in a bucket are read for a table, or
    handed to a program that compares them.  The upload of the table and the texts
    of protocol buffers are parameters. *)
From S2P Require Import Prelude GoStrings GoPath GoEffects Machines Experiment.
From Stdlib Require Import Ascii.
Import Filepath Effects Machines Experiment.

Module Results.

Section results.

Context {Stats : Type}.
(** [prototext.Unmarshal] *)
Variable unmarshal : string → option Stats.

Record ConfigurationResult := { cr_Name : string; Durations : list Z; cr_Stats : list Stats }.

Definition readFile (p : string) : prog (res string) :=
  call (ReadFile p) ≫= λ r, Ret (match r with inl e => Fail e | inr s => Ok s end).

(** A step of the loop over the trials that may skip the rest. *)
Definition or_continue {A B} (p : prog (res A)) (d : B) (k : A → prog B) : prog B :=
  p ≫= λ r, match r with Ok a => k a | _ => Ret d end.

Definition add_duration (d : Z) (cr : ConfigurationResult) : ConfigurationResult :=
  {| cr_Name := cr_Name cr; Durations := Durations cr ++ [d]; cr_Stats := cr_Stats cr |}.
Definition add_stats (st : Stats) (cr : ConfigurationResult) : ConfigurationResult :=
  {| cr_Name := cr_Name cr; Durations := Durations cr; cr_Stats := cr_Stats cr ++ [st] |}.

Definition parse_duration (dur : string) : res Z := ParseInt (Trim dur ("s" +:+ nl)) 10 64.

Definition read_trial (cr : ConfigurationResult) (t : string) : prog ConfigurationResult :=
  or_continue (gcs_Copy (t +:+ "time.txt") "/tmp/time.txt") cr (λ _,
  or_continue (readFile "/tmp/time.txt") cr (λ dur,
  match parse_duration dur with
  | Ok d =>
      let cr := add_duration d cr in
      or_continue (gcs_Copy (t +:+ "rbe_metrics.txt") "/tmp/rbe_metrics.txt") cr (λ _,
      or_continue (readFile "/tmp/rbe_metrics.txt") cr (λ data,
      Ret (match unmarshal data with Some st => add_stats st cr | None => cr end)))
  | _ => Ret cr
  end)).

Fixpoint read_trials (cr : ConfigurationResult) (trials : list string) : prog ConfigurationResult :=
  match trials with [] => Ret cr | t :: trials => read_trial cr t ≫= λ cr, read_trials cr trials end.

(** A list that cannot be had is empty. *)
Definition getConfig (path : string) : prog ConfigurationResult :=
  gcs_List path ≫= λ r,
  let trials := match r with Ok l => l | _ => [] end in
  read_trials {| cr_Name := Base path; Durations := []; cr_Stats := [] |} trials.

Record Table := { r_Name : string; ConfigUrl : string; ConfigResults : list ConfigurationResult }.

Fixpoint read_configs (exp : Table) (configs : list string) : prog Table :=
  match configs with
  | [] => Ret exp
  | c :: configs =>
      if HasSuffix c "textproto"
      then read_configs {| r_Name := r_Name exp; ConfigUrl := c; ConfigResults := ConfigResults exp |} configs
      else getConfig c ≫= λ cr,
           read_configs {| r_Name := r_Name exp; ConfigUrl := ConfigUrl exp; ConfigResults := ConfigResults exp ++ [cr] |} configs
  end.

Definition location (resBucket expName : string) : string := "gs://" +:+ resBucket +:+ "/" +:+ expName.

(** [RunExperimentResultCollector]; [put] makes the client and the table, and
    uploads. *)
Definition RunExperimentResultCollector (put : Table → prog (res unit)) (resBucket expName : string) : prog (res unit) :=
  let^ configs := gcs_List (location resBucket expName) in
  read_configs {| r_Name := expName; ConfigUrl := ""; ConfigResults := [] |} configs ≫= put.

(** *** The comparison *)

Section perfgate.

Variables expDefPath perfgatePath benchmarkFile : string.

Definition uploadToPerfgate : prog unit :=
  call (Exec [perfgatePath; "--rbe_metric_file=/tmp/rbe_metrics.pb"; "--rbe_time_file=/tmp/time.txt";
    "--exp_def_path=" +:+ expDefPath; "--benchmark_path=" +:+ benchmarkFile]) ≫= λ _, Ret tt.

Definition upload_trial (t : string) : prog unit :=
  or_continue (gcs_Copy (t +:+ "rbe_metrics.pb") "/tmp/rbe_metrics.pb") tt (λ _,
  or_continue (gcs_Copy (t +:+ "time.txt") "/tmp/time.txt") tt (λ _, uploadToPerfgate)).

Fixpoint each {A} (f : A → prog unit) (l : list A) : prog unit :=
  match l with [] => Ret tt | a :: l => f a ≫= λ _, each f l end.

Definition downloadMetric (path : string) : prog unit :=
  gcs_List path ≫= λ r, each upload_trial (match r with Ok l => l | _ => [] end).

Definition RunUploader (resBucket expName : string) : prog (res unit) :=
  let^ configs := gcs_List (location resBucket expName) in
  each downloadMetric configs ≫= λ _, Ret (Ok tt).

End perfgate.

(** *** The runner

    [parse] reads the definition of an experiment; [now] is the text of the time. *)
Definition RunExperiment (order : list string → list string)
    (parse : string → option (list RunConfiguration * RunConfiguration * string * nat))
    (expDefPath dateSuffix now gcpProject resBucket : string) : prog (res string) :=
  let^ exp := readFile expDefPath in
  match parse exp with
  | None => fails "Failed to parse experiment definition file"
  | Some (runs, base, n, trials) =>
      let date := if (dateSuffix =? "")%string then now else dateSuffix in
      let expName := n +:+ "_" +:+ date in
      let^ _ := gcs_Copy expDefPath ("gs://" +:+ resBucket +:+ "/" +:+ expName +:+ "/") in
      let^ _ := Run {| exp_name := n; base_configuration := base; run_configurations := runs; num_trials := trials;
                       baseDir := Dir expDefPath; gcpProject := gcpProject; date := date; resBucket := resBucket |} order in
      Ret (Ok expName)
  end.

(** ** What a table holds *)

(** The results of the trials come in the order of the trials; each has a
    duration, and not more statistics than durations. *)
Definition grows (cr cr' : ConfigurationResult) : Prop :=
  cr_Name cr' = cr_Name cr ∧
  ∃ ds ss, Durations cr' = Durations cr ++ ds ∧ cr_Stats cr' = cr_Stats cr ++ ss ∧ length ss ≤ length ds.

Lemma results_grow_refl cr : grows cr cr.
Proof. split; [done|]. exists [], []. by rewrite !app_nil_r. Qed.

Lemma results_grow_trans cr1 cr2 cr3 : grows cr1 cr2 → grows cr2 cr3 → grows cr1 cr3.
Proof.
  intros [N1 (d1 & s1 & D1 & S1 & L1)] [N2 (d2 & s2 & D2 & S2 & L2)]. split; [congruence|].
  exists (d1 ++ d2), (s1 ++ s2). rewrite D2, D1, S2, S1, !app_assoc, !length_app. split_and!; [done..|lia].
Qed.

Lemma or_continue_rets {A B} (Q : B → Prop) (p : prog (res A)) d k :
  Q d → (∀ a, all_rets Q (k a)) → all_rets Q (or_continue p d k).
Proof.
  intros Hd Hk. eapply (all_rets_bind (λ _, True)); [|intros [a|?|] _; [apply Hk|done..]].
  induction p as [|c f IH]; simpl; auto.
Qed.

Lemma read_trial_grows cr t :
  all_rets (λ cr', grows cr cr' ∧ length (Durations cr') ≤ length (Durations cr) + 1) (read_trial cr t).
Proof.
  assert (grows cr cr ∧ length (Durations cr) ≤ length (Durations cr) + 1) as H by (split; [apply results_grow_refl|lia]).
  apply or_continue_rets; [done|]. intros _. apply or_continue_rets; [done|]. intros dur.
  destruct (parse_duration dur) as [d|?|]; [|done..].
  assert (grows cr (add_duration d cr) ∧ length (Durations (add_duration d cr)) ≤ length (Durations cr) + 1) as Hd.
  { split; [split; [done|]; exists [d], []; rewrite app_nil_r; simpl; auto|simpl; rewrite length_app; simpl; lia]. }
  apply or_continue_rets; [done|]. intros _. apply or_continue_rets; [done|]. intros data. simpl.
  destruct (unmarshal data) as [st|]; [|done]. split; [split; [done|]; exists [d], [st]; simpl; auto|simpl; rewrite length_app; simpl; lia].
Qed.

(** Every trial adds at most one duration, and statistics never outnumber the
    durations. *)
Theorem read_trials_spec trials : ∀ cr,
  all_rets (λ cr', grows cr cr' ∧ length (Durations cr') ≤ length (Durations cr) + length trials) (read_trials cr trials).
Proof.
  induction trials as [|t trials IH]; intros cr.
  { simpl. split; [apply results_grow_refl|lia]. }
  change (read_trials cr (t :: trials)) with (read_trial cr t ≫= λ cr, read_trials cr trials).
  eapply all_rets_bind; [apply read_trial_grows|]. intros cr1 [H1 L1].
  assert (∀ cr', grows cr1 cr' ∧ length (Durations cr') ≤ length (Durations cr1) + length trials →
    grows cr cr' ∧ length (Durations cr') ≤ length (Durations cr) + S (length trials)) as H.
  { intros cr' [G L]. split; [by eapply results_grow_trans|lia]. }
  specialize (IH cr1). revert IH. generalize (read_trials cr1 trials) as q. intros q.
  induction q as [a|c k IHq]; simpl; [apply H|]. intros Hk x. by apply IHq.
Qed.

End results.

(** *** Examples *)

Module Concrete.

(** Two trials, of which the first has no statistics. *)
Definition world (c : syscall) (n : nat) : answer c * nat :=
  match c with
  | Exec ["gcloud"; "storage"; "ls"; _] => (inr ("gs://b/e/1/" +:+ nl +:+ "gs://b/e/2/" +:+ nl), n)
  | Exec ["gcloud"; "storage"; "cp"; "gs://b/e/1/rbe_metrics.txt"; _] => (inl (EMsg "not found"), n)
  | Exec _ => (inr "", n)
  | ReadFile "/tmp/time.txt" => (inr ("12" +:+ Itoa (Z.of_nat n) +:+ "s" +:+ nl), S n)
  | ReadFile _ => (inr "stats", n)
  | Sleep _ => (tt, n)
  | MkdirTemp p => (inr p, n)
  | Mkdir _ | RemoveAll _ => (None, n)
  | FindBinary _ _ => (None, n)
  | CreateScript d p _ => (inr p, n)
  end.

(** The statistics do not say to which trial they belong. *)
Example shifted :
  let cr := (run world (getConfig Some "gs://b/e/") 0).1.1 in
  cr_Name cr = "e" ∧ Durations cr = [120; 121]%Z ∧ cr_Stats cr = ["stats"].
Proof. vm_compute. repeat split. Qed.

End Concrete.

End Results.
