(* ===== verification/Subprocess.v ===== *)
(** * Running commands: [internal/pkg/subprocess]

    A command is started and waited for; what it does is the answer of the
    environment.  The functions are programs over these calls.  The variant for
    Windows is left out. *)
From S2P Require Import Prelude GoStrings GoPath Command GoEffects.
Import Filepath Effects.

Module Subprocess.

(** An [exec.Cmd]: without an environment of its own it has that of the process. *)
Record Cmd := { Path : string; CmdArgs : list string; Dir : string; Env : option (list string) }.

(** How a command ended: with an exit code, -1 for a signal, or with an error that
    is no exit, of a context that ended or of its output. *)
Inductive wait_result := Exited (code : Z) | WaitFailed (e : error).

Record finished := { Stdout : string; Stderr : string; Waited : wait_result }.

(** [os.FindProcess], and the signal 0. *)
Inductive call := Start (c : Cmd) | Wait | WriteOut (b : string) | WriteErr (b : string) | FindProcess (pid : Z) | Signal0.

Definition answer (c : call) : Type :=
  match c with
  | Start _ | FindProcess _ | Signal0 => option error
  | Wait => finished
  | WriteOut _ | WriteErr _ => unit
  end.

Notation prog := (prog answer).

(** The error of a command: nil after exit code zero. *)
Inductive cmd_error := ExitError (code : Z) | OtherError (e : error).

Definition wait_error (w : wait_result) : option cmd_error :=
  match w with
  | Exited c => if (c =? 0)%Z then None else Some (ExitError c)
  | WaitFailed e => Some (OtherError e)
  end.

Section subprocess.

(** The order in which Go ranges over a map. *)
Variable order : gmap string string → list (string * string).

Definition envVarList (envVars : gmap string string) : list string := (λ kv, kv.1 +:+ "=" +:+ kv.2) <$> order envVars.

(** [env] tells whether the map of variables is there: without one the command has
    no environment of its own. *)
Definition setupCommand (cmd : Command) (env : bool) : option Cmd :=
  match Args cmd with
  | [] => None
  | a :: args =>
      Some {| Path := a; CmdArgs := args; Dir := Join [ExecRoot cmd; WorkingDir cmd]; 
              Env := sp ← cmd_InputSpec cmd; if env then Some (envVarList (EnvironmentVariables sp)) else None |}
  end.

Definition no_args : cmd_error := OtherError (EMsg "command must have more than 1 argument").

(** [Run]: a command that does not start has no output. *)
Definition Execute (cmd : Command) (env : bool) : prog (string * string * option cmd_error) :=
  match setupCommand cmd env with
  | None => Ret ("", "", Some no_args)
  | Some c =>
      Effects.call (Start c) ≫= λ e,
      match e with
      | Some e => Ret ("", "", Some (OtherError e))
      | None => Effects.call Wait ≫= λ f, Ret (Stdout f, Stderr f, wait_error (Waited f))
      end
  end.

(** What both of the others do after the start. *)
Definition wait_and_write : prog (option cmd_error) :=
  Effects.call Wait ≫= λ f,
  Effects.call (WriteOut (Stdout f)) ≫= λ _, Effects.call (WriteErr (Stderr f)) ≫= λ _, Ret (wait_error (Waited f)).

Definition ExecuteWithOutErr (cmd : Command) (env : bool) : prog (option cmd_error) :=
  match setupCommand cmd env with
  | None => Ret (Some no_args)
  | Some c =>
      Effects.call (Start c) ≫= λ e,
      match e with Some e => Ret (Some (OtherError e)) | None => wait_and_write end
  end.

Context {Sdk : SDK}.

(** [err] is the message of an error. *)
Definition background_result (to_error : cmd_error → error) (err : option cmd_error) : Result :=
  let exitCode := match err with Some (ExitError c) => c | _ => 0%Z end in
  match err with
  | Some e => if (exitCode =? 0)%Z then NewLocalErrorResult (to_error e) else NewResultFromExitCode exitCode
  | None => NewResultFromExitCode exitCode
  end.

(** The result goes to the channel; an error is returned instead of it. *)
Definition ExecuteInBackground (to_error : cmd_error → error) (cmd : Command) (env : bool)
    : prog (cmd_error + Result) :=
  match setupCommand cmd env with
  | None => Ret (inl no_args)
  | Some c =>
      Effects.call (Start c) ≫= λ e,
      match e with
      | Some e => Ret (inl (OtherError e))
      | None => wait_and_write ≫= λ err, Ret (inr (background_result to_error err))
      end
  end.

(** Any error of the signal means that there is no such process. *)
Definition Exists (pid : Z) : prog (bool * option error) :=
  Effects.call (FindProcess pid) ≫= λ e,
  match e with
  | Some e => Ret (false, Some e)
  | None => Effects.call Signal0 ≫= λ e, Ret (match e with None => true | Some _ => false end, None)
  end.

(** ** Properties *)

(** What a finished command did. *)
Definition end_of (tr : list (event answer)) (f : finished) : Prop :=
  ∃ c, tr = [Event (Start c) None; Event Wait f; Event (WriteOut (Stdout f)) tt; Event (WriteErr (Stderr f)) tt].

(** In the background, the command is started once and waited for, its output is
    handed on before its result, and the result is ok when and only when it exited
    with code zero; without a result, it was not started or could not be. *)
Theorem ExecuteInBackground_spec `{!SDKLaws} to_error cmd env tr r :
  exec (ExecuteInBackground to_error cmd env) tr r →
  match r with
  | inr res => ∃ f, end_of tr f ∧ (IsOk res = true ↔ Waited f = Exited 0)
  | inl _ => Args cmd = [] ∧ tr = [] ∨ ∃ c e, tr = [Event (Start c) (Some e)]
  end.
Proof.
  unfold ExecuteInBackground, setupCommand. destruct (Args cmd) as [|a args] eqn:Ea.
  { intros [-> ->]. by left. }
  intros (e & t1 & t2 & -> & (x & t0 & -> & -> & ->) & He)%exec_bind. destruct x as [e|].
  { destruct He as [-> ->]. right. by eexists _, e. }
  unfold wait_and_write in He. apply exec_bind in He as (err & t3 & t4 & -> & He & [-> ->]).
  apply exec_bind in He as (f & t5 & t6 & -> & (x & t0 & -> & -> & ->) & He).
  apply exec_bind in He as (u & t7 & t8 & -> & ([] & u7 & -> & -> & ->) & He).
  apply exec_bind in He as (u & t9 & t10 & -> & ([] & u9 & -> & -> & ->) & [-> ->]).
  exists x. split; [by eexists|].
  unfold background_result, wait_error. destruct (Waited x) as [c|e]; [destruct (Z.eqb_spec c 0) as [->|Hc]|]; simpl.
  - rewrite exit_ok. done.
  - rewrite (proj2 (Z.eqb_neq _ _) Hc), exit_ok, bool_decide_eq_true. split; [done|]. by intros [= ->].
  - rewrite local_error_not_ok. done.
Qed.

(** The variables of a command are those that it was given, each once. *)
Lemma envVarList_spec env s :
  (∀ m, order m ≡ₚ map_to_list m) → s ∈ envVarList env ↔ ∃ k v, env !! k = Some v ∧ s = k +:+ "=" +:+ v.
Proof.
  intros Ho. unfold envVarList. rewrite list_elem_of_fmap. split.
  - intros ([k v] & -> & H). rewrite Ho in H. apply elem_of_map_to_list in H. eauto.
  - intros (k & v & H & ->). exists (k, v). split; [done|]. rewrite Ho. by apply elem_of_map_to_list.
Qed.

End subprocess.

(** *** Examples *)

Module Concrete.

Definition cmd (args : list string) : Command := {|
  Args := args; ExecRoot := "/root"; WorkingDir := "out"; RemoteWorkingDir := "";
  cmd_InputSpec := Some {| Inputs := []; VirtualInputs := []; InputExclusions := []; EnvironmentVariables := {["PATH" := "/bin"]} |};
  OutputFiles := []; OutputDirs := []; Platform := ∅;
  cmd_Identifiers := {| CommandID := ""; InvocationID := ""; ToolName := ""; ToolVersion := ""; ExecutionID := "e" |} |}.

(** A command that a signal ends, and the environment. *)
Definition world (w : wait_result) (c : call) (s : unit) : answer c * unit :=
  match c with
  | Start _ | FindProcess _ => (None, s)
  | Signal0 => (Some (EMsg "no such process"), s)
  | Wait => ({| Stdout := "out"; Stderr := ""; Waited := w |}, s)
  | WriteOut _ | WriteErr _ => (tt, s)
  end.

Example killed :
  (run (world (Exited (-1))) (ExecuteInBackground (Sdk := sdk_example) map_to_list (λ _, EMsg "killed") (cmd ["a"; "b"]) false) tt).1.1 =
  inr (NewResultFromExitCode (SDK := sdk_example) (-1)).
Proof. reflexivity. Qed.

Example set_up :
  setupCommand map_to_list (cmd ["a"; "b"]) true =
  Some {| Path := "a"; CmdArgs := ["b"]; Dir := "/root/out"; Env := Some ["PATH=/bin"] |}.
Proof. vm_compute. reflexivity. Qed.

Example gone : (run (world (Exited 0)) (Exists 7) tt).1.1 = (false, None).
Proof. reflexivity. Qed.

End Concrete.

End Subprocess.
