(* ===== verification/Tools.v ===== *)
(** * Tools around the logs: [cmd/dumpstats], [cmd/logdump], [cmd/reclientreport]

    The small programs that read the logs of a proxy, write what they found, or
    collect the logs for a report; the last waits for the proxy first, with a
    goroutine that polls for its end ([internal/pkg/reproxypid]). *)
From S2P Require Import Prelude GoStrings GoPath GoFS Logger LogFile StatsOut CollectLogs.
Import Filepath.

Module Tools.

Section tools.

Context {R P : Type}.
Variable Unmarshal : string → res (LogFile.LogRecord R).
Variable UnmarshalInfo : string → res LogFile.ProxyInfo.

(** The flags of a tool that reads logs. *)
Record flags := { proxyLogDir : list string; logFormat : string; logPath : string; outputDir : string }.

(** What both tools refuse; [log.Fatal] is an error that ends the process. *)
Definition check_flags (fl : flags) : res unit :=
  if (logPath fl =? "")%string && bool_decide (proxyLogDir fl = []) then Fail (EMsg "Must provide proxy log path.")
  else if (outputDir fl =? "")%string then Fail (EMsg "Must provide an output directory.") else Ok tt.

(** [dumpstats]: an error of the logs is not fatal, there are no records then. *)
Definition dump_records (w : fs) (fl : flags) : option (list (LogFile.LogRecord R) * list LogFile.ProxyInfo) :=
  if bool_decide (proxyLogDir fl = []) then
    match LogFile.ParseFromFormatFile Unmarshal w (logPath fl) with Ok recs => Some (recs, []) | _ => None end
  else
    match Logger.ParseFormat (logFormat fl) with
    | Ok format => match LogFile.ParseFromLogDirs Unmarshal UnmarshalInfo w format (proxyLogDir fl) with Ok r => Some r | _ => None end
    | _ => None
    end.

(** [stats] makes the statistics of records and proxies; without records there are
    none. *)
Definition dumpstats_main (empty : P) (stats : list (LogFile.LogRecord R) * list LogFile.ProxyInfo → P)
    (Format : P → string) (Marshal : P → res string) (fl : flags) : ST fs unit := λ w,
  match check_flags fl with
  | Ok _ => StatsOut.WriteStats Format Marshal (match dump_records w fl with Some r => stats r | None => empty end) (outputDir fl) w
  | Fail e => (Fail e, w)
  | Panic => (Panic, w)
  end.

(** [logdump]: every error is fatal.  The log of a path is one whose format is
    given by a flag, so that the path has no format of its own. *)
Definition logdump_main (MarshalDump : list (LogFile.LogRecord R) → res string) (fl : flags) : ST fs unit := λ w,
  let out :=
    let? _ := check_flags fl in
    let? format := Logger.ParseFormat (logFormat fl) in
    let? recs := if bool_decide (proxyLogDir fl = []) then LogFile.ParseFromFile Unmarshal w (logPath fl)
                 else let? r := LogFile.ParseFromLogDirs Unmarshal UnmarshalInfo w format (proxyLogDir fl) in Ok r.1 in
    let? out := MarshalDump recs in
    OS.WriteFile w (Join [outputDir fl; "reproxy_log.pb"]) out in
  match out with Ok w' => (Ok tt, w') | Fail e => (Fail e, w) | Panic => (Panic, w) end.

End tools.

(** ** [reclientreport] *)

Definition unique_step (st : gset string * list string) (dir : string) : gset string * list string :=
  if bool_decide (dir ∈ st.1) || (dir =? "")%string then st else ({[dir]} ∪ st.1, st.2 ++ [dir]).

Definition uniqueDirs (dirs : list string) : list string := (foldl unique_step (∅, []) dirs).2.

(** The directories that are searched: those of the flag, the one of the log of this
    process, the output directory and the temporary one. *)
Definition report_dirs (proxyLogDir : list string) (log_dir outputDir tempDir : string) : list string :=
  uniqueDirs (proxyLogDir ++ [log_dir] ++ [outputDir] ++ [tempDir]).

(** [main] after the wait, whose error is only logged: the archive that it names,
    which is removed when the collection fails. *)
Definition report_main (f : fs) (createTemp : res string) (create : option error) (w : CollectLogs.write_errors)
    (proxyLogDir : list string) (log_dir outputDir tempDir logPath : string) : res (string * list (string * string)) :=
  let? logFileName := createTemp in
  match CollectLogs.CreateLogsArchive f create w (report_dirs proxyLogDir log_dir outputDir tempDir) logPath with
  | (None, members) => Ok (logFileName, members)
  | (Some e, _) => Fail e
  end.

Lemma unique_step_inv dirs :
  let st := foldl unique_step (∅, []) dirs in
  NoDup st.2 ∧ ∀ d, (d ∈ st.2 ↔ d ∈ dirs ∧ d ≠ "") ∧ (d ∈ st.1 ↔ d ∈ st.2).
Proof.
  induction dirs as [|dir dirs IH] using rev_ind; cbv zeta in *.
  { split; [by apply NoDup_nil|]. intros d. split; set_solver. }
  rewrite foldl_snoc. set (st := foldl _ _ dirs) in *. destruct IH as [Hnd IH]. unfold unique_step.
  destruct (bool_decide_reflect (dir ∈ st.1)) as [Hin|Hin]; simpl; [|destruct (String.eqb_spec dir "") as [->|Hne]]; simpl.
  - split; [done|]. intros d. rewrite elem_of_app, list_elem_of_singleton. split; [|apply IH].
    destruct (IH d) as [H1 _]. split; [set_solver|]. intros [[?| ->] ?]; [by apply H1|]. by apply (IH dir).
  - split; [done|]. intros d. rewrite elem_of_app, list_elem_of_singleton. split; [|apply IH].
    destruct (IH d) as [H1 _]. split; [set_solver|]. intros [[?| ->] ?]; [by apply H1|done].
  - split; [apply NoDup_app; split_and!; [done| |apply NoDup_singleton]|].
    + intros d Hd ->%list_elem_of_singleton. by apply Hin, IH.
    + intros d. destruct (IH d) as [H1 H2]. rewrite !elem_of_app, !list_elem_of_singleton, elem_of_union, elem_of_singleton. naive_solver.
Qed.

(** Every directory that is named is searched once, the empty name is none. *)
Theorem uniqueDirs_spec dirs : NoDup (uniqueDirs dirs) ∧ ∀ d, d ∈ uniqueDirs dirs ↔ d ∈ dirs ∧ d ≠ "".
Proof. destruct (unique_step_inv dirs) as [H1 H2]. split; [done|]. intros d. apply H2. Qed.

(** *** The wait for the proxy

    The goroutine that polls checks, sleeps, or offers what it found on a channel,
    which the caller closes when it returns; an offer on a closed channel is a
    panic. *)
Inductive poller := Polling | Sleeping | Offering (d : option error) | PollEnded.

Record wait_state := {
  pidFile : bool;
  alive : bool;
  ctxDone : bool;
  poll : poller;
  (** the result of [waitForReproxy] once it has returned: the channel is closed *)
  returned : option (option error)
}.

Inductive label := Die | Timeout | CheckFails (e : error) | CheckAlive | CheckDead | Tick | Stop | GetDead | GetDone.

Definition with_poll (s : wait_state) (p : poller) : wait_state :=
  {| pidFile := pidFile s; alive := alive s; ctxDone := ctxDone s; poll := p; returned := returned s |}.

(** The goroutine reaches its send: with the channel closed it panics. *)
Definition offer (s : wait_state) (file : bool) (d : option error) : res wait_state :=
  if returned s then Panic
  else Ok {| pidFile := file; alive := alive s; ctxDone := ctxDone s; poll := Offering d; returned := None |}.

(** The return closes the channel under a goroutine that waits to send. *)
Definition return_ (s : wait_state) (p : poller) (r : option error) : res wait_state :=
  match p with
  | Offering _ => Panic
  | _ => Ok {| pidFile := pidFile s; alive := alive s; ctxDone := ctxDone s; poll := p; returned := Some r |}
  end.

Definition step (s : wait_state) (l : label) : option (res wait_state) :=
  match l with
  | Die => if alive s then Some (Ok {| pidFile := pidFile s; alive := false; ctxDone := ctxDone s; poll := poll s; returned := returned s |}) else None
  | Timeout => if ctxDone s then None
               else Some (Ok {| pidFile := pidFile s; alive := alive s; ctxDone := true; poll := poll s; returned := returned s |})
  | CheckFails e => match poll s with Polling => Some (offer s (pidFile s) (Some e)) | _ => None end
  | CheckAlive => match poll s with Polling => if alive s then Some (Ok (with_poll s Sleeping)) else None | _ => None end
  | CheckDead => match poll s with Polling => if alive s then None else Some (offer s false None) | _ => None end
  | Tick => match poll s with Sleeping => Some (Ok (with_poll s Polling)) | _ => None end
  | Stop => match poll s with Sleeping => if ctxDone s then Some (Ok (with_poll s PollEnded)) else None | _ => None end
  | GetDead => match returned s, poll s with None, Offering d => Some (return_ s PollEnded d) | _, _ => None end
  | GetDone => match returned s with
               | None => if ctxDone s then Some (return_ s (poll s) (Some EDeadlineExceeded)) else None
               | Some _ => None
               end
  end.

Fixpoint steps (s : wait_state) (ls : list label) : option (res wait_state) :=
  match ls with
  | [] => Some (Ok s)
  | l :: ls => match step s l with Some (Ok s) => steps s ls | r => r end
  end.

Definition waiting (al : bool) : wait_state :=
  {| pidFile := true; alive := al; ctxDone := false; poll := Polling; returned := None |}.

(** A wait without an error has seen the end of the proxy, whose pid file is gone. *)
Definition wait_inv (s : wait_state) : Prop :=
  (poll s = Offering None → alive s = false ∧ pidFile s = false) ∧
  (returned s = Some None → alive s = false ∧ pidFile s = false) ∧
  (returned s ≠ None → ∀ d, poll s ≠ Offering d).

Lemma wait_step_inv s l s' : wait_inv s → step s l = Some (Ok s') → wait_inv s'.
Proof.
  intros (H1 & H2 & H3) E. destruct s as [file al dn p r]. unfold wait_inv. simpl in *.
  destruct l; simpl in E; unfold offer, return_, with_poll in E; simpl in E; repeat case_match; simplify_eq/=;
    split_and!; naive_solver.
Qed.

Theorem waitForReproxy_reports al ls s :
  steps (waiting al) ls = Some (Ok s) → returned s = Some None → alive s = false ∧ pidFile s = false.
Proof.
  assert (∀ ls s0, wait_inv s0 → steps s0 ls = Some (Ok s) → wait_inv s) as H.
  { clear ls. intros ls. induction ls as [|l ls IH]; simpl; intros s0 Hi E; [by injection E as <-|].
    destruct (step s0 l) as [[s1|e|]|] eqn:Es; [|done..]. eapply IH; [by eapply wait_step_inv|done]. }
  intros E Hr. destruct (H ls (waiting al)) as (_ & H2 & _); [split_and!; simpl; done|done|by apply H2].
Qed.

(** *** Examples *)

Module Concrete.

(** The proxy ends at the moment at which the time is over: the goroutine sends on
    the closed channel. *)
Example send_on_closed :
  steps (waiting true) [CheckAlive; Timeout; GetDone; Tick; Die; CheckDead] = Some Panic.
Proof. reflexivity. Qed.

Example closed_under_sender : steps (waiting true) [Die; Timeout; CheckDead; GetDone] = Some Panic.
Proof. reflexivity. Qed.

Example unique : report_dirs ["a"; "b"; "a"] "" "b" "/tmp" = ["a"; "b"; "/tmp"].
Proof. vm_compute. reflexivity. Qed.

End Concrete.

End Tools.
